(* ===== verification/_CoqProject ===== *)
-Q . S2P
Prelude.v
Async.v
Ghost.v
Counter.v
ContextQueue.v
ContextQueueInv.v
ContextQueueProps.v
ContextQueueLive.v
ProcedureCode.v
Convert.v
ConvertProps.v
Network.v
NetworkProps.v
SccMap.v
ContextManager.v
ContextManagerProps.v
ContextCalls.v
NgapMessages.v
NgapContext.v
Tokens.v
Limits.v
NgapEngine.v
NgapExample.v
NgSetupProps.v
EngineProps.v
EngineTermination.v
EngineInvariant.v
EngineRules.v
AmfSafety.v
NgapProps.v
TokenStore.v
TokenStoreProps.v
Bench.v
BenchProps.v
Http.v
HttpProps.v
Config.v
NrfClient.v
NfClients.v
App.v
Cli.v
Nas.v
SbiExample.v
ClientProps.v
NfClientsProps.v
NasProps.v
AppProps.v
PacketAnalysis.v
PacketProps.v
