(* ===== verification/Prelude.v ===== *)
(** * UnifyAir Core: a verification library

    UnifyAir Core is a 5G core in Rust. Its one network function is the AMF
    [omnipath], run by the command line [lightning-cli] and registered with an
    NRF through [utils/client]. gNBs connect to the AMF over SCTP and speak
    NGAP; inside, every connection, message and queue is a [tokio] task.

    Below, [app/] is [src/lightning-nf/omnipath/app/src/].

    ** How the program is modelled

    - A body that may panic returns an [outcome]; [Result] is Rust's. [bytes]
      are lists of numbers, strings included; machine integers are [Z] with the
      width written out where it matters ([wrap], [u8_sub], [u8_shl]).
    - [Async]: an [async fn] is a [prog], one step per access to shared state;
      [run] runs it alone, [pool_step] in any interleaving with other tasks, and
      [zoom] inside a larger state. The module also has step relations under a
      scheduler ([exec], [reachable]), rule induction for invariants
      ([preserves], [upholds], [invariant_reachable]), simulations, and
      termination by budgets ([pays]), bodies that work on a cell of their own
      ([works]). [Ghost] adds ghost tokens: what each task has in hand while an
      invariant of the shared state holds, which it may keep, which it must pass
      on or settle before it ends ([owns], [covers]).
    - Code outside the repository is a parameter: a type class of operations,
      and a class of laws where a theorem relies on documented behaviour
      ([SccHashMap]/[SccLaws], [NotifyOps]/[NotifyLaws], [HexCodec]/[HexLaws],
      [BitVecOps]/[BitVecLaws], [Sctp]/[FiniteStream]/[StreamLog],
      [Clap]/[ClapLaws], [DashMap]/[DashLaws], [HashIndex]/[HashIndexLaws]).
      Each class has an instance, used by the witnesses. A socket may have
      nothing to receive and no room to send: then the task is parked, and the
      peer's own acts ([peer_acts]) let it go on.

    ** The parts

    - [Counter]: [utils/counter], ids from wrapping atomics.
    - [ContextQueue]: [app/ngap/manager/context_queue.rs]. The state is the
      context, its lock, the queue, its mutex, the active flag, the oneshot
      channels and the program counter of every caller and processor.
      [ContextQueueInv] has its invariant, [ContextQueueProps] the refinement of
      a log of closures ([spec], [spec_step]) and linearizability,
      [ContextQueueLive] termination, the panic and the re-entrancy deadlock.
    - [ContextManager]: [app/ngap/manager/context_manager.rs], over [SccMap] and
      a heap of reference counts; [ContextManagerProps]. The manager sees a
      queue as an object that takes one call at a time ([call_queue]);
      [ContextCalls] puts the queue machine behind it.
    - [ProcedureCode], [Convert], [ConvertProps]: [app/ngap/procedure_code_enum.rs]
      and [app/utils/], the encodings shared by SBI and NGAP.
    - [Network], [NetworkProps]: [app/ngap/network/], the SCTP associations.
    - [NgapMessages]: [app/ngap/engine/interfaces.rs], [engine/utils.rs],
      [core/utils.rs]. [NgapContext]: the contexts of [app/context/] and the
      world the NGAP tasks share. [NgapEngine]: [app/ngap/core/] and
      [engine/controller.rs], up to [amf_step]: the accept loop, all tasks it
      leads to, the arriving connections, the peers and the shutdown as actors.
      [Limits]: [app/ngap/constants.rs]. [NgSetupProps], [NgapProps];
      [NgapExample] has the codec and the sockets of the witnesses. Of the whole
      AMF: [EngineProps], what every access keeps; [EngineTermination], what the
      tasks can still cost; [Tokens], what a task in the middle of a set-up, of a
      registration or of a message has in hand, and the invariant of one gNB's
      UEs; [EngineInvariant], the invariant of the world with all tokens;
      [EngineRules], one rule for every body, by which all keep it; [AmfSafety],
      what follows under every schedule.
    - [Nas], [NasProps]: [app/nas/], the GMM state machine.
    - [TokenStore], [TokenStoreProps]: [utils/client/src/token_store.rs].
    - [Bench]: [utils/client/benches/token_store_bench.rs], the benchmarks of the
      token store and of four alternatives; [BenchProps] has the interface
      between stores and workloads ([BenchLaws]) and an instance for each store.
    - [Http], [HttpProps]: [utils/client/src/lib.rs],
      [header_map_serializer.rs] and [content_type.rs]. [NrfClient],
      [ClientProps]: [nrf_client.rs], over the token store. [NfClients],
      [NfClientsProps]: [nf_clients/mod.rs], clients of peers that the NRF
      client discovers.
    - [Config]: [app/config/mod.rs] with the default configuration,
      [app/context/app_context.rs] with the global context, and [app/builder/].
      [App]: [nf-base] as a type class of what a network function promises the
      runner, [lightning-cli/src/nf_type.rs] over that class, and [app/lib.rs] as
      an instance of it. [AppProps]; [SbiExample] has the scripted NRF of the
      witnesses. [Cli]: [lightning-cli/src/app.rs] and [main.rs].
    - [PacketAnalysis], [PacketProps]: [src/tests/integration/src/], the harness
      and its packet analysis.

    ** What is shown

    - Queue: closures are applied one at a time, in the order in which they were
      queued, and each caller gets its own result; the concrete queue refines
      the log; every schedule ends with all callers served, if no closure panics
      or re-enters; and what happens when one does. Concurrent calls on the queue
      of a context do what as many calls of [with_context] do in sequence, so
      the manager's atomic view of a queue is justified.
    - NGAP: the decision of NG Setup on every request, the invariant of the AMF
      under every schedule: connections, gNBs and UEs filed under their own
      ids, every registered gNB sent its response, AMF UE ids distinct within a
      gNB; its termination on finitely many connections, messages and acts of
      peers (the measure is what the tasks, the spawned tasks, the unread
      messages, the peers and the coming connections can still cost), and that at
      rest a task waits for a message on its own connection, or to send on a
      connection whose peer takes no more, and for nothing else, and that every
      message read from a gNB has been settled or its answer is the one that
      waits; the answer to every other message, UE creation, and the races and
      leftovers that the code has.
    - Conversions: round trips, the PLMN codec equal to the digit coding of the
      NGAP specification on every input, the exact domain of the decoders, and
      the values on which a conversion is wrong.
    - Tables, stores and clients: the network's table, the context manager and
      the token store on every branch; that under any interleaving a token comes
      from a future given to [set] with its key; which readers of a token are
      left asleep by an update; the final effect of a failed token; request headers; how a client of a peer is made and used.
    - Application: start-up on every branch, into the engine's invariant, and
      the panic of anybody who asks for the global context before; that a
      run deregisters last, for any network function and signal; that a
      registration never changes the application's id; which command lines reach
      the AMF and which panic.
    - Integration tests: the IPv4 header parser against the encoding of the
      standard, and what the report of a capture counts.

    ** Bounds

    Attempts ([ng_setup_attempts], three) and reads ([get_loop], nine) are the
    code's own bounds. The endless loops of the NGAP tasks are one iteration
    that spawns the next, so they need none. [ngap_run n] is [n] turns of the
    accept loop inside [start], parked afterwards: a run that returns within [n]
    turns is the code's. Counters wrap at their width; where ids must be fresh,
    the hypothesis bounds the number of connections and of messages
    ([fits_counters]). Termination is for peers that act finitely often on their
    own and once more for each message they take ([FiniteStream]). The wait for the bridge has the code's thirty turns; a
    capture loop runs over the results that come before its time is over.

    ** What is not modelled

    The empty structs of [utils/client/src/nf_clients/amf/]; the parsing of
    arguments, which is [clap]'s; tracing and the runtime; the times that the
    benchmarks measure; docker and packet capture; configuration records nothing
    reads; the tables [_gnb_associations] and [_ue_ids], never used;
    [find_diff], a log line.
    Tracing calls and spans inside modelled bodies are left out, and so is the
    memory ordering of atomics, all of which are sequentially consistent or
    relaxed counters. *)

From stdpp Require Export base numbers list gmap strings.

#[global] Open Scope Z_scope.

(** ** Rust's [Result], and bodies that may panic *)

Inductive Result (A E : Type) : Type :=
| Ok (a : A)
| Err (e : E).
Arguments Ok {A E} a.
Arguments Err {A E} e.

Definition map_err {A E F : Type} (f : E -> F) (r : Result A E) : Result A F :=
  match r with
  | Ok a => Ok a
  | Err e => Err (f e)
  end.

Definition result_map {A B E : Type} (f : A -> B) (r : Result A E) : Result B E :=
  match r with
  | Ok a => Ok (f a)
  | Err e => Err e
  end.

Definition is_ok {A E : Type} (r : Result A E) : bool :=
  match r with
  | Ok _ => true
  | Err _ => false
  end.

(** [outcome A]: a Rust body returns a value or panics. *)
Inductive outcome (A : Type) : Type :=
| Returns (a : A)
| Panics.
Arguments Returns {A} a.
Arguments Panics {A}.

Definition outcome_bind {A B : Type} (m : outcome A) (k : A -> outcome B) : outcome B :=
  match m with
  | Returns a => k a
  | Panics => Panics
  end.

Definition unwrap {A E : Type} (r : Result A E) : outcome A :=
  match r with
  | Ok a => Returns a
  | Err _ => Panics
  end.

Definition unwrap_option {A : Type} (o : option A) : outcome A :=
  match o with
  | Some a => Returns a
  | None => Panics
  end.

Declare Scope rust_scope.
Delimit Scope rust_scope with rust.

(** [let! x := e in k]: evaluate [e], propagating a panic. *)
Notation "'let!' x ':=' e 'in' k" := (outcome_bind e (fun x => k))
  (at level 10, x pattern, e at level 100, k at level 200) : rust_scope.

(** [let? x := e in k]: the [?] operator on a [Result]. *)
Notation "'let?' x ':=' e 'in' k" :=
  (match e with Ok x => k | Err err => Err err end)
  (at level 10, x pattern, e at level 100, k at level 200) : rust_scope.

#[global] Open Scope rust_scope.

(** ** Machine integers *)

(** A value of an unsigned [w]-bit type. *)
Definition fits (w z : Z) : Prop := 0 <= z < 2 ^ w.

#[export] Instance fits_dec w z : Decision (fits w z).
Proof. unfold fits; apply _. Defined.

Definition wrap (w z : Z) : Z := z mod 2 ^ w.

(** [a - b] on [u8]: with overflow checks (debug profile) an underflow panics,
    without (release profile) it wraps. *)
Definition u8_sub (overflow_checks : bool) (a b : Z) : outcome Z :=
  if b <=? a then Returns (a - b)
  else if overflow_checks then Panics
  else Returns (wrap 8 (a - b)).

(** [a << n] on [u8] for a constant [n < 8]: the bits shifted out are lost. *)
Definition u8_shl (a n : Z) : Z := wrap 8 (Z.shiftl a n).

(** Indexing a slice: out of range panics. *)
Definition index {A : Type} (l : list A) (i : nat) : outcome A := unwrap_option (l !! i).

Create HintDb rust discriminated.
Create Rewrite HintDb rust.

Lemma wrap_fits w z : 0 <= w -> fits w (wrap w z).
Proof. intros. apply Z.mod_pos_bound. lia. Qed.

Lemma wrap_small w z : fits w z -> wrap w z = z.
Proof. apply Z.mod_small. Qed.

#[export] Hint Resolve wrap_fits : rust.
#[export] Hint Rewrite wrap_small using done : rust.

(** A decidable property of all numbers below a bound, by evaluation. *)
Definition check_below (n : nat) (P : Z -> bool) : bool :=
  forallb (fun i => P (Z.of_nat i)) (seq 0 n).

Lemma check_below_spec n P : check_below n P = true -> forall z, 0 <= z < Z.of_nat n -> P z = true.
Proof.
  intros H z Hz. unfold check_below in H. rewrite forallb_forall in H.
  rewrite <-(Z2Nat.id z) by lia. apply H, in_seq. lia.
Qed.

(** Two nibbles in one byte. *)
Lemma nibbles_pack hi lo : 0 <= hi < 16 -> 0 <= lo < 16 -> Z.lor (u8_shl hi 4) lo = 16 * hi + lo.
Proof.
  intros Hh Hl.
  assert (check_below 16 (fun h => check_below 16 (fun l =>
    Z.lor (u8_shl h 4) l =? 16 * h + l)) = true) as H by reflexivity.
  pose proof (check_below_spec _ _ H hi Hh) as H1. simpl in H1.
  by apply Z.eqb_eq, (check_below_spec _ _ H1 lo).
Qed.

Lemma nibble_low b : Z.land b 0x0F = b mod 16.
Proof. exact (Z.land_ones b 4 ltac:(lia)). Qed.

Lemma nibble_high b : Z.shiftr b 4 = b / 16.
Proof. exact (Z.shiftr_div_pow2 b 4 ltac:(lia)). Qed.

#[export] Hint Rewrite nibble_low nibble_high : rust.

(** ** Automation *)

(** Case analysis on every [match]/[if] of the goal, keeping equations. *)
Ltac case_all :=
  repeat (case_match; simplify_eq/=; try done).
