(* ===== verification/Async.v ===== *)
(** * Asynchronous code: schedulers, resumption programs and task pools

    [tokio] runs tasks on several threads, so between two accesses to shared
    state any other task may run. Two devices model this:
    - a machine is a function [step t s] that says what task [t] does next in
      shared state [s] ([None] when it is blocked or finished); an execution
      is the list of the tasks a scheduler picks;
    - a [prog] is the body of one [async fn], cut at its accesses to shared
      state; it runs alone ([run]) or in a pool of tasks ([pool_step]). *)

From S2P Require Import Prelude.

(** ** Machines *)

Section machine.
Context {Tid State : Type} (step : Tid -> State -> option State).

(** Run the tasks in the order the scheduler picks them. *)
Fixpoint exec (sched : list Tid) (s : State) : option State :=
  match sched with
  | [] => Some s
  | t :: sched =>
      match step t s with
      | Some s => exec sched s
      | None => None
      end
  end.

Definition reachable (s0 s : State) : Prop := exists sched, exec sched s0 = Some s.

(** No task can move. *)
Definition quiescent (s : State) : Prop := forall t, step t s = None.

(** One step of some task. *)
Definition steps_to (s s' : State) : Prop := exists t, step t s = Some s'.

(** No infinite execution starts in [s]. *)
Definition terminates (s : State) : Prop := Acc (fun s' s => steps_to s s') s.

Lemma exec_app sched1 sched2 s :
  exec (sched1 ++ sched2) s = exec sched1 s ≫= exec sched2.
Proof.
  revert s. induction sched1 as [|t sched1 IH]; intros s; simpl; [done|].
  destruct (step t s); simpl; auto.
Qed.

Lemma reachable_refl s : reachable s s.
Proof. by exists []. Qed.

Lemma reachable_trans s1 s2 s3 : reachable s1 s2 -> reachable s2 s3 -> reachable s1 s3.
Proof. intros [l1 H1] [l2 H2]. exists (l1 ++ l2). by rewrite exec_app, H1. Qed.

Lemma reachable_step s0 s t s' : reachable s0 s -> step t s = Some s' -> reachable s0 s'.
Proof.
  intros Hr Hs. eapply reachable_trans; [done|]. exists [t]. simpl. by rewrite Hs.
Qed.

(** What a concrete schedule reaches, by evaluation. *)
Lemma exec_reaches {B : Type} (f : State -> B) sched s0 v :
  f <$> exec sched s0 = Some v -> exists s, reachable s0 s /\ f s = v.
Proof.
  destruct (exec sched s0) as [s|] eqn:E; simpl; intros; simplify_eq.
  exists s. split; [by exists sched|done].
Qed.

(** A property of the first state that every step keeps holds at every
    reachable state. *)
Lemma invariant_reachable (I : State -> Prop) s0 s :
  I s0 -> (forall t s s', I s -> step t s = Some s' -> I s') -> reachable s0 s -> I s.
Proof.
  intros H0 Hstep [sched Hex]. revert s0 H0 Hex.
  induction sched as [|t sched IH]; intros s0 H0 Hex; simplify_eq/=; [done|].
  destruct (step t s0) as [s1|] eqn:E; [|done]. eauto.
Qed.

(** Without infinite executions a quiescent state is always reached. *)
Lemma terminates_quiescent s :
  (forall s, (exists t, is_Some (step t s)) \/ quiescent s) ->
  terminates s -> exists s', reachable s s' /\ quiescent s'.
Proof.
  intros Hdec Hterm. induction Hterm as [s _ IH].
  destruct (Hdec s) as [[t [s1 H1]]|Hq].
  - destruct (IH s1) as (s' & Hr & Hq); [by exists t|].
    exists s'. split; [|done]. eapply reachable_trans; [|done].
    exists [t]. simpl. by rewrite H1.
  - exists s. split; [apply reachable_refl|done].
Qed.
End machine.

(** A stuttering forward simulation: every concrete step is matched by zero or
    more abstract ones. *)
Section simulation.
Context {Tid State AState : Type} (step : Tid -> State -> option State).
Context (astep : AState -> AState -> Prop) (R : State -> AState -> Prop).
Hypothesis simulates : forall t s s' a,
  R s a -> step t s = Some s' -> exists a', rtc astep a a' /\ R s' a'.

Lemma simulation_exec s0 s a0 :
  reachable step s0 s -> R s0 a0 -> exists a, rtc astep a0 a /\ R s a.
Proof.
  intros Hr HR.
  eapply (invariant_reachable step (fun s => exists a, rtc astep a0 a /\ R s a));
    [|clear s0 s Hr HR|exact Hr].
  - exists a0. split; [apply rtc_refl|done].
  - intros t s s' (a & Ha & HR) Hs. destruct (simulates t s s' a HR Hs) as (a' & Ha' & HR').
    exists a'. split; [by etrans|done].
Qed.
End simulation.

(** ** Resumption programs *)

(** [prog S A]: the rest of an [async] body that returns an [A]. [Act f k] is
    one access to the shared state [S]; [f s = None] means that it is not ready
    yet (the task is parked). *)
Inductive prog (S A : Type) : Type :=
| Ret (a : A)
| Panic
| Act {X : Type} (f : S -> option (S * X)) (k : X -> prog S A).
Arguments Ret {S A} a.
Arguments Panic {S A}.
Arguments Act {S A X} f k.

Fixpoint prog_bind {S A B : Type} (m : prog S A) (k : A -> prog S B) : prog S B :=
  match m with
  | Ret a => k a
  | Panic => Panic
  | Act f g => Act f (fun x => prog_bind (g x) k)
  end.

Notation "'do!' x ':=' e 'in' k" := (prog_bind e (fun x => k))
  (at level 10, x pattern, e at level 100, k at level 200) : rust_scope.

(** [?] inside an [async] body that returns a [Result]. *)
Notation "'do?' x ':=' e 'in' k" :=
  (prog_bind e (fun r => match r with Ok x => k | Err err => Ret (Err err) end))
  (at level 10, x pattern, e at level 100, k at level 200) : rust_scope.

(** An access that is always ready. *)
Definition access {S X : Type} (f : S -> S * X) : prog S X :=
  Act (fun s => Some (f s)) Ret.

Definition read_state {S X : Type} (f : S -> X) : prog S X := access (fun s => (s, f s)).

Definition write_state {S : Type} (f : S -> S) : prog S unit := access (fun s => (f s, tt)).

(** Wait until [ready] gives a value. *)
Definition wait_for {S X : Type} (ready : S -> option X) : prog S X :=
  Act (fun s => (fun x => (s, x)) <$> ready s) Ret.

(** An [outcome] computed without touching shared state. *)
Definition lift_outcome {S A : Type} (o : outcome A) : prog S A :=
  match o with
  | Returns a => Ret a
  | Panics => Panic
  end.

(** A body that works on a part of the state. *)
Fixpoint zoom {S P A : Type} (get : S -> P) (set : P -> S -> S) (m : prog P A) : prog S A :=
  match m with
  | Ret a => Ret a
  | Panic => Panic
  | Act f k =>
      Act (fun s => (fun '(p, x) => (set p s, x)) <$> f (get s)) (fun x => zoom get set (k x))
  end.

Inductive run_result (S A : Type) : Type :=
| Finished (s : S) (a : A)
| Panicked (s : S)
| Parked (s : S).
Arguments Finished {S A} s a.
Arguments Panicked {S A} s.
Arguments Parked {S A} s.

(** Run a body with no other task interfering. *)
Fixpoint run {S A : Type} (m : prog S A) (s : S) : run_result S A :=
  match m with
  | Ret a => Finished s a
  | Panic => Panicked s
  | Act f k =>
      match f s with
      | Some (s, x) => run (k x) s
      | None => Parked s
      end
  end.

Lemma run_bind {S A B : Type} (m : prog S A) (k : A -> prog S B) s :
  run (prog_bind m k) s =
  match run m s with
  | Finished s a => run (k a) s
  | Panicked s => Panicked s
  | Parked s => Parked s
  end.
Proof.
  revert s. induction m as [a| |X f g IH]; intros s; simpl; [done..|].
  destruct (f s) as [[s' x]|]; [apply IH|done].
Qed.

Lemma run_read {S X : Type} (f : S -> X) s : run (read_state f) s = Finished s (f s).
Proof. done. Qed.

Lemma run_write {S : Type} (f : S -> S) s : run (write_state f) s = Finished (f s) tt.
Proof. done. Qed.

Lemma run_access {S X : Type} (f : S -> S * X) s :
  run (access f) s = Finished (f s).1 (f s).2.
Proof. unfold access; simpl. by destruct (f s). Qed.

(** Running on a part of the state, when [get] and [set] are a lens at [s]. *)
Lemma run_zoom {S P A : Type} (get : S -> P) (set : P -> S -> S) (m : prog P A) s :
  (forall p s, get (set p s) = p) -> (forall p q s, set p (set q s) = set p s) ->
  set (get s) s = s ->
  run (zoom get set m) s =
  match run m (get s) with
  | Finished p a => Finished (set p s) a
  | Panicked p => Panicked (set p s)
  | Parked p => Parked (set p s)
  end.
Proof.
  intros Hgs Hss. revert s. induction m as [a| |X f k IH]; intros s Hsg; simpl; [by rewrite Hsg..|].
  destruct (f (get s)) as [[p x]|]; simpl; [|by rewrite Hsg].
  rewrite IH, Hgs; [|by rewrite Hgs, Hss]. by destruct (run (k x) p); rewrite Hss.
Qed.

Create Rewrite HintDb run.
#[export] Hint Rewrite @run_bind @run_read @run_write @run_access : run.

(** ** Pools of tasks over one shared state *)

Definition task_step {S A : Type} (m : prog S A) (s : S) : option (prog S A * S) :=
  match m with
  | Ret _ => None
  | Panic => None
  | Act f k => (fun '(s, x) => (k x, s)) <$> f s
  end.

(** Task [i] of the pool performs its next access. *)
Definition pool_step {S A : Type} (i : nat) (c : list (prog S A) * S) :
    option (list (prog S A) * S) :=
  match c.1 !! i with
  | Some m => (fun '(m, s) => (<[i := m]> c.1, s)) <$> task_step m c.2
  | None => None
  end.

(** [n] consecutive accesses of one task. *)
Definition pool_run {S A : Type} (sched : list nat) (c : list (prog S A) * S) :
    option (list (prog S A) * S) :=
  exec pool_step sched c.

(** A task that is picked again and again does what its body does alone. *)
Lemma pool_alone {S A : Type} i (ts : list (prog S A)) (m : prog S A) s :
  ts !! i = Some m ->
  match run m s with
  | Finished s' a => exists n, pool_run (replicate n i) (ts, s) = Some (<[i := Ret a]> ts, s')
  | Panicked s' => exists n, pool_run (replicate n i) (ts, s) = Some (<[i := Panic]> ts, s')
  | Parked _ => True
  end.
Proof.
  revert ts s. induction m as [a| |X f k IH]; intros ts s Hi; simpl; [exists 0%nat; by rewrite list_insert_id..|].
  destruct (f s) as [[s1 x]|] eqn:Ef; [|done].
  assert (Hi1 : <[i := k x]> ts !! i = Some (k x)) by (apply list_lookup_insert_eq; by eapply lookup_lt_Some).
  specialize (IH x _ s1 Hi1).
  assert (Hstep : forall n c, pool_run (replicate n i) (<[i := k x]> ts, s1) = Some c ->
    pool_run (replicate (Datatypes.S n) i) (ts, s) = Some c).
  { intros n c E. unfold pool_run in *. simpl. unfold pool_step at 1. simpl. rewrite Hi. simpl. by rewrite Ef. }
  destruct (run (k x) s1) as [s2 a|s2|s2]; [..|done]; destruct IH as [n Hn]; rewrite list_insert_insert_eq in Hn;
    exists (Datatypes.S n); by apply Hstep.
Qed.

(** The same for the first part of a body. *)
Lemma pool_alone_bind {S A B : Type} i (ts : list (prog S B)) (m : prog S A) k s s' a :
  ts !! i = Some (prog_bind m k) -> run m s = Finished s' a ->
  exists n, pool_run (replicate n i) (ts, s) = Some (<[i := k a]> ts, s').
Proof.
  revert ts s. induction m as [b| |X f g IH]; intros ts s Hi Hr; simpl in *; simplify_eq.
  - exists 0%nat. by rewrite list_insert_id.
  - destruct (f s) as [[s1 x]|] eqn:Ef; [|done].
    destruct (IH x (<[i := prog_bind (g x) k]> ts) s1) as [n Hn]; [|done|].
    { apply list_lookup_insert_eq. by eapply lookup_lt_Some. }
    rewrite list_insert_insert_eq in Hn. exists (Datatypes.S n).
    unfold pool_run in *. simpl. unfold pool_step at 1. simpl. rewrite Hi. simpl. by rewrite Ef.
Qed.

(** Of two tasks, both do the first part of their bodies before either does the
    second. *)
Lemma pool_race {S A1 A2 B : Type} (m1 : prog S A1) (m2 : prog S A2) k1 k2 s s1 s2 s3 s4 a1 a2 (b : B) :
  run m1 s = Finished s1 a1 -> run m2 s1 = Finished s2 a2 ->
  run (k1 a1) s2 = Finished s3 b -> run (k2 a2) s3 = Panicked s4 ->
  exists sched, pool_run sched ([prog_bind m1 k1; prog_bind m2 k2], s) = Some ([Ret b; Panic], s4).
Proof.
  intros H1 H2 H3 H4.
  destruct (pool_alone_bind 0 [prog_bind m1 k1; prog_bind m2 k2] m1 k1 s s1 a1 eq_refl H1) as [n1 E1].
  destruct (pool_alone_bind 1 [k1 a1; prog_bind m2 k2] m2 k2 s1 s2 a2 eq_refl H2) as [n2 E2].
  pose proof (pool_alone 0 [k1 a1; k2 a2] (k1 a1) s2 eq_refl) as E3. rewrite H3 in E3. destruct E3 as [n3 E3].
  pose proof (pool_alone 1 [Ret b; k2 a2] (k2 a2) s3 eq_refl) as E4. rewrite H4 in E4. destruct E4 as [n4 E4].
  exists (replicate n1 0%nat ++ replicate n2 1%nat ++ replicate n3 0%nat ++ replicate n4 1%nat).
  unfold pool_run in *. rewrite !exec_app, E1. cbn [mbind option_bind]. rewrite exec_app.
  change (<[0%nat := k1 a1]> [prog_bind m1 k1; prog_bind m2 k2]) with [k1 a1; prog_bind m2 k2].
  rewrite E2. cbn [mbind option_bind]. rewrite exec_app.
  change (<[1%nat := k2 a2]> [k1 a1; prog_bind m2 k2]) with [k1 a1; k2 a2]. rewrite E3. cbn [mbind option_bind].
  exact E4.
Qed.

(** What a task has come to. *)
Inductive task_status (A : Type) : Type :=
| Running
| Returned (a : A)
| Died.
Arguments Running {A}.
Arguments Returned {A} a.
Arguments Died {A}.

Definition status {S A : Type} (m : prog S A) : task_status A :=
  match m with
  | Ret a => Returned a
  | Panic => Died
  | Act _ _ => Running
  end.

Definition statuses {S A : Type} (c : list (prog S A) * S) : list (task_status A) :=
  status <$> c.1.

(** ** Invariants of bodies and pools *)

(** Every access of the body keeps [I], whatever other tasks do in between. *)
Fixpoint preserves {S A : Type} (I : S -> Prop) (m : prog S A) : Prop :=
  match m with
  | Ret _ => True
  | Panic => True
  | Act f k => (forall s s' x, I s -> f s = Some (s', x) -> I s') /\ (forall x, preserves I (k x))
  end.

Lemma preserves_bind {S A B : Type} (I : S -> Prop) (m : prog S A) (k : A -> prog S B) :
  preserves I m -> (forall a, preserves I (k a)) -> preserves I (prog_bind m k).
Proof. induction m as [a| |X f g IH]; simpl; naive_solver. Qed.

Lemma preserves_access {S X : Type} (I : S -> Prop) (f : S -> S * X) :
  (forall s, I s -> I (f s).1) -> preserves I (access f).
Proof. intros Hf. split; [|done]. intros s s' x Hs [= E]. specialize (Hf s Hs). by rewrite E in Hf. Qed.

Lemma preserves_read {S X : Type} (I : S -> Prop) (f : S -> X) : preserves I (read_state f).
Proof. by apply preserves_access. Qed.

Lemma preserves_write {S : Type} (I : S -> Prop) (f : S -> S) :
  (forall s, I s -> I (f s)) -> preserves I (write_state f).
Proof. intros Hf. by apply preserves_access. Qed.

Lemma preserves_lift {S A : Type} (I : S -> Prop) (o : outcome A) : preserves I (lift_outcome o).
Proof. by destruct o. Qed.

Lemma preserves_zoom {S P A : Type} (I : S -> Prop) get (set : P -> S -> S) (m : prog P A) :
  (forall p s, I s -> I (set p s)) -> preserves I (zoom get set m).
Proof.
  intros Hset. induction m as [a| |X f k IH]; simpl; [done..|]. split; [|done].
  intros s s' x Hs E. destruct (f (get s)) as [[p y]|]; simplify_eq/=. auto.
Qed.

Lemma preserves_task_step {S A : Type} (I : S -> Prop) (m m' : prog S A) s s' :
  preserves I m -> task_step m s = Some (m', s') -> (I s -> I s') /\ preserves I m'.
Proof.
  destruct m as [a| |X f k]; simpl; try done. intros [Hf Hk] E.
  destruct (f s) as [[s2 x]|] eqn:Ef; simplify_eq/=. eauto.
Qed.

Lemma preserves_pool_step {S A : Type} (I : S -> Prop) i (c c' : list (prog S A) * S) :
  Forall (preserves I) c.1 -> pool_step i c = Some c' ->
  Forall (preserves I) c'.1 /\ (I c.2 -> I c'.2).
Proof.
  unfold pool_step. intros Hc E. destruct (c.1 !! i) as [m|] eqn:Em; [|done].
  destruct (task_step m c.2) as [[m' s']|] eqn:Et; simplify_eq/=.
  rewrite Forall_lookup in Hc.
  destruct (preserves_task_step I m m' _ _ (Hc i m Em) Et) as [H1 H2].
  split; [|done]. apply Forall_insert; [by apply Forall_lookup|done].
Qed.

Create HintDb preserve discriminated.
#[export] Hint Resolve preserves_bind preserves_read preserves_lift : preserve.

(** ** Budgets: how much a body can still do *)

(** Each access uses up some of the budget of the body and the potential [Φ] of
    the state: a body may raise the potential only out of its own budget. *)
Fixpoint pays {S A : Type} (Φ : S -> nat) (n : nat) (m : prog S A) : Prop :=
  match m with
  | Ret _ => True
  | Panic => True
  | Act f k => forall s s' x, f s = Some (s', x) ->
      exists n', (n' + Φ s' < n + Φ s)%nat /\ pays Φ n' (k x)
  end.

(** At most [n] accesses. *)
Notation accesses_below := (pays (fun _ => 0%nat)).

Lemma pays_le {S A : Type} (Φ : S -> nat) (n n' : nat) (m : prog S A) :
  pays Φ n m -> (n <= n')%nat -> pays Φ n' m.
Proof.
  intros Hm Hn. destruct m as [a| |X f k]; simpl in *; [done..|].
  intros s s' x E. destruct (Hm s s' x E) as (n0 & H0 & Hk). exists n0. split; [lia|done].
Qed.

Lemma pays_bind {S A B : Type} (Φ : S -> nat) (a b : nat) (m : prog S A) (k : A -> prog S B) :
  pays Φ a m -> (forall x, pays Φ b (k x)) -> pays Φ (a + b) (prog_bind m k).
Proof.
  intros Hm Hk. revert a Hm. induction m as [x| |X f g IH]; intros a Hm; simpl in *; [|done|].
  - eapply pays_le; [done|lia].
  - intros s s' x E. destruct (Hm s s' x E) as (n & Hn & Hg). exists (n + b)%nat. split; [lia|auto].
Qed.

(** The same with the whole budget given. *)
Lemma pays_split {S A B : Type} (Φ : S -> nat) (a n : nat) (m : prog S A) (k : A -> prog S B) :
  pays Φ a m -> (a <= n)%nat -> (forall x, pays Φ (n - a) (k x)) -> pays Φ n (prog_bind m k).
Proof. intros Hm Hn Hk. eapply pays_le; [by eapply pays_bind|lia]. Qed.

Lemma pays_access {S X : Type} (Φ : S -> nat) (n : nat) (f : S -> S * X) :
  (forall s, Φ (f s).1 < n + Φ s)%nat -> pays Φ n (access f).
Proof. intros Hf s s' x [= E]. exists 0%nat. specialize (Hf s). by rewrite E in Hf. Qed.

Lemma pays_read {S X : Type} (Φ : S -> nat) (f : S -> X) : pays Φ 1 (read_state f).
Proof. apply pays_access. simpl. lia. Qed.

Lemma pays_lift {S A : Type} (Φ : S -> nat) (o : outcome A) : pays Φ 0 (lift_outcome o).
Proof. by destruct o. Qed.

Lemma pays_zoom {S P A : Type} (Φ : S -> nat) get (set : P -> S -> S) (n : nat) (m : prog P A) :
  (forall p s, (Φ (set p s) <= Φ s)%nat) -> accesses_below n m -> pays Φ n (zoom get set m).
Proof.
  intros Hset. revert n. induction m as [a| |X f k IH]; intros n Hm; simpl in *; [done..|].
  intros s s' x E. destruct (f (get s)) as [[p y]|] eqn:Ef; simplify_eq/=.
  destruct (Hm _ _ _ Ef) as (n' & Hn & Hk). exists n'. specialize (Hset p s). split; [lia|auto].
Qed.

(** A step of a pool whose tasks have the budgets [bs]. *)
Lemma pays_pool_step {S A : Type} (Φ : S -> nat) i bs (c c' : list (prog S A) * S) :
  Forall2 (pays Φ) bs c.1 -> pool_step i c = Some c' ->
  exists bs', Forall2 (pays Φ) bs' c'.1 /\ (sum_list bs' + Φ c'.2 < sum_list bs + Φ c.2)%nat.
Proof.
  unfold pool_step. intros Hbs E. destruct (c.1 !! i) as [m|] eqn:Em; [|done].
  destruct m as [a| |X f k]; [done..|]. simpl in E.
  destruct (f c.2) as [[s' x]|] eqn:Ef; [|done]. simplify_eq/=.
  pose proof (Forall2_length _ _ _ Hbs) as Hlen.
  destruct (Forall2_lookup_r _ _ _ _ _ Hbs Em) as (b & Hb & Hm).
  destruct (Hm _ _ _ Ef) as (n & Hn & Hk). exists (<[i := n]> bs). split.
  - by apply Forall2_insert.
  - rewrite <-(take_drop_middle bs i b Hb) at 2. rewrite insert_take_drop.
    2: by eapply lookup_lt_Some. rewrite !sum_list_with_app. simpl. unfold id. lia.
Qed.

Create HintDb pays discriminated.
#[export] Hint Resolve pays_read pays_lift : pays.

(** ** Bodies that uphold an invariant and return what it promises *)

(** As long as [I] holds at each access, each access keeps it, and what is
    returned satisfies [Q]. What an access reads may be known from [I]. *)
Fixpoint upholds {S A : Type} (I : S -> Prop) (Q : A -> Prop) (m : prog S A) : Prop :=
  match m with
  | Ret a => Q a
  | Panic => True
  | Act f k => forall s s' x, I s -> f s = Some (s', x) -> I s' /\ upholds I Q (k x)
  end.

Lemma upholds_bind {S A B : Type} (I : S -> Prop) (P : A -> Prop) (Q : B -> Prop) (m : prog S A)
    (k : A -> prog S B) :
  upholds I P m -> (forall a, P a -> upholds I Q (k a)) -> upholds I Q (prog_bind m k).
Proof. induction m as [a| |X f g IH]; simpl; [auto|done|]. intros Hm Hk s s' x Hs E. naive_solver. Qed.

Lemma upholds_access {S X : Type} (I : S -> Prop) (Q : X -> Prop) (f : S -> S * X) :
  (forall s, I s -> I (f s).1 /\ Q (f s).2) -> upholds I Q (access f).
Proof. intros Hf s s' x Hs [= E]. specialize (Hf s Hs). by rewrite E in Hf. Qed.

Lemma upholds_weaken {S A : Type} (I : S -> Prop) (P Q : A -> Prop) (m : prog S A) :
  upholds I P m -> (forall a, P a -> Q a) -> upholds I Q m.
Proof. intros Hm HPQ. induction m as [a| |X f g IH]; simpl in *; [auto|done|]. naive_solver. Qed.

(** Task [i] of a pool keeps its own promise [Qs !! i]. *)
Lemma upholds_pool_run {S A : Type} (I : S -> Prop) (Qs : list (A -> Prop)) sched (c c' : list (prog S A) * S) :
  Forall2 (upholds I) Qs c.1 -> I c.2 -> pool_run sched c = Some c' ->
  Forall2 (upholds I) Qs c'.1 /\ I c'.2.
Proof.
  intros Hc Hs Hr. apply (invariant_reachable pool_step (fun c => Forall2 (upholds I) Qs c.1 /\ I c.2) c);
    [done| |by exists sched].
  intros i [l s] c2 [Hl HI] E. unfold pool_step in E. simpl in *.
  destruct (l !! i) as [[a| |X f k]|] eqn:Ei; [done..| |done]. simpl in E.
  destruct (f s) as [[s2 x]|] eqn:Ef; simplify_eq/=.
  destruct (Forall2_lookup_r _ _ _ _ _ Hl Ei) as (Q & HQ & Hm).
  destruct (Hm _ _ _ HI Ef) as [HI2 Hk]. split; [|done].
  rewrite <-(list_insert_id Qs i Q HQ). by apply Forall2_insert.
Qed.

(** ** Bodies end *)

(** A body is a well-founded tree, so a pool cannot run for ever. *)
Definition next_body {S A : Type} (m' m : prog S A) : Prop := exists s s', task_step m s = Some (m', s').

Lemma next_body_wf {S A : Type} (m : prog S A) : Acc next_body m.
Proof.
  induction m as [a| |X f k IH]; constructor; intros m' (s & s' & E); [done..|].
  simpl in E. destruct (f s) as [[s2 x]|]; simplify_eq/=. apply IH.
Qed.

(** One body of the list moves. *)
Definition next_bodies {S A : Type} (l' l : list (prog S A)) : Prop :=
  exists i m m', l !! i = Some m /\ l' = <[i := m']> l /\ next_body m' m.

Lemma next_bodies_wf {S A : Type} (l : list (prog S A)) : Acc next_bodies l.
Proof.
  induction l as [|m l Hl]; [by constructor; intros l' (i & ? & ? & ? & _)|].
  revert l Hl. induction (next_body_wf m) as [m _ IHm]. intros l Hl.
  induction Hl as [l Hacc IHl]. constructor. intros l' ([|i] & m1 & m2 & Hi & -> & Hm); simplify_eq/=.
  - apply IHm; [done|by constructor].
  - apply IHl. by exists i, m1, m2.
Qed.

Lemma pool_terminates {S A : Type} (c : list (prog S A) * S) : terminates pool_step c.
Proof.
  destruct c as [l s]. revert s. induction (next_bodies_wf l) as [l _ IH]. intros s. constructor.
  intros [l' s'] [i E]. apply IH. unfold pool_step in E. simpl in E.
  destruct (l !! i) as [m|] eqn:Hi; [|done].
  destruct (task_step m s) as [[m' s2]|] eqn:Em; simplify_eq/=. exists i, m, m'. split_and!; [done..|by exists s, s'].
Qed.

(** ** Bodies that work on a cell of their own *)

Section cells.
Context {S Key C : Type} (cell : S -> Key -> C).

(** Whatever the rest of the state is, a body whose own cell holds [c] never
    waits or panics, changes no other cell, and leaves a cell and a result that
    satisfy [Q]. *)
Fixpoint works {A : Type} (key : Key) (Q : C -> A -> Prop) (c : C) (m : prog S A) : Prop :=
  match m with
  | Ret a => Q c a
  | Panic => False
  | Act f k => forall s, cell s key = c -> exists s' x, f s = Some (s', x) /\
      (forall key', key' <> key -> cell s' key' = cell s key') /\ works key Q (cell s' key) (k x)
  end.

Lemma works_bind {A B : Type} key (P : C -> A -> Prop) (Q : C -> B -> Prop) c (m : prog S A) (k : A -> prog S B) :
  works key P c m -> (forall c a, P c a -> works key Q c (k a)) -> works key Q c (prog_bind m k).
Proof.
  intros Hm Hk. revert c Hm. induction m as [a| |X f g IH]; intros c Hm; simpl in *; [auto|done|].
  intros s Hs. destruct (Hm s Hs) as (s' & x & E & Hc & Hg). eauto 6.
Qed.

Lemma works_access {X : Type} key (Q : C -> X -> Prop) c (f : S -> S * X) :
  (forall s, cell s key = c ->
    (forall key', key' <> key -> cell (f s).1 key' = cell s key') /\ Q (cell (f s).1 key) (f s).2) ->
  works key Q c (access f).
Proof. intros Hf s Hs. exists (f s).1, (f s).2. destruct (Hf s Hs). split; [by destruct (f s)|done]. Qed.

Lemma works_weaken {A : Type} key (P Q : C -> A -> Prop) c (m : prog S A) :
  works key P c m -> (forall c a, P c a -> Q c a) -> works key Q c m.
Proof.
  intros Hm HPQ. revert c Hm. induction m as [a| |X f g IH]; intros c Hm; simpl in *; [auto|done|].
  intros s Hs. destruct (Hm s Hs) as (s' & x & E & Hc & Hg). eauto 6.
Qed.

(** Alone, such a body returns. *)
Lemma works_run {A : Type} key (Q : C -> A -> Prop) (m : prog S A) s :
  works key Q (cell s key) m ->
  exists s' a, run m s = Finished s' a /\ Q (cell s' key) a /\
    forall key', key' <> key -> cell s' key' = cell s key'.
Proof.
  revert s. induction m as [a| |X f g IH]; intros s Hm; simpl in *; [by exists s, a|done|].
  destruct (Hm s eq_refl) as (s1 & x & E & Hc & Hg). rewrite E.
  destruct (IH x s1 Hg) as (s2 & a & Er & HQ & Hc2). exists s2, a. split_and!; [done..|].
  intros key' Hne. rewrite Hc2, Hc; done.
Qed.

(** In a pool in which every body has its own key, all do. *)
Definition pool_works {A : Type} (jobs : list (Key * (C -> A -> Prop))) (c : list (prog S A) * S) : Prop :=
  Forall2 (fun job m => works job.1 job.2 (cell c.2 job.1) m) jobs c.1.

Lemma pool_works_step {A : Type} (jobs : list (Key * (C -> A -> Prop))) i (c c' : list (prog S A) * S) :
  NoDup jobs.*1 -> pool_works jobs c -> pool_step i c = Some c' ->
  pool_works jobs c' /\ forall key, key ∉ jobs.*1 -> cell c'.2 key = cell c.2 key.
Proof.
  destruct c as [l s]. unfold pool_works, pool_step. simpl. intros Hnd Hl E.
  destruct (l !! i) as [[a| |X f k]|] eqn:Hi; [done..| |done]. simpl in E.
  destruct (Forall2_lookup_r _ _ _ _ _ Hl Hi) as ([key Q] & Hjob & Hm).
  destruct (Hm s eq_refl) as (s' & x & Ef & Hc & Hk). rewrite Ef in E. simplify_eq/=. split.
  - apply Forall2_same_length_lookup_2; [rewrite length_insert; by eapply Forall2_length|].
    intros j [key2 Q2] m Hj Hjm. apply list_lookup_insert_Some in Hjm as [(<- & <- & _)|[Hne Hjm]]; [by simplify_eq|].
    simpl. rewrite Hc; [exact (Forall2_lookup_lr _ _ _ _ _ _ Hl Hj Hjm)|].
    intros ->. apply Hne. eapply (NoDup_lookup jobs.*1); [done|..]; by rewrite list_lookup_fmap, ?Hjob, ?Hj.
  - intros key2 Hin. apply Hc. intros ->. apply Hin. apply list_elem_of_fmap. exists (key, Q). split; [done|].
    by eapply list_elem_of_lookup_2.
Qed.

Lemma pool_works_run {A : Type} (jobs : list (Key * (C -> A -> Prop))) sched (c c' : list (prog S A) * S) :
  NoDup jobs.*1 -> pool_works jobs c -> pool_run sched c = Some c' ->
  pool_works jobs c' /\ forall key, key ∉ jobs.*1 -> cell c'.2 key = cell c.2 key.
Proof.
  intros Hnd Hc Hr.
  apply (invariant_reachable pool_step (fun c' => pool_works jobs c' /\
    forall key, key ∉ jobs.*1 -> cell c'.2 key = cell c.2 key) c); [done| |by exists sched].
  intros i c1 c2 [H1 H2] E. destruct (pool_works_step jobs i c1 c2 Hnd H1 E) as [H3 H4].
  split; [done|]. intros key Hin. by rewrite H4, H2.
Qed.

(** Nobody dies, and nobody who is still running is blocked. *)
Lemma pool_works_status {A : Type} (jobs : list (Key * (C -> A -> Prop))) (c : list (prog S A) * S) i m :
  pool_works jobs c -> c.1 !! i = Some m ->
  match m with Ret _ => True | Panic => False | Act _ _ => is_Some (pool_step i c) end.
Proof.
  destruct c as [l s]. unfold pool_works, pool_step. simpl. intros Hl Hi. rewrite Hi.
  destruct (Forall2_lookup_r _ _ _ _ _ Hl Hi) as ([key Q] & Hjob & Hm).
  destruct m as [a| |X f k]; [done..|]. destruct (Hm s eq_refl) as (s' & x & Ef & _). simpl. by rewrite Ef.
Qed.
End cells.
