(* ===== verification/Ghost.v ===== *)
(** * Reasoning about task pools with ghost tokens

    An invariant of a pool often needs to know what its tasks have in hand: an
    id that is taken but not stored yet, a handle that must be given back, a
    message that must be answered. Here a task owns a multiset of tokens that
    exist in the proof only; the invariant speaks about the state and the tokens
    of all tasks together. [owns] says that a body keeps such an invariant from
    the tokens it starts with, against every frame of tokens that others own,
    where it can block, and what it can be left with when it dies or waits. *)

From stdpp Require Export gmultiset.
From S2P Require Import Prelude Async.

Section total.
Context {Tok : Type} `{Countable Tok}.
Implicit Types (r : gmultiset Tok).

(** The tokens of all tasks. *)
Definition total (rs : list (gmultiset Tok)) : gmultiset Tok := foldr (⊎) ∅ rs.

Lemma total_app rs ks : total (rs ++ ks) = total rs ⊎ total ks.
Proof. induction rs as [|r rs IH]; simpl; [multiset_solver|]. rewrite IH. multiset_solver. Qed.

(** A task's tokens and all others. *)
Lemma total_insert rs i r :
  rs !! i = Some r -> exists fr, total rs = r ⊎ fr /\ forall r', total (<[i := r']> rs) = r' ⊎ fr.
Proof.
  intros Hi. exists (total (take i rs) ⊎ total (drop (S i) rs)). split.
  - rewrite <-(take_drop_middle rs i r Hi) at 1. rewrite total_app. simpl. multiset_solver.
  - intros r'. rewrite insert_take_drop by (by eapply lookup_lt_Some).
    rewrite total_app. simpl. multiset_solver.
Qed.

End total.

Section covers.
Context {Tok : Type} `{Countable Tok}.
Implicit Types (r k : gmultiset Tok).

(** The tokens that nobody minds being left over. *)
Context (harmless : Tok -> Prop).

(** [r'] is [r] and harmless tokens. *)
Definition covers r r' : Prop := exists k, (forall t, t ∈ k -> harmless t) /\ r' = r ⊎ k.

Lemma covers_refl r : covers r r.
Proof. exists ∅. split; [multiset_solver|by rewrite (right_id_L ∅ (⊎))]. Qed.

Lemma covers_trans r1 r2 r3 : covers r1 r2 -> covers r2 r3 -> covers r1 r3.
Proof.
  intros (k & Hk & ->) (k' & Hk' & ->). exists (k ⊎ k'). rewrite (assoc_L (⊎)). split; [|done].
  intros t [?|?]%gmultiset_elem_of_disj_union; auto.
Qed.

Lemma covers_frame r r' k : covers r r' -> covers (r ⊎ k) (r' ⊎ k).
Proof. intros (k' & Hk & ->). exists k'. split; [done|multiset_solver]. Qed.

(** To cover it is enough to have every token and no more of the harmful ones. *)
Lemma covers_intro r r' :
  r ⊆ r' -> (forall t, ~ harmless t -> (multiplicity t r' <= multiplicity t r)%nat) ->
  (forall t, Decision (harmless t)) -> covers r r'.
Proof.
  intros Hr Hm Hd. exists (r' ∖ r). rewrite <-gmultiset_disj_union_difference by done. split; [|done].
  intros t Ht. destruct (Hd t) as [|Hn]; [done|]. specialize (Hm t Hn).
  rewrite elem_of_multiplicity, multiplicity_difference in Ht. lia.
Qed.

(** Harmless tokens more do not matter to promises that do not mind them. *)
Definition tolerant {A : Type} (Q : A -> gmultiset Tok -> Prop) : Prop :=
  forall a r r', covers r r' -> Q a r -> Q a r'.

End covers.

Section ghost.
Context {S Tok Stop : Type} `{Countable Tok}.
Implicit Types (r fr k : gmultiset Tok) (s : S).

(** The invariant, the accesses that may block with which tokens in hand, by the
    names of the places where they do, and the harmless tokens. *)
Context (I : S -> gmultiset Tok -> Prop).
Context (Blocks : Stop -> gmultiset Tok -> forall X, (S -> option (S * X)) -> Prop).
Context (harmless : Tok -> Prop).
Notation covers := (covers harmless).
Notation tolerant := (tolerant harmless).
Hypothesis Blocks_frame : forall b r fr X f, Blocks b r X f -> Blocks b (r ⊎ fr) X f.

(** What a body is left with, by the place where it waits; [None] when it has
    died. *)
Notation left_with := (option Stop -> gmultiset Tok -> Prop).

(** [Q] is what a body returns with, [L] what it has when it dies or waits. *)
Fixpoint owns {A : Type} (L : left_with) (Q : A -> gmultiset Tok -> Prop) r (m : prog S A) : Prop :=
  match m with
  | Ret a => Q a r
  | Panic => L None r
  | @Act _ _ X f c =>
      (forall s fr s' x, I s (r ⊎ fr) -> f s = Some (s', x) ->
        exists r', I s' (r' ⊎ fr) /\ owns L Q r' (c x)) /\
      ((exists b, L (Some b) r /\ Blocks b r X f) \/ forall s fr, I s (r ⊎ fr) -> is_Some (f s))
  end.

Lemma owns_bind {A B : Type} L (P : A -> gmultiset Tok -> Prop) (Q : B -> gmultiset Tok -> Prop) r
    (m : prog S A) (c : A -> prog S B) :
  owns L P r m -> (forall a r, P a r -> owns L Q r (c a)) -> owns L Q r (prog_bind m c).
Proof.
  revert r. induction m as [a| |X f g IH]; intros r Hm Hk; simpl in *; [auto|done|].
  destruct Hm as [Hm Hb]. split; [|done]. intros s fr s' x HI E.
  destruct (Hm s fr s' x HI E) as (r' & HI' & Hg). eauto.
Qed.

Lemma owns_weaken {A : Type} (L L' : left_with) (P Q : A -> gmultiset Tok -> Prop) r (m : prog S A) :
  owns L P r m -> (forall b r, L b r -> L' b r) -> (forall a r, P a r -> Q a r) -> owns L' Q r m.
Proof.
  revert r. induction m as [a| |X f g IH]; intros r Hm HL HPQ; simpl in *; [auto|auto|].
  destruct Hm as [Hm Hb]. split; [|naive_solver]. intros s fr s' x HI E.
  destruct (Hm s fr s' x HI E) as (r' & HI' & Hg). eauto.
Qed.

(** Tokens that a body does not use stay where they are. *)
Lemma owns_frame {A : Type} L (Q : A -> gmultiset Tok -> Prop) r k (m : prog S A) :
  owns L Q r m ->
  owns (fun b r' => exists r0, r' = r0 ⊎ k /\ L b r0) (fun a r' => exists r0, r' = r0 ⊎ k /\ Q a r0) (r ⊎ k) m.
Proof.
  revert r. induction m as [a| |X f g IH]; intros r Hm; simpl in *; [eauto|eauto|].
  destruct Hm as [Hm Hb]. split.
  - intros s fr s' x HI E. rewrite <-(assoc_L (⊎)) in HI.
    destruct (Hm s (k ⊎ fr) s' x HI E) as (r' & HI' & Hg). rewrite (assoc_L (⊎)) in HI'. eauto.
  - destruct Hb as [(b & HL & Hb)|Hb]; [left; exists b; by split; [exists r|apply Blocks_frame]|right].
    intros s fr HI. rewrite <-(assoc_L (⊎)) in HI. eauto.
Qed.

(** A promise about a body that works on a part of the state. *)
Lemma owns_zoom_bind {P A B : Type} (get : S -> P) (set : P -> S -> S) L
    (R : A -> gmultiset Tok -> Prop) (Q : B -> gmultiset Tok -> Prop) r (m : prog P A) (c : A -> prog P B) :
  owns L R r (zoom get set m) -> (forall a r, R a r -> owns L Q r (zoom get set (c a))) ->
  owns L Q r (zoom get set (prog_bind m c)).
Proof.
  revert r. induction m as [a| |X f g IH]; intros r Hm Hk; simpl in *; [auto|done|].
  destruct Hm as [Hm Hb]. split; [|done]. intros s fr s' x HI E.
  destruct (Hm s fr s' x HI E) as (r' & HI' & Hg). eauto.
Qed.

(** Harmless tokens more do not matter. *)
Definition closed (L : left_with) : Prop := forall b r r', covers r r' -> L b r -> L b r'.

Lemma owns_mono {A : Type} L (Q : A -> gmultiset Tok -> Prop) r r' (m : prog S A) :
  closed L -> tolerant Q -> covers r r' -> owns L Q r m -> owns L Q r' m.
Proof.
  intros HL HQ (k & Hk & ->) Hm. eapply owns_weaken; [by apply owns_frame|..].
  - intros b r' (r0 & -> & Hr0). apply (HL b r0); [by exists k|done].
  - intros a r' (r0 & -> & Hr0). apply (HQ a r0); [by exists k|done].
Qed.

(** A call that uses [r] and leaves [need a], with [k] kept aside. *)
Lemma owns_call {A B : Type} (P : A -> Prop) (need : A -> gmultiset Tok) (Lost L : left_with)
    (Q : B -> gmultiset Tok -> Prop) r k r' (m : prog S A) (c : A -> prog S B) :
  closed L -> tolerant Q -> covers (r ⊎ k) r' ->
  owns Lost (fun a r' => P a /\ covers (need a) r') r m -> (forall b r, Lost b r -> L b (r ⊎ k)) ->
  (forall a, P a -> owns L Q (need a ⊎ k) (c a)) ->
  owns L Q r' (prog_bind m c).
Proof.
  intros HL HQ Hr Hm Hlost Hk. apply (owns_mono L Q (r ⊎ k)); [done..|].
  apply (owns_bind _ (fun a r' => P a /\ covers (need a ⊎ k) r')).
  - eapply owns_weaken; [by apply owns_frame|..].
    + intros b r1 (r0 & -> & Hr0). by apply Hlost.
    + intros a r1 (r0 & -> & Ha & Hr0). split; [done|by apply covers_frame].
  - intros a r1 [Ha Hr1]. apply (owns_mono L Q (need a ⊎ k)); auto.
Qed.

(** An access that is always ready. *)
Lemma owns_access {X : Type} L (Q : X -> gmultiset Tok -> Prop) r (f : S -> S * X) :
  (forall s fr, I s (r ⊎ fr) -> exists r', I (f s).1 (r' ⊎ fr) /\ Q (f s).2 r') ->
  owns L Q r (access f).
Proof.
  intros Hf. split; [|by right]. intros s fr s' x HI [= E]. specialize (Hf s fr HI).
  by rewrite E in Hf.
Qed.

(** ** Pools *)

(** A step of a pool, with further tokens [env] outside of it. *)
Lemma owns_pool_step L (Q : unit -> gmultiset Tok -> Prop) i rs env (c c' : list (prog S unit) * S) :
  Forall2 (owns L Q) rs c.1 -> I c.2 (total rs ⊎ env) -> pool_step i c = Some c' ->
  exists rs', Forall2 (owns L Q) rs' c'.1 /\ I c'.2 (total rs' ⊎ env).
Proof.
  unfold pool_step. intros Hrs HI E. destruct (c.1 !! i) as [m|] eqn:Em; [|done].
  destruct m as [a| |X f g]; [done..|]. simpl in E.
  destruct (f c.2) as [[s' x]|] eqn:Ef; [|done]. simplify_eq/=.
  destruct (Forall2_lookup_r _ _ _ _ _ Hrs Em) as (r & Hr & Hm).
  destruct (total_insert rs i r Hr) as (fr & Et & Ei). rewrite Et, <-(assoc_L (⊎)) in HI.
  destruct Hm as [Hm _]. destruct (Hm _ _ _ _ HI Ef) as (r' & HI' & Hk).
  exists (<[i := r']> rs). split; [by apply Forall2_insert|]. by rewrite Ei, <-(assoc_L (⊎)).
Qed.

(** A task that cannot move has returned with what it promised, or has died or
    is at an access that may block, with what it may be left with. *)
Lemma owns_stuck L (Q : unit -> gmultiset Tok -> Prop) i rs env (ms : list (prog S unit)) s m :
  Forall2 (owns L Q) rs ms -> I s (total rs ⊎ env) -> ms !! i = Some m -> task_step m s = None ->
  exists r, rs !! i = Some r /\
    ((exists a, m = Ret a /\ Q a r) \/ (m = Panic /\ L None r) \/
     exists b X (f : S -> option (S * X)) c, m = Act f c /\ L (Some b) r /\ Blocks b r X f /\ f s = None).
Proof.
  intros Hrs HI Hm Hs. destruct (Forall2_lookup_r _ _ _ _ _ Hrs Hm) as (r & Hr & Ho). exists r.
  split; [done|]. destruct m as [a| |X f c]; [left; by exists a|right; by left|right; right].
  destruct Ho as [_ Hb]. assert (Ef : f s = None) by (simpl in Hs; by destruct (f s)).
  destruct Hb as [(b & HL & Hb)|Hb]; [by exists b, X, f, c|].
  destruct (total_insert rs i r Hr) as (fr & Et & _). rewrite Et, <-(assoc_L (⊎)) in HI.
  destruct (Hb _ _ HI) as [? ?]. congruence.
Qed.
End ghost.
