(* ===== verification/Counter.v ===== *)
(** * The unique-id counters of [utils/counter/src/lib.rs]

    Five instances of one macro: an atomic integer that starts at 1 and
    returns its value before adding 1, with the wrap-around of
    [fetch_add] at the type's width. *)

From S2P Require Import Prelude.

(** The five types the macro is instantiated for. [usize] is 64 bits wide on
    the targets the workspace builds for. *)
Inductive counter_type : Type :=
| CounterU8
| CounterU16
| CounterU32
| CounterU64
| CounterUsize.

Definition bits (ct : counter_type) : Z :=
  match ct with
  | CounterU8 => 8
  | CounterU16 => 16
  | CounterU32 => 32
  | CounterU64 => 64
  | CounterUsize => 64
  end.

(** [new]: the atomic starts at 1. *)
Definition counter_new : Z := 1.

(** [increment]: [fetch_add(1)] returns the previous value and wraps. *)
Definition increment (ct : counter_type) (c : Z) : Z * Z := (c, wrap (bits ct) (c + 1)).

(** The ids that [n] successive calls hand out. A [fetch_add] is one atomic
    step, so every interleaving of callers is such a sequence. *)
Fixpoint increments (ct : counter_type) (n : nat) (c : Z) : list Z * Z :=
  match n with
  | O => ([], c)
  | S n =>
      let (id, c) := increment ct c in
      let (ids, c) := increments ct n c in
      (id :: ids, c)
  end.

Lemma bits_pos ct : 0 < bits ct.
Proof. by destruct ct. Qed.

Lemma increments_nth ct n c i :
  fits (bits ct) c -> (i < n)%nat ->
  (increments ct n c).1 !! i = Some (wrap (bits ct) (c + Z.of_nat i)).
Proof.
  revert c i. induction n as [|n IH]; intros c i Hc Hi; [lia|].
  pose proof (bits_pos ct). simpl.
  destruct (increments ct n _) as [ids c'] eqn:E. simpl.
  destruct i as [|i]; simpl.
  - rewrite Z.add_0_r. by rewrite wrap_small.
  - specialize (IH (wrap (bits ct) (c + 1)) i). rewrite E in IH. simpl in IH.
    rewrite IH; [|apply wrap_fits; lia|lia].
    f_equal. unfold wrap. rewrite Zplus_mod_idemp_l. f_equal. lia.
Qed.

Lemma increments_length ct n c : length (increments ct n c).1 = n.
Proof.
  revert c. induction n as [|n IH]; intros c; [done|]. simpl.
  specialize (IH (wrap (bits ct) (c + 1))).
  destruct (increments ct n _) as [ids c'] eqn:E. simpl in *. by rewrite IH.
Qed.

(** Two calls [i < j] return the same id exactly when [j - i] is a multiple
    of the type's range. *)
Lemma wrap_collide w c i j :
  0 <= w -> 0 <= i <= j -> j - i < 2 ^ w -> wrap w (c + i) = wrap w (c + j) -> i = j.
Proof.
  intros Hw Hij Hd H. unfold wrap in H.
  assert ((j - i) mod 2 ^ w = 0) as Hm.
  { replace (j - i) with ((c + j) - (c + i)) by lia.
    rewrite Zminus_mod, H, Z.sub_diag. apply Z.mod_0_l. lia. }
  rewrite Z.mod_small in Hm; lia.
Qed.

(** C38 (bounds): [n] calls on a counter hand out pairwise distinct ids exactly
    when [n] is at most the range of its type: the uniqueness of the AMF UE
    ids, association ids and token ids holds up to the wrap-around and fails
    from the first call after it. *)
Theorem increments_unique ct n c :
  fits (bits ct) c ->
  (NoDup (increments ct n c).1 <-> Z.of_nat n <= 2 ^ bits ct).
Proof.
  intros Hc. pose proof (bits_pos ct) as Hb. split.
  - intros Hnd. destruct (decide (Z.of_nat n <= 2 ^ bits ct)) as [|Hn]; [done|].
    assert (H0 : (increments ct n c).1 !! 0%nat = Some c).
    { rewrite increments_nth by (done || lia). f_equal.
      rewrite Z.add_0_r. by apply wrap_small. }
    assert (H1 : (increments ct n c).1 !! Z.to_nat (2 ^ bits ct) = Some c).
    { rewrite increments_nth by (done || lia). f_equal.
      rewrite Z2Nat.id by lia. unfold wrap.
      rewrite <-Zplus_mod_idemp_r, Z.mod_same, Z.add_0_r by lia. by apply wrap_small. }
    assert (Hz : (0 = Z.to_nat (2 ^ bits ct))%nat) by (eapply NoDup_lookup; eauto). lia.
  - intros Hn. apply NoDup_alt. intros i j x Hi Hj.
    pose proof (lookup_lt_Some _ _ _ Hi) as Li. pose proof (lookup_lt_Some _ _ _ Hj) as Lj.
    rewrite increments_length in Li, Lj.
    rewrite increments_nth in Hi by done. rewrite increments_nth in Hj by done.
    simplify_eq. destruct (decide (i <= j)%nat).
    + enough (Z.of_nat i = Z.of_nat j) by lia.
      eapply (wrap_collide (bits ct) c); [lia..|]. congruence.
    + enough (Z.of_nat j = Z.of_nat i) by lia.
      eapply (wrap_collide (bits ct) c); [lia..|]. congruence.
Qed.

Lemma increments_unique_witness :
  (increments CounterU8 3 counter_new).1 = [1; 2; 3] /\
  NoDup (increments CounterU8 3 counter_new).1.
Proof.
  split; [reflexivity|].
  apply (increments_unique CounterU8 3 counter_new); [vm_compute; split; congruence|].
  vm_compute; congruence.
Defined.
