(* ===== verification/ContextQueue.v ===== *)
(** * The serialising queue of one context
      ([ngap/manager/context_queue.rs])

    A [ContextQueue] owns a value behind a [RwLock], a queue of futures behind
    a [Mutex] and a flag saying that a processor task is running. Each task
    (a caller of [schedule_and_wait] or a spawned [process_queue]) is a program
    counter; one step is one access to the shared state: taking or releasing a
    lock, pushing, reading or writing the flag, spawning, sending on a channel
    or one poll of the closure's future. *)

From S2P Require Import Prelude Async.

Section ContextQueue.
Context {T O : Type}.

(** The future a closure returns, cut at its [await] points. It owns the write
    guard of the context from start to finish. *)
Inductive body : Type :=
(** returns [o] and drops the guard *)
| Finish (o : O)
(** panics *)
| Unwind
(** runs to its next [await]: updates the context, goes on with what it read *)
| Poll (g : T -> T) (k : T -> body)
(** awaits [schedule_and_wait] on this same queue *)
| Reschedule (b : body) (k : O -> body).

(** An entry of the [VecDeque]: the closure and the sending half of the oneshot
    channel of the task that scheduled it. *)
Record future : Type := Future { fut_body : body; fut_tx : nat }.

(** Where a task stands. [C...]: a caller inside [schedule_and_wait] and
    [push_future]; [P...]: a processor inside [process_queue] and the future it
    awaits. *)
Inductive pc : Type :=
| CStart (b : body)
| CLock (f : future)
| CPush (f : future)
| CLoad
| CStore
| CSpawn
| CUnlock
| CRecv
| CDone (o : O)
| CPanicked
| PLock
| PCheck
| PStore
| PBreak
| PPop
| PWrite (f : future)
| PRun (b : body) (tx : nat)
| PAwait (c : nat) (k : O -> body) (tx : nat)
| PSend (o : O) (tx : nat)
| PUnlock
| PExited
| PDead.

(** The shared state. [inner] is the value behind the [RwLock] and [inner_lock]
    its writer; [queue] is the [VecDeque] and [queue_lock] the holder of its
    [Mutex]. A oneshot channel is missing while empty, [Some (Some o)] when [o]
    was sent and [Some None] when its sender was dropped. *)
Record state : Type := State {
  inner : T;
  inner_lock : option nat;
  queue : list future;
  queue_lock : option nat;
  processor_active : bool;
  channels : gmap nat (option O);
  tasks : list pc;
}.

Definition set_inner (x : T) (s : state) : state :=
  State x (inner_lock s) (queue s) (queue_lock s) (processor_active s) (channels s) (tasks s).
Definition set_inner_lock (h : option nat) (s : state) : state :=
  State (inner s) h (queue s) (queue_lock s) (processor_active s) (channels s) (tasks s).
Definition set_queue (q : list future) (s : state) : state :=
  State (inner s) (inner_lock s) q (queue_lock s) (processor_active s) (channels s) (tasks s).
Definition set_queue_lock (h : option nat) (s : state) : state :=
  State (inner s) (inner_lock s) (queue s) h (processor_active s) (channels s) (tasks s).
Definition set_active (a : bool) (s : state) : state :=
  State (inner s) (inner_lock s) (queue s) (queue_lock s) a (channels s) (tasks s).
Definition set_channel (tx : nat) (r : option O) (s : state) : state :=
  State (inner s) (inner_lock s) (queue s) (queue_lock s) (processor_active s)
    (<[tx := r]> (channels s)) (tasks s).
Definition goto (t : nat) (p : pc) (s : state) : state :=
  State (inner s) (inner_lock s) (queue s) (queue_lock s) (processor_active s) (channels s)
    (<[t := p]> (tasks s)).
(** [tokio::spawn], or a nested [await] of an [async fn]: one more task. *)
Definition spawn (p : pc) (s : state) : state :=
  State (inner s) (inner_lock s) (queue s) (queue_lock s) (processor_active s) (channels s)
    (tasks s ++ [p]).

(** [ContextQueue::new]. *)
Definition new (context : T) : state := State context None [] None false ∅ [].

(** [enqueue_and_get_result]: the future that will run [closure] under the
    write lock and send its output on [tx]. *)
Definition enqueue_and_get_result (closure : body) (tx : nat) : future := Future closure tx.

(** A future waiting to run, or running, holds a clone of the [Arc] around the
    context. *)
Definition holds_inner (p : pc) : bool :=
  match p with
  | CLock _ | CPush _ | PWrite _ | PRun _ _ | PAwait _ _ _ => true
  | _ => false
  end.

Definition inner_refs (s : state) : nat :=
  1 + length (queue s) + length (filter (fun p => holds_inner p = true) (tasks s)).

(** [into_inner]: [Arc::into_inner] gives the value only to the last owner. *)
Definition into_inner (s : state) : option T :=
  if decide (inner_refs s = 1%nat) then Some (inner s) else None.

(** [push_future] of task [t]. *)
Definition push_future_step (t : nat) (p : pc) (s : state) : option state :=
  match p with
  | CLock f =>
      (* let mut queue = self.queue.lock().await *)
      match queue_lock s with
      | None => Some (goto t (CPush f) (set_queue_lock (Some t) s))
      | Some _ => None
      end
  | CPush f =>
      (* queue.push_back(future) *)
      Some (goto t CLoad (set_queue (queue s ++ [f]) s))
  | CLoad =>
      (* if !self.processor_active.load(SeqCst) *)
      Some (goto t (if processor_active s then CUnlock else CStore) s)
  | CStore =>
      (* self.processor_active.store(true, SeqCst) *)
      Some (goto t CSpawn (set_active true s))
  | CSpawn =>
      (* tokio::spawn(self_clone.process_queue()) *)
      Some (spawn PLock (goto t CUnlock s))
  | CUnlock =>
      (* the guard [queue] goes out of scope *)
      Some (goto t CRecv (set_queue_lock None s))
  | _ => None
  end.

(** The body of the enqueued future, polled by processor [t]. *)
Definition future_step (t : nat) (p : pc) (s : state) : option state :=
  match p with
  | PWrite f =>
      (* let context = context.write_owned().await *)
      match inner_lock s with
      | None => Some (goto t (PRun (fut_body f) (fut_tx f)) (set_inner_lock (Some t) s))
      | Some _ => None
      end
  | PRun b tx =>
      (* let output = closure(context).await *)
      match b with
      | Finish o => Some (goto t (PSend o tx) (set_inner_lock None s))
      | Unwind =>
          (* unwinding drops the write guard, [tx] and the queue's guard *)
          Some (goto t PDead (set_channel tx None (set_queue_lock None (set_inner_lock None s))))
      | Poll g k => Some (goto t (PRun (k (inner s)) tx) (set_inner (g (inner s)) s))
      | Reschedule b k => Some (spawn (CStart b) (goto t (PAwait (length (tasks s)) k tx) s))
      end
  | PAwait c k tx =>
      match tasks s !! c with
      | Some (CDone o) => Some (goto t (PRun (k o) tx) s)
      | Some CPanicked =>
          Some (goto t PDead (set_channel tx None (set_queue_lock None (set_inner_lock None s))))
      | _ => None
      end
  | PSend o tx =>
      (* let _ = tx.send(output) *)
      Some (goto t PUnlock (set_channel tx (Some o) s))
  | _ => None
  end.

(** [process_queue]: the loop of processor [t]. *)
Definition process_queue_step (t : nat) (p : pc) (s : state) : option state :=
  match p with
  | PLock =>
      (* let mut queue = self.queue.lock().await *)
      match queue_lock s with
      | None => Some (goto t PCheck (set_queue_lock (Some t) s))
      | Some _ => None
      end
  | PCheck =>
      (* if queue.is_empty() *)
      Some (goto t (match queue s with [] => PStore | _ :: _ => PPop end) s)
  | PStore =>
      (* self.processor_active.store(false, SeqCst) *)
      Some (goto t PBreak (set_active false s))
  | PBreak =>
      (* break: the guard goes out of scope and the task ends *)
      Some (goto t PExited (set_queue_lock None s))
  | PPop =>
      (* let fut = queue.pop_front().unwrap(); fut.await *)
      match queue s with
      | [] => Some (goto t PDead (set_queue_lock None s))
      | f :: q => Some (goto t (PWrite f) (set_queue q s))
      end
  | PUnlock =>
      (* end of the iteration: the guard [queue], held across [fut.await], is dropped *)
      Some (goto t PLock (set_queue_lock None s))
  | _ => future_step t p s
  end.

(** [schedule_and_wait] of task [t]: create the channel and the future, push
    it, then [rx.await.unwrap()]. *)
Definition schedule_and_wait_step (t : nat) (p : pc) (s : state) : option state :=
  match p with
  | CStart b => Some (goto t (CLock (enqueue_and_get_result b t)) s)
  | CRecv =>
      match channels s !! t with
      | Some (Some o) => Some (goto t (CDone o) s)
      | Some None => Some (goto t CPanicked s)
      | None => None
      end
  | _ => push_future_step t p s
  end.

Definition is_processor (p : pc) : bool :=
  match p with
  | PLock | PCheck | PStore | PBreak | PPop | PWrite _ | PRun _ _ | PAwait _ _ _
  | PSend _ _ | PUnlock | PExited | PDead => true
  | _ => false
  end.

(** Task [t] makes its next access. *)
Definition step (t : nat) (s : state) : option state :=
  match tasks s !! t with
  | Some p => if is_processor p then process_queue_step t p s else schedule_and_wait_step t p s
  | None => None
  end.

(** A new queue on which one task per closure calls [schedule_and_wait]; how
    late each of them starts is up to the scheduler. *)
Definition with_callers (context : T) (closures : list body) : state :=
  State context None [] None false ∅ (CStart <$> closures).

(** ** What a queue promises: a log of closures applied one at a time *)

(** The effect and output of a closure that runs alone; [None] is a panic. *)
Fixpoint run_body (b : body) (x : T) : T * option O :=
  match b with
  | Finish o => (x, Some o)
  | Unwind => (x, None)
  | Poll g k => run_body (k x) (g x)
  | Reschedule _ _ => (x, None)
  end.

(** Closures that do not use the queue they run on. *)
Fixpoint flat (b : body) : Prop :=
  match b with
  | Finish _ | Unwind => True
  | Poll g k => forall x, flat (k x)
  | Reschedule _ _ => False
  end.

(** Closures that moreover do not panic. *)
Fixpoint safe (b : body) : Prop :=
  match b with
  | Finish _ => True
  | Unwind => False
  | Poll g k => forall x, safe (k x)
  | Reschedule _ _ => False
  end.

(** Applying scheduled closures in order: the final context and the output of
    each by its channel. *)
Definition apply_future (acc : T * gmap nat (option O)) (f : future) :
    T * gmap nat (option O) :=
  let (x, outs) := acc in
  let (x, r) := run_body (fut_body f) x in
  (x, <[fut_tx f := r]> outs).

Definition replay (context : T) (log : list future) : T * gmap nat (option O) :=
  foldl apply_future (context, ∅) log.

(** The abstract queue: the log of everything accepted and how much of it has
    been applied. It accepts the closure of each caller at most once. *)
Record spec : Type := Spec { log : list future; applied : nat }.

Definition of_caller (closures : list body) (f : future) : Prop :=
  closures !! fut_tx f = Some (fut_body f).

Inductive spec_step (closures : list body) : spec -> spec -> Prop :=
| spec_accept a f :
    of_caller closures f -> fut_tx f ∉ (fut_tx <$> log a) ->
    spec_step closures a (Spec (log a ++ [f]) (applied a))
| spec_apply a :
    (applied a < length (log a))%nat ->
    spec_step closures a (Spec (log a) (S (applied a))).

(** The future that task [t] pushes if it moves now. *)
Definition pushing (t : nat) (s : state) : list future :=
  match tasks s !! t with Some (CPush f) => [f] | _ => [] end.

(** The futures pushed along an execution, first to last: the order of
    acceptance, read off the callers and not off the queue. *)
Fixpoint accepted (sched : list nat) (s : state) : list future :=
  match sched with
  | [] => []
  | t :: sched =>
      pushing t s ++ match step t s with Some s => accepted sched s | None => [] end
  end.

(** ** Reading the concrete state *)

(** The task is inside the critical section of the queue's mutex. *)
Definition holds_queue (p : pc) : bool :=
  match p with
  | CPush _ | CLoad | CStore | CSpawn | CUnlock
  | PCheck | PStore | PBreak | PPop | PWrite _ | PRun _ _ | PAwait _ _ _ | PSend _ _
  | PUnlock => true
  | _ => false
  end.

(** The task owns the write guard of the context. *)
Definition holds_context (p : pc) : bool :=
  match p with PRun _ _ | PAwait _ _ _ => true | _ => false end.

(** A processor that will look at the queue again, or is about to be spawned. *)
Definition responsible (p : pc) : bool :=
  match p with
  | CSpawn | PLock | PCheck | PStore | PPop | PWrite _ | PRun _ _ | PAwait _ _ _
  | PSend _ _ | PUnlock => true
  | _ => false
  end.

(** The caller has pushed its future and not yet received the output. *)
Definition waiting (p : pc) : bool :=
  match p with CLoad | CStore | CSpawn | CUnlock | CRecv => true | _ => false end.

Definition starting_of (p : pc) : option future :=
  match p with PWrite f => Some f | _ => None end.
Definition running_of (p : pc) : option future :=
  match p with PRun b tx => Some (Future b tx) | _ => None end.
Definition sending_of (p : pc) : option (nat * O) :=
  match p with PSend o tx => Some (tx, o) | _ => None end.

(** Accepted futures that have not begun. *)
Definition todo (s : state) : list future := omap starting_of (tasks s) ++ queue s.

(** The context and the outputs once what has begun is over. *)
Definition settle (s : state) : T * gmap nat (option O) :=
  let (x, outs) :=
    foldl apply_future (inner s, channels s) (omap running_of (tasks s)) in
  (x, foldl (fun m '(tx, o) => <[tx := Some o]> m) outs (omap sending_of (tasks s))).

(** Futures accepted and not yet answered, by their channels. *)
Definition pending (s : state) : list nat :=
  (fut_tx <$> todo s) ++ (fut_tx <$> omap running_of (tasks s)) ++
  (omap sending_of (tasks s)).*1.

(** The concrete state stands for the abstract one. *)
Definition refines (context : T) (s : state) (a : spec) : Prop :=
  exists hist, log a = hist ++ todo s /\ applied a = length hist /\
    replay context hist = settle s.
End ContextQueue.

Arguments body : clear implicits.
Arguments future : clear implicits.
Arguments pc : clear implicits.
Arguments state : clear implicits.
Arguments spec : clear implicits.
