(* ===== verification/ContextQueueInv.v ===== *)
(** * Invariants of the context queue

    Mutual exclusion for arbitrary closures, then, for closures that do not
    use the queue they run on, the bookkeeping of the processor flag, of the
    pending futures and of the oneshot channels. *)

From S2P Require Import Prelude Async ContextQueue.

(** Open a step: one goal per program counter and branch. *)
Ltac open_step Hs :=
  unfold step in Hs;
  match type of Hs with
  | context [tasks ?s !! ?t] => destruct (tasks s !! t) as [[]|] eqn:Ht; [..|discriminate Hs]
  end;
  cbn in Hs; repeat case_match; simplify_eq.

Section mutual_exclusion.
Context {T O : Type}.
Implicit Types (s : state T O) (p : pc T O) (t : nat) (x : T) (cl : list (body T O)).

(** Whether task [t] is at a program counter that satisfies [f]. *)
Definition probe (f : pc T O -> bool) s t : bool :=
  match tasks s !! t with Some p => f p | None => false end.

(** A lock is held by exactly the task that is in its critical section. *)
Record mutex s : Prop := {
  mutex_queue : forall t, queue_lock s = Some t <-> probe holds_queue s t = true;
  mutex_context : forall t, inner_lock s = Some t <-> probe holds_context s t = true;
}.

(** While a processor awaits a call that its own closure made on this queue,
    that call is still trying to lock the queue. *)
Definition await_blocked s : Prop :=
  forall t c k tx, tasks s !! t = Some (PAwait c k tx) ->
    exists q, tasks s !! c = Some q /\
      match q with CStart _ | CLock _ => True | _ => False end.

Definition dead p : bool := match p with PDead => true | _ => false end.
Definition storing p : bool := match p with CLoad | CStore => true | _ => false end.

Definition is_caller p : bool := negb (is_processor p).

(** What task [t] at [p] knows about the shared state. *)
Definition local_ok (closures : list (body T O)) s t p : Prop :=
  match p with
  | CStore => processor_active s = false
  | PStore | PBreak => queue s = []
  | PPop => queue s <> []
  | CStart b => closures !! t = Some b /\ channels s !! t = None
  | CLock f | CPush f =>
      closures !! t = Some (fut_body f) /\ fut_tx f = t /\ channels s !! t = None
  | CDone o => channels s !! t = Some (Some o)
  | CPanicked => channels s !! t = Some None
  | PRun b _ => flat b
  | PAwait _ _ _ => False
  | _ => True
  end.

(** The bookkeeping for flat closures. *)
Record queue_ok (closures : list (body T O)) s : Prop := {
  qo_resp : forall t1 t2,
    probe responsible s t1 = true -> probe responsible s t2 = true -> t1 = t2;
  qo_active : forall t, probe responsible s t = true -> processor_active s = true;
  qo_alive : processor_active s = true ->
    (exists t, probe responsible s t = true) \/ (exists t, probe dead s t = true);
  qo_dead : forall t, probe dead s t = true ->
    processor_active s = true /\ forall t', probe responsible s t' = false;
  qo_queue : queue s <> [] ->
    processor_active s = true \/ (exists t, probe storing s t = true);
  qo_local : forall t p, tasks s !! t = Some p -> local_ok closures s t p;
  qo_todo : Forall (fun f => closures !! fut_tx f = Some (fut_body f)) (todo s);
  qo_nodup : NoDup (pending s);
  qo_pending : forall t, t ∈ pending s -> channels s !! t = None /\ probe waiting s t = true;
  qo_waiting : forall t, probe waiting s t = true -> t ∈ pending s \/ is_Some (channels s !! t);
  qo_callers : forall t, is_Some (tasks s !! t) ->
    (t < length closures)%nat <-> probe is_caller s t = true;
  qo_spawned : (length closures <= length (tasks s))%nat;
}.

(** ** Probing updated states *)

Lemma probe_at f s t p : tasks s !! t = Some p -> probe f s t = f p.
Proof. unfold probe. by intros ->. Qed.

Lemma probe_goto f s t p q t' :
  tasks s !! t = Some p ->
  probe f (goto t q s) t' = if decide (t = t') then f q else probe f s t'.
Proof.
  intros Hp. unfold probe, goto; simpl. apply lookup_lt_Some in Hp.
  case_decide; subst.
  - by rewrite list_lookup_insert_eq.
  - by rewrite list_lookup_insert_ne.
Qed.

Lemma probe_spawn f s q t' :
  probe f (spawn q s) t' = if decide (t' = length (tasks s)) then f q else probe f s t'.
Proof.
  unfold probe, spawn; simpl. case_decide; subst.
  - by rewrite lookup_app_r, Nat.sub_diag by lia.
  - destruct (decide (t' < length (tasks s))%nat).
    + by rewrite lookup_app_l.
    + rewrite lookup_app_r by lia. destruct (t' - length (tasks s))%nat eqn:E; [lia|].
      simpl. by rewrite (proj2 (lookup_ge_None _ _)) by lia.
Qed.

Lemma probe_end f s : probe f s (length (tasks s)) = false.
Proof. unfold probe. by rewrite (proj2 (lookup_ge_None _ _)) by lia. Qed.

Lemma length_goto t q s : length (tasks (goto t q s)) = length (tasks s).
Proof. apply length_insert. Qed.


(** ** Mutual exclusion *)

Lemma mutex_init x bs : mutex (with_callers x bs).
Proof.
  split; intros t; (split; [done|]); unfold probe; simpl;
    rewrite list_lookup_fmap; by destruct (bs !! t).
Qed.

Lemma mutex_step t s s' : mutex s -> step t s = Some s' -> mutex s'.
Proof.
  intros [Hq Hc] Hs.
  open_step Hs.
  all: pose proof (Hq t) as Hqt; pose proof (Hc t) as Hct.
  all: erewrite probe_at in Hqt, Hct by done; simpl in Hqt, Hct.
  all: split; intros t'; specialize (Hq t'); specialize (Hc t').
  all: try (rewrite probe_spawn, ?length_goto; simpl).
  all: erewrite probe_goto by done; simpl.
  all: repeat case_decide; subst; simpl; try (rewrite probe_end in Hq; rewrite probe_end in Hc).
  all: naive_solver.
Qed.

(** ** The futures in flight *)

(** What the processors have taken off the queue. *)
Definition in_flight (ts : list (pc T O)) : list (future T O) * list (future T O) * list (nat * O) :=
  (omap starting_of ts, omap running_of ts, omap sending_of ts).

Definition in_flight_at p : list (future T O) * list (future T O) * list (nat * O) :=
  (option_list (starting_of p), option_list (running_of p), option_list (sending_of p)).

Lemma omap_insert_none {B} (f : pc T O -> option B) (ts : list (pc T O)) t p q :
  ts !! t = Some p -> f p = None -> f q = None -> omap f (<[t := q]> ts) = omap f ts.
Proof.
  revert t. induction ts as [|x ts IH]; intros [|t] Hp Hfp Hfq; simplify_eq/=.
  - by rewrite Hfp, Hfq.
  - by rewrite IH.
Qed.

Lemma omap_all_none {B} (f : pc T O -> option B) (ts : list (pc T O)) :
  (forall t p, ts !! t = Some p -> f p = None) -> omap f ts = [].
Proof.
  induction ts as [|y ts IH]; intros Hn; simpl; [done|].
  rewrite (Hn 0%nat y) by done. apply IH. intros t p H. by apply (Hn (S t) p).
Qed.

Lemma omap_only {B} (f : pc T O -> option B) (ts : list (pc T O)) t p :
  ts !! t = Some p -> (forall t' p', ts !! t' = Some p' -> t' <> t -> f p' = None) ->
  omap f ts = option_list (f p).
Proof.
  revert t. induction ts as [|x ts IH]; intros [|t] Hp Hother; simplify_eq/=.
  - rewrite (omap_all_none f ts);
      [|intros t p' H; apply (Hother (S t) p'); [done|lia]].
    by destruct (f p).
  - rewrite (Hother 0%nat x) by (done || lia).
    apply (IH t); [done|]. intros t' p' H Hne. apply (Hother (S t') p'); [done|lia].
Qed.

Lemma other_idle s t p t' p' :
  mutex s -> tasks s !! t = Some p -> holds_queue p = true ->
  tasks s !! t' = Some p' -> t' <> t -> holds_queue p' = false.
Proof.
  intros [Hq _] Hp Hh Hp' Hne. destruct (holds_queue p') eqn:E; [|done].
  pose proof (proj2 (Hq t)) as H1. pose proof (proj2 (Hq t')) as H2.
  unfold probe in H1, H2. rewrite Hp, Hh in H1. rewrite Hp', E in H2. naive_solver.
Qed.

Lemma in_flight_none s t p q :
  tasks s !! t = Some p -> in_flight_at p = ([], [], []) -> in_flight_at q = ([], [], []) ->
  in_flight (<[t := q]> (tasks s)) = in_flight (tasks s).
Proof.
  intros Hp Ep Eq. unfold in_flight, in_flight_at in *.
  destruct p, q; simplify_eq/=; by erewrite !omap_insert_none.
Qed.

Lemma in_flight_only s t p q :
  mutex s -> tasks s !! t = Some p -> holds_queue p = true ->
  in_flight (<[t := q]> (tasks s)) = in_flight_at q.
Proof.
  intros Hm Hp Hh. pose proof (lookup_lt_Some _ _ _ Hp) as Hlt.
  assert (Hidle : forall t' p', <[t := q]> (tasks s) !! t' = Some p' -> t' <> t ->
    holds_queue p' = false).
  { intros t' p' H Hne. rewrite list_lookup_insert_ne in H by done. by apply (other_idle s t p t' p'). }
  assert (Ho : forall B (f : pc T O -> option B),
    (forall p', holds_queue p' = false -> f p' = None) ->
    omap f (<[t := q]> (tasks s)) = option_list (f q)).
  { intros B f Hf. eapply omap_only; [by apply list_lookup_insert_eq|].
    intros t' p' H Hne. eauto. }
  unfold in_flight, in_flight_at. rewrite !Ho; [done|intros []; done..].
Qed.

Lemma in_flight_now s t p :
  mutex s -> tasks s !! t = Some p -> holds_queue p = true ->
  in_flight (tasks s) = in_flight_at p.
Proof.
  intros Hm Hp Hh. rewrite <-(in_flight_only s t p p) by done.
  by rewrite list_insert_id.
Qed.

Lemma in_flight_free s : mutex s -> queue_lock s = None -> in_flight (tasks s) = ([], [], []).
Proof.
  intros [Hq _] Hl. unfold in_flight.
  assert (Hidle : forall t p, tasks s !! t = Some p -> holds_queue p = false).
  { intros t p Hp. destruct (holds_queue p) eqn:E; [|done].
    pose proof (proj2 (Hq t)) as H. unfold probe in H. rewrite Hp in H. naive_solver. }
  rewrite !omap_all_none; [done|..]; intros t p Hp; specialize (Hidle t p Hp); by destruct p.
Qed.

Lemma in_flight_snoc ts p :
  in_flight_at p = ([], [], []) -> in_flight (ts ++ [p]) = in_flight ts.
Proof.
  intros E. unfold in_flight, in_flight_at in *. rewrite !omap_app.
  destruct p; simplify_eq/=; by rewrite !app_nil_r.
Qed.

End mutual_exclusion.

(** Rewrite every probe of the state after a step. *)
Ltac probe_step :=
  try (rewrite !probe_spawn, ?length_goto; simpl);
  erewrite !probe_goto by done; simpl;
  repeat case_decide; subst; simpl.

(** Replace the futures in flight before and after a step by their values. *)
Ltac compute_flight Hm Ht :=
  cbn [tasks goto spawn set_queue set_queue_lock set_inner_lock set_inner set_active
       set_channel queue channels inner];
  rewrite ?in_flight_snoc by done;
  first
    [ rewrite (in_flight_only _ _ _ _ Hm Ht eq_refl), (in_flight_now _ _ _ Hm Ht eq_refl)
    | rewrite (in_flight_none _ _ _ _ Ht) by done ];
  cbn; rewrite ?app_nil_r.

Section invariants.
Context {T O : Type}.
Implicit Types (s : state T O) (p : pc T O) (t : nat) (x : T) (cl : list (body T O)).

(** ** The processor flag *)

Lemma tasks_goto_eq s t p q : tasks s !! t = Some p -> tasks (goto t q s) !! t = Some q.
Proof. intros. apply list_lookup_insert_eq. by eapply lookup_lt_Some. Qed.

Lemma exists_goto f s t p q :
  tasks s !! t = Some p -> (f p = true -> f q = true) ->
  (exists t', probe f s t' = true) -> exists t', probe f (goto t q s) t' = true.
Proof.
  intros Hp Hpq [t' Ht']. exists t'. rewrite (probe_goto f s t p q t' Hp).
  case_decide; subst; [|done]. apply Hpq. by rewrite (probe_at f s t' p) in Ht'.
Qed.

Lemma exists_at f s t p : tasks s !! t = Some p -> f p = true -> exists t', probe f s t' = true.
Proof. intros Hp Hf. exists t. by rewrite (probe_at f s t p Hp). Qed.

Lemma exists_spawn f s q :
  (exists t, probe f s t = true) \/ f q = true -> exists t, probe f (spawn q s) t = true.
Proof.
  intros [[t H]|H].
  - exists t. rewrite probe_spawn. case_decide; subst; [|done]. by rewrite probe_end in H.
  - exists (length (tasks s)). rewrite probe_spawn. by case_decide.
Qed.


Lemma resp_step cl t s s' :
  queue_ok cl s -> step t s = Some s' ->
  forall t1 t2, probe responsible s' t1 = true -> probe responsible s' t2 = true -> t1 = t2.
Proof.
  intros [Hr Ha _ _ _ Hl _ _ _ _ _ _] Hs t1 t2. open_step Hs.
  all: pose proof (Hr t) as Hrt; pose proof (Ha t) as Hat; pose proof (Hl t _ Ht) as Hlt.
  all: erewrite probe_at in Hrt by done; erewrite probe_at in Hat by done; simpl in Hrt, Hat.
  all: probe_step; intros; try (eauto; congruence).
  all: naive_solver.
Qed.

Lemma active_step cl t s s' :
  queue_ok cl s -> step t s = Some s' ->
  forall t1, probe responsible s' t1 = true -> processor_active s' = true.
Proof.
  intros [Hr Ha _ _ _ Hl _ _ _ _ _ _] Hs t1. open_step Hs.
  all: pose proof (Hr t t1) as Hrt; pose proof (Ha t) as Hat; pose proof (Hl t _ Ht) as Hlt.
  all: erewrite probe_at in Hrt by done; erewrite probe_at in Hat by done; simpl in Hrt, Hat.
  all: probe_step; intros; naive_solver.
Qed.

Lemma alive_step cl t s s' :
  queue_ok cl s -> step t s = Some s' -> processor_active s' = true ->
  (exists t', probe responsible s' t' = true) \/ (exists t', probe dead s' t' = true).
Proof.
  intros [_ _ Hal _ _ Hl _ _ _ _ _ _] Hs.
  open_step Hs; specialize (Hl t _ Ht); simpl in *; intros Hact; simpl in Hact; try contradiction; try congruence.
  all: try (left; eapply exists_at; [eapply (tasks_goto_eq s); exact Ht|reflexivity]).
  all: try (right; eapply exists_at; [eapply (tasks_goto_eq s); exact Ht|reflexivity]).
  all: try (left; apply exists_spawn; right; reflexivity).
  all: destruct Hal as [Hal|Hal]; [done|left|right].
  all: eapply exists_goto; [exact Ht|done|exact Hal].
Qed.

Lemma dead_step cl t s s' :
  queue_ok cl s -> step t s = Some s' -> forall td, probe dead s' td = true ->
  processor_active s' = true /\ forall t', probe responsible s' t' = false.
Proof.
  intros [Hr Ha _ Hd _ Hl _ _ _ _ _ _] Hs td. pose proof (Hl t) as Hlt.
  open_step Hs; specialize (Hlt _ eq_refl); simpl in Hlt; try contradiction; try congruence.
  all: pose proof (Hr t) as Hrt; pose proof (Ha t) as Hat; pose proof (Hd td) as Hdt.
  all: rewrite (probe_at _ _ _ _ Ht) in Hrt; rewrite (probe_at _ _ _ _ Ht) in Hat; simpl in *.
  all: rewrite ?probe_spawn, ?length_goto; erewrite !probe_goto by done; simpl.
  all: repeat case_decide; subst; try discriminate; intros Hpd.
  all: try (destruct (Hdt Hpd) as [Hact Hno]; pose proof (Hno t) as Hnt;
    rewrite (probe_at _ _ _ _ Ht) in Hnt; simpl in Hnt).
  all: try discriminate; try congruence.
  all: split; [by auto|]; intros t'; rewrite ?probe_spawn, ?length_goto;
    erewrite ?probe_goto by done; simpl; case_decide; try done; try apply Hno.
  all: destruct (probe responsible s t') eqn:E; [|done]; by destruct (Hrt t' eq_refl E).
Qed.

Lemma queue_step cl t s s' :
  queue_ok cl s -> step t s = Some s' -> queue s' <> [] ->
  processor_active s' = true \/ (exists t', probe storing s' t' = true).
Proof.
  intros [_ Ha _ _ Hqu Hl _ _ _ _ _ _] Hs. pose proof (Ha t) as Hat. unfold probe in Hat.
  open_step Hs; specialize (Hl t _ Ht); simpl in *; intros Hne; simpl in Hne; try contradiction; try congruence.
  all: try (left; by apply Hat).
  all: try (left; done).
  all: try (right; eapply exists_at; [eapply (tasks_goto_eq s); exact Ht|reflexivity]).
  all: destruct Hqu as [Hqu|Hqu]; [done|by left|right].
  all: try (apply exists_spawn; left).
  all: eapply exists_goto; [exact Ht|done|exact Hqu].
Qed.

(** ** Pending futures and channels *)

Definition todo_of (fl : list (future T O) * list (future T O) * list (nat * O))
    (q : list (future T O)) : list (future T O) := fl.1.1 ++ q.

Definition pending_of (fl : list (future T O) * list (future T O) * list (nat * O))
    (q : list (future T O)) : list nat :=
  (fut_tx <$> todo_of fl q) ++ (fut_tx <$> fl.1.2) ++ fl.2.*1.

Lemma todo_in_flight s : todo s = todo_of (in_flight (tasks s)) (queue s).
Proof. done. Qed.

Lemma pending_in_flight s : pending s = pending_of (in_flight (tasks s)) (queue s).
Proof. done. Qed.


Inductive todo_change t s s' : Prop :=
| todo_push f : tasks s !! t = Some (CPush f) -> todo s' = todo s ++ [f] -> todo_change t s s'
| todo_same : todo s' = todo s -> todo_change t s s'
| todo_begin f : tasks s !! t = Some (PWrite f) -> todo s = f :: todo s' -> todo_change t s s'.

Lemma todo_step cl t s s' :
  mutex s -> queue_ok cl s -> step t s = Some s' -> todo_change t s s'.
Proof.
  intros Hm [_ _ _ _ _ Hl _ _ _ _ _ _] Hs.
  open_step Hs; specialize (Hl t _ Ht); simpl in Hl; try contradiction.
  all: first
    [ eapply todo_push; [exact Ht|]; rewrite !todo_in_flight; compute_flight Hm Ht; done
    | apply todo_same; rewrite !todo_in_flight; compute_flight Hm Ht; done
    | eapply todo_begin; [exact Ht|]; rewrite !todo_in_flight; compute_flight Hm Ht; done
    | apply todo_same; rewrite !todo_in_flight; compute_flight Hm Ht; congruence ].
Qed.

Inductive pending_change t s s' : Prop :=
| pending_push f :
    tasks s !! t = Some (CPush f) -> pending s' = pending s ++ [fut_tx f] ->
    channels s' = channels s -> pending_change t s s'
| pending_same :
    (forall f, tasks s !! t <> Some (CPush f)) ->
    pending s' ≡ₚ pending s -> channels s' = channels s -> pending_change t s s'
| pending_answer tx r :
    (forall f, tasks s !! t <> Some (CPush f)) ->
    pending s ≡ₚ tx :: pending s' -> channels s' = <[tx := r]> (channels s) ->
    pending_change t s s'.

Lemma pending_step cl t s s' :
  mutex s -> queue_ok cl s -> step t s = Some s' -> pending_change t s s'.
Proof.
  intros Hm [_ _ _ _ _ Hl _ _ _ _ _ _] Hs.
  open_step Hs; specialize (Hl t _ Ht); simpl in Hl; try contradiction.
  all: first
    [ eapply pending_push; [exact Ht|rewrite !pending_in_flight; compute_flight Hm Ht|done];
      by rewrite fmap_app
    | apply pending_same; [congruence|rewrite !pending_in_flight; compute_flight Hm Ht|done];
      first [done | rewrite H; done | solve_Permutation]
    | eapply pending_answer; [congruence|rewrite !pending_in_flight; compute_flight Hm Ht|done];
      solve_Permutation].
Qed.

(** ** What a step leaves alone *)

Lemma waiting_keep t s s' t' :
  step t s = Some s' -> channels s !! t' = None -> probe waiting s t' = true ->
  probe waiting s' t' = true.
Proof.
  intros Hs Hch Hw. open_step Hs.
  all: probe_step; try done.
  all: try congruence.
  all: try (rewrite probe_end in Hw; discriminate).
  all: rewrite (probe_at _ _ _ _ Ht) in Hw; discriminate.
Qed.

Lemma waiting_new t s s' t' :
  step t s = Some s' -> probe waiting s' t' = true ->
  probe waiting s t' = true \/ (exists f, tasks s !! t = Some (CPush f) /\ t' = t).
Proof.
  intros Hs. open_step Hs.
  all: probe_step; intros; try discriminate; try (by left); try (right; eauto; done).
  all: left; by rewrite (probe_at _ _ _ _ Ht).
Qed.

Lemma channels_step cl t s s' t' :
  mutex s -> queue_ok cl s -> step t s = Some s' -> t' ∉ pending s ->
  channels s' !! t' = channels s !! t'.
Proof.
  intros Hm Hok Hs Hni.
  destruct (pending_step cl t s s' Hm Hok Hs) as [f _ _ ->|_ _ ->|tx r _ Hp ->]; try done.
  apply lookup_insert_ne. intros ->. apply Hni. rewrite Hp. by left.
Qed.

(** Only the holder of the mutex touches the queue and the flag. *)
Lemma guarded_step t s s' t' p' :
  mutex s -> step t s = Some s' -> tasks s !! t' = Some p' -> holds_queue p' = true ->
  t' <> t -> queue s' = queue s /\ processor_active s' = processor_active s.
Proof.
  intros Hm Hs Hp' Hh Hne. open_step Hs; try done.
  all: pose proof (other_idle s t' p' t _ Hm Hp' Hh Ht ltac:(congruence)); discriminate.
Qed.

Lemma local_other cl t s s' t' p' :
  mutex s -> queue_ok cl s -> step t s = Some s' -> tasks s !! t' = Some p' -> t' <> t ->
  local_ok cl s' t' p'.
Proof.
  intros Hm Hok Hs Hp' Hne. pose proof (qo_local cl s Hok t' p' Hp') as Hl.
  pose proof (guarded_step t s s' t' p' Hm Hs Hp') as Hg.
  assert (Hch : waiting p' = false -> is_processor p' = false ->
    channels s' !! t' = channels s !! t').
  { intros Hw _. apply (channels_step cl t s s' t' Hm Hok Hs). intros Hin.
    apply (qo_pending cl s Hok) in Hin as [_ Hpr]. by rewrite (probe_at _ _ _ _ Hp'), Hw in Hpr. }
  destruct p'; simpl in *; try done; try (destruct Hg as [Hg1 Hg2]; [done..|congruence]);
    rewrite Hch by done; done.
Qed.

Lemma local_self cl t s s' q :
  Forall flat cl -> mutex s -> queue_ok cl s -> step t s = Some s' ->
  tasks s' !! t = Some q -> local_ok cl s' t q.
Proof.
  intros Hflat Hm Hok Hs Hq.
  pose proof (qo_local cl s Hok t) as Hl. pose proof (qo_todo cl s Hok) as Htodo.
  rewrite todo_in_flight in Htodo. rewrite Forall_forall in Htodo.
  open_step Hs; specialize (Hl _ eq_refl); simpl in Hl; try contradiction.
  all: cbn [tasks goto spawn set_queue set_queue_lock set_inner_lock set_inner set_active
            set_channel] in Hq;
    try (rewrite lookup_app_l in Hq by (rewrite length_insert; by eapply lookup_lt_Some)).
  all: rewrite list_lookup_insert_eq in Hq by (by eapply lookup_lt_Some); simplify_eq/=; try done;
    try congruence; try (by destruct Hl as [? ?]).
  rewrite (in_flight_now s t _ Hm Ht eq_refl) in Htodo.
  specialize (Htodo f ltac:(left)). rewrite Forall_lookup in Hflat. eauto.
Qed.

Lemma local_step cl t s s' :
  Forall flat cl -> mutex s -> queue_ok cl s -> step t s = Some s' ->
  forall t' p', tasks s' !! t' = Some p' -> local_ok cl s' t' p'.
Proof.
  intros Hflat Hm Hok Hs t' p' Hp'.
  destruct (decide (t' = t)) as [->|Hne]; [by eapply local_self|].
  assert (tasks s !! t' = Some p' \/ p' = PLock) as [Hold| ->]; [|by eapply local_other|done].
  pose proof (qo_local cl s Hok t) as Hl.
  open_step Hs; specialize (Hl _ eq_refl); simpl in Hl; try contradiction; cbn in Hp'.
  all: try (rewrite list_lookup_insert_ne in Hp' by done; by left).
  apply lookup_snoc_Some in Hp' as [[_ Hp']|[_ <-]]; [|by right].
  rewrite list_lookup_insert_ne in Hp' by done. by left.
Qed.

Lemma todo_forall cl t s s' :
  mutex s -> queue_ok cl s -> step t s = Some s' ->
  Forall (fun f => cl !! fut_tx f = Some (fut_body f)) (todo s').
Proof.
  intros Hm Hok Hs. pose proof (qo_todo cl s Hok) as Ht.
  destruct (todo_step cl t s s' Hm Hok Hs) as [f Hp ->| -> |f Hp E]; [|done|].
  - apply Forall_app_2, Forall_singleton; [done|].
    destruct (qo_local cl s Hok t _ Hp) as (H1 & H2 & _). by rewrite H2.
  - rewrite E in Ht. by apply Forall_inv_tail in Ht.
Qed.

Lemma pending_ok cl t s s' :
  mutex s -> queue_ok cl s -> step t s = Some s' ->
  NoDup (pending s') /\
  (forall t', t' ∈ pending s' -> channels s' !! t' = None /\ probe waiting s' t' = true) /\
  (forall t', probe waiting s' t' = true -> t' ∈ pending s' \/ is_Some (channels s' !! t')).
Proof.
  intros Hm Hok Hs. pose proof (qo_nodup cl s Hok) as Hnd.
  pose proof (qo_pending cl s Hok) as Hpe. pose proof (qo_waiting cl s Hok) as Hwa.
  destruct (pending_step cl t s s' Hm Hok Hs) as [f Hp E Ec|Hnp E Ec|tx r Hnp E Ec].
  - destruct (qo_local cl s Hok t _ Hp) as (_ & Htx & Hch). rewrite E, Ec, Htx.
    assert (Hni : t ∉ pending s).
    { intros Hin. apply Hpe in Hin as [_ Hw]. by rewrite (probe_at _ _ _ _ Hp) in Hw. }
    split_and!.
    + apply NoDup_app. split_and!; [done| |apply NoDup_singleton]. set_solver.
    + intros t' [Hin|Hin%list_elem_of_singleton]%elem_of_app; subst.
      * destruct (Hpe t' Hin). split; [done|]. by eapply waiting_keep.
      * split; [done|]. open_step Hs. probe_step; congruence.
    + intros t' Hw. destruct (waiting_new t s s' t' Hs Hw) as [Hw'|(g & _ & ->)].
      * destruct (Hwa t' Hw'); [left; set_solver|by right].
      * left. set_solver.
  - rewrite Ec. split_and!.
    + by rewrite E.
    + intros t' Hin. rewrite E in Hin. destruct (Hpe t' Hin). split; [done|].
      by eapply waiting_keep.
    + intros t' Hw. destruct (waiting_new t s s' t' Hs Hw) as [Hw'|(g & Hg & _)];
        [|by destruct (Hnp g)].
      rewrite E. auto.
  - rewrite E in Hnd. apply NoDup_cons in Hnd as [Hni Hnd]. rewrite Ec. split_and!; [done|..].
    + intros t' Hin. destruct (Hpe t') as [Hc Hw]; [rewrite E; by right|].
      split; [|by eapply waiting_keep]. rewrite lookup_insert_ne; [done|]. congruence.
    + intros t' Hw. destruct (waiting_new t s s' t' Hs Hw) as [Hw'|(g & Hg & _)];
        [|by destruct (Hnp g)].
      destruct (decide (tx = t')) as [->|Hne]; [right; by rewrite lookup_insert_eq|].
      rewrite lookup_insert_ne by done. destruct (Hwa t' Hw') as [Hin|]; [|by right].
      left. rewrite E in Hin. set_solver.
Qed.

(** ** The invariant *)

Lemma callers_step cl t s s' :
  queue_ok cl s -> step t s = Some s' ->
  (length cl <= length (tasks s'))%nat /\
  (forall t', is_Some (tasks s' !! t') ->
    (t' < length cl)%nat <-> probe is_caller s' t' = true).
Proof.
  intros [_ _ _ _ _ Hl _ _ _ _ Hca Hsp] Hs. pose proof (Hl t) as Hlt.
  open_step Hs; specialize (Hlt _ eq_refl); simpl in Hlt; try contradiction.
  all: (split; [simpl; rewrite ?length_app, length_insert; lia|]).
  all: pose proof (Hca t ltac:(eauto)) as Hct; rewrite (probe_at _ _ _ _ Ht) in Hct.
  all: intros t' Ht'; unfold is_caller in *; probe_step; try tauto.
  all: try (apply Hca; revert Ht'; simpl; by rewrite list_lookup_insert_ne).
  - split; [lia|done].
  - apply Hca. apply lookup_lt_is_Some in Ht'. apply lookup_lt_is_Some.
    revert Ht'. simpl. rewrite length_app, length_insert. simpl. lia.
Qed.

Lemma queue_ok_init x cl : Forall flat cl -> queue_ok cl (with_callers x cl).
Proof.
  intros Hflat.
  assert (Htasks : forall t p, tasks (with_callers x cl) !! t = Some p ->
    exists b, cl !! t = Some b /\ p = CStart b).
  { intros t p H. simpl in H. rewrite list_lookup_fmap in H.
    destruct (cl !! t) as [b|]; simplify_eq/=. eauto. }
  assert (Hprobe : forall f t, probe f (with_callers x cl) t = true ->
    exists b, cl !! t = Some b /\ f (CStart b) = true).
  { intros f t H. unfold probe in H. destruct (_ !! t) as [p|] eqn:E; [|done].
    destruct (Htasks t p E) as (b & Hb & ->). eauto. }
  assert (Hfl : in_flight (tasks (with_callers x cl)) = ([], [], [])).
  { apply in_flight_free; [apply mutex_init|done]. }
  assert (Hpend : pending (with_callers x cl) = []) by (by rewrite pending_in_flight, Hfl).
  split; rewrite ?Hpend, ?todo_in_flight, ?Hfl.
  - intros t1 t2 H1 _. by destruct (Hprobe _ _ H1) as (b & _ & ?).
  - intros t1 H1. by destruct (Hprobe _ _ H1) as (b & _ & ?).
  - done.
  - intros t1 H1. by destruct (Hprobe _ _ H1) as (b & _ & ?).
  - done.
  - intros t p H. destruct (Htasks t p H) as (b & Hb & ->). done.
  - constructor.
  - constructor.
  - by intros t Hin%elem_of_nil.
  - intros t H1. by destruct (Hprobe _ _ H1) as (b & _ & ?).
  - intros t [p Hp]. rewrite (probe_at _ _ _ _ Hp). destruct (Htasks t p Hp) as (b & Hb & ->).
    split; [done|]. intros _. by eapply lookup_lt_Some.
  - simpl. by rewrite length_fmap.
Qed.

Lemma queue_ok_step cl t s s' :
  Forall flat cl -> mutex s -> queue_ok cl s -> step t s = Some s' -> queue_ok cl s'.
Proof.
  intros Hflat Hm Hok Hs.
  destruct (pending_ok cl t s s' Hm Hok Hs) as (H1 & H2 & H3).
  destruct (callers_step cl t s s' Hok Hs) as (H4 & H5).
  split; eauto using resp_step, active_step, alive_step, dead_step, queue_step, local_step, todo_forall.
Qed.

Lemma mutex_reachable x cl s : reachable step (with_callers x cl) s -> mutex s.
Proof.
  apply invariant_reachable; [apply mutex_init|]. intros t s1 s2 Hm Hs. by eapply mutex_step.
Qed.

Lemma ok_reachable x cl s :
  Forall flat cl -> reachable step (with_callers x cl) s -> mutex s /\ queue_ok cl s.
Proof.
  intros Hflat.
  apply (invariant_reachable step (fun s => mutex s /\ queue_ok cl s)).
  - split; [apply mutex_init|by apply queue_ok_init].
  - intros t s1 s2 [Hm Hok] Hs. split; [by eapply mutex_step|by eapply queue_ok_step].
Qed.
End invariants.
