(* ===== verification/ContextQueueProps.v ===== *)
(** * What the context queue guarantees

    The concrete machine refines a log of closures applied one at a time; no
    execution is infinite and every maximal one answers every caller; a panic
    of one closure or a nested call on the same queue blocks it for good. *)

From S2P Require Import Prelude Async ContextQueue ContextQueueInv.

Section refinement.
Context {T O : Type}.
Implicit Types (s : state T O) (p : pc T O) (t : nat) (x : T) (cl : list (body T O)) (a : spec T O).

Definition settle_of (x : T) (ch : gmap nat (option O))
    (fl : list (future T O) * list (future T O) * list (nat * O)) : T * gmap nat (option O) :=
  let (x, outs) := foldl apply_future (x, ch) fl.1.2 in
  (x, foldl (fun m '(tx, o) => <[tx := Some o]> m) outs fl.2).

Lemma settle_in_flight s : settle s = settle_of (inner s) (channels s) (in_flight (tasks s)).
Proof. done. Qed.

Lemma replay_snoc (x : T) (l : list (future T O)) f :
  replay x (l ++ [f]) = apply_future (replay x l) f.
Proof. unfold replay. by rewrite foldl_app. Qed.

Lemma settle_free s :
  mutex s -> queue_lock s = None -> settle s = (inner s, channels s) /\ todo s = queue s.
Proof.
  intros Hm Hl. rewrite settle_in_flight, todo_in_flight. by rewrite in_flight_free.
Qed.

(** The closure takes effect when its future takes the write lock. *)
Lemma settle_step cl t s s' :
  mutex s -> queue_ok cl s -> step t s = Some s' ->
  (exists f, todo s = f :: todo s' /\ settle s' = apply_future (settle s) f) \/
  (settle s' = settle s /\
    (todo s' = todo s \/ exists f, tasks s !! t = Some (CPush f) /\ todo s' = todo s ++ [f])).
Proof.
  intros Hm Hok Hs. pose proof (todo_step cl t s s' Hm Hok Hs) as Htodo.
  pose proof (qo_local cl s Hok t) as Hl.
  assert ((forall f, tasks s !! t <> Some (PWrite f)) -> settle s' = settle s) as Hsame.
  { intros Hnw. clear Htodo. open_step Hs; specialize (Hl _ eq_refl); simpl in Hl;
      try contradiction; try (by destruct (Hnw f));
      rewrite !settle_in_flight; by compute_flight Hm Ht. }
  destruct Htodo as [f Hp E|E|f Hp E].
  - right. split; [apply Hsame; congruence|eauto].
  - destruct (tasks s !! t) as [p|] eqn:Hp; [|by unfold step in Hs; rewrite Hp in Hs].
    right. split; [|by left]. apply Hsame. intros f [= ->].
    clear Hsame Hl. unfold step in Hs. rewrite Hp in Hs. simpl in Hs.
    destruct (inner_lock s); simplify_eq. exfalso. revert E.
    rewrite !todo_in_flight. compute_flight Hm Hp. intros E.
    apply (f_equal length) in E. simpl in E. lia.
  - left. exists f. split; [done|]. clear Hsame E. unfold step in Hs. rewrite Hp in Hs.
    simpl in Hs. destruct (inner_lock s); simplify_eq.
    rewrite !settle_in_flight. compute_flight Hm Hp. destruct f as [b tx].
    unfold settle_of, in_flight_at. simpl. by destruct (run_body b (inner s)).
Qed.

(** ** The log holds each caller's closure at most once *)

Lemma dom_apply_future acc (f : future T O) : dom (apply_future acc f).2 = {[ fut_tx f ]} ∪ dom acc.2.
Proof.
  destruct acc as [y outs]. simpl. destruct (run_body (fut_body f) y). simpl. by rewrite dom_insert_L.
Qed.

Lemma replay_outputs x (l : list (future T O)) t : t ∈ dom (replay x l).2 <-> t ∈ (fut_tx <$> l).
Proof.
  induction l as [|f l IH] using rev_ind; [simpl; set_solver|].
  rewrite replay_snoc, dom_apply_future, fmap_app. set_solver.
Qed.

Lemma dom_settle s t :
  t ∈ dom (settle s).2 -> t ∈ pending s \/ is_Some (channels s !! t).
Proof.
  rewrite settle_in_flight, pending_in_flight. unfold settle_of, pending_of.
  destruct (in_flight (tasks s)) as [[st run] snd]. simpl.
  destruct (foldl apply_future _ run) as [y outs] eqn:E. simpl.
  assert (Ho : t ∈ dom outs -> t ∈ (fut_tx <$> run) \/ is_Some (channels s !! t)).
  { clear -E. revert y outs E. induction run as [|f l IH] using rev_ind; intros y outs E.
    - simplify_eq/=. rewrite elem_of_dom. auto.
    - rewrite foldl_app in E. destruct (foldl apply_future (inner s, channels s) l) as [y' outs'].
      apply (f_equal snd) in E. simpl in E. subst outs.
      pose proof (dom_apply_future (y', outs') f) as Hd. simpl in Hd. rewrite Hd, fmap_app.
      specialize (IH _ _ eq_refl). set_solver. }
  intros Ht. enough (t ∈ dom outs \/ t ∈ snd.*1) as [H|H]; [destruct (Ho H); set_solver|set_solver|].
  clear -Ht. revert outs Ht. induction snd as [|[tx o] l IH]; intros outs Ht; [by left|].
  simpl in Ht. destruct (IH _ Ht) as [H|H]; [|set_solver].
  rewrite dom_insert_L in H. set_solver.
Qed.

Lemma fresh_push cl t s f x hist :
  queue_ok cl s -> tasks s !! t = Some (CPush f) -> replay x hist = settle s ->
  of_caller cl f /\ fut_tx f ∉ (fut_tx <$> hist ++ todo s).
Proof.
  intros Hok Hp Hrep. destruct (qo_local cl s Hok t _ Hp) as (Hc & Htx & Hch).
  rewrite Htx in *. split; [by unfold of_caller; rewrite Htx|].
  assert (t ∉ pending s) as Hni.
  { intros Hin. apply (qo_pending cl s Hok) in Hin as [_ Hw]. by rewrite (probe_at _ _ _ _ Hp) in Hw. }
  rewrite fmap_app, not_elem_of_app. split.
  - intros Hin. rewrite <-(replay_outputs x), Hrep in Hin.
    apply dom_settle in Hin as [?|[? ?]]; congruence.
  - intros Hin. apply Hni. unfold pending. set_solver.
Qed.

(** A push goes to the end of what is to be done. *)
Lemma todo_push_step t s s' f :
  tasks s !! t = Some (CPush f) -> step t s = Some s' -> todo s' = todo s ++ [f].
Proof.
  intros Ht Hs. unfold step in Hs. rewrite Ht in Hs. simpl in Hs. simplify_eq. unfold todo. simpl.
  by rewrite (omap_insert_none starting_of (tasks s) t (CPush f) CLoad), app_assoc.
Qed.

Lemma pushing_none t s : (forall f, tasks s !! t <> Some (CPush f)) -> pushing t s = [].
Proof. intros Hno. unfold pushing. destruct (tasks s !! t) as [[]|]; try done. by destruct (Hno f). Qed.

(** A step of the machine is a step of the log, to which it adds what is pushed. *)
Lemma refines_step x cl t s s' a :
  mutex s -> queue_ok cl s -> refines x s a -> step t s = Some s' ->
  exists a', rtc (spec_step cl) a a' /\ log a' = log a ++ pushing t s /\ refines x s' a'.
Proof.
  intros Hm Hok (hist & Hlog & Happ & Hrep) Hs.
  assert (Hlen : forall f, tasks s !! t = Some (CPush f) -> length (todo s') = S (length (todo s))).
  { intros f Hp. rewrite (todo_push_step t s s' f Hp Hs), length_app. simpl. lia. }
  destruct (settle_step cl t s s' Hm Hok Hs) as [(f & Ht & Hse)|(Hse & [Ht|(f & Hp & Ht)])].
  - exists (Spec (log a) (S (applied a))). split_and!.
    + apply rtc_once, spec_apply. rewrite Hlog, Happ, Ht, length_app. simpl. lia.
    + rewrite pushing_none, app_nil_r; [done|]. intros g Hg. apply Hlen in Hg. rewrite Ht in Hg. simpl in Hg. lia.
    + exists (hist ++ [f]). simpl. rewrite Hlog, Ht, <-app_assoc, length_app, replay_snoc.
      rewrite Hrep, Hse. simpl. split_and!; [done|lia|done].
  - exists a. split_and!; [done| |exists hist; by rewrite Ht, Hse].
    rewrite pushing_none, app_nil_r; [done|]. intros g Hg. apply Hlen in Hg. rewrite Ht in Hg. lia.
  - destruct (fresh_push cl t s f x hist Hok Hp Hrep) as [Hc Hni].
    exists (Spec (log a ++ [f]) (applied a)). split_and!.
    + apply rtc_once, spec_accept; [done|by rewrite Hlog].
    + unfold pushing. by rewrite Hp.
    + exists hist. simpl. by rewrite Hlog, Ht, Hse, <-app_assoc.
Qed.

Lemma refines_init x cl : refines x (with_callers x cl : state T O) (Spec [] 0).
Proof.
  exists []. pose proof (settle_free (with_callers x cl) (mutex_init x cl) eq_refl) as [E1 E2].
  by rewrite E1, E2.
Qed.

Lemma refines_exec x cl sched s a s' :
  Forall flat cl -> mutex s -> queue_ok cl s -> refines x s a -> exec step sched s = Some s' ->
  exists a', rtc (spec_step cl) a a' /\ log a' = log a ++ accepted sched s /\
    mutex s' /\ queue_ok cl s' /\ refines x s' a'.
Proof.
  intros Hflat. revert s a. induction sched as [|t sched IH]; intros s a Hm Hok HR E; cbn [exec accepted] in *.
  { simplify_eq. exists a. by rewrite app_nil_r. }
  destruct (step t s) as [s1|] eqn:Hs; [|done].
  destruct (refines_step x cl t s s1 a Hm Hok HR Hs) as (a1 & Ha1 & Hl1 & HR1).
  destruct (IH s1 a1) as (a' & Ha' & Hl' & H); [by eapply mutex_step|by eapply (queue_ok_step cl t s)|done..|].
  exists a'. split; [by etrans|]. split; [by rewrite Hl', Hl1, <-app_assoc|done].
Qed.

Lemma refines_from x cl s a s' :
  Forall flat cl -> mutex s -> queue_ok cl s -> refines x s a -> reachable step s s' ->
  exists a', rtc (spec_step cl) a a' /\ mutex s' /\ queue_ok cl s' /\ refines x s' a'.
Proof.
  intros Hflat Hm Hok HR [sched E]. destruct (refines_exec x cl sched s a s' Hflat Hm Hok HR E) as (a' & ? & _ & ?). eauto.
Qed.

(** The whole execution from the beginning: the log is what has been pushed. *)
Lemma refines_start x cl sched s :
  Forall flat cl -> exec step sched (with_callers x cl) = Some s ->
  exists a, rtc (spec_step cl) (Spec [] 0) a /\ log a = accepted sched (with_callers x cl) /\
    mutex s /\ queue_ok cl s /\ refines x s a.
Proof.
  intros Hflat E. apply (refines_exec x cl sched _ (Spec [] 0)); [done|apply mutex_init|by apply queue_ok_init|apply refines_init|done].
Qed.

Lemma refines_reachable x cl s :
  Forall flat cl -> reachable step (with_callers x cl) s ->
  exists a, rtc (spec_step cl) (Spec [] 0) a /\ mutex s /\ queue_ok cl s /\ refines x s a.
Proof. intros Hflat [sched E]. destruct (refines_start x cl sched s Hflat E) as (a & ? & _ & ?). eauto. Qed.

(** What the abstract log looks like at every moment. *)
Definition log_of_callers cl (l : list (future T O)) : Prop :=
  Forall (of_caller cl) l /\ NoDup (fut_tx <$> l).

Lemma spec_log cl a a' :
  rtc (spec_step cl) a a' -> log_of_callers cl (log a) -> log_of_callers cl (log a').
Proof.
  unfold log_of_callers.
  induction 1 as [|a1 a2 a3 Hs _ IH]; [done|]. intros [H1 H2]. apply IH.
  destruct Hs as [a f Hc Hni|a]; simpl; [|done]. rewrite fmap_app. split.
  - apply Forall_app_2; [done|]. by apply Forall_singleton.
  - apply NoDup_app. simpl. set_solver by eauto using NoDup_singleton.
Qed.

(** A finished caller's output is already in the replayed outputs. *)
Lemma done_settle cl s t o :
  queue_ok cl s -> tasks s !! t = Some (CDone o) -> (settle s).2 !! t = Some (Some o).
Proof.
  intros Hok Hp. pose proof (qo_local cl s Hok t _ Hp) as Hch. simpl in Hch.
  assert (t ∉ pending s) as Hni.
  { intros Hin. apply (qo_pending cl s Hok) in Hin as [? _]. congruence. }
  rewrite pending_in_flight in Hni. rewrite settle_in_flight. unfold settle_of, pending_of in *.
  destruct (in_flight (tasks s)) as [[st run] snd]. simpl in *.
  assert (Hrun : t ∉ (fut_tx <$> run)) by set_solver. assert (Hsnd : t ∉ snd.*1) by set_solver.
  clear -Hrun Hsnd Hch. generalize (inner s). revert Hch. generalize (channels s).
  induction run as [|f l IH]; intros m Hch y; simpl.
  - revert m Hch. induction snd as [|[tx o'] l IH]; intros m Hch; [done|]. simpl.
    apply IH; [set_solver|]. rewrite lookup_insert_ne; set_solver.
  - destruct (run_body (fut_body f) y) as [y' r]. apply IH; [set_solver|].
    rewrite lookup_insert_ne; set_solver.
Qed.

(** The applied part of the log only grows at its end. *)
Lemma spec_prefix cl a a' :
  rtc (spec_step cl) a a' -> (applied a <= length (log a))%nat ->
  take (applied a) (log a) `prefix_of` take (applied a') (log a') /\
  (applied a' <= length (log a'))%nat.
Proof.
  induction 1 as [|a1 a2 a3 Hs _ IH]; [done|]. intros Hle.
  assert (take (applied a1) (log a1) `prefix_of` take (applied a2) (log a2) /\
    (applied a2 <= length (log a2))%nat) as [Hp Hle2].
  { destruct Hs as [a f Hc Hni|a Hlt]; simpl.
    - rewrite take_app_le, length_app by done. split; [done|lia].
    - split; [|lia]. destruct (lookup_lt_is_Some_2 (log a) (applied a) Hlt) as [f Hf].
      rewrite (take_S_r _ _ f Hf). by eexists. }
  destruct (IH Hle2) as [Hp2 Hle3]. split; [by etrans|done].
Qed.

Lemma refines_hist x s a hist :
  log a = hist ++ todo s -> applied a = length hist -> take (applied a) (log a) = hist.
Proof. intros -> ->. apply take_app_length. Qed.

(** A call that has not pushed its closure is not in the applied log. *)
Lemma unstarted cl s t b x hist :
  queue_ok cl s -> tasks s !! t = Some (CStart b) -> replay x hist = settle s ->
  t ∉ (fut_tx <$> hist).
Proof.
  intros Hok Hp Hrep Hin. destruct (qo_local cl s Hok t _ Hp) as [_ Hch].
  rewrite <-(replay_outputs x), Hrep in Hin.
  apply dom_settle in Hin as [Hin|[? ?]]; [|congruence].
  apply (qo_pending cl s Hok) in Hin as [_ Hw]. by rewrite (probe_at _ _ _ _ Hp) in Hw.
Qed.

(** At any moment of an execution the accepted futures are those applied, in
    order, and those to do. *)
Lemma linearize x cl sched s :
  Forall flat cl -> exec step sched (with_callers x cl) = Some s ->
  exists hist, accepted sched (with_callers x cl) = hist ++ todo s /\
    log_of_callers cl (hist ++ todo s) /\ replay x hist = settle s.
Proof.
  intros Hflat E.
  destruct (refines_start x cl sched s Hflat E) as (a & Ha & Hl & _ & _ & hist & Hlog & _ & Hrep).
  exists hist. split; [by rewrite <-Hl|]. split; [|done]. rewrite <-Hlog. eapply spec_log; [done|].
  split; constructor.
Qed.

(** C5 (refinement): the concrete queue, its mutex, flag, processor tasks and
    oneshot channels under every scheduler, implements a log that accepts each
    caller's closure at most once and applies the accepted closures one at a
    time in the order of acceptance, for closures that do not use the queue they
    run on. The log is not chosen state by state: at every moment of an execution
    it is the list of the futures that callers have pushed so far, in the order in
    which they pushed them, and the log of a later moment is reached from that of
    an earlier one by the steps of the specification. *)
Theorem queue_refines_log x cl sched1 sched2 s1 s2 :
  Forall flat cl -> exec step sched1 (with_callers x cl) = Some s1 -> exec step sched2 s1 = Some s2 ->
  exists a1 a2, rtc (spec_step cl) (Spec [] 0) a1 /\ rtc (spec_step cl) a1 a2 /\
    log a1 = accepted sched1 (with_callers x cl) /\
    log a2 = accepted sched1 (with_callers x cl) ++ accepted sched2 s1 /\
    refines x s1 a1 /\ refines x s2 a2.
Proof.
  intros Hflat E1 E2. destruct (refines_start x cl sched1 s1 Hflat E1) as (a1 & Ha1 & Hl1 & Hm & Hok & HR1).
  destruct (refines_exec x cl sched2 s1 a1 s2 Hflat Hm Hok HR1 E2) as (a2 & Ha2 & Hl2 & _ & _ & HR2).
  exists a1, a2. rewrite <-Hl1. by split_and!.
Qed.

(** C1 (functional): calls of [schedule_and_wait] are linearizable, for
    closures that do not use the queue they run on. At any two
    moments of an execution there are logs of distinct callers, the later one
    extending the earlier, such that a finished call returned what its closure
    gives when the log is replayed sequentially, a call not yet started is not
    in the earlier log, and the context is the replayed one whenever the queue
    is unlocked. *)
Theorem queue_linearizable x cl s1 s2 :
  Forall flat cl -> reachable step (with_callers x cl) s1 -> reachable step s1 s2 ->
  exists h1 h2, h1 `prefix_of` h2 /\ log_of_callers cl h2 /\
    (forall t o, tasks s1 !! t = Some (CDone o) -> (replay x h1).2 !! t = Some (Some o)) /\
    (forall t o, tasks s2 !! t = Some (CDone o) -> (replay x h2).2 !! t = Some (Some o)) /\
    (forall t b, tasks s1 !! t = Some (CStart b) -> t ∉ (fut_tx <$> h1)) /\
    (queue_lock s2 = None -> inner s2 = (replay x h2).1).
Proof.
  intros Hflat Hr1 Hr2.
  destruct (refines_reachable x cl s1 Hflat Hr1) as (a1 & Ha1 & Hm1 & Hok1 & HR1).
  destruct (refines_from x cl s1 a1 s2 Hflat Hm1 Hok1 HR1 Hr2) as (a2 & Ha2 & Hm2 & Hok2 & HR2).
  destruct HR1 as (h1 & Hl1 & Hn1 & E1). destruct HR2 as (h2 & Hl2 & Hn2 & E2).
  exists h1, h2. split_and!.
  - rewrite <-(refines_hist x s1 a1 h1), <-(refines_hist x s2 a2 h2) by done.
    eapply spec_prefix; [done|]. rewrite Hl1, Hn1, length_app. lia.
  - assert (log_of_callers cl (log a2)) as [H1 H2].
    { apply (spec_log cl (Spec [] 0) a2); [by etrans|]. split; constructor. }
    rewrite Hl2 in H1, H2. rewrite fmap_app in H2. apply Forall_app in H1 as [? _].
    apply NoDup_app in H2 as [? _]. by split.
  - intros t o Hp. rewrite E1. by eapply done_settle.
  - intros t o Hp. rewrite E2. by eapply done_settle.
  - intros t b Hp. by apply (unstarted cl s1 t b x h1).
  - intros Hl. by rewrite E2, (proj1 (settle_free s2 Hm2 Hl)).
Qed.
End refinement.

(** ** Two callers that add to a counter and return it *)

Definition bump (n : Z) : body Z Z := Poll (fun x => x + n) (fun x => Finish (x + n)).

(** Caller 0 schedules and its processor, task 2, serves it; caller 1 pushes
    meanwhile and is served by the same processor. *)
Definition bump_sched : list nat :=
  [0; 0; 0; 0; 0; 0; 0; 2; 2; 2; 1; 2; 2; 2; 2; 2; 1; 1; 1; 1; 0; 2; 2; 2; 2; 2; 2; 2; 2; 1;
   2; 2; 2; 2]%nat.

Lemma bump_exec : exists s1 s,
  exec step (take 12 bump_sched) (with_callers 10 [bump 1; bump 5]) = Some s1 /\
  exec step (drop 12 bump_sched) s1 = Some s /\
  (tasks s, inner s, queue_lock s) = ([CDone 11; CDone 16; PExited], 16, None).
Proof.
  destruct (exec step (take 12 bump_sched) (with_callers 10 [bump 1; bump 5])) as [s1|] eqn:E1;
    [|vm_compute in E1; discriminate E1].
  vm_compute in E1. injection E1 as <-. eexists _, _.
  split; [reflexivity|]. split; [vm_compute; reflexivity|reflexivity].
Qed.

Lemma bump_ends : exists s,
  reachable step (with_callers 10 [bump 1; bump 5]) s /\
  (tasks s, inner s, queue_lock s) = ([CDone 11; CDone 16; PExited], 16, None).
Proof.
  destruct bump_exec as (s1 & s & E1 & E2 & Hs). exists s. split; [|done].
  eapply reachable_trans; by eexists.
Qed.

Lemma queue_refines_log_witness :
  exists s a1 a2, tasks s = [CDone 11; CDone 16; PExited] /\
    rtc (spec_step [bump 1; bump 5]) (Spec [] 0) a1 /\ log a1 = [Future (bump 1) 0] /\
    rtc (spec_step [bump 1; bump 5]) a1 a2 /\ refines 10 s a2.
Proof.
  destruct bump_exec as (s1 & s & E1 & E2 & Hs). injection Hs as Ht Hi Hl.
  destruct (queue_refines_log 10 [bump 1; bump 5] (take 12 bump_sched) (drop 12 bump_sched) s1 s)
    as (a1 & a2 & H1 & H2 & H3 & _ & _ & H4).
  - repeat constructor.
  - exact E1.
  - exact E2.
  - exists s, a1, a2. split_and!; [exact Ht|exact H1| |exact H2|exact H4]. rewrite H3. vm_compute. reflexivity.
Defined.

Lemma queue_linearizable_witness :
  exists h, log_of_callers [bump 1; bump 5] h /\
    (replay 10 h).2 !! 1%nat = Some (Some 16) /\ (replay 10 h).1 = 16.
Proof.
  destruct bump_ends as (s & Hr & Hs). injection Hs as Ht Hx Hl.
  destruct (queue_linearizable 10 [bump 1; bump 5] s s) as (h1 & h2 & _ & Hc & _ & Hd & _ & Hi).
  - repeat constructor.
  - exact Hr.
  - apply reachable_refl.
  - exists h2. split_and!; [done| |by rewrite <-Hi].
    apply Hd. by rewrite Ht.
Defined.
