(* ===== verification/ContextQueueLive.v ===== *)
(** * Progress of the context queue, and the two ways to lose it

    Every execution on closures that do not use their own queue is finite and,
    when none of them panics, ends with every caller answered. A panic, or a
    closure that schedules on its own queue, blocks the queue for good. *)

From S2P Require Import Prelude Async ContextQueue ContextQueueInv ContextQueueProps.

Section measure.
Context {T O : Type}.
Implicit Types (s : state T O) (p : pc T O) (t : nat) (x : T) (cl : list (body T O)).

(** How far a task is from its end; a queued future costs one iteration of the
    processor's loop. *)
Definition weight p : nat :=
  match p with
  | CStart _ => 19 | CLock _ => 18 | CPush _ => 17 | CLoad => 9 | CStore => 8
  | CSpawn => 7 | CUnlock => 2 | CRecv => 1 | CDone _ => 0 | CPanicked => 0
  | PLock => 4 | PCheck => 3 | PStore => 2 | PBreak => 1 | PPop => 2
  | PWrite _ => 8 | PRun _ _ => 7 | PAwait _ _ _ => 7 | PSend _ _ => 6 | PUnlock => 5
  | PExited => 0 | PDead => 0
  end.

Definition work s : nat := sum_list_with weight (tasks s) + 7 * length (queue s).

(** The future a processor is polling. *)
Definition polled s : list (future T O) := omap running_of (tasks s).

(** No task has panicked, and none can. *)
Definition calm p : Prop :=
  match p with
  | PRun b _ => safe b
  | PDead | CPanicked => False
  | _ => True
  end.

Definition all_calm s : Prop :=
  (forall t p, tasks s !! t = Some p -> calm p) /\ (forall t, channels s !! t <> Some None).

Lemma sum_insert (l : list (pc T O)) t p q :
  l !! t = Some p ->
  (sum_list_with weight (<[t := q]> l) + weight p = sum_list_with weight l + weight q)%nat.
Proof.
  revert t. induction l as [|y l IH]; intros [|t] Hp; simplify_eq/=; [lia|].
  specialize (IH t Hp). lia.
Qed.

Lemma sum_snoc (l : list (pc T O)) p :
  sum_list_with weight (l ++ [p]) = (sum_list_with weight l + weight p)%nat.
Proof. induction l as [|y l IH]; simpl; [lia|]. rewrite IH. lia. Qed.

(** A step makes the work smaller, or is one poll of the running future. *)
Lemma work_step cl t s s' :
  mutex s -> queue_ok cl s -> step t s = Some s' ->
  (work s' < work s)%nat \/
  (work s' = work s /\ exists g k tx,
    polled s = [Future (Poll g k) tx] /\ polled s' = [Future (k (inner s)) tx]).
Proof.
  intros Hm Hok Hs. pose proof (qo_local cl s Hok t) as Hl.
  assert (forall tx g k, tasks s !! t = Some (PRun (Poll g k) tx) ->
    polled s = [Future (Poll g k) tx] /\
    polled (goto t (PRun (k (inner s)) tx) (set_inner (g (inner s)) s)) =
      [Future (k (inner s)) tx]) as Hpoll.
  { intros tx g k Ht. pose proof (in_flight_now s t _ Hm Ht eq_refl) as E1.
    pose proof (in_flight_only s t _ (PRun (k (inner s)) tx) Hm Ht eq_refl) as E2.
    unfold in_flight, in_flight_at in E1, E2. simpl in *. unfold polled. simpl.
    split; congruence. }
  open_step Hs; specialize (Hl _ eq_refl); simpl in Hl; try contradiction.
  all: match goal with
    | |- (work (goto _ ?q _) < _)%nat \/ _ => pose proof (sum_insert _ _ _ q Ht) as Hsum
    | |- (work (spawn _ (goto _ ?q _)) < _)%nat \/ _ => pose proof (sum_insert _ _ _ q Ht) as Hsum
    end; simpl in Hsum.
  all: try (right; unfold work; simpl; split; [lia|]; eauto; fail).
  all: left; unfold work; simpl; rewrite ?sum_snoc, ?length_app; simpl;
    repeat match goal with H : queue _ = _ |- _ => rewrite H in *; clear H; simpl in * end; try lia.
  all: repeat case_match; simpl in *; lia.
Qed.

Lemma terminates_ok cl n s :
  Forall flat cl -> (work s < n)%nat -> mutex s -> queue_ok cl s -> terminates step s.
Proof.
  intros Hflat. revert s. induction n as [|n IH]; [lia|].
  assert (Hone : forall b tx s, polled s = [Future b tx] -> (work s <= n)%nat ->
    mutex s -> queue_ok cl s -> terminates step s).
  { induction b as [o| |g k IHk|b IHb k IHk]; intros tx s Hp Hn Hm Hok.
    all: constructor; intros s' [t Hs].
    all: pose proof (mutex_step t s s' Hm Hs) as Hm'.
    all: pose proof (queue_ok_step cl t s s' Hflat Hm Hok Hs) as Hok'.
    all: destruct (work_step cl t s s' Hm Hok Hs) as [Hlt|(Heq & g' & k' & tx' & E1 & E2)];
      [apply IH; [lia|done..]|]; rewrite Hp in E1; simplify_eq.
    eapply IHk; [done|lia|done..]. }
  intros s Hn Hm Hok. constructor. intros s' [t Hs].
  pose proof (mutex_step t s s' Hm Hs) as Hm'.
  pose proof (queue_ok_step cl t s s' Hflat Hm Hok Hs) as Hok'.
  destruct (work_step cl t s s' Hm Hok Hs) as [Hlt|(Heq & g & k & tx & E1 & E2)].
  - apply IH; [lia|done..].
  - eapply Hone; [done|lia|done..].
Qed.

(** ** Safe closures *)

Lemma safe_flat (b : body T O) : safe b -> flat b.
Proof. induction b; simpl; [done..| |done]. eauto. Qed.

Lemma safe_all_flat cl : Forall safe cl -> Forall flat cl.
Proof. intros H. eapply Forall_impl; [exact H|apply safe_flat]. Qed.

Lemma calm_init x cl : all_calm (with_callers x cl).
Proof.
  split; [|done]. intros t p H. simpl in H. rewrite list_lookup_fmap in H.
  by destruct (cl !! t); simplify_eq/=.
Qed.

Lemma calm_step cl t s s' :
  Forall safe cl -> mutex s -> queue_ok cl s -> all_calm s -> step t s = Some s' -> all_calm s'.
Proof.
  intros Hsafe Hm Hok [Hc Hch] Hs.
  pose proof (qo_todo cl s Hok) as Htodo. rewrite todo_in_flight, Forall_forall in Htodo.
  rewrite Forall_lookup in Hsafe. split.
  - intros t' p' Hp'. pose proof (Hc t) as Hct. pose proof (qo_local cl s Hok t) as Hl.
    open_step Hs; specialize (Hl _ eq_refl); specialize (Hct _ eq_refl); simpl in Hl, Hct;
      try contradiction; try (by destruct (Hch t)); cbn in Hp'.
    all: try (apply lookup_snoc_Some in Hp' as [[_ Hp']|[_ <-]]; [|done]).
    all: destruct (decide (t = t')) as [<-|Hne];
      [rewrite list_lookup_insert_eq in Hp' by (by eapply lookup_lt_Some); simplify_eq/=
      |rewrite list_lookup_insert_ne in Hp' by done; by eapply Hc]; try done.
    rewrite (in_flight_now s t _ Hm Ht eq_refl) in Htodo.
    specialize (Htodo f ltac:(left)). eauto.
  - intros t'. pose proof (Hc t) as Hct. pose proof (qo_local cl s Hok t) as Hl.
    open_step Hs; specialize (Hl _ eq_refl); specialize (Hct _ eq_refl); simpl in Hl, Hct;
      try contradiction; try (by destruct (Hch t)); try apply Hch.
    cbn. destruct (decide (tx = t')) as [->|]; [by rewrite lookup_insert_eq|].
    rewrite lookup_insert_ne by done. apply Hch.
Qed.

Lemma calm_reachable x cl s :
  Forall safe cl -> reachable step (with_callers x cl) s ->
  mutex s /\ queue_ok cl s /\ all_calm s.
Proof.
  intros Hsafe. pose proof (safe_all_flat cl Hsafe) as Hflat.
  apply (invariant_reachable step (fun s => mutex s /\ queue_ok cl s /\ all_calm s)).
  - split_and!; [apply mutex_init|by apply queue_ok_init|apply calm_init].
  - intros t s1 s2 (Hm & Hok & Hc) Hs.
    split_and!; [by eapply mutex_step|by eapply queue_ok_step|by eapply calm_step].
Qed.
End measure.

(** ** At rest *)

Section at_rest.
Context {T O : Type}.
Implicit Types (s : state T O) (p : pc T O) (t : nat) (x : T) (cl : list (body T O)).

(** A task that can still move when nobody holds the queue. *)
Definition idle p : bool :=
  match p with CRecv | CDone _ | CPanicked | PExited | PDead => true | _ => false end.

Lemma rest_unlocked cl s : mutex s -> queue_ok cl s -> quiescent step s -> queue_lock s = None.
Proof.
  intros Hm Hok Hq. destruct (queue_lock s) as [t|] eqn:E; [|done]. exfalso.
  pose proof (proj1 (mutex_queue s Hm t) E) as Hh. unfold probe in Hh.
  destruct (tasks s !! t) as [p|] eqn:Ht; [|done].
  pose proof (qo_local cl s Hok t _ Ht) as Hl. specialize (Hq t). unfold step in Hq.
  rewrite Ht in Hq. destruct p; simpl in *; try done.
  - by destruct (queue s).
  - destruct (inner_lock s) as [t'|] eqn:El; [|done].
    pose proof (proj1 (mutex_context s Hm t') El) as Hc. unfold probe in Hc.
    destruct (tasks s !! t') as [p'|] eqn:Ht'; [|done].
    destruct (decide (t' = t)) as [->|Hne]; [by simplify_eq|].
    pose proof (other_idle s t _ t' p' Hm Ht eq_refl Ht' Hne). by destruct p'.
  - by destruct b.
Qed.

Lemma rest_idle cl s t p :
  mutex s -> queue_ok cl s -> quiescent step s -> tasks s !! t = Some p -> idle p = true.
Proof.
  intros Hm Hok Hq Ht. pose proof (rest_unlocked cl s Hm Hok Hq) as Hl.
  pose proof (mutex_queue s Hm t) as Hh. rewrite Hl, (probe_at _ _ _ _ Ht) in Hh.
  specialize (Hq t). unfold step in Hq. rewrite Ht in Hq.
  destruct p; simpl in *; rewrite ?Hl in Hq; try done; exfalso; naive_solver.
Qed.

(** At rest with every task calm: the queue is empty, the flag is down and
    every caller has its answer. *)
Lemma rest_calm cl s :
  mutex s -> queue_ok cl s -> all_calm s -> quiescent step s ->
  queue_lock s = None /\ queue s = [] /\ processor_active s = false /\
  (forall t, (t < length cl)%nat -> exists o, tasks s !! t = Some (CDone o)).
Proof.
  intros Hm Hok [Hc Hch] Hq. pose proof (rest_unlocked cl s Hm Hok Hq) as Hl.
  assert (Hno : forall f t, (forall p, idle p = true -> calm p -> f p = false) ->
    probe f s t <> true).
  { intros f t Hf Hp. unfold probe in Hp. destruct (tasks s !! t) as [p|] eqn:Ht; [|done].
    rewrite Hf in Hp; [done|by eapply rest_idle|by eapply Hc]. }
  assert (Hact : processor_active s = false).
  { destruct (processor_active s) eqn:E; [|done]. exfalso.
    destruct (qo_alive cl s Hok E) as [[t Ht]|[t Ht]]; revert Ht; apply Hno; by intros []. }
  assert (Hqe : queue s = []).
  { destruct (queue s) eqn:E; [done|]. exfalso.
    destruct (qo_queue cl s Hok) as [?|[t Ht]]; [by rewrite E|congruence|].
    revert Ht. apply Hno. by intros []. }
  split_and!; [done..|]. intros t Hlt.
  destruct (lookup_lt_is_Some_2 (tasks s) t) as [p Ht].
  { pose proof (qo_spawned cl s Hok). lia. }
  pose proof (proj1 (qo_callers cl s Hok t ltac:(eauto)) Hlt) as Hca.
  rewrite (probe_at _ _ _ _ Ht) in Hca.
  pose proof (rest_idle cl s t p Hm Hok Hq Ht) as Hi. pose proof (Hc t p Ht) as Hcp.
  destruct p; simpl in *; try done; [|eauto]. exfalso.
  destruct (qo_waiting cl s Hok t) as [Hin|[r Hr]]; [by rewrite (probe_at _ _ _ _ Ht)|..].
  - rewrite pending_in_flight, in_flight_free, Hqe in Hin by done. by apply elem_of_nil in Hin.
  - specialize (Hq t). unfold step in Hq. rewrite Ht in Hq. simpl in Hq. rewrite Hr in Hq.
    by destruct r.
Qed.

(** A log of distinct callers that answers all of them is one of the orders of
    the callers. *)
Lemma log_permutation cl hist :
  log_of_callers cl hist -> (forall t, (t < length cl)%nat -> t ∈ (fut_tx <$> hist)) ->
  fut_body <$> hist ≡ₚ cl.
Proof.
  intros [Hof Hnd] Hall.
  assert (Hperm : fut_tx <$> hist ≡ₚ seq 0 (length cl)).
  { apply NoDup_Permutation; [done|apply NoDup_seq|]. intros t. rewrite elem_of_seq. split.
    - intros (f & -> & Hf)%list_elem_of_fmap. rewrite Forall_forall in Hof.
      specialize (Hof f Hf). apply lookup_lt_Some in Hof. lia.
    - intros Ht. apply Hall. lia. }
  assert (Some <$> (fut_body <$> hist) = (fun t => cl !! t) <$> (fut_tx <$> hist)) as E.
  { rewrite <-!list_fmap_compose. apply list_fmap_ext. intros i f Hf.
    rewrite Forall_lookup in Hof. symmetry. by apply (Hof i f). }
  assert ((fun t => cl !! t) <$> seq 0 (length cl) = Some <$> cl) as E2.
  { apply list_eq. intros i. rewrite !list_lookup_fmap.
    destruct (decide (i < length cl)%nat) as [Hi|Hi].
    - rewrite lookup_seq_lt by done. simpl. by destruct (lookup_lt_is_Some_2 cl i Hi) as [b ->].
    - rewrite lookup_seq_ge, (lookup_ge_None_2 cl) by lia. done. }
  apply (fmap_Permutation (fun t => cl !! t)) in Hperm. rewrite <-E, E2 in Hperm.
  apply (omap_Permutation id) in Hperm.
  assert (forall l : list (body T O), omap id (Some <$> l) = l) as Hj.
  { induction l as [|b l IH]; [done|]. cbn. f_equal. exact IH. }
  by rewrite !Hj in Hperm.
Qed.
End at_rest.

(** ** A panicked processor, a nested call *)

Section wedged.
Context {T O : Type}.
Implicit Types (s : state T O) (p : pc T O) (t : nat) (x : T) (cl : list (body T O)).

Lemma dead_stays t s s' td :
  step t s = Some s' -> probe dead s td = true -> probe dead s' td = true.
Proof.
  intros Hs Hd. open_step Hs.
  all: probe_step; try done.
  all: try (rewrite probe_end in Hd; discriminate).
  all: rewrite (probe_at _ _ _ _ Ht) in Hd; discriminate.
Qed.

(** With a dead processor nobody applies a closure or answers a caller. *)
Lemma dead_frozen cl t s s' td :
  queue_ok cl s -> probe dead s td = true -> step t s = Some s' ->
  inner s' = inner s /\ channels s' = channels s.
Proof.
  intros Hok Hd Hs. destruct (qo_dead cl s Hok td Hd) as [_ Hno]. specialize (Hno t).
  open_step Hs; try done; rewrite (probe_at _ _ _ _ Ht) in Hno; discriminate.
Qed.

Lemma dead_reachable cl s s' td :
  Forall flat cl -> mutex s -> queue_ok cl s -> probe dead s td = true -> reachable step s s' ->
  probe dead s' td = true /\ queue_ok cl s' /\ inner s' = inner s /\ channels s' = channels s.
Proof.
  intros Hflat Hm Hok Hd Hr.
  enough (mutex s' /\ probe dead s' td = true /\ queue_ok cl s' /\
    inner s' = inner s /\ channels s' = channels s) by tauto.
  revert Hr. apply (invariant_reachable step (fun s' => mutex s' /\ probe dead s' td = true /\
    queue_ok cl s' /\ inner s' = inner s /\ channels s' = channels s)); [done|].
  intros t s1 s2 (Hm1 & Hd1 & Hok1 & Hi & Hch) Hs.
  destruct (dead_frozen cl t s1 s2 td Hok1 Hd1 Hs) as [E1 E2].
  split_and!; [by eapply mutex_step|by eapply dead_stays|by eapply queue_ok_step|congruence..].
Qed.

Lemma await_init x cl : await_blocked (with_callers x cl).
Proof.
  intros t c k tx H. simpl in H. rewrite list_lookup_fmap in H.
  by destruct (cl !! t); simplify_eq/=.
Qed.

(** What a task other than the one that moves keeps. *)
Lemma step_other t s s' t' p :
  step t s = Some s' -> t' <> t -> tasks s !! t' = Some p -> tasks s' !! t' = Some p.
Proof.
  intros Hs Hne Hp. open_step Hs; cbn;
    rewrite ?lookup_app_l by (rewrite length_insert; by eapply lookup_lt_Some);
    by rewrite list_lookup_insert_ne.
Qed.

Definition locking p : Prop := match p with CStart _ | CLock _ => True | _ => False end.

(** A nested call cannot get past its lock while its own closure holds it. *)
Lemma locking_step t s s' h c q :
  mutex s -> probe holds_queue s h = true -> step t s = Some s' ->
  tasks s !! c = Some q -> locking q -> exists q', tasks s' !! c = Some q' /\ locking q'.
Proof.
  intros Hm Hh Hs Hc Hq. destruct (decide (c = t)) as [->|Hne];
    [|exists q; split; [by eapply step_other|done]].
  apply (mutex_queue s Hm) in Hh. unfold step in Hs. rewrite Hc in Hs.
  destruct q; try done; simpl in Hs.
  - simplify_eq. eexists. split; [by eapply tasks_goto_eq|done].
  - by rewrite Hh in Hs.
Qed.

Lemma await_step t s s' : mutex s -> await_blocked s -> step t s = Some s' -> await_blocked s'.
Proof.
  intros Hm Hb Hs h c k tx Hp.
  assert (tasks s !! h = Some (PAwait c k tx) \/
    (h = t /\ exists q, tasks s' !! c = Some q /\ locking q)) as [Hold|[_ ?]]; [|..|done].
  - destruct (decide (h = t)) as [->|Hne].
    + open_step Hs; cbn in Hp; rewrite ?lookup_app_l in Hp
        by (rewrite length_insert; by eapply lookup_lt_Some);
        rewrite list_lookup_insert_eq in Hp by (by eapply lookup_lt_Some); simplify_eq.
      right. split; [done|]. exists (CStart b0). split; [|done]. cbn.
      by rewrite lookup_app_r, length_insert, Nat.sub_diag by (rewrite length_insert; lia).
    + left. open_step Hs; cbn in Hp; rewrite ?list_lookup_insert_ne in Hp by done; try done.
      all: apply lookup_snoc_Some in Hp as [[_ Hp]|[_ ?]];
        [by rewrite list_lookup_insert_ne in Hp|done].
  - destruct (Hb h c k tx Hold) as (q & Hq & Hl).
    apply (locking_step t s s' h c q Hm); [|done..].
    by rewrite (probe_at _ _ _ _ Hold).
Qed.

Lemma await_reachable x cl s :
  reachable step (with_callers x cl) s -> mutex s /\ await_blocked s.
Proof.
  apply (invariant_reachable step (fun s => mutex s /\ await_blocked s)).
  - split; [apply mutex_init|apply await_init].
  - intros t s1 s2 [Hm Hb] Hs. split; [by eapply mutex_step|by eapply await_step].
Qed.

(** While a processor awaits its own queue, no step does more than let callers
    come to the lock or take an answer already sent. *)
Lemma await_frozen t s s' h c k tx :
  mutex s -> await_blocked s -> tasks s !! h = Some (PAwait c k tx) -> step t s = Some s' ->
  tasks s' !! h = Some (PAwait c k tx) /\
  inner s' = inner s /\ queue s' = queue s /\ channels s' = channels s.
Proof.
  intros Hm Hb Hp Hs.
  assert (Hne : h <> t).
  { intros ->. destruct (Hb t c k tx Hp) as (q & Hq & Hl). unfold step in Hs.
    rewrite Hp in Hs. simpl in Hs. rewrite Hq in Hs. by destruct q. }
  split; [by eapply step_other|].
  assert (Hcs : forall p, tasks s !! t = Some p -> holds_queue p = false).
  { intros p Ht. by apply (other_idle s h _ t p Hm Hp eq_refl Ht). }
  open_step Hs; try done; by specialize (Hcs _ eq_refl).
Qed.

Lemma await_forever s s' h c k tx :
  mutex s -> await_blocked s -> tasks s !! h = Some (PAwait c k tx) -> reachable step s s' ->
  tasks s' !! h = Some (PAwait c k tx) /\
  inner s' = inner s /\ queue s' = queue s /\ channels s' = channels s.
Proof.
  intros Hm Hb Hp Hr.
  enough (mutex s' /\ await_blocked s' /\ tasks s' !! h = Some (PAwait c k tx) /\
    inner s' = inner s /\ queue s' = queue s /\ channels s' = channels s) by tauto.
  revert Hr. apply (invariant_reachable step (fun s' => mutex s' /\ await_blocked s' /\
    tasks s' !! h = Some (PAwait c k tx) /\ inner s' = inner s /\ queue s' = queue s /\
    channels s' = channels s)); [done|].
  intros t s1 s2 (Hm1 & Hb1 & Hp1 & E1 & E2 & E3) Hs.
  destruct (await_frozen t s1 s2 h c k tx Hm1 Hb1 Hp1 Hs) as (Hp2 & F1 & F2 & F3).
  split_and!; [by eapply mutex_step|by eapply await_step|done|congruence..].
Qed.
End wedged.

Section properties.
Context {T O : Type}.
Implicit Types (s : state T O) (p : pc T O) (t : nat) (x : T) (cl : list (body T O)).

(** At rest everything that was accepted has been applied: replaying it in the
    order of acceptance gives the context and every answer. *)
Lemma rest_served x cl sched s :
  Forall safe cl -> exec step sched (with_callers x cl) = Some s -> quiescent step s ->
  let order := accepted sched (with_callers x cl) in
  queue s = [] /\ processor_active s = false /\
  log_of_callers cl order /\ inner s = (replay x order).1 /\
  forall t, (t < length cl)%nat ->
    exists o, tasks s !! t = Some (CDone o) /\ (replay x order).2 !! t = Some (Some o).
Proof.
  intros Hsafe E Hq order.
  destruct (calm_reachable x cl s Hsafe ltac:(by exists sched)) as (Hm & Hok & Hc).
  destruct (rest_calm cl s Hm Hok Hc Hq) as (Hl & Hqe & Hact & Hdone).
  destruct (linearize x cl sched s (safe_all_flat cl Hsafe) E) as (hist & Ho & Hlog & Hrep).
  destruct (settle_free s Hm Hl) as [Hse Ht]. rewrite Ht, Hqe, app_nil_r in Hlog, Ho.
  unfold order. rewrite Ho. split_and!; [done..|by rewrite Hrep, Hse|].
  intros t Hlt. destruct (Hdone t Hlt) as [o Hdo]. exists o. split; [done|].
  rewrite Hrep. by eapply done_settle.
Qed.

(** C6 (liveness): when no closure panics or uses its own queue, every
    execution is finite and every one that cannot be continued has answered all
    callers: in some order of the closures each caller got its output of the
    sequential run, and the context is the result of that run; the processor
    flag is down again. *)
Theorem queue_serves_everyone x cl s :
  Forall safe cl -> reachable step (with_callers x cl) s ->
  terminates step s /\
  (quiescent step s ->
    queue s = [] /\ processor_active s = false /\
    exists order, fut_body <$> order ≡ₚ cl /\ inner s = (replay x order).1 /\
      forall t, (t < length cl)%nat ->
        exists o, tasks s !! t = Some (CDone o) /\ (replay x order).2 !! t = Some (Some o)).
Proof.
  intros Hsafe Hr. pose proof (safe_all_flat cl Hsafe) as Hflat.
  destruct (calm_reachable x cl s Hsafe Hr) as (Hm & Hok & Hc). split; [by apply (terminates_ok cl (S (work s))); [|lia|..]|]. intros Hq.
  destruct Hr as [sched E]. destruct (rest_served x cl sched s Hsafe E Hq) as (Hqe & Hact & Hlog & Hin & Hans).
  split_and!; [done..|]. eexists. split_and!; [|done|done].
  apply log_permutation; [done|]. intros t Hlt. destruct (Hans t Hlt) as (o & _ & Ho).
  apply (replay_outputs x). apply elem_of_dom. by eexists.
Qed.

(** C29 (safety): once a closure has panicked inside a processor, the queue is
    lost, if the closures do not use the queue they run on. The flag stays set,
    so that nobody spawns another processor, while the one it stands for is
    dead; the context never changes again and no caller gets an answer that had
    not been sent before. *)
Theorem queue_lost_after_panic x cl s s' t :
  Forall flat cl -> reachable step (with_callers x cl) s -> tasks s !! t = Some PDead ->
  reachable step s s' ->
  processor_active s' = true /\ inner s' = inner s /\
  (forall t' o, tasks s' !! t' = Some (CDone o) -> channels s !! t' = Some (Some o)).
Proof.
  intros Hflat Hr Hp Hr'. destruct (ok_reachable x cl s Hflat Hr) as [Hm Hok].
  assert (Hd : probe dead s t = true) by (by rewrite (probe_at _ _ _ _ Hp)).
  destruct (dead_reachable cl s s' t Hflat Hm Hok Hd Hr') as (Hd' & Hok' & Hi & Hch).
  split_and!; [by apply (qo_dead cl s' Hok' t)|done|].
  intros t' o Hp'. rewrite <-Hch. apply (qo_local cl s' Hok' t' _ Hp').
Qed.

(** C30 (safety): a closure that awaits [schedule_and_wait] on the queue it runs
    on deadlocks it, whatever the other closures are: its processor stays at
    that await with the queue's mutex held, nothing is taken from the queue,
    the context never changes and no further answer is sent. *)
Theorem queue_deadlocks_on_reentry x cl s s' t c k tx :
  reachable step (with_callers x cl) s -> tasks s !! t = Some (PAwait c k tx) ->
  reachable step s s' ->
  queue_lock s' = Some t /\ tasks s' !! t = Some (PAwait c k tx) /\
  inner s' = inner s /\ queue s' = queue s /\ channels s' = channels s.
Proof.
  intros Hr Hp Hr'. destruct (await_reachable x cl s Hr) as [Hm Hb].
  destruct (await_reachable x cl s') as [Hm' _]; [by eapply reachable_trans|].
  destruct (await_forever s s' t c k tx Hm Hb Hp Hr') as (Hp' & ?).
  split; [|done]. apply (mutex_queue s' Hm'). by rewrite (probe_at _ _ _ _ Hp').
Qed.
End properties.

(** ** The properties at work *)

Lemma queue_serves_everyone_witness :
  exists s, reachable step (with_callers 10 [bump 1; bump 5]) s /\ terminates step s /\
    (quiescent step s -> queue s = []).
Proof.
  destruct bump_ends as (s & Hr & _). exists s.
  destruct (queue_serves_everyone 10 [bump 1; bump 5] s) as [H1 H2].
  - repeat constructor.
  - exact Hr.
  - split_and!; [exact Hr|exact H1|]. intros Hq. by destruct (H2 Hq).
Defined.

(** Caller 0's closure panics; caller 1 comes later. *)
Definition panic_sched : list nat := [0; 0; 0; 0; 0; 0; 0; 2; 2; 2; 2; 2]%nat.

Lemma panic_ends : exists s,
  reachable step (with_callers 10 [Unwind; bump 5]) s /\
  (tasks s !! 2%nat, channels s !! 1%nat) = (Some PDead, None).
Proof.
  apply (exec_reaches step (fun s => (tasks s !! 2%nat, channels s !! 1%nat)) panic_sched).
  vm_compute. reflexivity.
Qed.

Lemma queue_lost_after_panic_witness :
  exists s, reachable step (with_callers 10 [Unwind; bump 5]) s /\
    forall s', reachable step s s' -> forall o, tasks s' !! 1%nat <> Some (CDone o).
Proof.
  destruct panic_ends as (s & Hr & Hs). injection Hs as Hd Hc. exists s. split; [exact Hr|].
  intros s' Hr' o Ho.
  destruct (queue_lost_after_panic 10 [Unwind; bump 5] s s' 2) as (_ & _ & H).
  - repeat constructor.
  - exact Hr.
  - exact Hd.
  - exact Hr'.
  - specialize (H 1%nat o Ho). rewrite Hc in H. discriminate H.
Defined.

(** Caller 0's closure schedules another closure on the same queue. *)
Definition nested : body Z Z := Reschedule (bump 1) (fun o => Finish o).

Definition nested_sched : list nat := [0; 0; 0; 0; 0; 0; 0; 1; 1; 1; 1; 1]%nat.

Lemma nested_ends : exists s,
  reachable step (with_callers 10 [nested]) s /\
  tasks s = [CRecv; PAwait 2 (fun o => Finish o) 0; CStart (bump 1)].
Proof.
  apply (exec_reaches step tasks nested_sched). reflexivity.
Qed.

Lemma queue_deadlocks_on_reentry_witness :
  exists s, reachable step (with_callers 10 [nested]) s /\
    forall s', reachable step s s' -> queue_lock s' = Some 1%nat.
Proof.
  destruct nested_ends as (s & Hr & Ht). exists s. split; [exact Hr|]. intros s' Hr'.
  destruct (queue_deadlocks_on_reentry 10 [nested] s s' 1 2 (fun o => Finish o) 0) as [H _].
  - exact Hr.
  - by rewrite Ht.
  - exact Hr'.
  - exact H.
Defined.
