(* ===== verification/ProcedureCode.v ===== *)
(** * NGAP procedure codes ([ngap/procedure_code_enum.rs])

    The enumeration of the procedures an NGAP message can carry, its [u8]
    representation and the checked conversion back. *)

From S2P Require Import Prelude.

(** [#[repr(u8)] enum ProcedureCodeEnum]. *)
Inductive ProcedureCodeEnum : Type :=
| AMFConfigurationUpdate
| AMFStatusIndication
| CellTrafficTrace
| DeactivateTrace
| DownlinkNASTransport
| DownlinkNonUEAssociatedNRPPaTransport
| DownlinkRANConfigurationTransfer
| DownlinkRANStatusTransfer
| DownlinkUEAssociatedNRPPaTransport
| ErrorIndication
| HandoverCancel
| HandoverNotification
| HandoverPreparation
| HandoverResourceAllocation
| InitialContextSetup
| InitialUEMessage
| LocationReportingControl
| LocationReportingFailureIndication
| LocationReport
| NASNonDeliveryIndication
| NGReset
| NGSetup
| OverloadStart
| OverloadStop
| Paging
| PathSwitchRequest
| PDUSessionResourceModify
| PDUSessionResourceModifyIndication
| PDUSessionResourceRelease
| PDUSessionResourceSetup
| PDUSessionResourceNotify
| PrivateMessage
| PWSCancel
| PWSFailureIndication
| PWSRestartIndication
| RANConfigurationUpdate
| RerouteNASRequest
| RRCInactiveTransitionReport
| TraceFailureIndication
| TraceStart
| UEContextModification
| UEContextRelease
| UEContextReleaseRequest
| UERadioCapabilityCheck
| UERadioCapabilityInfoIndication
| UETNLABindingRelease
| UplinkNASTransport
| UplinkNonUEAssociatedNRPPaTransport
| UplinkRANConfigurationTransfer
| UplinkRANStatusTransfer
| UplinkUEAssociatedNRPPaTransport
| WriteReplaceWarning
| SecondaryRATDataUsageReport.

#[export] Instance ProcedureCodeEnum_eq_dec : EqDecision ProcedureCodeEnum.
Proof. solve_decision. Defined.

(** [ngap_models::ProcedureCode], a [u8]. *)
Record ProcedureCode : Type := MkProcedureCode { procedure_code : Z }.

Inductive ProcedureCodeEnumError : Type := UnableToPerformTryFrom.

(** The discriminants: [value as u8]. *)
Definition as_u8 (p : ProcedureCodeEnum) : Z :=
  match p with
  | AMFConfigurationUpdate => 0
  | AMFStatusIndication => 1
  | CellTrafficTrace => 2
  | DeactivateTrace => 3
  | DownlinkNASTransport => 4
  | DownlinkNonUEAssociatedNRPPaTransport => 5
  | DownlinkRANConfigurationTransfer => 6
  | DownlinkRANStatusTransfer => 7
  | DownlinkUEAssociatedNRPPaTransport => 8
  | ErrorIndication => 9
  | HandoverCancel => 10
  | HandoverNotification => 11
  | HandoverPreparation => 12
  | HandoverResourceAllocation => 13
  | InitialContextSetup => 14
  | InitialUEMessage => 15
  | LocationReportingControl => 16
  | LocationReportingFailureIndication => 17
  | LocationReport => 18
  | NASNonDeliveryIndication => 19
  | NGReset => 20
  | NGSetup => 21
  | OverloadStart => 22
  | OverloadStop => 23
  | Paging => 24
  | PathSwitchRequest => 25
  | PDUSessionResourceModify => 26
  | PDUSessionResourceModifyIndication => 27
  | PDUSessionResourceRelease => 28
  | PDUSessionResourceSetup => 29
  | PDUSessionResourceNotify => 30
  | PrivateMessage => 31
  | PWSCancel => 32
  | PWSFailureIndication => 33
  | PWSRestartIndication => 34
  | RANConfigurationUpdate => 35
  | RerouteNASRequest => 36
  | RRCInactiveTransitionReport => 37
  | TraceFailureIndication => 38
  | TraceStart => 39
  | UEContextModification => 40
  | UEContextRelease => 41
  | UEContextReleaseRequest => 42
  | UERadioCapabilityCheck => 43
  | UERadioCapabilityInfoIndication => 44
  | UETNLABindingRelease => 45
  | UplinkNASTransport => 46
  | UplinkNonUEAssociatedNRPPaTransport => 47
  | UplinkRANConfigurationTransfer => 48
  | UplinkRANStatusTransfer => 49
  | UplinkUEAssociatedNRPPaTransport => 50
  | WriteReplaceWarning => 51
  | SecondaryRATDataUsageReport => 52
  end.

(** [TryFrom<u8>]. *)
Definition try_from_u8 (value : Z) : Result ProcedureCodeEnum ProcedureCodeEnumError :=
  match value with
  | 0 => Ok AMFConfigurationUpdate
  | 1 => Ok AMFStatusIndication
  | 2 => Ok CellTrafficTrace
  | 3 => Ok DeactivateTrace
  | 4 => Ok DownlinkNASTransport
  | 5 => Ok DownlinkNonUEAssociatedNRPPaTransport
  | 6 => Ok DownlinkRANConfigurationTransfer
  | 7 => Ok DownlinkRANStatusTransfer
  | 8 => Ok DownlinkUEAssociatedNRPPaTransport
  | 9 => Ok ErrorIndication
  | 10 => Ok HandoverCancel
  | 11 => Ok HandoverNotification
  | 12 => Ok HandoverPreparation
  | 13 => Ok HandoverResourceAllocation
  | 14 => Ok InitialContextSetup
  | 15 => Ok InitialUEMessage
  | 16 => Ok LocationReportingControl
  | 17 => Ok LocationReportingFailureIndication
  | 18 => Ok LocationReport
  | 19 => Ok NASNonDeliveryIndication
  | 20 => Ok NGReset
  | 21 => Ok NGSetup
  | 22 => Ok OverloadStart
  | 23 => Ok OverloadStop
  | 24 => Ok Paging
  | 25 => Ok PathSwitchRequest
  | 26 => Ok PDUSessionResourceModify
  | 27 => Ok PDUSessionResourceModifyIndication
  | 28 => Ok PDUSessionResourceRelease
  | 29 => Ok PDUSessionResourceSetup
  | 30 => Ok PDUSessionResourceNotify
  | 31 => Ok PrivateMessage
  | 32 => Ok PWSCancel
  | 33 => Ok PWSFailureIndication
  | 34 => Ok PWSRestartIndication
  | 35 => Ok RANConfigurationUpdate
  | 36 => Ok RerouteNASRequest
  | 37 => Ok RRCInactiveTransitionReport
  | 38 => Ok TraceFailureIndication
  | 39 => Ok TraceStart
  | 40 => Ok UEContextModification
  | 41 => Ok UEContextRelease
  | 42 => Ok UEContextReleaseRequest
  | 43 => Ok UERadioCapabilityCheck
  | 44 => Ok UERadioCapabilityInfoIndication
  | 45 => Ok UETNLABindingRelease
  | 46 => Ok UplinkNASTransport
  | 47 => Ok UplinkNonUEAssociatedNRPPaTransport
  | 48 => Ok UplinkRANConfigurationTransfer
  | 49 => Ok UplinkRANStatusTransfer
  | 50 => Ok UplinkUEAssociatedNRPPaTransport
  | 51 => Ok WriteReplaceWarning
  | 52 => Ok SecondaryRATDataUsageReport
  | _ => Err UnableToPerformTryFrom
  end.

(** [TryFrom<ProcedureCode>]. *)
Definition try_from (value : ProcedureCode) : Result ProcedureCodeEnum ProcedureCodeEnumError :=
  try_from_u8 (procedure_code value).

(** [From<ProcedureCodeEnum> for ProcedureCode]. *)
Definition into_procedure_code (value : ProcedureCodeEnum) : ProcedureCode :=
  MkProcedureCode (as_u8 value).

Lemma as_u8_bounds p : 0 <= as_u8 p < 53.
Proof. by destruct p. Qed.

(** Every code below 53 is a discriminant. *)
Lemma below_53 v : 0 <= v < 53 -> exists p, v = as_u8 p.
Proof.
  intros Hv.
  assert (Hall : check_below 53 (fun n => match try_from_u8 n with
    | Ok p => as_u8 p =? n | Err _ => false end) = true) by reflexivity.
  pose proof (check_below_spec _ _ Hall v Hv) as Hc. simpl in Hc.
  destruct (try_from_u8 v) as [p|]; [|done]. exists p. by apply Z.eqb_eq in Hc.
Qed.

(** C24 (roundtrip): the two hand-written tables are inverse to each other on
    every [u8]: a code decodes to a procedure exactly when it is that
    procedure's discriminant, and it is rejected exactly from 53 on. *)
Theorem procedure_code_roundtrip (v : Z) :
  fits 8 v ->
  (forall p, try_from (MkProcedureCode v) = Ok p <-> into_procedure_code p = MkProcedureCode v) /\
  (try_from (MkProcedureCode v) = Err UnableToPerformTryFrom <-> 53 <= v).
Proof.
  intros Hv. unfold into_procedure_code.
  assert (Hp : forall p, try_from (MkProcedureCode (as_u8 p)) = Ok p) by (by intros []).
  pose proof (below_53 v) as Hin. unfold fits in Hv.
  split.
  - intros p. split; [|intros [= <-]; apply Hp]. intros H.
    destruct (decide (v < 53)) as [Hlt|Hge].
    + destruct (Hin ltac:(lia)) as [q ->]. rewrite Hp in H. by simplify_eq.
    + exfalso. revert H. unfold try_from, try_from_u8. simpl. repeat (case_match; try lia; try done).
  - split.
    + intros H. destruct (decide (v < 53)) as [Hlt|]; [|lia].
      destruct (Hin ltac:(lia)) as [q ->]. by rewrite Hp in H.
    + intros Hge. unfold try_from, try_from_u8. simpl. repeat (case_match; try lia; try done).
Qed.

Lemma procedure_code_roundtrip_witness :
  try_from (MkProcedureCode 21) = Ok NGSetup /\
  try_from (MkProcedureCode 53) = Err UnableToPerformTryFrom.
Proof.
  split.
  - apply (procedure_code_roundtrip 21); [vm_compute; split; congruence|reflexivity].
  - apply (procedure_code_roundtrip 53); [vm_compute; split; congruence|lia].
Defined.
