(* ===== verification/Convert.v ===== *)
(** * Conversions between SBI and NGAP values
      ([utils/convert/], [utils/models/fiveg_s_tmsi.rs])

    The SBI side writes identifiers as strings, the NGAP side as packed octets.
    The hex codec ([faster_hex]) and the bit vectors ([bitvec]) are libraries:
    type classes with the behaviour their documentation states. *)

From S2P Require Import Prelude.

(** A string is the list of its bytes. *)
Notation bytes := (list Z).

(** [ConversionError], built from a message. *)
Inductive ConversionError : Type := InvalidPlmnDigits (plmn_id : bytes).

(** [struct Element<T>(T)] with [convert] and [try_convert]: a conversion is an
    instance, found by its types. A conversion that may panic returns an
    [outcome]. *)
Class From (T U : Type) := convert : T -> outcome U.
Class TryFrom (T U : Type) := try_convert : T -> Result U ConversionError.

(** ** PLMN identities ([mcc_mnc_plmnid.rs]) *)

(** [oasbi]'s [PlmnId] (and [PlmnIdNid], of which only these fields are read):
    the digits of the codes in ASCII. *)
Record SbiPlmnId : Type := MkSbiPlmnId { mcc : bytes; mnc : bytes }.

(** [NgapPlmnIdentity([u8; 3])]. *)
Record NgapPlmnIdentity : Type := MkPlmn { octet1 : Z; octet2 : Z; octet3 : Z }.

(** [b'0']. *)
Definition ascii_0 : Z := 48.

Section plmn.
Context (overflow_checks : bool).

(** [s[i] - b'0'] on bytes. *)
Definition digit_at (s : bytes) (i : nat) : outcome Z :=
  let! b := index s i in
  u8_sub overflow_checks b ascii_0.

(** [(s[i] - b'0') << 4 | (r[j] - b'0')]. *)
Definition pack_digits (s : bytes) (i : nat) (r : bytes) (j : nat) : outcome Z :=
  let! hi := digit_at s i in
  let! lo := digit_at r j in
  Returns (Z.lor (u8_shl hi 4) lo).

Definition convert_mcc_mnc_to_plmn_id (mcc mnc : bytes) : outcome NgapPlmnIdentity :=
  let! b0 := pack_digits mcc 1 mcc 0 in
  let! b1 :=
    (if decide (length mnc = 2%nat)
     then let! d := digit_at mcc 2 in Returns (Z.lor 0xF0 d)
     else pack_digits mnc 0 mcc 2) in
  let! b2 :=
    (if decide (length mnc = 2%nat)
     then pack_digits mnc 1 mnc 0
     else pack_digits mnc 2 mnc 1) in
  Returns (MkPlmn b0 b1 b2).
End plmn.

(** [format!("{}", d)] for a [u8]. *)
Definition display_u8 (d : Z) : bytes :=
  if d <? 10 then [ascii_0 + d]
  else if d <? 100 then [ascii_0 + d / 10; ascii_0 + d mod 10]
  else [ascii_0 + d / 100; ascii_0 + (d / 10) mod 10; ascii_0 + d mod 10].

Definition convert_plmn_id_to_mcc_mnc (plmn_id : NgapPlmnIdentity) :
    Result SbiPlmnId ConversionError :=
  let mcc_digit1 := Z.land (octet1 plmn_id) 0x0F in
  let mcc_digit2 := Z.shiftr (octet1 plmn_id) 4 in
  let mcc_digit3 := Z.land (octet2 plmn_id) 0x0F in
  let mnc_digit1 := Z.shiftr (octet3 plmn_id) 4 in
  let mnc_digit2 := Z.land (octet3 plmn_id) 0x0F in
  let mnc_digit3 := Z.shiftr (octet2 plmn_id) 4 in
  if (9 <? mnc_digit1) || (9 <? mnc_digit2) || (9 <? mcc_digit1) || (9 <? mcc_digit2)
     || (9 <? mcc_digit3)
  then Err (InvalidPlmnDigits [octet1 plmn_id; octet2 plmn_id; octet3 plmn_id])
  else
    let mcc_str := display_u8 mcc_digit1 ++ display_u8 mcc_digit2 ++ display_u8 mcc_digit3 in
    let mnc_str :=
      if 0xA <=? mnc_digit3 then display_u8 mnc_digit2 ++ display_u8 mnc_digit1
      else display_u8 mnc_digit3 ++ display_u8 mnc_digit2 ++ display_u8 mnc_digit1 in
    Ok (MkSbiPlmnId mcc_str mnc_str).

(** What the types [Mcc] and [Mnc] validate: three digits, two or three digits. *)
Definition is_digit (b : Z) : bool := (48 <=? b) && (b <=? 57).

Definition valid_mcc (s : bytes) : bool := (length s =? 3)%nat && forallb is_digit s.

Definition valid_mnc (s : bytes) : bool :=
  ((length s =? 2)%nat || (length s =? 3)%nat) && forallb is_digit s.

Definition valid_plmn (p : SbiPlmnId) : bool := valid_mcc (mcc p) && valid_mnc (mnc p).

(** ** Hex strings *)

(** [faster_hex]: [hex_decode src dst] is the destination after the call. *)
Class HexCodec := {
  hex_string : bytes -> bytes;
  hex_decode : bytes -> bytes -> Result bytes unit;
}.

(** The two lower-case digits of a byte. *)
Definition hex_digit (d : Z) : Z := if d <? 10 then 48 + d else 87 + d.

Definition hex_pair (b : Z) : bytes := [hex_digit (b / 16); hex_digit (b mod 16)].

Definition to_lower (b : Z) : Z := if (65 <=? b) && (b <=? 90) then b + 32 else b.

Definition is_hex (b : Z) : bool :=
  is_digit b || ((65 <=? b) && (b <=? 70)) || ((97 <=? b) && (b <=? 102)).

(** What [hex_decode] takes: digits, an even number of them, none included,
    and no more than two for each byte of the destination. *)
Definition hex_fits (s : bytes) (n : nat) : bool :=
  Nat.even (length s) && (length s <=? 2 * n)%nat && forallb is_hex s.

(** Documented: [hex_string] writes two lower-case digits per byte;
    [hex_decode] reads either case, fills as much of the destination as there
    are digits for, of whose rest nothing is promised but its length, and fails
    on what it does not take. *)
Class HexLaws `{HexCodec} : Prop := {
  hex_string_spec bs : Forall (fits 8) bs -> hex_string bs = mjoin (hex_pair <$> bs);
  hex_decode_spec s bs dst :
    Forall (fits 8) bs -> to_lower <$> s = mjoin (hex_pair <$> bs) -> (length bs <= length dst)%nat ->
    exists rest, hex_decode s dst = Ok (bs ++ rest) /\ (length bs + length rest)%nat = length dst;
  hex_decode_invalid s dst : hex_fits s (length dst) = false -> hex_decode s dst = Err ();
}.

(** ** Tracking areas and slices ([tac.rs], [snssai.rs]) *)

(** [NgapTac([u8; 3])], [NgapSd([u8; 3])]. *)
Record Octets3 : Type := MkOctets3 { o1 : Z; o2 : Z; o3 : Z }.

Definition octets_of (t : Octets3) : bytes := [o1 t; o2 t; o3 t].

Definition octets_fit (t : Octets3) : Prop := Forall (fits 8) (octets_of t).

(** [let mut dst = [0; 3]; hex_decode(bytes, &mut dst).unwrap()]. *)
Definition decode_octets `{HexCodec} (s : bytes) : outcome Octets3 :=
  let! dst := unwrap (hex_decode s [0; 0; 0]) in
  match dst with
  | [a; b; c] => Returns (MkOctets3 a b c)
  | _ => Panics
  end.

Definition convert_sbi_tac_to_ngap_tac `{HexCodec} (sbi_tac : bytes) : outcome Octets3 :=
  decode_octets sbi_tac.

Definition convert_ngap_tac_to_sbi_tac `{HexCodec} (ngap_tac : Octets3) : bytes :=
  hex_string (octets_of ngap_tac).

Record SbiSnssai : Type := MkSbiSnssai { sbi_sst : Z; sbi_sd : option bytes }.

(** [NgapSnssai { sst: NgapSst([u8; 1]), sd }]. *)
Record NgapSnssai : Type := MkNgapSnssai { ngap_sst : Z; ngap_sd : option Octets3 }.

Definition convert_sbi_snssai_to_ngap_snssai `{HexCodec} (sbi : SbiSnssai) : outcome NgapSnssai :=
  let! sd :=
    match sbi_sd sbi with
    | Some sd_str => let! dst := decode_octets sd_str in Returns (Some dst)
    | None => Returns None
    end in
  Returns (MkNgapSnssai (sbi_sst sbi) sd).

Definition convert_ngap_snssai_to_sbi_snssai `{HexCodec} (ngap : NgapSnssai) : SbiSnssai :=
  MkSbiSnssai (ngap_sst ngap)
    (match ngap_sd ngap with
     | Some sd => Some (hex_string (octets_of sd))
     | None => None
     end).

(** What the types [Tac] and [SnssaiSd] validate: six hex digits. *)
Definition valid_hex6 (s : bytes) : bool := (length s =? 6)%nat && forallb is_hex s.

Definition valid_snssai (s : SbiSnssai) : Prop :=
  match sbi_sd s with Some sd => valid_hex6 sd = true | None => True end.

Definition lower_snssai (s : SbiSnssai) : SbiSnssai :=
  MkSbiSnssai (sbi_sst s) (fmap (M := option) (fmap to_lower) (sbi_sd s)).

(** ** Bit strings ([transform.rs], [fiveg_s_tmsi.rs]) *)

(** [BitVec<u8, Msb0>]: [store_be w v] fills a zeroed vector of [w] bits,
    [into_vec] returns the storage. *)
Class BitVecOps := {
  store_be : nat -> Z -> list bool;
  into_vec : list bool -> bytes;
}.

(** The [w] low bits of [v], most significant first. *)
Fixpoint to_bits (w : nat) (v : Z) : list bool :=
  match w with
  | O => []
  | S w => Z.testbit v (Z.of_nat w) :: to_bits w v
  end.

Definition of_bits (bs : list bool) : Z := foldl (fun acc b => 2 * acc + Z.b2z b) 0 bs.

(** Eight bits per byte, most significant first; the last byte is padded with
    zeros. *)
Fixpoint pack_bits (bs : list bool) : bytes :=
  match bs with
  | [] => []
  | b7 :: b6 :: b5 :: b4 :: b3 :: b2 :: b1 :: b0 :: bs =>
      of_bits [b7; b6; b5; b4; b3; b2; b1; b0] :: pack_bits bs
  | bs => [of_bits (bs ++ replicate (8 - length bs) false)]
  end.

(** Documented: [store_be] keeps the low bits of the value, most significant
    first; the storage of a vector whose unused bits were never written holds
    its bits in that order. *)
Class BitVecLaws `{BitVecOps} : Prop := {
  store_be_spec w v : 0 <= v -> store_be w v = to_bits w v;
  into_vec_spec bs : into_vec bs = pack_bits bs;
}.

(** [SbiAmfId]: the three parts of the 24-bit AMF identifier. *)
Record SbiAmfId : Type := MkSbiAmfId { region_id : Z; set_id : Z; pointer_id : Z }.

Record NgapAmfId : Type := MkNgapAmfId {
  amf_region_id : list bool;
  amf_set_id : list bool;
  amf_pointer : list bool;
}.

(** A value of the SBI type: 8, 10 and 6 bits. *)
Definition valid_amf_id (a : SbiAmfId) : Prop :=
  fits 8 (region_id a) /\ fits 10 (set_id a) /\ fits 6 (pointer_id a).

(** [From<Element<&SbiAmfId>>]. *)
#[export] Instance from_amf_id `{BitVecOps} : From SbiAmfId NgapAmfId := fun value =>
  let ngap_amf_pointer := store_be 6 (pointer_id value) in
  let ngap_amf_region_id := store_be 8 (region_id value) in
  let ngap_amf_set_id := store_be 10 (set_id value) in
  Returns (MkNgapAmfId ngap_amf_region_id ngap_amf_set_id ngap_amf_pointer).

Record SbiGuami : Type := MkSbiGuami { guami_plmn_id : SbiPlmnId; guami_amf_id : SbiAmfId }.

Record NgapGuami : Type := MkNgapGuami { guami_plmn_identity : NgapPlmnIdentity; guami_amf : NgapAmfId }.

(** [config::PlmnSupportItem]. *)
Record ConfigPlmnSupportItem : Type := MkPlmnSupport {
  plmn_id : SbiPlmnId;
  snssai_list : SbiSnssai * list SbiSnssai;
}.

(** [NgapPlmnSupportItem], without the optional parts left at their default;
    [SliceSupportItem] only wraps its S-NSSAI. *)
Record NgapPlmnSupportItem : Type := MkNgapPlmnSupport {
  plmn_identity : NgapPlmnIdentity;
  slice_support_list : NgapSnssai * list NgapSnssai;
}.

(** [Iterator::map] and [collect] with a function that may panic. *)
Fixpoint map_outcome {T U : Type} (f : T -> outcome U) (l : list T) : outcome (list U) :=
  match l with
  | [] => Returns []
  | x :: l =>
      let! y := f x in
      let! l := map_outcome f l in
      Returns (y :: l)
  end.

(** [transform_nonempty] on [NonEmpty { head, tail }]. *)
Definition transform_nonempty {T U : Type} (f : T -> outcome U) (value : T * list T) :
    outcome (U * list U) :=
  let! head := f (fst value) in
  let! tail := map_outcome f (snd value) in
  Returns (head, tail).

Section transform.
Context `{HexCodec} `{BitVecOps} (overflow_checks : bool).

#[local] Instance from_plmn_id : From SbiPlmnId NgapPlmnIdentity := fun value =>
  convert_mcc_mnc_to_plmn_id overflow_checks (mcc value) (mnc value).

#[local] Instance try_from_plmn_identity : TryFrom NgapPlmnIdentity SbiPlmnId :=
  convert_plmn_id_to_mcc_mnc.

#[local] Instance from_snssai : From SbiSnssai NgapSnssai := convert_sbi_snssai_to_ngap_snssai.

(** [From<Element<&SbiGuami>>]. *)
#[local] Instance from_guami : From SbiGuami NgapGuami := fun value =>
  let! amf := convert (guami_amf_id value) in
  let! plmn := convert (guami_plmn_id value) in
  Returns (MkNgapGuami plmn amf).

Definition convert_guami_list : SbiGuami * list SbiGuami -> outcome (NgapGuami * list NgapGuami) :=
  transform_nonempty (fun item => convert item).

Definition convert_slice_list : SbiSnssai * list SbiSnssai -> outcome (NgapSnssai * list NgapSnssai) :=
  transform_nonempty (fun item => convert item).

Definition convert_plmn_support_item (item : ConfigPlmnSupportItem) : outcome NgapPlmnSupportItem :=
  let! p := convert (plmn_id item) in
  let! s := convert_slice_list (snssai_list item) in
  Returns (MkNgapPlmnSupport p s).

Definition convert_plmn_support_list :
    ConfigPlmnSupportItem * list ConfigPlmnSupportItem ->
    outcome (NgapPlmnSupportItem * list NgapPlmnSupportItem) :=
  transform_nonempty convert_plmn_support_item.
End transform.

(** ** 5G-S-TMSI ([fiveg_s_tmsi.rs]) *)

Record NgapFiveGSTmsi : Type := MkFiveGSTmsi {
  tmsi_amf_set_id : list bool;
  tmsi_amf_pointer : list bool;
  five_g_tmsi : bytes;
}.

(** The types of the fields: 10 bits, 6 bits, 4 bytes. *)
Definition valid_tmsi (v : NgapFiveGSTmsi) : Prop :=
  length (tmsi_amf_set_id v) = 10%nat /\ length (tmsi_amf_pointer v) = 6%nat /\
  length (five_g_tmsi v) = 4%nat /\ Forall (fits 8) (five_g_tmsi v).

(** The six octets that [From<NgapFiveGSTmsi> for FiveGSTmsi] prints. *)
Definition tmsi_octets `{BitVecOps} (value : NgapFiveGSTmsi) : outcome bytes :=
  let amf_set_id := into_vec (tmsi_amf_set_id value) in
  let amf_pointer := into_vec (tmsi_amf_pointer value) in
  let tmsi := five_g_tmsi value in
  let! a0 := index amf_set_id 0 in
  let! a1 := index amf_set_id 1 in
  let! p0 := index amf_pointer 0 in
  let! t0 := index tmsi 0 in
  let! t1 := index tmsi 1 in
  let! t2 := index tmsi 2 in
  let! t3 := index tmsi 3 in
  Returns [a0; Z.lor a1 p0; t0; t1; t2; t3].

Definition FiveGSTmsi_from `{HexCodec} `{BitVecOps} (value : NgapFiveGSTmsi) : outcome bytes :=
  let! tmsi := tmsi_octets value in
  Returns (hex_string tmsi).

(** The 48 bits of the identifier: set, pointer, 5G-TMSI. *)
Definition tmsi_intended `{HexCodec} (value : NgapFiveGSTmsi) : bytes :=
  hex_string (pack_bits (tmsi_amf_set_id value ++ tmsi_amf_pointer value) ++ five_g_tmsi value).
