(* ===== verification/ConvertProps.v ===== *)
(** * What the conversions preserve *)

From S2P Require Import Prelude Convert.

(** ** PLMN identities *)

Lemma digit_spec b : is_digit b = true -> exists d, b = 48 + d /\ 0 <= d <= 9.
Proof. unfold is_digit. intros. exists (b - 48). lia. Qed.

Lemma valid_mcc_digits s :
  valid_mcc s = true -> exists a b c, s = [48 + a; 48 + b; 48 + c] /\
    0 <= a <= 9 /\ 0 <= b <= 9 /\ 0 <= c <= 9.
Proof.
  unfold valid_mcc. rewrite andb_true_iff, Nat.eqb_eq. intros [Hl Hd].
  destruct s as [|x [|y [|z [|]]]]; try done. simpl in Hd. rewrite !andb_true_iff in Hd.
  destruct Hd as (H1 & H2 & H3 & _).
  apply digit_spec in H1 as (a & -> & ?), H2 as (b & -> & ?), H3 as (c & -> & ?).
  by exists a, b, c.
Qed.

Lemma valid_mnc_digits s :
  valid_mnc s = true ->
  (exists a b, s = [48 + a; 48 + b] /\ 0 <= a <= 9 /\ 0 <= b <= 9) \/ valid_mcc s = true.
Proof.
  unfold valid_mnc, valid_mcc. rewrite andb_true_iff, orb_true_iff, !Nat.eqb_eq.
  intros [[Hl|Hl] Hd]; [left|by right; rewrite andb_true_iff, Nat.eqb_eq].
  destruct s as [|x [|y [|]]]; try done. simpl in Hd. rewrite !andb_true_iff in Hd.
  destruct Hd as (H1 & H2 & _).
  apply digit_spec in H1 as (a & -> & ?), H2 as (b & -> & ?). by exists a, b.
Qed.

Lemma u8_sub_digit oc d : 0 <= d -> u8_sub oc (48 + d) ascii_0 = Returns d.
Proof.
  intros. unfold u8_sub, ascii_0. rewrite (proj2 (Z.leb_le _ _)) by lia. f_equal. lia.
Qed.

Lemma display_digit d : 0 <= d <= 9 -> display_u8 d = [48 + d].
Proof. intros. unfold display_u8. by rewrite (proj2 (Z.ltb_lt _ _)) by lia. Qed.

(** The octets of three MCC digits and two or three MNC digits; [f] is the
    filler or the first MNC digit. *)
Definition plmn_octets (a b c f d e : Z) : NgapPlmnIdentity :=
  MkPlmn (16 * b + a) (16 * f + c) (16 * e + d).

Lemma encode_2_digits oc a b c d e :
  0 <= a <= 9 -> 0 <= b <= 9 -> 0 <= c <= 9 -> 0 <= d <= 9 -> 0 <= e <= 9 ->
  convert_mcc_mnc_to_plmn_id oc [48 + a; 48 + b; 48 + c] [48 + d; 48 + e] =
  Returns (plmn_octets a b c 15 d e).
Proof.
  intros. unfold convert_mcc_mnc_to_plmn_id, pack_digits, digit_at, index.
  cbn -[Z.add Z.mul Z.lor u8_sub].
  rewrite !u8_sub_digit by lia. cbn -[Z.add Z.mul Z.lor].
  rewrite !nibbles_pack by lia.
  assert (Z.lor 0xF0 c = 16 * 15 + c) as -> by (apply (nibbles_pack 15 c); lia). done.
Qed.

Lemma encode_3_digits oc a b c d e f :
  0 <= a <= 9 -> 0 <= b <= 9 -> 0 <= c <= 9 -> 0 <= d <= 9 -> 0 <= e <= 9 -> 0 <= f <= 9 ->
  convert_mcc_mnc_to_plmn_id oc [48 + a; 48 + b; 48 + c] [48 + f; 48 + d; 48 + e] =
  Returns (plmn_octets a b c f d e).
Proof.
  intros. unfold convert_mcc_mnc_to_plmn_id, pack_digits, digit_at, index.
  cbn -[Z.add Z.mul Z.lor u8_sub].
  rewrite !u8_sub_digit by lia. cbn -[Z.add Z.mul Z.lor].
  by rewrite !nibbles_pack by lia.
Qed.

Lemma nibbles_of hi lo : 0 <= lo < 16 ->
  Z.shiftr (16 * hi + lo) 4 = hi /\ Z.land (16 * hi + lo) 0x0F = lo.
Proof.
  intros. rewrite nibble_low, nibble_high.
  split; [symmetry; apply (Z.div_unique _ _ _ lo)|symmetry; apply (Z.mod_unique _ _ hi)]; lia.
Qed.

Lemma decode_octets_plmn a b c f d e :
  0 <= a < 16 -> 0 <= b < 16 -> 0 <= c < 16 -> 0 <= f < 16 -> 0 <= d < 16 -> 0 <= e < 16 ->
  convert_plmn_id_to_mcc_mnc (plmn_octets a b c f d e) =
  if (e <=? 9) && (d <=? 9) && (a <=? 9) && (b <=? 9) && (c <=? 9)
  then Ok (MkSbiPlmnId [48 + a; 48 + b; 48 + c]
         (if 10 <=? f then [48 + d; 48 + e] else [48 + f; 48 + d; 48 + e]))
  else Err (InvalidPlmnDigits [16 * b + a; 16 * f + c; 16 * e + d]).
Proof.
  intros. unfold convert_plmn_id_to_mcc_mnc, plmn_octets. cbn [octet1 octet2 octet3].
  destruct (nibbles_of b a ltac:(lia)) as [-> ->], (nibbles_of f c ltac:(lia)) as [-> ->],
    (nibbles_of e d ltac:(lia)) as [-> ->].
  assert (forall x, (9 <? x) = negb (x <=? 9)) as Hn by (intros; lia). rewrite !Hn, <-!negb_andb.
  destruct (_ && _) eqn:E; simpl; [|done].
  rewrite !display_digit by lia. destruct (Z.leb_spec 10 f); [done|].
  by rewrite display_digit by lia.
Qed.

Lemma octet_nibbles o : fits 8 o -> exists hi lo, o = 16 * hi + lo /\ 0 <= hi < 16 /\ 0 <= lo < 16.
Proof.
  unfold fits. intros. exists (o / 16), (o mod 16).
  pose proof (Z.div_mod o 16). pose proof (Z.mod_pos_bound o 16). lia.
Qed.

Lemma plmn_encodes oc p :
  valid_plmn p = true -> exists a b c f d e,
    0 <= a <= 9 /\ 0 <= b <= 9 /\ 0 <= c <= 9 /\ (0 <= f <= 9 \/ f = 15) /\
    0 <= d <= 9 /\ 0 <= e <= 9 /\
    convert_mcc_mnc_to_plmn_id oc (mcc p) (mnc p) = Returns (plmn_octets a b c f d e) /\
    convert_plmn_id_to_mcc_mnc (plmn_octets a b c f d e) = Ok p.
Proof.
  unfold valid_plmn. rewrite andb_true_iff. intros [H1 H2]. destruct p as [s r]. simpl in *.
  destruct (valid_mcc_digits s H1) as (a & b & c & -> & Ha & Hb & Hc).
  assert (Hdec : forall f d e, 0 <= f < 16 -> 0 <= d <= 9 -> 0 <= e <= 9 ->
    convert_plmn_id_to_mcc_mnc (plmn_octets a b c f d e) =
    Ok (MkSbiPlmnId [48 + a; 48 + b; 48 + c]
      (if 10 <=? f then [48 + d; 48 + e] else [48 + f; 48 + d; 48 + e]))).
  { intros. rewrite decode_octets_plmn by lia.
    by rewrite !(proj2 (Z.leb_le _ _)) by lia. }
  destruct (valid_mnc_digits r H2) as [(d & e & -> & Hd & He)|H3].
  - exists a, b, c, 15, d, e. rewrite encode_2_digits, Hdec by lia. split_and!; try done; lia.
  - destruct (valid_mcc_digits r H3) as (f & d & e & -> & Hf & Hd & He).
    exists a, b, c, f, d, e. rewrite encode_3_digits, Hdec by lia.
    rewrite (proj2 (Z.leb_gt _ _)) by lia. split_and!; try done; lia.
Qed.

(** A valid MCC/MNC pair encodes without a panic in every build profile, to
    three octets that decode to exactly that pair. *)
Lemma plmn_roundtrip oc p :
  valid_plmn p = true -> exists id,
    convert_mcc_mnc_to_plmn_id oc (mcc p) (mnc p) = Returns id /\
    Forall (fits 8) [octet1 id; octet2 id; octet3 id] /\
    convert_plmn_id_to_mcc_mnc id = Ok p.
Proof.
  intros Hv. destruct (plmn_encodes oc p Hv) as (a & b & c & f & d & e & ? & ? & ? & ? & ? & ? & He & Hd).
  eexists. split_and!; [exact He| |exact Hd]. unfold plmn_octets, fits. simpl.
  repeat constructor; lia.
Qed.

(** *** The digit coding of the NGAP specification

    The digits of the MCC, a filler if the MNC has two digits only, and the
    digits of the MNC, two to an octet, the first in the low half. *)

Fixpoint pack_nibbles (ds : list Z) : bytes :=
  match ds with
  | lo :: hi :: ds => 16 * hi + lo :: pack_nibbles ds
  | _ => []
  end.

Definition unpack_nibbles (octets : bytes) : list Z :=
  octets ≫= fun o => [o mod 16; o / 16].

Definition digits_of (s : bytes) : list Z := (fun b => b - ascii_0) <$> s.

Definition numerals (ds : list Z) : bytes := Z.add ascii_0 <$> ds.

Definition plmn_digits (p : SbiPlmnId) : list Z :=
  digits_of (mcc p) ++ (if decide (length (mnc p) = 2%nat) then [15] else []) ++ digits_of (mnc p).

Definition plmn_octet_list (id : NgapPlmnIdentity) : bytes := [octet1 id; octet2 id; octet3 id].

(** Any nibble above 9 stands for the filler. *)
Definition reference_decode (octets : bytes) : Result SbiPlmnId ConversionError :=
  match unpack_nibbles octets with
  | [a; b; c; f; d; e] =>
      if forallb (fun x => x <=? 9) [a; b; c; d; e]
      then Ok (MkSbiPlmnId (numerals [a; b; c]) (numerals (filter (fun x => x <= 9) [f] ++ [d; e])))
      else Err (InvalidPlmnDigits octets)
  | _ => Err (InvalidPlmnDigits octets)
  end.

Lemma unpack_octets a b c f d e :
  0 <= a < 16 -> 0 <= b < 16 -> 0 <= c < 16 -> 0 <= f < 16 -> 0 <= d < 16 -> 0 <= e < 16 ->
  unpack_nibbles (plmn_octet_list (plmn_octets a b c f d e)) = [a; b; c; f; d; e].
Proof.
  intros. destruct (nibbles_of b a ltac:(lia)) as [E1 E2], (nibbles_of f c ltac:(lia)) as [E3 E4],
    (nibbles_of e d ltac:(lia)) as [E5 E6].
  rewrite nibble_high in E1, E3, E5. rewrite nibble_low in E2, E4, E6.
  unfold unpack_nibbles, plmn_octet_list, plmn_octets. simpl. by rewrite E1, E2, E3, E4, E5, E6.
Qed.

Lemma octets_plmn id :
  Forall (fits 8) (plmn_octet_list id) -> exists a b c f d e, id = plmn_octets a b c f d e /\
    0 <= a < 16 /\ 0 <= b < 16 /\ 0 <= c < 16 /\ 0 <= f < 16 /\ 0 <= d < 16 /\ 0 <= e < 16.
Proof.
  unfold plmn_octet_list. rewrite !Forall_cons, Forall_nil. intros (H1 & H2 & H3 & _).
  destruct id as [x y z]. simpl in *.
  destruct (octet_nibbles x H1) as (b & a & -> & Hb & Ha), (octet_nibbles y H2) as (f & c & -> & Hf & Hc),
    (octet_nibbles z H3) as (e & d & -> & He & Hd).
  by exists a, b, c, f, d, e.
Qed.

Lemma digit_back d : 48 + d - ascii_0 = d.
Proof. unfold ascii_0. lia. Qed.

Lemma encode_packs oc p :
  valid_plmn p = true -> exists id,
    convert_mcc_mnc_to_plmn_id oc (mcc p) (mnc p) = Returns id /\
    plmn_octet_list id = pack_nibbles (plmn_digits p).
Proof.
  intros Hv. destruct p as [s r]. unfold valid_plmn in Hv. apply andb_true_iff in Hv as [H1 H2].
  simpl in H1, H2. destruct (valid_mcc_digits s H1) as (a & b & c & -> & Ha & Hb & Hc).
  destruct (valid_mnc_digits r H2) as [(d & e & -> & Hd & He)|H3].
  - eexists. split; [by apply encode_2_digits|].
    cbn -[Z.sub Z.add Z.mul]. by rewrite !digit_back.
  - destruct (valid_mcc_digits r H3) as (f & d & e & -> & Hf & Hd & He).
    eexists. split; [by apply encode_3_digits|].
    cbn -[Z.sub Z.add Z.mul]. by rewrite !digit_back.
Qed.

Lemma decode_unpacks id :
  Forall (fits 8) (plmn_octet_list id) ->
  convert_plmn_id_to_mcc_mnc id = reference_decode (plmn_octet_list id).
Proof.
  intros Hid. destruct (octets_plmn id Hid) as (a & b & c & f & d & e & -> & ? & ? & ? & ? & ? & ?).
  rewrite decode_octets_plmn by lia. unfold reference_decode. rewrite unpack_octets by lia.
  replace (forallb _ _) with ((e <=? 9) && (d <=? 9) && (a <=? 9) && (b <=? 9) && (c <=? 9))
    by (simpl; lia).
  destruct (_ && _); [|done].
  by destruct (Z.leb_spec 10 f); [rewrite filter_cons_False by lia|rewrite filter_cons_True by lia].
Qed.

Lemma decoded_reencodes oc id p :
  Forall (fits 8) (plmn_octet_list id) -> convert_plmn_id_to_mcc_mnc id = Ok p ->
  valid_plmn p = true /\
  convert_mcc_mnc_to_plmn_id oc (mcc p) (mnc p) =
    Returns (MkPlmn (octet1 id)
      (if 10 <=? octet2 id / 16 then 0xF0 + octet2 id mod 16 else octet2 id) (octet3 id)).
Proof.
  intros Hid. destruct (octets_plmn id Hid) as (a & b & c & f & d & e & -> & ? & ? & ? & ? & ? & ?).
  rewrite decode_octets_plmn by lia. cbn [octet1 octet2 octet3 plmn_octets].
  destruct (nibbles_of f c ltac:(lia)) as [E1 E2]. rewrite nibble_high in E1. rewrite nibble_low in E2.
  rewrite E1, E2. destruct (_ && _) eqn:E; [|done]. intros [= <-].
  unfold valid_plmn, valid_mcc, valid_mnc, is_digit. cbn [mcc mnc]. destruct (Z.leb_spec 10 f);
    [rewrite encode_2_digits by lia|rewrite encode_3_digits by lia]; (split; [simpl; lia|done]).
Qed.

(** C20 (equivalence): the hand-written shifts and masks are the digit coding of
    the specification. A valid pair encodes without a panic in every build
    profile, to three octets that are the packed digits and that decode to
    exactly that pair; decoding any three octets is unpacking them, for valid and invalid digits alike,
    with every nibble above 9 taken for the filler. What is decoded is a valid
    pair, and encoding it again gives the octets back with the filler made
    canonical. *)
Theorem plmn_codec_is_standard oc :
  (forall p, valid_plmn p = true -> exists id,
    convert_mcc_mnc_to_plmn_id oc (mcc p) (mnc p) = Returns id /\
    plmn_octet_list id = pack_nibbles (plmn_digits p) /\ Forall (fits 8) (plmn_octet_list id) /\
    convert_plmn_id_to_mcc_mnc id = Ok p) /\
  (forall id, Forall (fits 8) (plmn_octet_list id) ->
    convert_plmn_id_to_mcc_mnc id = reference_decode (plmn_octet_list id) /\
    forall p, convert_plmn_id_to_mcc_mnc id = Ok p -> valid_plmn p = true /\
      convert_mcc_mnc_to_plmn_id oc (mcc p) (mnc p) =
        Returns (MkPlmn (octet1 id)
          (if 10 <=? octet2 id / 16 then 0xF0 + octet2 id mod 16 else octet2 id) (octet3 id))).
Proof.
  split.
  { intros p Hv. destruct (encode_packs oc p Hv) as (id & He & Hp).
    destruct (plmn_roundtrip oc p Hv) as (id' & He' & Hf & Hd). rewrite He in He'. injection He' as <-.
    by exists id. }
  intros id Hid. split; [by apply decode_unpacks|].
  intros p. by apply decoded_reencodes.
Qed.

(** ** Hex strings *)

Lemma hex_join_cons (l : bytes) (ls : list bytes) : mjoin (l :: ls) = l ++ mjoin ls.
Proof. done. Qed.

Lemma hex_lower_digit b : is_hex b = true -> exists d, 0 <= d < 16 /\ to_lower b = hex_digit d.
Proof.
  unfold is_hex, is_digit, to_lower, hex_digit. intros Hb.
  destruct ((65 <=? b) && (b <=? 90)) eqn:E.
  - exists (b - 55). split; [lia|]. rewrite (proj2 (Z.ltb_ge _ _)) by lia. lia.
  - destruct (Z.leb_spec 97 b).
    + exists (b - 87). split; [lia|]. rewrite (proj2 (Z.ltb_ge _ _)) by lia. lia.
    + exists (b - 48). split; [lia|]. rewrite (proj2 (Z.ltb_lt _ _)) by lia. lia.
Qed.

Lemma hex_pair_of x y :
  0 <= x < 16 -> 0 <= y < 16 -> hex_pair (16 * x + y) = [hex_digit x; hex_digit y] /\ fits 8 (16 * x + y).
Proof.
  intros. destruct (nibbles_of x y ltac:(lia)) as [E1 E2]. rewrite nibble_high in E1.
  rewrite nibble_low in E2. unfold hex_pair, fits. rewrite E1, E2. split; [done|lia].
Qed.

Lemma hex_digit_hex d : 0 <= d < 16 -> is_hex (hex_digit d) = true /\ to_lower (hex_digit d) = hex_digit d.
Proof.
  intros Hd.
  assert (check_below 16 (fun d => is_hex (hex_digit d) && (to_lower (hex_digit d) =? hex_digit d))
    = true) as H by reflexivity.
  pose proof (check_below_spec _ _ H d Hd) as Hc.
  apply andb_true_iff in Hc as [Hc1 Hc2%Z.eqb_eq]. done.
Qed.

(** A string of hex digits is, up to case, the print of some octets. *)
Lemma hex_octets n s :
  length s = (2 * n)%nat -> forallb is_hex s = true ->
  exists bs, length bs = n /\ Forall (fits 8) bs /\ to_lower <$> s = mjoin (hex_pair <$> bs).
Proof.
  revert s. induction n as [|n IH]; intros s Hl Hs.
  - destruct s; [|done]. by exists [].
  - destruct s as [|a [|b s]]; simpl in Hl; [lia..|]. simpl in Hs. rewrite !andb_true_iff in Hs.
    destruct Hs as (Ha & Hb & Hs). destruct (IH s ltac:(lia) Hs) as (bs & Hn & Hf & E).
    destruct (hex_lower_digit a Ha) as (x & Hx & Ex), (hex_lower_digit b Hb) as (y & Hy & Ey).
    destruct (hex_pair_of x y Hx Hy) as [Ep Hp].
    exists ((16 * x + y) :: bs). split_and!; [simpl; lia|by constructor|].
    by rewrite !fmap_cons, hex_join_cons, Ep, Ex, Ey, E.
Qed.

Lemma hex_print_hex bs :
  Forall (fits 8) bs ->
  length (mjoin (hex_pair <$> bs)) = (2 * length bs)%nat /\
  forallb is_hex (mjoin (hex_pair <$> bs)) = true /\
  to_lower <$> mjoin (hex_pair <$> bs) = mjoin (hex_pair <$> bs).
Proof.
  induction 1 as [|b bs Hb _ (IH1 & IH2 & IH3)]; [done|].
  destruct (octet_nibbles b Hb) as (x & y & -> & Hx & Hy).
  destruct (hex_pair_of x y Hx Hy) as [Ep _].
  destruct (hex_digit_hex x Hx) as [A1 A2], (hex_digit_hex y Hy) as [B1 B2].
  rewrite fmap_cons, hex_join_cons, Ep. cbn [app]. rewrite !fmap_cons, A2, B2, IH3.
  cbn [length forallb]. rewrite A1, B1, IH1, IH2. split_and!; [lia|done..].
Qed.

(** *** A codec that behaves as documented *)

Definition hex_value (b : Z) : Z := if b <=? 57 then b - 48 else if b <=? 70 then b - 55 else b - 87.

Fixpoint hex_values (s : bytes) : bytes :=
  match s with
  | a :: b :: s => 16 * hex_value a + hex_value b :: hex_values s
  | _ => []
  end.

#[export] Instance plain_hex : HexCodec := {
  hex_string bs := mjoin (hex_pair <$> bs);
  hex_decode s dst :=
    if hex_fits s (length dst) then Ok (hex_values s ++ drop (length s / 2) dst) else Err ();
}.

Lemma lower_hex b : is_hex (to_lower b) = is_hex b /\ (is_hex b = true -> hex_value (to_lower b) = hex_value b).
Proof.
  unfold is_hex, is_digit, to_lower, hex_value.
  destruct ((65 <=? b) && (b <=? 90)) eqn:E; [|done]. split; [lia|]. intros.
  rewrite (proj2 (Z.leb_gt (b + 32) 57)), (proj2 (Z.leb_gt (b + 32) 70)), (proj2 (Z.leb_gt b 57)),
    (proj2 (Z.leb_le b 70)) by lia. lia.
Qed.

Lemma hex_values_lower s :
  forallb is_hex (to_lower <$> s) = forallb is_hex s /\
  (forallb is_hex s = true -> hex_values (to_lower <$> s) = hex_values s).
Proof.
  induction s as [s IH] using (induction_ltof1 _ length). unfold ltof in IH.
  destruct s as [|a [|b s]]; [done|simpl; by rewrite (proj1 (lower_hex a))|].
  destruct (lower_hex a) as [A1 A2], (lower_hex b) as [B1 B2].
  destruct (IH s ltac:(simpl; lia)) as [H1 H2]. rewrite !fmap_cons. cbn [forallb hex_values].
  rewrite A1, B1, H1. split; [done|]. rewrite !andb_true_iff. intros (Ha & Hb & Hs).
  by rewrite A2, B2, H2.
Qed.

Lemma hex_value_digit d : 0 <= d < 16 -> hex_value (hex_digit d) = d.
Proof.
  intros Hd. assert (check_below 16 (fun d => hex_value (hex_digit d) =? d) = true) as H by reflexivity.
  by apply Z.eqb_eq, (check_below_spec _ _ H).
Qed.

Lemma hex_values_print bs : Forall (fits 8) bs -> hex_values (mjoin (hex_pair <$> bs)) = bs.
Proof.
  induction 1 as [|b bs Hb _ IH]; [done|].
  destruct (octet_nibbles b Hb) as (x & y & -> & Hx & Hy).
  destruct (hex_pair_of x y Hx Hy) as [Ep _]. 
  rewrite fmap_cons, hex_join_cons, Ep. simpl. rewrite !hex_value_digit by done. by f_equal.
Qed.

#[export] Instance plain_hex_laws : HexLaws.
Proof.
  split.
  - done.
  - intros s bs dst Hbs E Hl. cbn [hex_decode plain_hex]. destruct (hex_print_hex bs Hbs) as (H1 & H2 & _).
    destruct (hex_values_lower s) as [L1 L2]. rewrite E in L1, L2. rewrite H2 in L1.
    apply (f_equal length) in E. rewrite length_fmap, H1 in E.
    unfold hex_fits. rewrite E, Nat.even_even, <-L1, (proj2 (Nat.leb_le _ _)) by lia.
    rewrite <-L2, hex_values_print, (Nat.mul_comm 2), Nat.div_mul by done.
    eexists. split; [done|]. rewrite length_drop. lia.
  - intros s dst Hbad. simpl. by rewrite Hbad.
Qed.

(** ** Tracking areas and slices *)

Section hex_props.
Context `{HexLaws}.

(** The digits of three octets are read back as these octets. *)
Lemma decode_octets_of s t :
  octets_fit t -> to_lower <$> s = mjoin (hex_pair <$> octets_of t) -> decode_octets s = Returns t.
Proof.
  intros Ht E. unfold decode_octets.
  destruct (hex_decode_spec s (octets_of t) [0; 0; 0] Ht E (le_n _)) as ([|] & -> & Hl); [|done].
  by destruct t.
Qed.

Lemma print_octets t :
  octets_fit t -> decode_octets (hex_string (octets_of t)) = Returns t.
Proof.
  intros Ht. unfold decode_octets. rewrite hex_string_spec by done.
  destruct (hex_print_hex _ Ht) as (_ & _ & Hl).
  by apply decode_octets_of.
Qed.

Lemma parse_octets s :
  valid_hex6 s = true -> exists t, octets_fit t /\ decode_octets s = Returns t /\
    hex_string (octets_of t) = to_lower <$> s.
Proof.
  unfold valid_hex6. rewrite andb_true_iff, Nat.eqb_eq. intros [Hl Hs].
  destruct (hex_octets 3 s Hl Hs) as (bs & Hn & Hf & E).
  destruct bs as [|a [|b [|c [|]]]]; try done. exists (MkOctets3 a b c).
  split_and!; [done| |by rewrite hex_string_spec]. by apply decode_octets_of.
Qed.

(** What [hex_decode] does not take is refused, and a shorter string of
    digits fills the first octets only. *)
Lemma other_octets s :
  (hex_fits s 3 = false <-> decode_octets s = Panics) /\
  (hex_fits s 3 = true -> exists t bs, decode_octets s = Returns t /\
    take (length s / 2) (octets_of t) = bs /\ mjoin (hex_pair <$> bs) = to_lower <$> s).
Proof.
  assert (H1 : hex_fits s 3 = false -> decode_octets s = Panics).
  { intros Hs. unfold decode_octets. by rewrite (hex_decode_invalid s [0; 0; 0]). }
  assert (H2 : hex_fits s 3 = true -> exists t bs, decode_octets s = Returns t /\
    take (length s / 2) (octets_of t) = bs /\ mjoin (hex_pair <$> bs) = to_lower <$> s).
  { unfold hex_fits. rewrite !andb_true_iff, Nat.even_spec, Nat.leb_le. intros [[[n Hn] Hl] Hx].
    destruct (hex_octets n s Hn Hx) as (bs & Hb & Hf & E).
    assert (Hlen : (length bs <= 3)%nat) by lia.
    destruct (hex_decode_spec s bs [0; 0; 0] Hf E Hlen) as (rest & Hd & Hr). simpl in Hr.
    unfold decode_octets. rewrite Hd. cbn [unwrap outcome_bind].
    replace (length s / 2)%nat with (length bs) by (rewrite Hn, (Nat.mul_comm 2), Nat.div_mul; lia).
    destruct (bs ++ rest) as [|a [|b [|c [|]]]] eqn:El; apply (f_equal length) in El as Hk;
      rewrite length_app in Hk; simpl in Hk; [lia..| |lia].
    exists (MkOctets3 a b c), bs. split_and!; [done| |done].
    unfold octets_of. cbn [o1 o2 o3]. by rewrite <-El, take_app_length. }
  split; [|done]. split; [done|]. intros Hp. destruct (hex_fits s 3); [|done].
  destruct (H2 eq_refl) as (t & bs & Ht & _). congruence.
Qed.

Lemma snssai_parse s :
  valid_snssai s -> exists n, convert_sbi_snssai_to_ngap_snssai s = Returns n /\
    convert_ngap_snssai_to_sbi_snssai n = lower_snssai s.
Proof.
  destruct s as [sst [sd|]]; simpl; intros Hv.
  - destruct (parse_octets sd Hv) as (t & _ & Ht & Hp).
    exists (MkNgapSnssai sst (Some t)). unfold convert_sbi_snssai_to_ngap_snssai. simpl.
    rewrite Ht. split; [done|]. unfold convert_ngap_snssai_to_sbi_snssai, lower_snssai. simpl.
    by rewrite Hp.
  - by exists (MkNgapSnssai sst None).
Qed.

Lemma snssai_print n :
  (forall d, ngap_sd n = Some d -> octets_fit d) ->
  convert_sbi_snssai_to_ngap_snssai (convert_ngap_snssai_to_sbi_snssai n) = Returns n.
Proof.
  intros Hn. destruct n as [sst [d|]]; [|done].
  unfold convert_sbi_snssai_to_ngap_snssai, convert_ngap_snssai_to_sbi_snssai. simpl.
  by rewrite print_octets by auto.
Qed.

(** C22 (roundtrip): the identifiers that travel as hex strings. Every NGAP
    tracking area code and every NGAP slice survives the trip through its SBI
    form. In the other direction a six-digit code comes back in lower case, so
    it survives exactly when it was written in lower case; an SBI slice keeps
    its type and, up to case, its differentiator. As for other strings, the
    conversion panics exactly on those with a character that is no hex digit,
    with an odd number of digits or with more than six; two or four digits, or
    none, are taken and become the first octets of the code. *)
Theorem hex_identifiers_roundtrip :
  (forall t, octets_fit t -> convert_sbi_tac_to_ngap_tac (convert_ngap_tac_to_sbi_tac t) = Returns t) /\
  (forall s, valid_hex6 s = true -> exists t, octets_fit t /\
    convert_sbi_tac_to_ngap_tac s = Returns t /\
    convert_ngap_tac_to_sbi_tac t = to_lower <$> s) /\
  (forall n, (forall d, ngap_sd n = Some d -> octets_fit d) ->
    convert_sbi_snssai_to_ngap_snssai (convert_ngap_snssai_to_sbi_snssai n) = Returns n) /\
  (forall s, valid_snssai s -> exists n, convert_sbi_snssai_to_ngap_snssai s = Returns n /\
    convert_ngap_snssai_to_sbi_snssai n = lower_snssai s) /\
  (forall s, (hex_fits s 3 = false <-> convert_sbi_tac_to_ngap_tac s = Panics) /\
    (hex_fits s 3 = true -> exists t bs, convert_sbi_tac_to_ngap_tac s = Returns t /\
      take (length s / 2) (octets_of t) = bs /\ mjoin (hex_pair <$> bs) = to_lower <$> s)).
Proof.
  split_and!; [exact print_octets|exact parse_octets|exact snssai_print|exact snssai_parse|exact other_octets].
Qed.
End hex_props.

(** ** AMF identifiers *)

Lemma of_bits_app bs cs : of_bits (bs ++ cs) = of_bits bs * 2 ^ Z.of_nat (length cs) + of_bits cs.
Proof.
  induction cs as [|c cs IH] using rev_ind; [rewrite app_nil_r; simpl; unfold of_bits at 3; simpl; lia|].
  unfold of_bits in *. rewrite app_assoc, !foldl_snoc, IH, length_app. simpl.
  rewrite Nat2Z.inj_add, Z.pow_add_r by lia. change (2 ^ Z.of_nat 1) with 2. lia.
Qed.

Lemma of_to_bits w v : 0 <= v -> of_bits (to_bits w v) = wrap (Z.of_nat w) v.
Proof.
  intros Hv. induction w as [|w IH]; [unfold wrap; simpl; by rewrite Z.mod_1_r|].
  change (to_bits (S w) v) with ([Z.testbit v (Z.of_nat w)] ++ to_bits w v).
  rewrite of_bits_app, IH.
  assert (length (to_bits w v) = w) as -> by (clear; induction w; simpl; auto).
  unfold of_bits, wrap. simpl. rewrite Nat2Z.inj_succ, Z.pow_succ_r by lia.
  rewrite Z.testbit_spec' by lia. rewrite (Z.mul_comm 2 (2 ^ Z.of_nat w)).
  rewrite Z.rem_mul_r by lia. lia.
Qed.

Lemma length_to_bits w v : length (to_bits w v) = w.
Proof. induction w; simpl; auto. Qed.

#[export] Instance plain_bits : BitVecOps := { store_be := to_bits; into_vec := pack_bits }.

#[export] Instance plain_bits_laws : BitVecLaws.
Proof. by split. Qed.

(** C23 (functional): the three parts of an AMF identifier become bit strings
    of 8, 10 and 6 bits whose values are those parts. *)
Theorem amf_id_bits `{BitVecLaws} a :
  valid_amf_id a -> exists n, convert a = Returns n /\
    length (amf_region_id n) = 8%nat /\ of_bits (amf_region_id n) = region_id a /\
    length (amf_set_id n) = 10%nat /\ of_bits (amf_set_id n) = set_id a /\
    length (amf_pointer n) = 6%nat /\ of_bits (amf_pointer n) = pointer_id a.
Proof.
  intros (Hr & Hs & Hp). unfold convert, from_amf_id. eexists. split; [done|]. simpl.
  rewrite !store_be_spec, !length_to_bits, !of_to_bits by apply Hr || apply Hs || apply Hp.
  by rewrite !wrap_small by done.
Qed.

(** ** Lists *)

(** A conversion of a non-empty list of convertible items does not panic and
    relates the items one by one. *)
Lemma map_outcome_forall {T U : Type} (f : T -> outcome U) (P : T -> Prop) (R : T -> U -> Prop) l :
  (forall x, P x -> exists y, f x = Returns y /\ R x y) -> Forall P l ->
  exists l', map_outcome f l = Returns l' /\ Forall2 R l l'.
Proof.
  intros Hf. induction 1 as [|x l Hx _ (l' & E & H)]; [by exists []|].
  destruct (Hf x Hx) as (y & Ey & Hy). exists (y :: l'). simpl. rewrite Ey. simpl. rewrite E.
  split; [done|by constructor].
Qed.

Lemma transform_nonempty_forall {T U : Type} (f : T -> outcome U) (P : T -> Prop)
    (R : T -> U -> Prop) (v : T * list T) :
  (forall x, P x -> exists y, f x = Returns y /\ R x y) -> P v.1 -> Forall P v.2 ->
  exists v', transform_nonempty f v = Returns v' /\ R v.1 v'.1 /\ Forall2 R v.2 v'.2.
Proof.
  intros Hf Hh Ht. destruct (Hf _ Hh) as (y & Ey & Hy).
  destruct (map_outcome_forall f P R v.2 Hf Ht) as (l' & El & Hl).
  exists (y, l'). unfold transform_nonempty. rewrite Ey. simpl. by rewrite El.
Qed.

Definition valid_support (item : ConfigPlmnSupportItem) : Prop :=
  valid_plmn (plmn_id item) = true /\ valid_snssai (snssai_list item).1 /\
  Forall valid_snssai (snssai_list item).2.

(** The advertised item decodes to the configured one, hex digits in lower case. *)
Definition advertises `{HexCodec} (item : ConfigPlmnSupportItem) (n : NgapPlmnSupportItem) : Prop :=
  convert_plmn_id_to_mcc_mnc (plmn_identity n) = Ok (plmn_id item) /\
  convert_ngap_snssai_to_sbi_snssai (slice_support_list n).1 = lower_snssai (snssai_list item).1 /\
  Forall2 (fun s m => convert_ngap_snssai_to_sbi_snssai m = lower_snssai s)
    (snssai_list item).2 (slice_support_list n).2.

Lemma plmn_support_converts `{HexLaws} `{BitVecOps} oc v :
  valid_support v.1 -> Forall valid_support v.2 ->
  exists v', convert_plmn_support_list oc v = Returns v' /\
    advertises v.1 v'.1 /\ Forall2 advertises v.2 v'.2.
Proof.
  apply transform_nonempty_forall. intros item (Hp & Hs1 & Hs2).
  destruct (plmn_encodes oc _ Hp) as (a & b & c & f & d & e & _ & _ & _ & _ & _ & _ & He & Hd).
  destruct (transform_nonempty_forall (fun s => convert_sbi_snssai_to_ngap_snssai s) valid_snssai
    (fun s m => convert_ngap_snssai_to_sbi_snssai m = lower_snssai s) (snssai_list item))
    as (sl & Esl & Hsl1 & Hsl2); [apply snssai_parse|done..|].
  exists (MkNgapPlmnSupport (plmn_octets a b c f d e) sl).
  unfold convert_plmn_support_item, convert_slice_list, convert, from_plmn_id, from_snssai.
  rewrite He. simpl.
  by rewrite Esl.
Qed.

(** C21 (functional): the PLMN support list that the AMF sends in its NG Setup
    Response is built without a panic from every valid configuration, with one
    item per configured PLMN in the same order, and the receiver decodes each
    item and each of its slices to the configured values. *)
Theorem plmn_support_advertised `{HexLaws} `{BitVecOps} oc v :
  valid_support v.1 -> Forall valid_support v.2 ->
  exists v', convert_plmn_support_list oc v = Returns v' /\
    advertises v.1 v'.1 /\ Forall2 advertises v.2 v'.2.
Proof. apply plmn_support_converts. Qed.

(** ** 5G-S-TMSI *)

Lemma pack_10 b9 b8 b7 b6 b5 b4 b3 b2 b1 b0 :
  pack_bits [b9; b8; b7; b6; b5; b4; b3; b2; b1; b0] =
  [of_bits [b9; b8; b7; b6; b5; b4; b3; b2]; of_bits [b1; b0; false; false; false; false; false; false]].
Proof. done. Qed.







(** ** The properties on the values of the code's tests *)

(** MCC 208, MNC 93. *)
Definition plmn_208_93 : SbiPlmnId := MkSbiPlmnId [50; 48; 56] [57; 51].

Lemma plmn_codec_is_standard_witness :
  (exists id, convert_mcc_mnc_to_plmn_id true [50; 48; 56] [57; 51] = Returns id /\
    plmn_octet_list id = pack_nibbles [2; 0; 8; 15; 9; 3] /\ convert_plmn_id_to_mcc_mnc id = Ok plmn_208_93) /\
  convert_plmn_id_to_mcc_mnc (MkPlmn 0x02 0xC8 0x39) = Ok plmn_208_93 /\
  convert_mcc_mnc_to_plmn_id true (mcc plmn_208_93) (mnc plmn_208_93) = Returns (MkPlmn 0x02 0xF8 0x39).
Proof.
  destruct (plmn_codec_is_standard true) as [H1 H2]. split.
  { destruct (H1 plmn_208_93 eq_refl) as (id & E1 & E2 & _ & E3). exists id.
    split; [exact E1|]. split; [exact E2|exact E3]. }
  destruct (H2 (MkPlmn 0x02 0xC8 0x39)) as [H3 H4].
  - repeat constructor; vm_compute; congruence.
  - split; [rewrite H3; reflexivity|]. destruct (H4 plmn_208_93 eq_refl) as [_ H5].
    rewrite H5. reflexivity.
Defined.

Lemma hex_identifiers_roundtrip_witness :
  (exists t, convert_sbi_tac_to_ngap_tac [65; 66; 49; 50; 99; 68] = Returns t /\
    convert_ngap_tac_to_sbi_tac t = [97; 98; 49; 50; 99; 100]) /\
  convert_sbi_snssai_to_ngap_snssai (convert_ngap_snssai_to_sbi_snssai
    (MkNgapSnssai 2 (Some (MkOctets3 0xAB 0xCD 0xEF)))) =
  Returns (MkNgapSnssai 2 (Some (MkOctets3 0xAB 0xCD 0xEF))) /\
  convert_sbi_tac_to_ngap_tac [48; 49; 50] = Panics /\
  exists t, convert_sbi_tac_to_ngap_tac [48; 49; 50; 51] = Returns t /\ take 2 (octets_of t) = [0x01; 0x23].
Proof.
  destruct hex_identifiers_roundtrip as (_ & H1 & H2 & _ & H5). split_and!.
  - destruct (H1 [65; 66; 49; 50; 99; 68] eq_refl) as (t & _ & H3 & H4). exists t.
    split; [exact H3|exact H4].
  - apply H2. intros d [= <-]. repeat constructor; vm_compute; congruence.
  - apply H5. reflexivity.
  - exists (MkOctets3 1 0x23 0). split; reflexivity.
Defined.

Lemma amf_id_bits_witness :
  exists n, convert (MkSbiAmfId 202 1016 3) = Returns n /\ of_bits (amf_set_id n) = 1016.
Proof.
  destruct (amf_id_bits (MkSbiAmfId 202 1016 3)) as (n & H & _ & _ & _ & Hs & _).
  - repeat split; vm_compute; congruence.
  - exists n. split; [exact H|exact Hs].
Defined.

Definition support_208_93 : ConfigPlmnSupportItem :=
  MkPlmnSupport plmn_208_93 (MkSbiSnssai 1 None, [MkSbiSnssai 2 (Some [65; 66; 67; 68; 69; 70])]).

Lemma plmn_support_advertised_witness :
  exists v', convert_plmn_support_list false (support_208_93, []) = Returns v' /\
    advertises support_208_93 v'.1.
Proof.
  destruct (plmn_support_advertised false (support_208_93, [])) as (v' & H1 & H2 & _).
  - split_and!; [reflexivity|exact I|by repeat constructor].
  - constructor.
  - exists v'. split; [exact H1|exact H2].
Defined.


