(* ===== verification/Network.v ===== *)
(** * SCTP associations ([ngap/network/])

    [Network] owns a listener and, behind a [RwLock], the associations by id and
    the set of their address pairs. The locked sections are single steps; the
    sockets of [tokio_sctp] are a parameter. *)

From S2P Require Import Prelude Counter Convert.

(** [std::net]. *)
Inductive IpAddr : Type :=
| V4 (a : Z)
| V6 (a : Z).

#[export] Instance IpAddr_eq_dec : EqDecision IpAddr.
Proof. solve_decision. Defined.

#[export] Instance IpAddr_countable : Countable IpAddr.
Proof.
  refine (inj_countable'
    (fun a => match a with V4 x => inl x | V6 x => inr x end)
    (fun s => match s with inl x => V4 x | inr x => V6 x end) _); by intros [].
Defined.

(** Address and port. *)
Notation SocketAddr := (IpAddr * Z)%type.

(** [std::io::Error]. *)
Inductive IoError : Type := OsError (code : Z).

Inductive TnlaError : Type :=
| ReadError (e : IoError)
| WriteError (e : IoError)
| LocalAddressError (e : IoError)
| RemoteAddressError (e : IoError).

Inductive NetworkError : Type :=
| SocketCreationError (e : IoError)
| ListenerBindingError (e : IoError)
| SctpSocketConfigurationError (e : IoError)
| ConnectionAcceptError (e : IoError)
| TnlaCreationError (e : TnlaError)
| AssociationAlreadyExists (local remote : SocketAddr)
| TnlaNotFound (id : Z)
| TnlaSendError (id : Z) (e : TnlaError)
| TnlaReadError (id : Z) (e : TnlaError).

Definition READ_BUFFER_SIZE : Z := 1024.
Definition NGAP_PPID : Z := 60.

(** [tokio_sctp::SendOptions], of which the code sets the payload protocol. *)
Record SendOptions : Type := MkSendOptions { ppid : Z; stream_no : Z }.

Definition default_send_options : SendOptions := MkSendOptions 0 0.

(** [tokio_sctp]: a stream's addresses, receiving (the number of octets and the
    buffer, [None] when nothing has arrived) and sending ([None] when the socket
    takes no more for now). [peer_acts] is what the network and the peer do next
    of their own accord: a message arrives, the send buffer drains, the
    connection breaks. *)
Class Sctp (Stream : Type) := {
  stream_local_addr : Stream -> Result SocketAddr IoError;
  stream_peer_addr : Stream -> Result SocketAddr IoError;
  recvmsg_eor_buf : Stream -> option (Stream * Result (Z * bytes) IoError);
  sendmsg : bytes -> SendOptions -> Stream -> option (Stream * Result Z IoError);
  peer_acts : Stream -> option Stream;
}.

(** Socket creation and configuration, one call of the library each. *)
Record SctpConfig : Type := MkSctpConfig {
  num_ostreams : Z;
  max_instreams : Z;
  max_attempts : Z;
  max_init_timeout : Z;
}.

Inductive Domain : Type := IPV4 | IPV6.

Class SctpSockets (Socket Listener : Type) := {
  socket_new : Domain -> Result Socket IoError;
  set_sctp_initmsg : SctpConfig -> Socket -> Result Socket IoError;
  set_nodelay : bool -> Socket -> Result Socket IoError;
  bind_from : Socket -> SocketAddr -> Result Listener IoError;
}.

Section Tnla.
Context {Stream : Type} `{Sctp Stream}.

Record TnlaAssociation : Type := MkTnla {
  tnla_id : Z;
  local_addr : SocketAddr;
  remote_addr : SocketAddr;
  stream : Stream;
}.

(** [TnlaAssociation::new]; the static counter is threaded. *)
Definition TnlaAssociation_new (s : Stream) (counter : Z) : Z * Result TnlaAssociation TnlaError :=
  match stream_local_addr s with
  | Err e => (counter, Err (LocalAddressError e))
  | Ok local =>
      match stream_peer_addr s with
      | Err e => (counter, Err (RemoteAddressError e))
      | Ok remote =>
          let (id, counter) := increment CounterUsize counter in
          (counter, Ok (MkTnla id local remote s))
      end
  end.

(** [impl PartialEq for TnlaAssociation]: by id, as its [Hash]. *)
Definition tnla_eqb (t u : TnlaAssociation) : bool := tnla_id t =? tnla_id u.

Definition with_stream (t : TnlaAssociation) (s : Stream) : TnlaAssociation :=
  MkTnla (tnla_id t) (local_addr t) (remote_addr t) s.

(** [read_data]: [None] while nothing has arrived. *)
Definition read_data (t : TnlaAssociation) :
    option (TnlaAssociation * Result (option bytes) TnlaError) :=
  match recvmsg_eor_buf (stream t) with
  | None => None
  | Some (s, r) =>
      Some (with_stream t s,
        match map_err ReadError r with
        | Err e => Err e
        | Ok (n, buf) => if n =? 0 then Ok None else Ok (Some buf)
        end)
  end.

(** [write_data]: [None] while the socket takes no more. *)
Definition write_data (data : bytes) (send_options : option SendOptions) (t : TnlaAssociation) :
    option (TnlaAssociation * Result unit TnlaError) :=
  let send_options := default default_send_options send_options in
  let send_options := MkSendOptions NGAP_PPID (stream_no send_options) in
  match sendmsg data send_options (stream t) with
  | None => None
  | Some (s, r) => Some (with_stream t s, result_map (fun _ => ()) (map_err WriteError r))
  end.

(** ** [Associations] *)

Record Associations : Type := MkAssociations {
  associations : gmap Z TnlaAssociation;
  associations_set : gset (SocketAddr * SocketAddr);
}.

Definition Associations_new : Associations := MkAssociations ∅ ∅.

Definition addresses (t : TnlaAssociation) : SocketAddr * SocketAddr :=
  (local_addr t, remote_addr t).

(** [add_tnla_association]: state is the associations and the id counter. *)
Definition add_tnla_association (s : Stream) (st : Associations * Z) :
    (Associations * Z) * Result TnlaAssociation NetworkError :=
  let (a, counter) := st in
  let (counter, r) := TnlaAssociation_new s counter in
  match map_err TnlaCreationError r with
  | Err e => ((a, counter), Err e)
  | Ok t =>
      if decide (addresses t ∈ associations_set a)
      then ((a, counter), Err (AssociationAlreadyExists (local_addr t) (remote_addr t)))
      else ((MkAssociations (<[tnla_id t := t]> (associations a))
               ({[addresses t]} ∪ associations_set a), counter), Ok t)
  end.

Definition remove_tnla_association (id : Z) (a : Associations) :
    Associations * option TnlaAssociation :=
  match associations a !! id with
  | Some t =>
      (MkAssociations (delete id (associations a)) (associations_set a ∖ {[addresses t]}), Some t)
  | None => (a, None)
  end.

Definition get_tnla_association (id : Z) (a : Associations) : option TnlaAssociation :=
  associations a !! id.

(** ** [Network] *)

Definition domain_of (ip : IpAddr) : Domain := match ip with V4 _ => IPV4 | V6 _ => IPV6 end.

(** [Network::new]: a bound listener, and no association yet. *)
Definition Network_new {Socket Listener : Type} `{SctpSockets Socket Listener}
    (ip_addr : IpAddr) (port : Z) (sctp_config : SctpConfig) :
    Result (Listener * Associations) NetworkError :=
  let domain := domain_of ip_addr in
  let? socket := map_err SocketCreationError (socket_new domain) in
  let? socket := map_err SctpSocketConfigurationError (set_sctp_initmsg sctp_config socket) in
  let? socket := map_err SctpSocketConfigurationError (set_nodelay true socket) in
  let addr := (ip_addr, port) in
  let? listener := map_err ListenerBindingError (bind_from socket addr) in
  Ok (listener, Associations_new).

(** [accept_and_create_tnla] once the listener's [accept] gave [accepted]. *)
Definition accept_and_create_tnla (accepted : Result Stream IoError) (st : Associations * Z) :
    (Associations * Z) * Result TnlaAssociation NetworkError :=
  match map_err ConnectionAcceptError accepted with
  | Err e => (st, Err e)
  | Ok s => add_tnla_association s st
  end.

(** [send_data], [None] while it is parked in [write_data], with the lock
    released and the association in hand. The association is shared, so writing
    to it changes what the table refers to. *)
Definition send_data (association_id : Z) (data : bytes) (a : Associations) :
    option (Associations * Result unit NetworkError) :=
  match get_tnla_association association_id a with
  | Some t =>
      match write_data data None t with
      | None => None
      | Some (t, r) =>
          Some (MkAssociations (<[association_id := t]> (associations a)) (associations_set a),
            map_err (TnlaSendError association_id) r)
      end
  | None => Some (a, Err (TnlaNotFound association_id))
  end.

(** ** The invariant *)

(** Ids are keys, the set holds exactly the address pairs in use, and no two
    associations share one. *)
Record associations_ok (a : Associations) : Prop := {
  ao_id : forall id t, associations a !! id = Some t -> tnla_id t = id;
  ao_set : forall p, p ∈ associations_set a <->
    exists id t, associations a !! id = Some t /\ addresses t = p;
  ao_inj : forall i j t u, associations a !! i = Some t -> associations a !! j = Some u ->
    addresses t = addresses u -> i = j;
}.

(** No id from the counter on is in use. *)
Definition ids_below (st : Associations * Z) : Prop :=
  forall id, is_Some (associations st.1 !! id) -> 0 <= id < st.2.

(** The calls that change the table. A send that is parked changes nothing. *)
Inductive network_op : Type :=
| OpAccept (accepted : Result Stream IoError)
| OpRemove (id : Z)
| OpSend (id : Z) (data : bytes).

Definition network_step (op : network_op) (st : Associations * Z) : Associations * Z :=
  match op with
  | OpAccept r => (accept_and_create_tnla r st).1
  | OpRemove id => ((remove_tnla_association id st.1).1, st.2)
  | OpSend id data =>
      match send_data id data st.1 with
      | Some (a, _) => (a, st.2)
      | None => st
      end
  end.

(** A new network after a sequence of calls; the static counter starts at 1. *)
Definition network_run (ops : list network_op) : Associations * Z :=
  foldl (fun st op => network_step op st) (Associations_new, counter_new) ops.

Definition is_accept (op : network_op) : bool :=
  match op with OpAccept _ => true | _ => false end.

(** How many connections a run accepts. *)
Definition accepts (ops : list network_op) : nat :=
  length (filter (fun op => is_accept op = true) ops).
End Tnla.

Arguments TnlaAssociation : clear implicits.
Arguments Associations : clear implicits.
Arguments network_op : clear implicits.
