(* ===== verification/NetworkProps.v ===== *)
(** * The association table is consistent *)

From S2P Require Import Prelude Counter Convert Network.

Section network_props.
Context {Stream : Type} `{Sctp Stream}.
Implicit Types (s : Stream) (a : Associations Stream) (c : Z) (t : TnlaAssociation Stream).

Lemma new_counter s c :
  (exists e, TnlaAssociation_new s c = (c, Err e)) \/
  (exists l r, stream_local_addr s = Ok l /\ stream_peer_addr s = Ok r /\
    TnlaAssociation_new s c = (wrap 64 (c + 1), Ok (MkTnla c l r s))).
Proof.
  unfold TnlaAssociation_new. destruct (stream_local_addr s) as [l|e]; [|left; eauto].
  destruct (stream_peer_addr s) as [r|e]; [|left; eauto]. right. by exists l, r.
Qed.

(** The three outcomes of adding a stream. *)
Inductive add_outcome s a c : (Associations Stream * Z) * Result (TnlaAssociation Stream) NetworkError -> Prop :=
| add_unusable e :
    TnlaAssociation_new s c = (c, Err e) ->
    add_outcome s a c ((a, c), Err (TnlaCreationError e))
| add_duplicate l r :
    stream_local_addr s = Ok l -> stream_peer_addr s = Ok r -> (l, r) ∈ associations_set a ->
    add_outcome s a c ((a, wrap 64 (c + 1)), Err (AssociationAlreadyExists l r))
| add_fresh l r :
    stream_local_addr s = Ok l -> stream_peer_addr s = Ok r -> (l, r) ∉ associations_set a ->
    add_outcome s a c
      ((MkAssociations (<[c := MkTnla c l r s]> (associations a)) ({[(l, r)]} ∪ associations_set a),
        wrap 64 (c + 1)), Ok (MkTnla c l r s)).

Lemma add_cases s a c : add_outcome s a c (add_tnla_association s (a, c)).
Proof.
  unfold add_tnla_association. destruct (new_counter s c) as [[e E]|(l & r & El & Er & E)]; rewrite E; simpl.
  - by apply add_unusable.
  - unfold addresses; simpl. case_decide; [by eapply add_duplicate|by apply add_fresh].
Qed.

Lemma accept_ok s st : accept_and_create_tnla (Ok s) st = add_tnla_association s st.
Proof. done. Qed.

Lemma accept_err e st :
  accept_and_create_tnla (Err e : Result Stream IoError) st = (st, Err (ConnectionAcceptError e)).
Proof. done. Qed.

Lemma associations_ok_new : associations_ok (Associations_new : Associations Stream).
Proof.
  split; [done| |done]. intros p. simpl. split; [set_solver|]. intros (id & t & Hl & _). done.
Qed.

(** Replacing the stream of an association changes nothing else. *)
Lemma ok_update a id t t' :
  associations_ok a -> associations a !! id = Some t -> tnla_id t' = tnla_id t ->
  addresses t' = addresses t ->
  associations_ok (MkAssociations (<[id := t']> (associations a)) (associations_set a)).
Proof.
  intros [Hid Hset Hinj] Ht Ei Ea. split; simpl.
  - intros j u. destruct (decide (id = j)) as [->|Hne].
    + rewrite lookup_insert_eq. intros [= <-]. rewrite Ei. eauto.
    + rewrite lookup_insert_ne by done. eauto.
  - intros p. rewrite Hset. split; intros (j & u & Hu & Hp).
    + destruct (decide (id = j)) as [->|Hne].
      * exists j, t'. rewrite lookup_insert_eq. split; [done|]. congruence.
      * exists j, u. by rewrite lookup_insert_ne.
    + destruct (decide (id = j)) as [->|Hne].
      * rewrite lookup_insert_eq in Hu. injection Hu as <-. exists j, t. split; [done|]. congruence.
      * rewrite lookup_insert_ne in Hu by done. eauto.
  - intros i j u v Hu Hv.
    destruct (decide (i = id)) as [->|Hi]; destruct (decide (j = id)) as [->|Hj]; try done;
      rewrite ?lookup_insert_eq, ?lookup_insert_ne in Hu by done;
      rewrite ?lookup_insert_eq, ?lookup_insert_ne in Hv by done;
      repeat match goal with E : Some _ = Some _ |- _ => injection E as <- end;
      rewrite ?Ea; eauto.
Qed.

Lemma ok_fresh a c t :
  associations_ok a -> associations a !! c = None -> tnla_id t = c ->
  addresses t ∉ associations_set a ->
  associations_ok (MkAssociations (<[c := t]> (associations a)) ({[addresses t]} ∪ associations_set a)).
Proof.
  intros [Hid Hset Hinj] Hc Hi Hni. split; simpl.
  - intros j u. destruct (decide (c = j)) as [->|Hne].
    + rewrite lookup_insert_eq. by intros [= <-].
    + rewrite lookup_insert_ne by done. eauto.
  - intros p. rewrite elem_of_union, elem_of_singleton, Hset. split.
    + intros [->|(j & u & Hu & Hp)]; [exists c, t; by rewrite lookup_insert_eq|].
      exists j, u. rewrite lookup_insert_ne; [done|congruence].
    + intros (j & u & Hu & Hp). destruct (decide (c = j)) as [->|Hne].
      * rewrite lookup_insert_eq in Hu. simplify_eq. by left.
      * rewrite lookup_insert_ne in Hu by done. eauto.
  - assert (Hnew : forall j u, associations a !! j = Some u -> addresses u <> addresses t).
    { intros j u Hu E. apply Hni, Hset. eauto. }
    intros i j u v Hu Hv E.
    destruct (decide (i = c)) as [->|Hci]; destruct (decide (j = c)) as [->|Hcj]; try done;
      rewrite ?lookup_insert_eq, ?lookup_insert_ne in Hu by done;
      rewrite ?lookup_insert_eq, ?lookup_insert_ne in Hv by done;
      repeat match goal with E : Some _ = Some _ |- _ => injection E as <- end; [|..|by eauto].
    + by destruct (Hnew j v Hv).
    + by destruct (Hnew i u Hu).
Qed.

Lemma ok_remove a id t :
  associations_ok a -> associations a !! id = Some t ->
  associations_ok (MkAssociations (delete id (associations a)) (associations_set a ∖ {[addresses t]})).
Proof.
  intros [Hid Hset Hinj] Ht. split; simpl.
  - intros j u [_ Hu]%lookup_delete_Some. eauto.
  - intros p. rewrite elem_of_difference, elem_of_singleton, Hset. split.
    + intros [(j & u & Hu & Hp) Hne]. exists j, u. rewrite lookup_delete_ne; [done|]. congruence.
    + intros (j & u & [Hne Hu]%lookup_delete_Some & Hp). split; [eauto|].
      intros E. apply Hne. eapply Hinj; [done..|]. congruence.
  - intros i j u v [_ Hu]%lookup_delete_Some [_ Hv]%lookup_delete_Some. eauto.
Qed.

(** In a consistent table equal associations are one. *)
Lemma tnla_eqb_same a i j t u :
  associations_ok a -> associations a !! i = Some t -> associations a !! j = Some u ->
  tnla_eqb t u = true <-> i = j.
Proof.
  intros Hok Ht Hu. unfold tnla_eqb. rewrite Z.eqb_eq, (ao_id a Hok i t Ht), (ao_id a Hok j u Hu). done.
Qed.

Lemma ids_fresh a c : ids_below (a, c) -> associations a !! c = None.
Proof.
  intros Hb. destruct (associations a !! c) as [t|] eqn:E; [|done].
  specialize (Hb c). simpl in Hb. rewrite E in Hb. destruct Hb as [_ Hb]; [by eexists|lia].
Qed.

(** One call keeps the table consistent while the id counter has not wrapped. *)
Lemma network_step_ok op a c :
  associations_ok a -> ids_below (a, c) -> 0 <= c -> (is_accept op = true -> c + 1 < 2 ^ 64) ->
  let st := network_step op (a, c) in
  associations_ok st.1 /\ ids_below st /\
  c <= st.2 <= c + Z.of_nat (if is_accept op then 1 else 0).
Proof.
  intros Hok Hb Hc0 Hc.
  assert (Hw : is_accept op = true -> wrap 64 (c + 1) = c + 1).
  { intros Ha. apply wrap_small. unfold fits. specialize (Hc Ha). lia. }
  destruct op as [[s|e]|id|id data]; simpl; rewrite ?accept_ok, ?accept_err.
  - destruct (add_cases s a c) as [e E|l r _ _ _|l r _ _ Hni]; simpl; rewrite ?Hw by done.
    + split_and!; [done..|lia|lia].
    + split_and!; [done| |lia|lia]. intros j Hj. specialize (Hb j Hj). simpl in *. lia.
    + split_and!; [|intros j|lia|lia].
      * apply (ok_fresh a c (MkTnla c l r s)); [done|by apply ids_fresh|done..].
      * simpl. destruct (decide (c = j)) as [->|Hne]; [lia|].
        rewrite lookup_insert_ne by done. intros Hj. specialize (Hb j Hj). simpl in Hb. lia.
  - split_and!; [done..|lia|lia].
  - unfold remove_tnla_association. destruct (associations a !! id) as [t|] eqn:Ht; simpl;
      (split_and!; [|intros j; simpl|lia|lia]); [by apply ok_remove| |done|apply Hb].
    intros Hj. apply (Hb j). simpl. destruct Hj as [u [_ Hu]%lookup_delete_Some]. by exists u.
  - unfold send_data, get_tnla_association. destruct (associations a !! id) as [t|] eqn:Ht;
      [|split_and!; [done..|simpl; lia|simpl; lia]].
    destruct (write_data data None t) as [[t' r]|] eqn:Ew; [|split_and!; [done..|simpl; lia|simpl; lia]].
    simpl. unfold write_data in Ew. destruct (sendmsg _ _ _) as [[s' r']|]; simplify_eq.
    split_and!; [by eapply ok_update| |lia|lia].
    intros j Hj. apply (Hb j). simpl in *. destruct (decide (id = j)) as [->|Hne]; [by eexists|].
    by rewrite lookup_insert_ne in Hj.
Qed.

(** The reply to a connection on an association table. *)
Lemma accept_reply s a c :
  (exists l r, stream_local_addr s = Ok l /\ stream_peer_addr s = Ok r) ->
  is_ok (accept_and_create_tnla (Ok s) (a, c)).2 = true <->
  forall l r, stream_local_addr s = Ok l -> stream_peer_addr s = Ok r -> (l, r) ∉ associations_set a.
Proof.
  intros (l & r & El & Er). rewrite accept_ok. destruct (add_cases s a c) as [e E|l' r' El' Er' Hin|l' r' El' Er' Hni]; simpl.
  - unfold TnlaAssociation_new in E. by rewrite El, Er in E.
  - split; [done|]. intros Hall. exfalso. by eapply Hall.
  - split; [|done]. intros _ l2 r2 ? ?. by assert ((l2, r2) = (l', r')) as -> by congruence.
Qed.

Lemma network_run_ok (ops : list (network_op Stream)) :
  Z.of_nat (accepts ops) < 2 ^ 64 - 1 ->
  associations_ok (network_run ops).1 /\ ids_below (network_run ops) /\
  1 <= (network_run ops).2 <= 1 + Z.of_nat (accepts ops).
Proof.
  unfold network_run, accepts. induction ops as [|op ops IH] using rev_ind; intros Hn.
  { split_and!; [apply associations_ok_new| |done|done]. intros j [t Ht]. done. }
  rewrite filter_app, length_app in Hn. rewrite filter_app, length_app, foldl_snoc.
  destruct IH as (Hok & Hb & Hc); [lia|].
  destruct (foldl _ _ ops) as [a c]. simpl in Hok, Hc.
  assert (Hone : length (filter (fun op => is_accept op = true) [op]) = if is_accept op then 1%nat else 0%nat).
  { unfold filter, list_filter. by destruct (is_accept op). }
  rewrite Hone in *.
  destruct (network_step_ok op a c Hok Hb ltac:(lia)) as (H1 & H2 & H3);
    [intros Ha; rewrite Ha in Hn; lia|].
  split_and!; [done..|lia|]. destruct (is_accept op); lia.
Qed.

(** C19 (invariant): under any sequence of connections, removals and sends, as
    long as fewer than 2^64 - 1 connections have been accepted, each
    association is filed under its own id, the address set holds exactly the
    addresses in use and no two associations have the same addresses. *)
Theorem network_consistent (ops : list (network_op Stream)) :
  Z.of_nat (accepts ops) < 2 ^ 64 - 1 -> associations_ok (network_run ops).1.
Proof. intros Hn. by destruct (network_run_ok ops Hn). Qed.

(** On a consistent table a connection with readable addresses is accepted
    exactly when they are not those of an association in use. A refusal leaves the associations as they are; an acceptance adds the
    new association, found under a fresh id, and keeps the others. After the
    removal of the association in the way the same connection is accepted. *)
Theorem accept_unless_in_use s a c l r :
  associations_ok a -> ids_below (a, c) ->
  stream_local_addr s = Ok l -> stream_peer_addr s = Ok r ->
  let st := accept_and_create_tnla (Ok s) (a, c) in
  ((exists id t, associations a !! id = Some t /\ addresses t = (l, r)) ->
    st.2 = Err (AssociationAlreadyExists l r) /\ st.1.1 = a /\
    (forall id t, associations a !! id = Some t -> addresses t = (l, r) ->
      is_ok (accept_and_create_tnla (Ok s) ((remove_tnla_association id a).1, st.1.2)).2 = true)) /\
  (~ (exists id t, associations a !! id = Some t /\ addresses t = (l, r)) ->
    associations a !! c = None /\ st.2 = Ok (MkTnla c l r s) /\
    get_tnla_association c st.1.1 = Some (MkTnla c l r s) /\
    forall id, id <> c -> get_tnla_association id st.1.1 = get_tnla_association id a).
Proof.
  intros Hok Hb El Er. rewrite accept_ok. cbv zeta.
  pose proof (ao_set a Hok (l, r)) as Hset.
  destruct (add_cases s a c) as [e E|l' r' El' Er' Hin|l' r' El' Er' Hni]; simpl.
  - unfold TnlaAssociation_new in E. by rewrite El, Er in E.
  - assert (l' = l /\ r' = r) as [-> ->] by (split; congruence).
    split; [intros _|intros Hn; by destruct Hn; apply Hset].
    split_and!; [done..|]. intros id t Ht Ha. unfold remove_tnla_association. rewrite Ht. simpl.
    apply accept_reply; [eauto|]. intros l2 r2 ? ?. simpl.
    assert ((l2, r2) = addresses t) as -> by congruence. set_solver.
  - assert (l' = l /\ r' = r) as [-> ->] by (split; congruence).
    split; [intros Hex; by destruct Hni; apply Hset|]. intros _.
    split_and!; [by apply ids_fresh|done|by apply lookup_insert_eq|].
    intros id Hne. by apply lookup_insert_ne.
Qed.

(** Sending goes to the association with the given id and to
    no other, always with the NGAP payload protocol; it waits while the socket
    takes no more; an unknown id or a failing socket is reported with that id. *)
Theorem send_data_outcomes id data a :
  match associations a !! id with
  | None => send_data id data a = Some (a, Err (TnlaNotFound id))
  | Some t =>
      match sendmsg data (MkSendOptions NGAP_PPID (stream_no default_send_options)) (stream t) with
      | None => send_data id data a = None
      | Some (s, r) => exists a', send_data id data a = Some (a',
            match r with Ok _ => Ok () | Err e => Err (TnlaSendError id (WriteError e)) end) /\
          get_tnla_association id a' = Some (with_stream t s) /\
          forall j, j <> id -> get_tnla_association j a' = get_tnla_association j a
      end
  end.
Proof.
  unfold send_data, get_tnla_association, write_data.
  destruct (associations a !! id) as [t|] eqn:Ht; [|done]. simpl.
  destruct (sendmsg _ _ _) as [[s' [n|e]]|]; simpl; [..|done];
    (eexists; split; [done|]; simpl; split; [by rewrite lookup_insert_eq|intros; by rewrite lookup_insert_ne]).
Qed.
End network_props.

(** ** A socket that records what it sends *)

Record TestStream : Type := MkTestStream {
  ts_local : SocketAddr;
  ts_peer : SocketAddr;
  ts_sent : list (Z * bytes);
}.

#[export] Instance test_sctp : Sctp TestStream := {
  stream_local_addr s := Ok (ts_local s);
  stream_peer_addr s := Ok (ts_peer s);
  recvmsg_eor_buf s := None;
  sendmsg data opts s :=
    Some (MkTestStream (ts_local s) (ts_peer s) (ts_sent s ++ [(ppid opts, data)]),
      Ok (Z.of_nat (length data)));
  peer_acts s := None;
}.

Definition amf_addr : SocketAddr := (V4 0x7F000001, 38412).
Definition ran_stream (port : Z) : TestStream := MkTestStream amf_addr (V4 0x0A000001, port) [].

Lemma network_consistent_witness :
  associations_ok (network_run [OpAccept (Ok (ran_stream 1)); OpAccept (Ok (ran_stream 1));
    OpAccept (Ok (ran_stream 2)); OpRemove 1; OpSend 3 [1; 2]]).1.
Proof. apply network_consistent. vm_compute. reflexivity. Defined.

Lemma accept_unless_in_use_witness :
  is_ok (accept_and_create_tnla (Ok (ran_stream 1)) (Associations_new, 1)).2 = true.
Proof.
  destruct (accept_unless_in_use (ran_stream 1) Associations_new 1 amf_addr (V4 0x0A000001, 1))
    as [_ H].
  - split; [done| |done]. intros p. split; [set_solver|]. intros (i & t & Ht & _). discriminate Ht.
  - intros i [t Ht]. discriminate Ht.
  - reflexivity.
  - reflexivity.
  - destruct H as (_ & -> & _); [|reflexivity]. intros (i & t & Ht & _). discriminate Ht.
Defined.
