(* ===== verification/SccMap.v ===== *)
(** * The concurrent hash map of the [scc] crate

    The contexts and the tokens live in [scc::HashMap]s. The crate is a
    library: its operations and their documented behaviour are two type
    classes, and each operation is one atomic step of its caller. *)

From S2P Require Import Prelude.

Class SccHashMap (K V M : Type) := {
  scc_new : M;
  scc_read : K -> M -> option V;
  scc_insert : K -> V -> M -> M * Result unit (K * V);
  scc_remove : K -> M -> M * option (K * V);
  scc_upsert : K -> V -> M -> M * option V;
  scc_update : K -> (V -> V) -> M -> M;
}.

Definition scc_contains {K V M : Type} `{SccHashMap K V M} (k : K) (m : M) : bool :=
  match scc_read k m with Some _ => true | None => false end.

(** [view] is the finite map a hash map stands for. [insert_async] fails and
    gives key and value back when the key is present, [upsert_async] replaces
    and returns the old value, [update_async] changes the value that is there. *)
Class SccLaws (K V M : Type) `{Countable K} `{SccHashMap K V M} := {
  view : M -> gmap K V;
  view_new : view scc_new = ∅;
  view_read k m : scc_read k m = view m !! k;
  view_insert k v m :
    match view m !! k with
    | Some _ => view (scc_insert k v m).1 = view m /\ (scc_insert k v m).2 = Err (k, v)
    | None => view (scc_insert k v m).1 = <[k := v]> (view m) /\ (scc_insert k v m).2 = Ok ()
    end;
  view_remove k m :
    view (scc_remove k m).1 = delete k (view m) /\
    (scc_remove k m).2 = (fun v => (k, v)) <$> view m !! k;
  view_upsert k v m :
    view (scc_upsert k v m).1 = <[k := v]> (view m) /\ (scc_upsert k v m).2 = view m !! k;
  view_update k f m : view (scc_update k f m) = alter f k (view m);
}.

Section scc.
Context {K V M : Type} `{Countable K} `{!SccHashMap K V M} `{!SccLaws K V M}.

Lemma scc_insert_fresh k v m :
  view m !! k = None ->
  view (scc_insert k v m).1 = <[k := v]> (view m) /\ (scc_insert k v m).2 = Ok ().
Proof. intros Hk. pose proof (view_insert k v m) as Hi. by rewrite Hk in Hi. Qed.

Lemma scc_insert_taken k v m w :
  view m !! k = Some w ->
  view (scc_insert k v m).1 = view m /\ (scc_insert k v m).2 = Err (k, v).
Proof. intros Hk. pose proof (view_insert k v m) as Hi. by rewrite Hk in Hi. Qed.

Lemma scc_contains_view k m : scc_contains k m = bool_decide (is_Some (view m !! k)).
Proof.
  unfold scc_contains. rewrite view_read. destruct (view m !! k) eqn:E; symmetry.
  - apply bool_decide_eq_true_2. by eexists.
  - apply bool_decide_eq_false_2. by intros [? ?].
Qed.
End scc.

(** ** A finite map behaves as documented *)

#[export] Instance gmap_scc {K V : Type} `{Countable K} : SccHashMap K V (gmap K V) := {
  scc_new := ∅;
  scc_read k m := m !! k;
  scc_insert k v m :=
    match m !! k with Some _ => (m, Err (k, v)) | None => (<[k := v]> m, Ok ()) end;
  scc_remove k m := (delete k m, (fun v => (k, v)) <$> m !! k);
  scc_upsert k v m := (<[k := v]> m, m !! k);
  scc_update k f m := alter f k m;
}.

#[export] Instance gmap_scc_laws {K V : Type} `{Countable K} : SccLaws K V (gmap K V).
Proof.
  refine {| view m := m |}; simpl; try done. intros k v m. by destruct (m !! k).
Defined.
