(* ===== verification/ContextManager.v ===== *)
(** * The context manager ([ngap/manager/context_manager.rs])

    A concurrent map from ids to shared [ContextQueue]s. Its methods are bodies
    of [async fn]s: the accesses to the map and to the reference counts are
    the steps between which other tasks run. Towards its clients a queue is the
    sequential object that [ContextQueueProps] shows it to be: a call applies
    its closure to the context at one moment, and a panic in a closure loses
    the queue. *)

From S2P Require Import Prelude Async SccMap ContextQueue.

(** ** Reference counts ([std::sync::Arc]) *)

(** The values behind the [Arc]s, with their strong counts. *)
Record heap (V : Type) : Type := MkHeap { arcs : gmap nat (nat * V); next_arc : nat }.
Arguments MkHeap {V} _ _.
Arguments arcs {V} _.
Arguments next_arc {V} _.

Section arc.
Context {V : Type}.

Definition arc_new (v : V) (h : heap V) : heap V * nat :=
  (MkHeap (<[next_arc h := (1%nat, v)]> (arcs h)) (S (next_arc h)), next_arc h).

Definition arc_clone (p : nat) (h : heap V) : heap V :=
  MkHeap (alter (fun '(n, v) => (S n, v)) p (arcs h)) (next_arc h).

Definition arc_drop (p : nat) (h : heap V) : heap V :=
  match arcs h !! p with
  | Some (S (S n), v) => MkHeap (<[p := (S n, v)]> (arcs h)) (next_arc h)
  | _ => MkHeap (delete p (arcs h)) (next_arc h)
  end.

Definition arc_strong_count (p : nat) (h : heap V) : nat :=
  match arcs h !! p with Some (n, _) => n | None => 0 end.

(** [Arc::into_inner]: consumes the handle; the last one gets the value. *)
Definition arc_into_inner (p : nat) (h : heap V) : heap V * option V :=
  match arcs h !! p with
  | Some (1%nat, v) => (arc_drop p h, Some v)
  | _ => (arc_drop p h, None)
  end.
End arc.

(** ** A queue as its clients see it *)

Inductive queue_object (T : Type) : Type :=
| QueueOpen (x : T)
| QueueLost (x : T).
Arguments QueueOpen {T} x.
Arguments QueueLost {T} x.

(** The value of a queue nobody else refers to. *)
Definition queue_into_inner {T : Type} (q : queue_object T) : option T :=
  match q with QueueOpen x => Some x | QueueLost _ => None end.

Inductive ContextChangeError : Type :=
| OldIdNotFound
| NewIdAlreadyExists.

Inductive ContextError (ID T : Type) : Type :=
| ContextAlreadyExists (id : ID) (context : T)
| ContextNotFound (id : ID)
| ChangeError (e : ContextChangeError) (old_id new_id : ID).
Arguments ContextAlreadyExists {ID T} id context.
Arguments ContextNotFound {ID T} id.
Arguments ChangeError {ID T} e old_id new_id.

(** [trait Identifiable]. *)
Class Identifiable (T ID : Type) := identify : T -> ID.

Section ContextManager.
Context {T ID M : Type} `{Identifiable T ID} `{SccHashMap ID nat M}.

(** The map holds [Arc]s, that is pointers into the heap of queues. *)
Record manager : Type := MkManager { queues : M; objects : heap (queue_object T) }.

Definition manager_new : manager := MkManager scc_new (MkHeap ∅ 0).

Definition on_queues {X : Type} (f : M -> M * X) (m : manager) : manager * X :=
  (MkManager (f (queues m)).1 (objects m), (f (queues m)).2).

Definition on_objects {X : Type} (f : heap (queue_object T) -> heap (queue_object T) * X)
    (m : manager) : manager * X :=
  (MkManager (queues m) (f (objects m)).1, (f (objects m)).2).

Definition drop_queue (p : nat) (m : manager) : manager :=
  MkManager (queues m) (arc_drop p (objects m)).

Definition clone_queue (p : nat) (m : manager) : manager :=
  MkManager (queues m) (arc_clone p (objects m)).

(** [add_context]. The local [queue] lives until the end of the body; the map
    gets, and gives back on failure, a clone of it. *)
Definition add_context (debug_assertions : bool) (context : T) :
    prog manager (Result unit (ContextError ID T)) :=
  let id := identify context in
  do! queue := access (on_objects (arc_new (QueueOpen context))) in
  do! _ := write_state (clone_queue queue) in
  do! r := access (on_queues (scc_insert id queue)) in
  match r with
  | Ok _ =>
      do! _ := write_state (drop_queue queue) in
      Ret (Ok ())
  | Err (id, clone) =>
      do! n := read_state (fun m => arc_strong_count clone (objects m)) in
      if debug_assertions && negb (n =? 1)%nat then Panic
      else
        do! unwrapped := access (on_objects (arc_into_inner clone)) in
        do! ctx_queue_inner := lift_outcome (unwrap_option unwrapped) in
        do! inner := lift_outcome (unwrap_option (queue_into_inner ctx_queue_inner)) in
        do! _ := write_state (drop_queue queue) in
        Ret (Err (ContextAlreadyExists id inner))
  end.

(** [change_id]. Dropping the result of the second insertion drops the queue. *)
Definition change_id (old_id new_id : ID) : prog manager (Result unit (ContextError ID T)) :=
  do! removed := access (on_queues (scc_remove old_id)) in
  match removed with
  | Some (_, element_queue) =>
      do! r := access (on_queues (scc_insert new_id element_queue)) in
      match r with
      | Ok _ => Ret (Ok ())
      | Err (new_id, element_queue) =>
          do! restored := access (on_queues (scc_insert old_id element_queue)) in
          do! _ :=
            match restored with
            | Ok _ => Ret ()
            | Err (_, element_queue) => write_state (drop_queue element_queue)
            end in
          Ret (Err (ChangeError NewIdAlreadyExists old_id new_id))
      end
  | None => Ret (Err (ChangeError OldIdNotFound old_id new_id))
  end.

(** [contains_context]. *)
Definition contains_context (id : ID) : prog manager bool :=
  read_state (fun m => scc_contains id (queues m)).

(** [schedule_and_wait] on the queue behind [p]: [None] (wait for ever) when the
    queue is lost, [Some None] when the closure panics. *)
Definition call_queue {O : Type} (p : nat) (closure : body T O) (m : manager) :
    option (manager * option O) :=
  match arcs (objects m) !! p with
  | Some (n, QueueOpen x) =>
      let (x, r) := run_body closure x in
      let q := match r with Some _ => QueueOpen x | None => QueueLost x end in
      Some (MkManager (queues m) (MkHeap (<[p := (n, q)]> (arcs (objects m))) (next_arc (objects m))), r)
  | _ => None
  end.

(** [with_context]: the map is only read; the queue is used through a clone. *)
Definition with_context {O : Type} (id : ID) (closure : body T O) :
    prog manager (Result O (ContextError ID T)) :=
  do! element := access (fun m =>
    match scc_read id (queues m) with
    | Some queue => (clone_queue queue m, Some queue)
    | None => (m, None)
    end) in
  match element with
  | Some queue =>
      do! r := Act (call_queue queue closure) Ret in
      do! o := lift_outcome (unwrap_option r) in
      do! _ := write_state (drop_queue queue) in
      Ret (Ok o)
  | None => Ret (Err (ContextNotFound id))
  end.
End ContextManager.

Arguments manager : clear implicits.
