(* ===== verification/ContextManagerProps.v ===== *)
(** * What the context manager does to the contexts it holds *)

From S2P Require Import Prelude Async SccMap ContextQueue ContextManager.

Section manager_props.
Context {T ID M : Type} `{Countable ID} `{Identifiable T ID} `{!SccHashMap ID nat M}
  `{!SccLaws ID nat M}.
Implicit Types (m : manager T M) (c : T) (i j : ID) (p : nat).

(** The context filed under an id. *)
Definition contents m i : option (queue_object T) :=
  p ← view (queues m) !! i; snd <$> arcs (objects m) !! p.

(** Every queue of the map is alive, referred to by the map alone and filed
    under one id. *)
Record manager_ok m : Prop := {
  mo_alive : forall i p, view (queues m) !! i = Some p ->
    exists q, arcs (objects m) !! p = Some (1%nat, q);
  mo_inj : forall i j p,
    view (queues m) !! i = Some p -> view (queues m) !! j = Some p -> i = j;
  mo_next : forall p, is_Some (arcs (objects m) !! p) -> (p < next_arc (objects m))%nat;
}.

Lemma manager_ok_new : manager_ok (manager_new : manager T M).
Proof.
  unfold manager_new. split; simpl; [..|by intros p [? ?]]; intros *; rewrite view_new; done.
Qed.

Lemma contents_some m i p n q :
  view (queues m) !! i = Some p -> arcs (objects m) !! p = Some (n, q) -> contents m i = Some q.
Proof.
  intros E1 E2. unfold contents. rewrite E1. cbn [mbind option_bind]. by rewrite E2.
Qed.

Lemma contents_is_some m i :
  manager_ok m -> is_Some (contents m i) <-> is_Some (view (queues m) !! i).
Proof.
  intros Hok. destruct (view (queues m) !! i) as [p|] eqn:E.
  - destruct (mo_alive m Hok i p E) as [q Hq]. rewrite (contents_some m i p 1 q E Hq).
    split; by eexists.
  - unfold contents. rewrite E. split; by intros [? ?].
Qed.

Lemma fresh_arc m : manager_ok m -> arcs (objects m) !! next_arc (objects m) = None.
Proof.
  intros Hok. destruct (arcs _ !! _) eqn:E; [|done].
  pose proof (mo_next m Hok (next_arc (objects m)) ltac:(by eexists)). lia.
Qed.

Lemma alter_insert_overwrite {V : Type} (h : gmap nat (nat * V)) p w (f : nat * V -> nat * V) :
  <[p := w]> (alter f p h) = <[p := w]> h.
Proof.
  apply map_eq. intros i. destruct (decide (p = i)) as [->|Hne].
  - by rewrite !lookup_insert_eq.
  - by rewrite !lookup_insert_ne, lookup_alter_ne.
Qed.

(** ** Adding *)

Lemma run_add_free debug c m :
  manager_ok m -> contents m (identify c) = None ->
  exists m', run (add_context debug c) m = Finished m' (Ok ()) /\
    view (queues m') = <[identify c := next_arc (objects m)]> (view (queues m)) /\
    objects m' = MkHeap (<[next_arc (objects m) := (1%nat, QueueOpen c)]> (arcs (objects m)))
      (S (next_arc (objects m))).
Proof.
  intros Hok Hc.
  assert (Hv : view (queues m) !! identify c = None).
  { apply eq_None_not_Some. rewrite <-contents_is_some, Hc by done. by intros [? ?]. }
  unfold add_context. autorewrite with run. cbn [on_objects arc_new fst snd].
  autorewrite with run. cbn. 
  destruct (scc_insert_fresh (identify c) (next_arc (objects m)) (queues m) Hv) as [E1 E2].
  rewrite E2. simpl. eexists. split; [done|]. simpl. split; [done|].
  unfold arc_drop, arc_clone. simpl. rewrite lookup_alter_eq, lookup_insert_eq. simpl.
  f_equal. by rewrite alter_insert_eq, insert_insert_eq.
Qed.

Lemma arc_clone_ne {V : Type} p q (h : heap V) : q <> p -> arcs (arc_clone p h) !! q = arcs h !! q.
Proof. intros Hne. unfold arc_clone. simpl. by rewrite lookup_alter_ne. Qed.

Lemma arc_drop_ne {V : Type} p q (h : heap V) : q <> p -> arcs (arc_drop p h) !! q = arcs h !! q.
Proof.
  intros Hne. unfold arc_drop.
  destruct (arcs h !! p) as [[[|[|n]] v]|]; simpl; by rewrite ?lookup_delete_ne, ?lookup_insert_ne.
Qed.

Lemma run_add_taken debug c m q :
  manager_ok m -> contents m (identify c) = Some q ->
  exists m', run (add_context debug c) m = Panicked m' /\ view (queues m') = view (queues m) /\
    forall i, contents m' i = contents m i.
Proof.
  intros Hok Hc.
  assert (Hold : forall m', view (queues m') = view (queues m) ->
    (forall p, p <> next_arc (objects m) -> arcs (objects m') !! p = arcs (objects m) !! p) ->
    forall i, contents m' i = contents m i).
  { intros m' Ev Ea i. unfold contents. rewrite Ev. destruct (view (queues m) !! i) as [p|] eqn:Hp; [|done].
    simpl. rewrite Ea; [done|]. intros ->. destruct (mo_alive m Hok i _ Hp) as [q' Hq'].
    by rewrite (fresh_arc m Hok) in Hq'. }
  assert (Hv : is_Some (view (queues m) !! identify c)).
  { rewrite <-contents_is_some by done. by eexists. }
  destruct Hv as [p Hv].
  unfold add_context. autorewrite with run. cbn.
  destruct (scc_insert_taken (identify c) (next_arc (objects m)) (queues m) p Hv) as [E1 E2].
  rewrite E2. simpl.
  assert (Ha : arcs (arc_clone (next_arc (objects m)) (MkHeap
    (<[next_arc (objects m) := (1%nat, QueueOpen c)]> (arcs (objects m))) (S (next_arc (objects m)))))
    !! next_arc (objects m) = Some (2%nat, QueueOpen c)).
  { unfold arc_clone. simpl. by rewrite lookup_alter_eq, lookup_insert_eq. }
  unfold arc_strong_count. rewrite Ha. destruct debug; simpl; [|unfold arc_into_inner; rewrite Ha; simpl].
  all: eexists; (split; [done|]); (split; [done|]); apply Hold; [done|]; intros q' Hne; cbn [objects].
  all: rewrite ?arc_drop_ne, ?arc_clone_ne by done; cbn; by rewrite lookup_insert_ne.
Qed.

Lemma add_free_ok m m' c :
  manager_ok m -> contents m (identify c) = None ->
  view (queues m') = <[identify c := next_arc (objects m)]> (view (queues m)) ->
  objects m' = MkHeap (<[next_arc (objects m) := (1%nat, QueueOpen c)]> (arcs (objects m)))
      (S (next_arc (objects m))) ->
  manager_ok m' /\
  forall i, contents m' i = if decide (i = identify c) then Some (QueueOpen c) else contents m i.
Proof.
  intros Hok Hc Ev Eo. pose proof (fresh_arc m Hok) as Hf.
  assert (Hold : forall i p, view (queues m) !! i = Some p -> p <> next_arc (objects m)).
  { intros i p Hp ->. destruct (mo_alive m Hok i _ Hp) as [q Hq]. congruence. }
  split.
  - split; rewrite ?Ev, ?Eo; simpl.
    + intros i p [[<- <-]|[Hne Hp]]%lookup_insert_Some.
      * exists (QueueOpen c). by rewrite lookup_insert_eq.
      * rewrite lookup_insert_ne by (by apply not_eq_sym, (Hold i)). by apply (mo_alive m Hok i).
    + intros i j p [[<- <-]|[Hi Hp]]%lookup_insert_Some [[<- Ej]|[Hj Hq]]%lookup_insert_Some; try done.
      * by destruct (Hold j _ Hq).
      * by destruct (Hold i p Hp).
      * by apply (mo_inj m Hok i j p).
    + intros p [q [[<- _]|[Hne Hp]]%lookup_insert_Some]; [lia|].
      pose proof (mo_next m Hok p ltac:(by eexists)). lia.
  - intros i. unfold contents. rewrite Ev, Eo. simpl. case_decide; subst.
    + by rewrite lookup_insert_eq; simpl; rewrite lookup_insert_eq.
    + rewrite lookup_insert_ne by done. destruct (view (queues m) !! i) as [p|] eqn:Hp; [|done].
      cbn [mbind option_bind]. rewrite lookup_insert_ne; [done|]. by apply not_eq_sym, (Hold i).
Qed.

(** ** Renaming *)

Lemma view_removed m i :
  view (on_queues (scc_remove i) m).1.(queues) = delete i (view (queues m)) /\
  (on_queues (scc_remove i) m).2 = (fun p => (i, p)) <$> view (queues m) !! i.
Proof. apply view_remove. Qed.

Lemma run_change_id old new m :
  exists m', run (change_id old new) m =
    Finished m' (match view (queues m) !! old with
      | None => Err (ChangeError OldIdNotFound old new)
      | Some _ =>
          match delete old (view (queues m)) !! new with
          | None => Ok ()
          | Some _ => Err (ChangeError NewIdAlreadyExists old new)
          end
      end) /\
    objects m' = objects m /\
    view (queues m') = match view (queues m) !! old with
      | None => view (queues m)
      | Some p =>
          match delete old (view (queues m)) !! new with
          | None => <[new := p]> (delete old (view (queues m)))
          | Some _ => view (queues m)
          end
      end.
Proof.
  unfold change_id. autorewrite with run.
  destruct (view_removed m old) as [E1 E2]. rewrite E2.
  destruct (view (queues m) !! old) as [p|] eqn:Ho; simpl.
  - destruct (delete old (view (queues m)) !! new) as [p'|] eqn:Hn.
    + destruct (scc_insert_taken new p _ p' ltac:(rewrite E1; exact Hn)) as [F1 F2].
      simpl in F1, F2. rewrite F2. simpl.
      destruct (scc_insert_fresh old p (scc_insert new p (scc_remove old (queues m)).1).1) as [G1 G2].
      { rewrite F1. simpl in E1. by rewrite E1, lookup_delete_eq. }
      rewrite G2. simpl. eexists. split_and!; [done..|]. simpl. simpl in E1.
      by rewrite G1, F1, E1, insert_delete_id.
    + destruct (scc_insert_fresh new p _ ltac:(rewrite E1; exact Hn)) as [F1 F2].
      simpl in F1, F2, E1. rewrite F2. simpl. eexists. split_and!; [done..|]. simpl.
      by rewrite F1, E1.
  - eexists. split_and!; [done..|]. simpl in *. by rewrite E1, delete_id.
Qed.

(** ** Calling *)

Lemma run_with_context {O : Type} i (b : body T O) m :
  manager_ok m ->
  match contents m i with
  | None => run (with_context i b) m = Finished m (Err (ContextNotFound i))
  | Some (QueueLost _) => exists m', run (with_context i b) m = Parked m'
  | Some (QueueOpen x) =>
      exists m', queues m' = queues m /\
        match (run_body b x).2 with
        | Some o => run (with_context i b) m = Finished m' (Ok o) /\ manager_ok m' /\
            forall j, contents m' j =
              if decide (j = i) then Some (QueueOpen (run_body b x).1) else contents m j
        | None => run (with_context i b) m = Panicked m' /\
            forall j, contents m' j =
              if decide (j = i) then Some (QueueLost (run_body b x).1) else contents m j
        end
  end.
Proof.
  intros Hok. destruct (view (queues m) !! i) as [p|] eqn:Hv.
  - destruct (mo_alive m Hok i p Hv) as [q Hq]. rewrite (contents_some m i p 1 q Hv Hq).
    assert (Hother : forall m' n q', queues m' = queues m ->
      arcs (objects m') = <[p := (n, q')]> (arcs (objects m)) ->
      forall j, contents m' j = if decide (j = i) then Some q' else contents m j).
    { intros m' n q' Em Eo j. unfold contents. rewrite Em, Eo. case_decide; subst.
      - rewrite Hv. cbn [mbind option_bind]. by rewrite lookup_insert_eq.
      - destruct (view (queues m) !! j) as [p'|] eqn:Hj; [|done]. cbn [mbind option_bind].
        rewrite lookup_insert_ne; [done|]. intros <-. by destruct (mo_inj m Hok i j p). }
    unfold with_context. autorewrite with run. rewrite view_read, Hv. simpl.
    unfold call_queue, clone_queue, arc_clone. simpl. rewrite lookup_alter_eq, Hq. simpl.
    destruct q as [x|x]; [|by eexists].
    destruct (run_body b x) as [x' [o|]] eqn:Eb; simpl.
    + unfold drop_queue, arc_drop. simpl. rewrite lookup_insert_eq. simpl.
      eexists. split; [|split; [done|]]; [done|]. simpl.
      match goal with |- manager_ok ?m' /\ _ => set (m2 := m') end.
      assert (Eo : arcs (objects m2) = <[p := (1%nat, QueueOpen x')]> (arcs (objects m))).
      { subst m2. simpl. by rewrite insert_insert_eq, alter_insert_overwrite. }
      split; [|by apply (Hother m2 1%nat)].
      split; rewrite ?Eo.
      * intros j p' Hj. destruct (mo_alive m Hok j p' Hj) as [q' Hq'].
        destruct (decide (p = p')) as [->|]; [rewrite lookup_insert_eq; by eexists|].
        rewrite lookup_insert_ne by done. eauto.
      * apply (mo_inj m Hok).
      * intros p' [q' [[<- _]|[_ Hp']]%lookup_insert_Some]; apply (mo_next m Hok); by eexists.
    + eexists. split; [|split; [done|]]; [done|]. apply (Hother _ 2%nat); [done|]. simpl.
      by rewrite alter_insert_overwrite.
  - assert (contents m i = None) as -> by (unfold contents; by rewrite Hv).
    unfold with_context. autorewrite with run. by rewrite view_read, Hv.
Qed.

Lemma contents_same m m' i :
  view (queues m') !! i = view (queues m) !! i -> objects m' = objects m ->
  contents m' i = contents m i.
Proof. unfold contents. by intros -> ->. Qed.

Lemma contents_at m i p :
  manager_ok m -> view (queues m) !! i = Some p -> is_Some (contents m i).
Proof. intros Hok Hv. apply contents_is_some; [done|by eexists]. Qed.

Lemma contents_none m i : manager_ok m -> contents m i = None <-> view (queues m) !! i = None.
Proof. intros Hok. rewrite !eq_None_not_Some. by rewrite contents_is_some. Qed.

Lemma manager_ok_rename m m' old new p :
  manager_ok m -> view (queues m) !! old = Some p -> delete old (view (queues m)) !! new = None ->
  objects m' = objects m -> view (queues m') = <[new := p]> (delete old (view (queues m))) ->
  manager_ok m'.
Proof.
  intros Hok Ho Hn Eo Ev. split; rewrite ?Ev, ?Eo.
  - intros i p' [[<- <-]|[_ [_ Hp]%lookup_delete_Some]]%lookup_insert_Some;
      by eapply (mo_alive m Hok).
  - intros i j p' [[<- Ei]|[Hi [Hi2 Hp]%lookup_delete_Some]]%lookup_insert_Some
      [[<- Ej]|[Hj [Hj2 Hq]%lookup_delete_Some]]%lookup_insert_Some; subst; try done.
    + destruct Hj2. by apply (mo_inj m Hok old j p').
    + destruct Hi2. by apply (mo_inj m Hok old i p').
    + by apply (mo_inj m Hok i j p').
  - apply (mo_next m Hok).
Qed.

(** C25 (error): adding a context under a free id files it there and nothing
    else changes. Under a taken id the call panics, in both build profiles and
    with the map as it was: [ContextAlreadyExists] is never returned, because
    the local handle on the new queue is still alive when the count is taken. *)
Theorem add_context_outcomes debug c m :
  manager_ok m ->
  (contents m (identify c) = None ->
    exists m', run (add_context debug c) m = Finished m' (Ok ()) /\ manager_ok m' /\
      forall i, contents m' i = if decide (i = identify c) then Some (QueueOpen c) else contents m i) /\
  (is_Some (contents m (identify c)) ->
    exists m', run (add_context debug c) m = Panicked m' /\ view (queues m') = view (queues m)).
Proof.
  intros Hok. split.
  - intros Hc. destruct (run_add_free debug c m Hok Hc) as (m' & Hr & Ev & Eo).
    exists m'. split; [done|]. by apply (add_free_ok m m' c).
  - intros [q Hq]. destruct (run_add_taken debug c m q Hok Hq) as (m' & H1 & H2 & _). by exists m'.
Qed.

Lemma change_id_alone old new m :
  manager_ok m ->
  exists m' r, run (change_id old new) m = Finished m' r /\ manager_ok m' /\
    ((contents m old = None /\ r = Err (ChangeError OldIdNotFound old new) /\
        forall i, contents m' i = contents m i) \/
     (is_Some (contents m old) /\ old <> new /\ is_Some (contents m new) /\
        r = Err (ChangeError NewIdAlreadyExists old new) /\
        forall i, contents m' i = contents m i) \/
     (is_Some (contents m old) /\ (old = new \/ contents m new = None) /\ r = Ok () /\
        forall i, contents m' i =
          if decide (i = new) then contents m old
          else if decide (i = old) then None else contents m i)).
Proof.
  intros Hok. destruct (run_change_id old new m) as (m' & Hr & Eo & Ev).
  assert (Hsame : view (queues m') = view (queues m) ->
    manager_ok m' /\ forall i, contents m' i = contents m i).
  { intros E. split; [|intros i; by apply contents_same; [rewrite E|]].
    split; rewrite ?E, ?Eo; apply Hok. }
  destruct (view (queues m) !! old) as [p|] eqn:Ho.
  - pose proof (contents_at m old p Hok Ho) as Hs.
    destruct (delete old (view (queues m)) !! new) as [p'|] eqn:Hn.
    + destruct (Hsame Ev) as [Hok' Hsm]. eexists _, _. split_and!; [exact Hr|done|].
      right. left. apply lookup_delete_Some in Hn as [Hne Hn].
      split_and!; [done..|by apply (contents_at m new p')|done|done].
    + eexists _, _. split_and!; [exact Hr|by apply (manager_ok_rename m m' old new p)|].
      right. right. split_and!; [done| |done|].
      * apply lookup_delete_None in Hn as [->|Hn]; [by left|right]. by apply contents_none.
      * intros i. unfold contents. rewrite Ev, Eo. case_decide; subst.
        { by rewrite lookup_insert_eq, Ho. }
        rewrite lookup_insert_ne by done. case_decide; subst.
        { by rewrite lookup_delete_eq. }
        by rewrite lookup_delete_ne.
  - destruct (Hsame Ev) as [Hok' Hsm]. eexists _, _. split_and!; [exact Hr|done|].
    left. split_and!; [by apply contents_none|done..].
Qed.

(** [with_context] on an unknown id is refused; on a live
    queue it applies the closure to that context, and to no other, and returns
    its output; a closure that panics panics the caller and loses the queue;
    on a lost queue the caller waits for ever. *)
Theorem with_context_outcomes {O : Type} i (b : body T O) m :
  manager_ok m ->
  match contents m i with
  | None => run (with_context i b) m = Finished m (Err (ContextNotFound i))
  | Some (QueueLost _) => exists m', run (with_context i b) m = Parked m'
  | Some (QueueOpen x) =>
      exists m', queues m' = queues m /\
        match (run_body b x).2 with
        | Some o => run (with_context i b) m = Finished m' (Ok o) /\ manager_ok m' /\
            forall j, contents m' j =
              if decide (j = i) then Some (QueueOpen (run_body b x).1) else contents m j
        | None => run (with_context i b) m = Panicked m' /\
            forall j, contents m' j =
              if decide (j = i) then Some (QueueLost (run_body b x).1) else contents m j
        end
  end.
Proof. apply run_with_context. Qed.

Lemma change_id_raced debug old new p p' c m :
  manager_ok m -> old <> new -> identify c = old ->
  view (queues m) !! old = Some p -> view (queues m) !! new = Some p' ->
  exists sched m', pool_run sched ([change_id old new; add_context debug c], m) =
      Some ([Ret (Err (ChangeError NewIdAlreadyExists old new)); Ret (Ok ())], m') /\
    contents m' old = Some (QueueOpen c) /\
    forall i, view (queues m') !! i <> Some p.
Proof.
  intros Hok Hne Hc Hp Hp'. exists [0; 1; 1; 1; 1; 0; 0; 0]%nat.
  pose proof (fresh_arc m Hok) as Hf. destruct m as [qs [h n]]. simpl in Hf, Hp, Hp'.
  assert (Hpn : p <> n).
  { intros ->. destruct (mo_alive _ Hok old _ Hp) as [q Hq]. simpl in Hq. congruence. }
  unfold pool_run. cbn -[scc_insert scc_remove]. rewrite Hc.
  destruct (view_remove old qs) as [R1 R2]. rewrite R2, Hp. cbn -[scc_insert scc_remove].
  destruct (scc_insert_fresh old n (scc_remove old qs).1) as [I1 I2].
  { by rewrite R1, lookup_delete_eq. }
  rewrite I2. cbn -[scc_insert scc_remove].
  destruct (scc_insert_taken new p (scc_insert old n (scc_remove old qs).1).1 p') as [J1 J2].
  { by rewrite I1, R1, lookup_insert_ne, lookup_delete_ne. }
  rewrite J2. cbn -[scc_insert scc_remove].
  destruct (scc_insert_taken old p
    (scc_insert new p (scc_insert old n (scc_remove old qs).1).1).1 n) as [K1 K2].
  { by rewrite J1, I1, lookup_insert_eq. }
  rewrite K2. cbn -[scc_insert scc_remove]. eexists. split; [done|].
  unfold contents. cbn -[scc_insert scc_remove]. rewrite K1, J1, I1, R1. split.
  - rewrite lookup_insert_eq. cbn [mbind option_bind].
    assert (arcs (arc_drop n (arc_clone n (MkHeap (<[n := (1%nat, QueueOpen c)]> h)
      (S n)))) !! n = Some (1%nat, QueueOpen c)) as Ha.
    { unfold arc_drop, arc_clone. simpl. rewrite lookup_alter_eq, lookup_insert_eq. simpl.
      by rewrite lookup_insert_eq. }
    assert (arcs (arc_drop p (arc_drop n (arc_clone n (MkHeap
      (<[n := (1%nat, QueueOpen c)]> h) (S n))))) !! n = Some (1%nat, QueueOpen c)) as Hb.
    { unfold arc_drop at 1. repeat case_match; simpl;
        by rewrite ?lookup_insert_ne, ?lookup_delete_ne by congruence. }
    by rewrite Hb.
  - intros i Hi. apply lookup_insert_Some in Hi as [[_ E]|[_ Hi]]; [by destruct Hpn|].
    apply lookup_delete_Some in Hi as [Hi Hv]. destruct Hi. by apply (mo_inj _ Hok old i p).
Qed.

(** C26 (functional): run alone, [change_id] moves the context to the new id; it
    fails when the old id is free, or when the new one belongs to another
    context, and then every context is where it was. It is not atomic, though:
    whenever it is going to fail because the new id is taken, another task can
    add a context under the old id between its first two steps; the restoration
    then fails, and the context that was being renamed is in no entry of the map
    any more, though the caller is told that nothing was changed. *)
Theorem change_id_outcomes old new m :
  manager_ok m ->
  (exists m' r, run (change_id old new) m = Finished m' r /\ manager_ok m' /\
    ((contents m old = None /\ r = Err (ChangeError OldIdNotFound old new) /\
        forall i, contents m' i = contents m i) \/
     (is_Some (contents m old) /\ old <> new /\ is_Some (contents m new) /\
        r = Err (ChangeError NewIdAlreadyExists old new) /\
        forall i, contents m' i = contents m i) \/
     (is_Some (contents m old) /\ (old = new \/ contents m new = None) /\ r = Ok () /\
        forall i, contents m' i =
          if decide (i = new) then contents m old
          else if decide (i = old) then None else contents m i))) /\
  (forall debug c p p', old <> new -> identify c = old ->
    view (queues m) !! old = Some p -> view (queues m) !! new = Some p' ->
    exists sched m', pool_run sched ([change_id old new; add_context debug c], m) =
        Some ([Ret (Err (ChangeError NewIdAlreadyExists old new)); Ret (Ok ())], m') /\
      contents m' old = Some (QueueOpen c) /\
      forall i, view (queues m') !! i <> Some p).
Proof.
  intros Hok. split; [by apply change_id_alone|]. intros debug c p p' Hne Hc Hp Hp'.
  by apply (change_id_raced debug old new p p' c m).
Qed.
End manager_props.

(** ** A manager of numbered contexts *)

(** A context with an id and a counter. *)
#[export] Instance identify_pair : Identifiable (Z * Z) Z := fst.

Definition two_contexts : manager (Z * Z) (gmap Z nat) :=
  MkManager {[1 := 0%nat; 2 := 1%nat]}
    (MkHeap {[0%nat := (1%nat, QueueOpen (1, 10)); 1%nat := (1%nat, QueueOpen (2, 20))]} 2).

Lemma two_contexts_ok : manager_ok two_contexts.
Proof.
  split; simpl.
  - intros i p [[_ <-]|[_ [_ <-]%lookup_singleton_Some]]%lookup_insert_Some; by eexists.
  - intros i j p [[<- <-]|[_ [<- <-]%lookup_singleton_Some]]%lookup_insert_Some
      [[<- E]|[_ [<- E]%lookup_singleton_Some]]%lookup_insert_Some; congruence.
  - intros p [q [[<- _]|[_ [<- _]%lookup_singleton_Some]]%lookup_insert_Some]; lia.
Qed.

Lemma add_context_outcomes_witness :
  exists m', run (add_context false (2, 99)) two_contexts = Panicked m' /\
    view (queues m') = view (queues two_contexts).
Proof.
  destruct (add_context_outcomes false (2, 99) two_contexts two_contexts_ok) as [_ H].
  apply H. eexists. reflexivity.
Defined.

Lemma change_id_outcomes_witness :
  (exists m' r, run (change_id 1 3) two_contexts = Finished m' r /\ manager_ok m') /\
  exists sched m', pool_run sched ([change_id 1 2; add_context false (1, 5)], two_contexts) =
      Some ([Ret (Err (ChangeError NewIdAlreadyExists 1 2)); Ret (Ok ())], m') /\
    contents m' 1 = Some (QueueOpen (1, 5)).
Proof.
  split.
  - destruct (change_id_outcomes 1 3 two_contexts two_contexts_ok) as [(m' & r & H & Hok & _) _].
    exists m', r. split; [exact H|exact Hok].
  - destruct (change_id_outcomes 1 2 two_contexts two_contexts_ok) as [_ H].
    destruct (H false (1, 5) 0%nat 1%nat) as (sched & m' & H1 & H2 & _);
      [lia|reflexivity|reflexivity|reflexivity|].
    exists sched, m'. split; [exact H1|exact H2].
Defined.

Lemma with_context_outcomes_witness :
  exists m', run (with_context 1 (Poll (fun x => (x.1, x.2 + 1)) (fun x => Finish (O := Z) x.2)))
    two_contexts = Finished m' (Ok 10) /\ contents m' 1 = Some (QueueOpen (1, 11)).
Proof.
  pose proof (with_context_outcomes 1 (Poll (fun x => (x.1, x.2 + 1)) (fun x => Finish (O := Z) x.2))
    two_contexts two_contexts_ok) as H.
  change (contents two_contexts 1) with (Some (QueueOpen (1, 10))) in H. cbn in H.
  destruct H as (m' & _ & H1 & _ & H2). exists m'. split; [exact H1|]. rewrite H2. reflexivity.
Defined.
