(* ===== verification/ContextCalls.v ===== *)
(** * Contexts under concurrent calls: the manager's view of a queue is justified

    [ContextManager] treats a call of [schedule_and_wait] as one access to the
    queue's object. Here the queue machine, with its mutex, processors and
    channels, is put behind a context of the manager: what any number of
    concurrent calls do is what as many calls of [with_context] do one after
    another. *)

From S2P Require Import Prelude Async SccMap ContextQueue ContextQueueInv ContextQueueProps.
From S2P Require Import ContextQueueLive ContextManager ContextManagerProps.

(** [with_context] on the same id, one closure after the other. *)
Fixpoint with_contexts {T ID M O : Type} `{Identifiable T ID} `{SccHashMap ID nat M} (i : ID)
    (closures : list (body T O)) : prog (manager T M) (list (Result O (ContextError ID T))) :=
  match closures with
  | [] => Ret []
  | closure :: closures =>
      do! r := with_context i closure in
      do! rs := with_contexts i closures in
      Ret (r :: rs)
  end.

Section calls.
Context {T ID M O : Type} `{Countable ID} `{Identifiable T ID} `{!SccHashMap ID nat M}
  `{!SccLaws ID nat M}.
Implicit Types (m : manager T M) (i j : ID) (x : T) (cl : list (body T O)) (fs : list (future T O)).

Lemma run_safe (b : body T O) x : safe b -> exists o, (run_body b x).2 = Some o.
Proof. revert x. induction b as [o| |g k IH|b IH k IHk]; simpl; [by eexists|done|eauto|done]. Qed.

(** Later closures leave the answers to the earlier ones alone. *)
Lemma replay_other (acc : T * gmap nat (option O)) fs t :
  t ∉ (fut_tx <$> fs) -> (foldl apply_future acc fs).2 !! t = acc.2 !! t.
Proof.
  revert acc. induction fs as [|f fs IH]; intros [x outs] Ht; [done|].
  rewrite fmap_cons, not_elem_of_cons in Ht. destruct Ht as [Hne Ht]. cbn [foldl].
  rewrite IH by done. cbn [apply_future]. destruct (run_body (fut_body f) x) as [y r]. simpl.
  by rewrite lookup_insert_ne.
Qed.

(** Calls one after another are the replay of their log. *)
Lemma run_with_contexts i fs m x (outs : gmap nat (option O)) :
  manager_ok m -> contents m i = Some (QueueOpen x) ->
  Forall (fun f => safe (fut_body f)) fs -> NoDup (fut_tx <$> fs) ->
  exists m' os, run (with_contexts i (fut_body <$> fs)) m = Finished m' (Ok <$> os) /\
    manager_ok m' /\ contents m' i = Some (QueueOpen (foldl apply_future (x, outs) fs).1) /\
    (forall j, j <> i -> contents m' j = contents m j) /\
    Forall2 (fun f o => (foldl apply_future (x, outs) fs).2 !! fut_tx f = Some (Some o)) fs os.
Proof.
  revert m x outs. induction fs as [|f fs IH]; intros m x outs Hok Hx Hsafe Hnd.
  { exists m, []. by split_and!. }
  apply Forall_cons in Hsafe as [Hf Hsafe]. rewrite fmap_cons in Hnd. apply NoDup_cons in Hnd as [Hni Hnd].
  destruct (run_safe (fut_body f) x Hf) as [o Ho].
  pose proof (run_with_context i (fut_body f) m Hok) as Hw. rewrite Hx, Ho in Hw.
  destruct Hw as (m1 & _ & Hr1 & Hok1 & Hc1).
  assert (Hx1 : contents m1 i = Some (QueueOpen (run_body (fut_body f) x).1)).
  { by rewrite Hc1, decide_True. }
  destruct (IH m1 _ (<[fut_tx f := Some o]> outs) Hok1 Hx1 Hsafe Hnd)
    as (m' & os & Hr & Hok' & Hx' & Hj & Hos).
  assert (Hstep : foldl apply_future (x, outs) (f :: fs) =
    foldl apply_future ((run_body (fut_body f) x).1, <[fut_tx f := Some o]> outs) fs).
  { cbn [foldl apply_future]. destruct (run_body (fut_body f) x) as [y r]. simpl in Ho. by subst r. }
  exists m', (o :: os). rewrite Hstep. split_and!; [|done|done| |].
  - rewrite fmap_cons. cbn [with_contexts]. rewrite run_bind, Hr1, run_bind, Hr. done.
  - intros j Hne. rewrite Hj, Hc1 by done. by rewrite decide_False.
  - constructor; [|done]. rewrite replay_other by done. apply lookup_insert_eq.
Qed.

(** C7 (refinement): the composition of manager and queue. Whatever the
    schedule, once concurrent calls on the queue of a context have all been
    served, their answers and the context are those of [with_context] called
    for the same closures one after another, in the order in which the callers
    pushed them on the queue, on any manager that holds the context; every
    caller's closure is among them exactly once, and no other context is touched.
    The closures neither panic nor use the queue they run on. *)
Theorem concurrent_calls_are_sequential x cl sched s m i :
  Forall safe cl -> exec step sched (with_callers x cl) = Some s -> quiescent step s ->
  manager_ok m -> contents m i = Some (QueueOpen x) ->
  let order := accepted sched (with_callers x cl) in
  fut_tx <$> order ≡ₚ seq 0 (length cl) /\ Forall (of_caller cl) order /\
  exists m' os,
    run (with_contexts i (fut_body <$> order)) m = Finished m' (Ok <$> os) /\ manager_ok m' /\
    contents m' i = Some (QueueOpen (inner s)) /\
    (forall j, j <> i -> contents m' j = contents m j) /\
    Forall2 (fun f o => tasks s !! fut_tx f = Some (CDone o)) order os.
Proof.
  intros Hsafe E Hq Hok Hx order.
  destruct (rest_served x cl sched s Hsafe E Hq) as (_ & _ & [Hof Hnd] & Hin & Hans).
  fold order in Hof, Hnd, Hin, Hans.
  destruct (run_with_contexts i order m x ∅ Hok Hx) as (m' & os & Hrun & Hok' & Hx' & Hj & Hos); [|done|].
  { eapply Forall_impl; [exact Hof|]. intros f Hf. by eapply Forall_lookup_1. }
  split; [|split; [done|exists m', os; split_and!; [done|done|by rewrite Hx', Hin|done|]]].
  - apply NoDup_Permutation; [done|apply NoDup_seq|]. intros t. rewrite elem_of_seq. split.
    + intros (f & -> & Hf)%list_elem_of_fmap. rewrite Forall_forall in Hof.
      pose proof (Hof f Hf) as Hc. apply lookup_lt_Some in Hc. lia.
    + intros [_ Hlt]. destruct (Hans t Hlt) as (o & _ & Ho).
      apply (replay_outputs x), elem_of_dom. by eexists.
  - rewrite Forall2_lookup in Hos |- *. intros k. specialize (Hos k).
    destruct (order !! k) as [f|] eqn:Ef; inversion Hos as [f' o Ho Ef' Eo|]; constructor.
    rewrite Forall_lookup in Hof. pose proof (Hof k f Ef) as Hc. apply lookup_lt_Some in Hc.
    destruct (Hans _ Hc) as (o' & Hd & Ho'). unfold replay in Ho'. congruence.
Qed.
End calls.

(** ** Two calls on the first of two contexts *)

Definition add_to (n : Z) : body (Z * Z) Z := Poll (fun c => (c.1, c.2 + n)) (fun c => Finish (c.2 + n)).

Lemma two_calls_end : exists s,
  exec step bump_sched (with_callers (1, 10) [add_to 1; add_to 5]) = Some s /\
  tasks s = [CDone 11; CDone 16; PExited].
Proof. eexists. split; [vm_compute; reflexivity|reflexivity]. Qed.

Lemma all_done_quiescent (s : state (Z * Z) Z) a b : tasks s = [CDone a; CDone b; PExited] -> quiescent step s.
Proof. intros Ht t. unfold step. rewrite Ht. by destruct t as [|[|[|t]]]. Qed.

Lemma concurrent_calls_are_sequential_witness :
  exists s m' os, exec step bump_sched (with_callers (1, 10) [add_to 1; add_to 5]) = Some s /\
    run (with_contexts 1 [add_to 1; add_to 5]) two_contexts = Finished m' (Ok <$> os) /\
    contents m' 1 = Some (QueueOpen (inner s)).
Proof.
  destruct two_calls_end as (s & E & Ht).
  destruct (concurrent_calls_are_sequential (1, 10) [add_to 1; add_to 5] bump_sched s two_contexts 1)
    as (_ & _ & m' & os & H2 & _ & H3 & _).
  - repeat constructor.
  - exact E.
  - exact (all_done_quiescent s 11 16 Ht).
  - exact two_contexts_ok.
  - reflexivity.
  - exists s, m', os. split_and!; [exact E|exact H2|exact H3].
Defined.
