(* ===== verification/NgapMessages.v ===== *)
(** * NGAP messages and the protocol engine's plumbing
      ([ngap/engine/interfaces.rs], [ngap/engine/utils.rs], [ngap/core/utils.rs])

    The messages are those of the [ngap_models] crate, with the fields this
    program reads or writes; a field left at its default is not shown. The
    APER codec is a parameter. *)

From S2P Require Import Prelude Convert ProcedureCode.

(** Types of the crate that the program only passes on: RAN node ids, paging
    cycles, establishment causes, the parts of the codec's diagnostics, and
    every message the program has no use for. *)
Class NgapModels := {
  GlobalRanNodeId : Type;
  ran_id_eq_dec :: EqDecision GlobalRanNodeId;
  ran_id_countable :: Countable GlobalRanNodeId;
  default_ran_id : GlobalRanNodeId;
  PagingDrx : Type;
  default_paging_drx : PagingDrx;
  RrcEstablishmentCause : Type;
  TriggeringMessage : Type;
  Criticality : Type;
  Diagnostics : Type;
  DiagnosticsIe : Type;
  PerCodecError : Type;
  OtherMessage : Type;
}.

Inductive CauseProtocol : Type :=
| MessageNotCompatibleWithReceiverState
| SemanticError
| AbstractSyntaxErrorFalselyConstructedMessage.

Inductive CauseMisc : Type := UnknownPlmnOrSnpn.

Inductive Cause : Type :=
| Protocol (c : CauseProtocol)
| Misc (c : CauseMisc).

Section messages.
Context `{NgapModels}.

(** ** Messages *)

Record ExtendedRanNodeName : Type := MkExtendedRanNodeName {
  ran_node_name_visible_string : option bytes;
  ran_node_name_utf8_string : option bytes;
}.

Record BroadcastPlmnItem : Type := MkBroadcastPlmnItem {
  bp_plmn_identity : NgapPlmnIdentity;
  tai_slice_support_list : NgapSnssai * list NgapSnssai;
}.

Record SupportedTaItem : Type := MkSupportedTaItem {
  ta_tac : Octets3;
  broadcast_plmn_list : list BroadcastPlmnItem;
}.

Record NgSetupRequest : Type := MkNgSetupRequest {
  rq_global_ran_node_id : GlobalRanNodeId;
  rq_ran_node_name : option bytes;
  rq_supported_ta_list : list SupportedTaItem;
  rq_default_paging_drx : PagingDrx;
  rq_extended_ran_node_name : option ExtendedRanNodeName;
}.

Record NgSetupResponse : Type := MkNgSetupResponse {
  rs_amf_name : bytes;
  rs_served_guami_list : NgapGuami * list NgapGuami;
  rs_relative_amf_capacity : Z;
  rs_plmn_support_list : NgapPlmnSupportItem * list NgapPlmnSupportItem;
}.

Record NgSetupFailure : Type := MkNgSetupFailure { fl_cause : Cause }.

Record InitialUeMessage : Type := MkInitialUeMessage {
  iu_ran_ue_ngap_id : Z;
  iu_nas_pdu : bytes;
  iu_rrc_establishment_cause : RrcEstablishmentCause;
  iu_five_g_s_tmsi : option NgapFiveGSTmsi;
}.

Record DownlinkNasTransport : Type := MkDownlinkNasTransport {
  dl_amf_ue_ngap_id : Z;
  dl_ran_ue_ngap_id : Z;
  dl_nas_pdu : bytes;
}.

Record CriticalityDiagnostics : Type := MkCriticalityDiagnostics {
  cd_procedure_code : option ProcedureCode;
  cd_triggering_message : option TriggeringMessage;
  cd_procedure_criticality : option Criticality;
  cd_ies : option DiagnosticsIe;
}.

Record ErrorIndication : Type := MkErrorIndication {
  ei_amf_ue_ngap_id : option Z;
  ei_ran_ue_ngap_id : option Z;
  ei_cause : option Cause;
  ei_criticality_diagnostics : option CriticalityDiagnostics;
}.

Inductive NgapInitiatingMessage : Type :=
| MsgNgSetupRequest (m : NgSetupRequest)
| MsgInitialUeMessage (m : InitialUeMessage)
| MsgErrorIndication (m : ErrorIndication)
| MsgDownlinkNasTransport (m : DownlinkNasTransport)
| MsgOtherInitiating (m : OtherMessage).

Inductive NgapSuccessfulOutcome : Type :=
| MsgNgSetupResponse (m : NgSetupResponse)
| MsgOtherSuccessful (m : OtherMessage).

Inductive NgapUnsuccessfulOutcome : Type :=
| MsgNgSetupFailure (m : NgSetupFailure)
| MsgOtherUnsuccessful (m : OtherMessage).

Inductive NgapPdu : Type :=
| InitiatingMessage (m : NgapInitiatingMessage)
| SuccessfulOutcome (m : NgapSuccessfulOutcome)
| UnsuccessfulOutcome (m : NgapUnsuccessfulOutcome).

(** ** Answers ([interfaces.rs]) *)

(** [ngap_models::ToNgapPdu]: a message in the PDU of its kind. *)
Class ToNgapPdu (T : Type) := to_ngap_pdu : T -> NgapPdu.

#[global] Instance ng_setup_response_pdu : ToNgapPdu NgSetupResponse :=
  fun m => SuccessfulOutcome (MsgNgSetupResponse m).
#[global] Instance ng_setup_failure_pdu : ToNgapPdu NgSetupFailure :=
  fun m => UnsuccessfulOutcome (MsgNgSetupFailure m).
#[global] Instance error_indication_pdu : ToNgapPdu ErrorIndication :=
  fun m => InitiatingMessage (MsgErrorIndication m).
#[global] Instance downlink_nas_transport_pdu : ToNgapPdu DownlinkNasTransport :=
  fun m => InitiatingMessage (MsgDownlinkNasTransport m).

(** [trait ToPdu]: a PDU, or nothing to send. *)
Class ToPdu (T : Type) := to_pdu : T -> option NgapPdu.

#[global] Instance to_pdu_message {T : Type} `{ToNgapPdu T} : ToPdu T := fun m => Some (to_ngap_pdu m).

Inductive EmptyResponse : Type := MkEmptyResponse.

#[global] Instance empty_response_pdu : ToPdu EmptyResponse := fun _ => None.

Inductive NgapFailure (Failure : Type) : Type :=
| FailureMessage (f : Failure)
| GenericError (e : ErrorIndication).

Record NgapResponseError (Failure Err : Type) : Type := MkNgapResponseError {
  failure : NgapFailure Failure;
  error : Err;
}.

Definition new_generic_error {Failure Err : Type} (f : ErrorIndication) (e : Err) :
    NgapResponseError Failure Err :=
  MkNgapResponseError Failure Err (GenericError Failure f) e.

Definition new_failure_error {Failure Err : Type} (f : Failure) (e : Err) :
    NgapResponseError Failure Err :=
  MkNgapResponseError Failure Err (FailureMessage Failure f) e.

Definition new_empty_failure_error {Err : Type} (e : Err) : NgapResponseError EmptyResponse Err :=
  new_failure_error MkEmptyResponse e.

(** [impl ToNgapPdu for NgapFailure<F>]. *)
#[global] Instance ngap_failure_pdu {F : Type} `{ToNgapPdu F} : ToNgapPdu (NgapFailure F) :=
  fun f => match f with
  | FailureMessage _ f => to_ngap_pdu f
  | GenericError _ e => to_ngap_pdu e
  end.

(** [impl ToPdu for NgapFailure<EmptyResponse>]. *)
#[global] Instance empty_failure_pdu : ToPdu (NgapFailure EmptyResponse) :=
  fun f => match f with
  | FailureMessage _ _ => None
  | GenericError _ e => Some (to_ngap_pdu e)
  end.

(** [log_and_convert_to_pdu] of [interfaces.rs]. *)
Definition convert_to_ngap_pdu {T F E : Type} `{ToNgapPdu T} `{ToNgapPdu F}
    (result : Result T (NgapResponseError F E)) : NgapPdu :=
  match result with
  | Ok success => to_ngap_pdu success
  | Err e => to_ngap_pdu (failure F E e)
  end.

(** [log_and_convert_to_pdu] of [ngap_route.rs]. *)
Definition log_and_convert_to_pdu {T F E : Type} `{ToPdu T} `{ToPdu F}
    (result : Result T (NgapResponseError F E)) : option NgapPdu :=
  match result with
  | Ok resp => to_pdu resp
  | Err e =>
      match failure F E e with
      | FailureMessage _ f => to_pdu f
      | GenericError _ e => to_pdu e
      end
  end.

(** ** Errors and names ([core/utils.rs]) *)

Definition default_error_indication : ErrorIndication := MkErrorIndication None None None None.

Definition new_semantic_error_cause : Cause := Protocol SemanticError.

Definition new_semantic_error (amf_ue_ngap_id ran_ue_ngap_id : option Z) : ErrorIndication :=
  MkErrorIndication amf_ue_ngap_id ran_ue_ngap_id (Some new_semantic_error_cause) None.

Definition resolve_ran_name (ran_node_name : option bytes)
    (extended_ran_node_name : option ExtendedRanNodeName) : bytes :=
  match ran_node_name, extended_ran_node_name with
  | Some ran_node_name, None => ran_node_name
  | Some _, Some extended_ran_node_name | None, Some extended_ran_node_name =>
      match ran_node_name_visible_string extended_ran_node_name,
        ran_node_name_utf8_string extended_ran_node_name with
      | Some visible, None => visible
      | Some _, Some utf8 | None, Some utf8 => utf8
      | None, None => []
      end
  | None, None => []
  end.

(** ** The codec ([engine/utils.rs]) *)

Record ThreeGppAsn1PerError : Type := MkPerError {
  per_diagnostics : Diagnostics;
  codec_error : PerCodecError;
}.

(** [asn1_per] and [ngap_models]: encoding, decoding, the header of a PDU that
    does not decode, and the translation of the codec's diagnostics. *)
Class NgapCodec := {
  encode_pdu : NgapPdu -> Result bytes ThreeGppAsn1PerError;
  pdu_from_bytes : bytes -> Result NgapPdu ThreeGppAsn1PerError;
  get_message_info : bytes -> option TriggeringMessage * option ProcedureCode * option Criticality;
  convert_diagnostics_to_ie : Diagnostics -> option DiagnosticsIe;
}.

Context `{NgapCodec}.

Definition codec_to_bytes (data : NgapPdu) : Result bytes ThreeGppAsn1PerError := encode_pdu data.

Definition build_criticality_diagnostics (request : bytes) (e : ThreeGppAsn1PerError) :
    ErrorIndication * PerCodecError :=
  let i_es_criticality_diagnostics := convert_diagnostics_to_ie (per_diagnostics e) in
  let '(triggering_message, procedure_code, procedure_criticality) := get_message_info request in
  let criticality_diagnostics :=
    MkCriticalityDiagnostics procedure_code triggering_message procedure_criticality
      i_es_criticality_diagnostics in
  (MkErrorIndication None None (Some (Protocol AbstractSyntaxErrorFalselyConstructedMessage))
     (Some criticality_diagnostics), codec_error e).

Definition decode_ngap_pdu (request : bytes) : Result NgapPdu (NgapPdu * PerCodecError) :=
  match pdu_from_bytes request with
  | Ok pdu => Ok pdu
  | Err e =>
      let (err, codec_error) := build_criticality_diagnostics request e in
      Err (to_ngap_pdu err, codec_error)
  end.
End messages.

Arguments FailureMessage {_ _} f.
Arguments GenericError {_ _} e.
Arguments MkNgapResponseError {_ _ _} _ _.
Arguments failure {_ _ _} _.
Arguments error {_ _ _} _.
