(* ===== verification/NgapContext.v ===== *)
(** * The shared state of the NGAP side of the AMF ([context/])

    The [NgapContext] with its table of gNBs, the [GnbContext]s with their UE
    contexts, the configuration of the global [AppContext], and the world in
    which the bodies of the handlers run. *)

From S2P Require Import Prelude Async Counter Convert SccMap ContextQueue ContextManager Network.
From S2P Require Import NgapMessages.

(** ** Configuration ([context/app_context.rs], the fields NGAP reads) *)

(** [oasbi::common::Tai]. *)
Record Tai : Type := MkTai { tai_plmn_id : SbiPlmnId; tai_tac : bytes; tai_nid : option bytes }.

#[export] Instance SbiPlmnId_eq_dec : EqDecision SbiPlmnId.
Proof. solve_decision. Defined.

#[export] Instance Tai_eq_dec : EqDecision Tai.
Proof. solve_decision. Defined.

Record AmfConfiguration : Type := MkAmfConfiguration {
  cfg_name : bytes;
  cfg_served_guami_list : SbiGuami * list SbiGuami;
  cfg_support_tai_list : list Tai;
  cfg_plmn_support_list : ConfigPlmnSupportItem * list ConfigPlmnSupportItem;
}.

Section contexts.
Context `{NgapModels}.

(** ** gNB contexts *)

(** [GnbContext]. The association is an [Arc], named by its id. The UE manager
    and the id generator have interior mutability: they are in the world under
    [gnb_shared]. *)
Record GnbContext : Type := MkGnbContext {
  gnb_tnla : Z;
  global_ran_node_id : GlobalRanNodeId;
  gnb_name : bytes;
  gnb_paging_drx : PagingDrx;
  gnb_shared : nat;
}.

Record SupportedTai : Type := MkSupportedTai {
  supported_tai : Tai;
  supported_snssais : SbiSnssai * list SbiSnssai;
}.

(** ** UE contexts *)

(** The GMM state machine's storage and its state ([nas/]). *)
Inductive GmmState : Type :=
| Deregistered
| Unauthenticated
| Authenticated.

(** [UeContext]; the identities are kept as the strings the NAS layer writes. *)
Record UeContext : Type := MkUeContext {
  ran_ue_ngap_id : Z;
  amf_ue_ngap_id : Z;
  rrc_establishment_cause : RrcEstablishmentCause;
  ue_gnb : GnbContext;
  ue_five_g_s_tmsi : option bytes;
  ue_gmm : GmmState;
  ue_tmsi : option Z;
  ue_guti : option bytes;
  ue_suci : option bytes;
  ue_pei : option bytes;
  ue_mac_addr : option bytes;
  ue_plmn_id : option bytes;
}.

(** [UeContext::new]: everything after [gmm] starts at its default. *)
Definition UeContext_new (ran amf : Z) (cause : RrcEstablishmentCause) (gnb : GnbContext)
    (tmsi : option bytes) (gmm : GmmState) : UeContext :=
  MkUeContext ran amf cause gnb tmsi gmm None None None None None None.

(** [impl Identifiable for UeContext]. *)
#[global] Instance identify_ue : Identifiable UeContext Z := ran_ue_ngap_id.

(** ** The world *)

Context {Stream MG MU : Type} `{Sctp Stream} `{SccHashMap GlobalRanNodeId GnbContext MG}
  `{SccHashMap Z nat MU}.

(** A closure handed to [tokio::spawn], by what it captures. *)
Inductive spawned_task : Type :=
| SpawnConnection (tnla : Z)
| SpawnNgapLoop (gnb : GnbContext)
| SpawnMessage (gnb : GnbContext) (message : bytes).

Record world : Type := MkWorld {
  (** connections the listener will hand out, and the shutdown token *)
  w_incoming : list (Result Stream IoError);
  w_cancelled : bool;
  (** the network and the static association counter *)
  w_network : Associations Stream * Z;
  (** [NgapContext::gnb_contexts] *)
  w_gnb_contexts : MG;
  (** the UE manager and the UE id generator of each [GnbContext] created *)
  w_shared : gmap nat (manager UeContext MU * Z);
  w_next_shared : nat;
  (** the global [AppContext], when it has been set *)
  w_config : option AmfConfiguration;
  (** what has been spawned *)
  w_spawned : list spawned_task;
}.

Definition set_incoming x (w : world) : world :=
  MkWorld x (w_cancelled w) (w_network w) (w_gnb_contexts w) (w_shared w) (w_next_shared w)
    (w_config w) (w_spawned w).
Definition set_network x (w : world) : world :=
  MkWorld (w_incoming w) (w_cancelled w) x (w_gnb_contexts w) (w_shared w) (w_next_shared w)
    (w_config w) (w_spawned w).
Definition set_gnb_contexts x (w : world) : world :=
  MkWorld (w_incoming w) (w_cancelled w) (w_network w) x (w_shared w) (w_next_shared w)
    (w_config w) (w_spawned w).
Definition set_shared x (w : world) : world :=
  MkWorld (w_incoming w) (w_cancelled w) (w_network w) (w_gnb_contexts w) x (w_next_shared w)
    (w_config w) (w_spawned w).
Definition set_next_shared x (w : world) : world :=
  MkWorld (w_incoming w) (w_cancelled w) (w_network w) (w_gnb_contexts w) (w_shared w) x
    (w_config w) (w_spawned w).
Definition spawn_task x (w : world) : world :=
  MkWorld (w_incoming w) (w_cancelled w) (w_network w) (w_gnb_contexts w) (w_shared w)
    (w_next_shared w) (w_config w) (w_spawned w ++ [x]).

(** [GnbContext::new]: a new UE manager and generator, the rest at its default. *)
Definition GnbContext_new (tnla : Z) (w : world) : world * GnbContext :=
  let p := w_next_shared w in
  (set_next_shared (S p) (set_shared (<[p := (manager_new, counter_new)]> (w_shared w)) w),
    MkGnbContext tnla default_ran_id [] default_paging_drx p).

Definition shared_of (gnb : GnbContext) (w : world) : manager UeContext MU * Z :=
  default (manager_new, counter_new) (w_shared w !! gnb_shared gnb).

Definition ue_context_manager (gnb : GnbContext) (w : world) : manager UeContext MU :=
  (shared_of gnb w).1.

Definition set_ue_context_manager (gnb : GnbContext) (m : manager UeContext MU) (w : world) : world :=
  set_shared (<[gnb_shared gnb := (m, (shared_of gnb w).2)]> (w_shared w)) w.

(** [amf_ue_id_generator.increment()]. *)
Definition next_amf_ue_id (gnb : GnbContext) (w : world) : world * Z :=
  let (id, c) := increment CounterU64 (shared_of gnb w).2 in
  (set_shared (<[gnb_shared gnb := ((shared_of gnb w).1, c)]> (w_shared w)) w, id).

(** A body of the UE manager, run on the manager of [gnb]. *)
Definition on_ues {A : Type} (gnb : GnbContext) (m : prog (manager UeContext MU) A) : prog world A :=
  zoom (ue_context_manager gnb) (set_ue_context_manager gnb) m.

(** [get_global_app_context().await]: set at start-up; otherwise it would be
    initialised from the default configuration, whose validation fails (no
    supported TAI) and is unwrapped. *)
Definition get_global_app_context : prog world AmfConfiguration :=
  do! cfg := read_state w_config in
  lift_outcome (unwrap_option cfg).

(** [tnla.read_data()]: parked until a message is there. The association is
    reached through the network's table, from which nothing removes it. *)
Definition tnla_read (tnla : Z) : prog world (Result (option bytes) TnlaError) :=
  Act (fun w =>
    t ← associations (w_network w).1 !! tnla;
    '(t, r) ← read_data t;
    Some (set_network (MkAssociations (<[tnla := t]> (associations (w_network w).1))
      (associations_set (w_network w).1), (w_network w).2) w, r)) Ret.

(** [tnla.write_data(bytes, None)]: parked while the socket takes no more. *)
Definition tnla_write (tnla : Z) (data : bytes) : prog world (Result unit TnlaError) :=
  Act (fun w =>
    t ← associations (w_network w).1 !! tnla;
    '(t, r) ← write_data data None t;
    Some (set_network (MkAssociations (<[tnla := t]> (associations (w_network w).1))
      (associations_set (w_network w).1), (w_network w).2) w, r)) Ret.
End contexts.

Arguments world {_} Stream MG MU : assert.
