(* ===== verification/Tokens.v ===== *)
(** * What the tasks of the AMF know and have in hand

    The ghost tokens of the AMF's tasks, and the invariant of one gNB's UE
    contexts: the table, the reference counts behind it and the ids the tasks
    in the middle of [handle_initial_ue] have taken. *)

From S2P Require Import Prelude Async Ghost Counter Convert SccMap ContextQueue ContextManager ContextManagerProps.
From S2P Require Import Network NgapMessages NgapContext.

(** Those up to [Bound] are knowledge, which may be copied; the others exist
    once per use. *)
Inductive token : Type :=
| Assoc (id : Z)              (** the association is in the network's table *)
| Answered (id : Z)           (** an NG Setup Response went out on it *)
| Shared (sh : nat)           (** the UE table exists *)
| Sent (id : Z) (data : bytes) (** this went out on it, or sending failed *)
| Bound (id : Z) (sh : nat)   (** it is that of the gNB with this UE table *)
| Conn (id : Z) (last : option bytes) (** it has no gNB yet; what was read last, if it is known *)
| Setup (sh : nat)            (** the UE table has no registered gNB *)
| Msg                         (** a message that was read *)
| UeId (sh : nat) (a : Z)     (** an AMF UE id that no context bears yet *)
| Fresh (sh p n : nat) (i : Z) (** [n] handles on a queue not filed yet, for RAN UE id [i] *)
| Handle (sh p : nat)         (** a handle on a queue of the table *)
| Filed (sh : nat) (i : Z)    (** RAN UE id [i] is in the table *)
| Owe (id : Z) (sh : nat) (message : bytes). (** a message that must be settled *)

#[export] Instance token_eq_dec : EqDecision token.
Proof. solve_decision. Defined.

#[export] Instance token_countable : Countable token.
Proof.
  refine (inj_countable'
    (fun t => match t with
      | Assoc id => (0, id, 0, 0, 0, [])%nat
      | Answered id => (1, id, 0, 0, 0, [])%nat
      | Shared sh => (2%nat, 0%Z, sh, 0%nat, 0%nat, [])
      | Conn id None => (3%nat, id, 0%nat, 0%nat, 0%nat, [])
      | Conn id (Some data) => (3%nat, id, 1%nat, 0%nat, 0%nat, data)
      | Setup sh => (4%nat, 0%Z, sh, 0%nat, 0%nat, [])
      | Msg => (5%nat, 0%Z, 0%nat, 0%nat, 0%nat, [])
      | UeId sh a => (6%nat, a, sh, 0%nat, 0%nat, [])
      | Fresh sh p n i => (7%nat, i, sh, p, n, [])
      | Handle sh p => (8%nat, 0%Z, sh, p, 0%nat, [])
      | Filed sh i => (9%nat, i, sh, 0%nat, 0%nat, [])
      | Sent id data => (11%nat, id, 0%nat, 0%nat, 0%nat, data)
      | Bound id sh => (12%nat, id, sh, 0%nat, 0%nat, [])
      | Owe id sh msg => (13%nat, id, sh, 0%nat, 0%nat, msg)
      end)
    (fun '(k, z, a, b, c, d) => match k with
      | 0 => Assoc z | 1 => Answered z | 2 => Shared a | 3 => Conn z (match a with 0 => None | _ => Some d end) | 4 => Setup a | 5 => Msg
      | 6 => UeId a z | 7 => Fresh a b c z | 8 => Handle a b | 9 => Filed a z
      | 11 => Sent z d | 12 => Bound z a | _ => Owe z a d
      end%nat) _).
  intros [| | | | |id [data|]| | | | | | |]; done.
Defined.

(** Tokens of which there is at most one. *)
Definition unique (t : token) : Prop :=
  match t with Conn _ _ | Setup _ | UeId _ _ | Fresh _ _ _ _ => True | _ => False end.

Definition solo (ρ : gmultiset token) : Prop := forall t, unique t -> (multiplicity t ρ <= 1)%nat.

(** The UE table whose contexts a token is about. *)
Definition ues_of (t : token) : option nat :=
  match t with UeId sh _ | Fresh sh _ _ _ | Handle sh _ | Filed sh _ => Some sh | _ => None end.

(** Tokens that only record a fact. *)
Definition knowledge (t : token) : Prop :=
  match t with Assoc _ | Answered _ | Shared _ | Sent _ _ | Bound _ _ => True | _ => False end.

(** Facts of the world alone, that anybody may write down. *)
Definition fact (t : token) : Prop :=
  match t with Bound _ _ => False | _ => knowledge t end.

(** Only a message that must be settled matters to who has it at the end. *)
Definition harmless (t : token) : Prop := match t with Owe _ _ _ => False | _ => True end.

#[export] Instance harmless_dec t : Decision (harmless t).
Proof. destruct t; apply _. Defined.

Lemma solo_add t ρ : (unique t -> t ∉ ρ) -> solo ρ -> solo ({[+ t +]} ⊎ ρ).
Proof.
  intros Ht Hs u Hu. rewrite multiplicity_disj_union. pose proof (Hs u Hu).
  destruct (decide (u = t)) as [->|Hne].
  - specialize (Ht Hu). rewrite not_elem_of_multiplicity in Ht. rewrite multiplicity_singleton_eq. lia.
  - rewrite multiplicity_singleton_ne by done. lia.
Qed.

Lemma solo_sub ρ ρ' : ρ ⊆ ρ' -> solo ρ' -> solo ρ.
Proof. intros Hsub Hs t Ht. specialize (Hs t Ht). specialize (Hsub t). lia. Qed.

Lemma solo_absent t ρ : unique t -> solo ({[+ t +]} ⊎ ρ) -> t ∉ ρ.
Proof.
  intros Ht Hs. specialize (Hs t Ht). rewrite multiplicity_disj_union, multiplicity_singleton_eq in Hs.
  apply not_elem_of_multiplicity. lia.
Qed.

#[local] Open Scope Z_scope.

(** The queue a token is about. *)
Definition queue_of (t : token) : option nat :=
  match t with Fresh _ p _ _ | Handle _ p => Some p | _ => None end.

Section ue_table.
Context `{NM : NgapModels} {MU : Type} `{UM : !SccHashMap Z nat MU} `{UL : !SccLaws Z nat MU}.
Implicit Types (m : manager UeContext MU) (ρ fr : gmultiset token) (sh p : nat) (x : UeContext) (i a c : Z).

(** [m] and the id generator [c] are those of UE table [sh]. Every queue is
    open; its context bears an id below the generator's that no other has. A
    queue in the table is filed under its own RAN UE id and counted once for the
    table and once per handle. *)
Record ues_ok sh c m ρ : Prop := {
  uo_arc : forall p n q, arcs (objects m) !! p = Some (n, q) ->
    (p < next_arc (objects m))%nat /\
    exists x, q = QueueOpen x /\ gnb_shared (ue_gnb x) = sh /\ 1 <= amf_ue_ngap_id x < c /\
      UeId sh (amf_ue_ngap_id x) ∉ ρ;
  uo_amf : forall p p' n n' x x',
    arcs (objects m) !! p = Some (n, QueueOpen x) -> arcs (objects m) !! p' = Some (n', QueueOpen x') ->
    amf_ue_ngap_id x = amf_ue_ngap_id x' -> p = p';
  uo_filed : forall i p, view (queues m) !! i = Some p ->
    exists x, arcs (objects m) !! p = Some (Datatypes.S (multiplicity (Handle sh p) ρ), QueueOpen x) /\
      ran_ue_ngap_id x = i;
  uo_handle : forall p, Handle sh p ∈ ρ -> exists i, view (queues m) !! i = Some p;
  uo_fresh : forall p n i, Fresh sh p n i ∈ ρ ->
    (exists x, arcs (objects m) !! p = Some (n, QueueOpen x) /\ ran_ue_ngap_id x = i) /\
    forall j, view (queues m) !! j <> Some p;
  uo_id : forall a, UeId sh a ∈ ρ -> 1 <= a < c;
  uo_known : forall i, Filed sh i ∈ ρ -> is_Some (view (queues m) !! i);
}.

Lemma ues_ok_new sh ρ :
  (forall t, ues_of t = Some sh -> t ∉ ρ) -> ues_ok sh counter_new manager_new ρ.
Proof.
  intros Hρ. split; simpl; try done.
  - intros i p. by rewrite view_new.
  - intros p Hp. by destruct (Hρ (Handle sh p)).
  - intros p n i Hp. by destruct (Hρ (Fresh sh p n i)).
  - intros a Ha. by destruct (Hρ (UeId sh a)).
  - intros i Hi. by destruct (Hρ (Filed sh i)).
Qed.

(** Only the tokens about this table matter. *)
Lemma ues_ok_local sh c m ρ ρ' :
  (forall t, ues_of t = Some sh -> multiplicity t ρ' = multiplicity t ρ) ->
  ues_ok sh c m ρ -> ues_ok sh c m ρ'.
Proof.
  intros Hl [Ha Hb Hc Hd He Hf Hk].
  assert (Hin : forall t, ues_of t = Some sh -> t ∈ ρ' <-> t ∈ ρ).
  { intros t Ht. rewrite !elem_of_multiplicity, (Hl t Ht). done. }
  split; [|done|..].
  - intros p n q Hp. destruct (Ha p n q Hp) as (H1 & x & H2 & H3 & H4 & H5). split; [done|].
    exists x. split_and!; [done|done|lia|lia|]. by rewrite Hin.
  - intros i p Hp. rewrite Hl by done. by apply Hc.
  - intros p. rewrite Hin by done. apply Hd.
  - intros p n i. rewrite Hin by done. apply He.
  - intros a. rewrite Hin by done. apply Hf.
  - intros i. rewrite Hin by done. apply Hk.
Qed.

(** What is seen in the table may be written down: nothing leaves it. *)
Lemma ues_ok_know sh c m ρ i :
  is_Some (view (queues m) !! i) -> ues_ok sh c m ρ -> ues_ok sh c m ({[+ Filed sh i +]} ⊎ ρ).
Proof.
  intros Hi [Ha Hb Hc Hd He Hf Hk].
  split; [|done|..].
  - intros p n q Hp. destruct (Ha p n q Hp) as (H1 & x & H2 & H3 & H4 & H5). split; [done|].
    exists x. split_and!; [done|done|lia|lia|multiset_solver].
  - intros j p Hp. rewrite multiplicity_disj_union, multiplicity_singleton_ne by done. by apply Hc.
  - intros p Hin. apply Hd. multiset_solver.
  - intros p n j Hin. apply He. multiset_solver.
  - intros a Hin. apply Hf. multiset_solver.
  - intros j [[= ->]%gmultiset_elem_of_singleton|Hin]%gmultiset_elem_of_disj_union; [done|by apply Hk].
Qed.

(** *** Registering a UE ([handle_initial_ue], [add_context]) *)

(** [increment]: the id is the caller's. *)
Lemma ues_ok_take sh c m ρ :
  1 <= c -> ues_ok sh c m ρ ->
  UeId sh c ∉ ρ /\ ues_ok sh (c + 1) m ({[+ UeId sh c +]} ⊎ ρ).
Proof.
  intros Hpos [Ha Hb Hc Hd He Hf Hk]. assert (Hnew : UeId sh c ∉ ρ).
  { intros Hin. specialize (Hf c Hin). lia. }
  split; [done|]. split; [|done|..].
  - intros p n q Hp. destruct (Ha p n q Hp) as (H1 & x & H2 & H3 & H4 & H5). split; [done|].
    exists x. split_and!; [done|done|lia|lia|].
    rewrite gmultiset_elem_of_disj_union, gmultiset_elem_of_singleton. intros [[= E]|Hin]; [lia|done].
  - intros i p Hp. destruct (Hc i p Hp) as (x & Hx & Hi). exists x. split; [|done].
    rewrite multiplicity_disj_union, multiplicity_singleton_ne by done. done.
  - intros p Hin. apply Hd. multiset_solver.
  - intros p n i Hin. apply He. multiset_solver.
  - intros a [[= ->]%gmultiset_elem_of_singleton|Hin]%gmultiset_elem_of_disj_union; [lia|].
    specialize (Hf a Hin). lia.
  - intros i Hin. apply Hk. multiset_solver.
Qed.

(** [Arc::new(ContextQueue::new(context))]. *)
Lemma ues_ok_alloc sh c m x ρ :
  gnb_shared (ue_gnb x) = sh -> UeId sh (amf_ue_ngap_id x) ∉ ρ ->
  ues_ok sh c m ({[+ UeId sh (amf_ue_ngap_id x) +]} ⊎ ρ) ->
  (forall n i, Fresh sh (next_arc (objects m)) n i ∉ ρ) /\
  ues_ok sh c (on_objects (arc_new (QueueOpen x)) m).1
    ({[+ Fresh sh (next_arc (objects m)) 1 (ran_ue_ngap_id x) +]} ⊎ ρ).
Proof.
  set (p0 := next_arc (objects m)). intros Hsh Hout [Ha Hb Hc Hd He Hf Hk].
  assert (Hfree : arcs (objects m) !! p0 = None).
  { destruct (arcs (objects m) !! p0) as [[n q]|] eqn:E; [|done]. destruct (Ha _ _ _ E) as [? _]. unfold p0 in *. lia. }
  assert (Hunused : forall n y, arcs (objects m) !! n = Some y -> n <> p0) by (intros n y Hn ->; congruence).
  assert (Hx : 1 <= amf_ue_ngap_id x < c) by (apply Hf; multiset_solver).
  assert (Hfr : forall n i, Fresh sh p0 n i ∉ ρ).
  { intros n i Hin. destruct (He p0 n i) as [(y & Hy & _) _]; [multiset_solver|congruence]. }
  split; [done|]. split; cbn [on_objects arc_new fst objects queues arcs next_arc].
  - intros p n q [[<- [= <- <-]]|[Hne Hp]]%lookup_insert_Some.
    + split; [lia|]. exists x. split_and!; try done; try lia. multiset_solver.
    + destruct (Ha p n q Hp) as (H1 & y & H2 & H3 & H4 & H5). split; [lia|].
      exists y. split_and!; try done; try lia. multiset_solver.
  - assert (Hdiff : forall p n y, arcs (objects m) !! p = Some (n, QueueOpen y) ->
      amf_ue_ngap_id y <> amf_ue_ngap_id x).
    { intros p n y Hp E. destruct (Ha p n _ Hp) as (_ & y' & [= <-] & _ & _ & Hy). rewrite E in Hy.
      multiset_solver. }
    intros p p' n n' y y' [[<- [= <- <-]]|[Hne Hp]]%lookup_insert_Some
      [[<- [= <- <-]]|[Hne' Hp']]%lookup_insert_Some E; [done|..].
    + by destruct (Hdiff _ _ _ Hp').
    + by destruct (Hdiff _ _ _ Hp).
    + by apply (Hb p p' n n' y y').
  - intros i p Hp. destruct (Hc i p Hp) as (y & Hy & Hi). exists y. split; [|done].
    rewrite lookup_insert_ne by (by apply not_eq_sym, (Hunused p _ Hy)).
    rewrite multiplicity_disj_union, multiplicity_singleton_ne in Hy |- * by done. done.
  - intros p Hin. apply Hd. multiset_solver.
  - intros p n i [[= -> -> ->]%gmultiset_elem_of_singleton|Hin]%gmultiset_elem_of_disj_union.
    + split; [exists x; by rewrite lookup_insert_eq|]. intros j Hj.
      destruct (Hc j p0 Hj) as (y & Hy & _). congruence.
    + destruct (He p n i) as [(y & Hy & Hi) Hj]; [multiset_solver|]. split; [|done].
      exists y. by rewrite lookup_insert_ne by (by apply not_eq_sym, (Hunused p _ Hy)).
  - intros a Hin. apply Hf. multiset_solver.
  - intros i Hin. apply Hk. multiset_solver.
Qed.

(** The count of one queue changes, with the tokens about it. *)
Lemma ues_ok_recount sh c m m' ρ ρ' p n n' x :
  ues_ok sh c m ρ -> arcs (objects m) !! p = Some (n, QueueOpen x) -> queues m' = queues m ->
  objects m' = MkHeap (<[p := (n', QueueOpen x)]> (arcs (objects m))) (next_arc (objects m)) ->
  (forall t, queue_of t <> Some p -> multiplicity t ρ' = multiplicity t ρ) ->
  (forall i, view (queues m) !! i = Some p -> n' = Datatypes.S (multiplicity (Handle sh p) ρ')) ->
  (Handle sh p ∈ ρ' -> exists i, view (queues m) !! i = Some p) ->
  (forall k i, Fresh sh p k i ∈ ρ' -> k = n' /\ Fresh sh p n i ∈ ρ) ->
  ues_ok sh c m' ρ'.
Proof.
  intros [Ha Hb Hc Hd He Hf Hk] Hp Eq Eo Hother Hfiled Hhandle Hfresh.
  assert (Hin : forall t, queue_of t <> Some p -> t ∈ ρ' <-> t ∈ ρ).
  { intros t Ht. by rewrite !elem_of_multiplicity, (Hother t Ht). }
  assert (Hne : forall p', p' <> p -> (<[p := (n', QueueOpen x)]> (arcs (objects m))) !! p' =
    arcs (objects m) !! p') by (intros; by apply lookup_insert_ne).
  split; rewrite ?Eq, ?Eo; cbn [arcs next_arc].
  - intros p' k q [[<- [= <- <-]]|[Hn Hp']]%lookup_insert_Some.
    + destruct (Ha p n _ Hp) as (H1 & y & [= <-] & H3 & H4 & H5). split; [done|].
      exists x. split_and!; [done|done|lia|lia|]. by rewrite Hin.
    + destruct (Ha p' k q Hp') as (H1 & y & H2 & H3 & H4 & H5). split; [done|].
      exists y. split_and!; [done|done|lia|lia|]. by rewrite Hin.
  - intros p1 p2 n1 n2 x1 x2 [[<- [= <- <-]]|[Hn1 H1]]%lookup_insert_Some
      [[<- [= <- <-]]|[Hn2 H2]]%lookup_insert_Some E; [done|by eapply Hb..].
  - intros i p' Hv. destruct (decide (p' = p)) as [->|Hn].
    + destruct (Hc i p Hv) as (y & Hy & Hi). rewrite Hp in Hy. simplify_eq.
      exists y. by rewrite lookup_insert_eq, <-(Hfiled _ Hv).
    + rewrite Hne by done. rewrite Hother by (simpl; congruence). by apply Hc.
  - intros p' Hin'. destruct (decide (p' = p)) as [->|Hn]; [by apply Hhandle|].
    apply Hd. apply Hin; simpl; [congruence|done].
  - intros p' k i Hin'. destruct (decide (p' = p)) as [->|Hn].
    + destruct (Hfresh k i Hin') as [-> Hin2]. destruct (He p n i Hin2) as [(y & Hy & Hi) Hj].
      rewrite Hp in Hy. simplify_eq. split; [|done]. exists y. by rewrite lookup_insert_eq.
    + rewrite Hne by done. apply He. apply Hin; simpl; [congruence|done].
  - intros a. rewrite Hin by done. apply Hf.
  - intros i. rewrite Hin by done. apply Hk.
Qed.

(** The queue of a [Fresh] token: alive, not in the table, nobody else's. *)
Lemma fresh_alive sh c m ρ p n i :
  ues_ok sh c m ({[+ Fresh sh p n i +]} ⊎ ρ) -> Fresh sh p n i ∉ ρ ->
  (exists x, arcs (objects m) !! p = Some (n, QueueOpen x) /\ ran_ue_ngap_id x = i) /\
  (forall j, view (queues m) !! j <> Some p) /\ Handle sh p ∉ ρ /\ (forall k j, Fresh sh p k j ∉ ρ).
Proof.
  intros Hok Hout. destruct (uo_fresh _ _ _ _ Hok p n i) as [(x & Hx & Hi) Hj]; [multiset_solver|].
  split_and!; [by exists x|done|..].
  - intros Hin. destruct (uo_handle _ _ _ _ Hok p) as [j Hv]; [multiset_solver|]. by destruct (Hj j).
  - intros k j Hin. destruct (uo_fresh _ _ _ _ Hok p k j) as [(y & Hy & Hi') _]; [multiset_solver|].
    rewrite Hx in Hy. simplify_eq. done.
Qed.

(** [queue.clone()], or one of two handles dropped, before the queue is filed. *)
Lemma ues_ok_fresh_count sh c m m' ρ p n n' i x :
  ues_ok sh c m ({[+ Fresh sh p n i +]} ⊎ ρ) -> Fresh sh p n i ∉ ρ ->
  arcs (objects m) !! p = Some (n, QueueOpen x) -> queues m' = queues m ->
  objects m' = MkHeap (<[p := (n', QueueOpen x)]> (arcs (objects m))) (next_arc (objects m)) ->
  ues_ok sh c m' ({[+ Fresh sh p n' i +]} ⊎ ρ).
Proof.
  intros Hok Hout Hp Eq Eo. destruct (fresh_alive _ _ _ _ _ _ _ Hok Hout) as (_ & Hj & Hh & Hf).
  apply (ues_ok_recount sh c m m' _ _ p n n' x Hok Hp Eq Eo).
  - intros t Ht. rewrite !multiplicity_disj_union, !multiplicity_singleton_ne; [done|by intros ->..].
  - intros j Hv. by destruct (Hj j).
  - intros Hin. destruct Hh. multiset_solver.
  - intros k j [[= -> ->]%gmultiset_elem_of_singleton|Hin]%gmultiset_elem_of_disj_union;
      [split; [done|multiset_solver]|by destruct (Hf k j)].
Qed.

(** [insert_async]: the table's handle and the local one. *)
Lemma ues_ok_file sh c m ρ p i :
  ues_ok sh c m ({[+ Fresh sh p 2 i +]} ⊎ ρ) -> Fresh sh p 2 i ∉ ρ -> view (queues m) !! i = None ->
  ues_ok sh c (on_queues (scc_insert i p) m).1 ({[+ Handle sh p +]} ⊎ ρ).
Proof.
  intros Hok Hout Hi. destruct (fresh_alive _ _ _ _ _ _ _ Hok Hout) as ((x & Hx & Hri) & Hj & Hh & Hf).
  destruct Hok as [Ha Hb Hc Hd He Hu Hk]. destruct (scc_insert_fresh i p (queues m) Hi) as [Ev _].
  split; cbn [on_queues fst objects queues]; rewrite ?Ev.
  - intros p' n q Hp. destruct (Ha p' n q Hp) as (H1 & y & H2 & H3 & H4 & H5). split; [done|].
    exists y. split_and!; [done|done|lia|lia|multiset_solver].
  - done.
  - intros j p' [[<- <-]|[Hne Hp]]%lookup_insert_Some.
    + exists x. rewrite multiplicity_disj_union, multiplicity_singleton_eq.
      apply not_elem_of_multiplicity in Hh. by rewrite Hh.
    + destruct (Hc j p' Hp) as (y & Hy & Hry). exists y. split; [|done].
      assert (p' <> p) by (intros ->; by destruct (Hj j)).
      rewrite multiplicity_disj_union, multiplicity_singleton_ne in Hy |- * by congruence. done.
  - intros p' [[= ->]%gmultiset_elem_of_singleton|Hin]%gmultiset_elem_of_disj_union.
    + exists i. by rewrite lookup_insert_eq.
    + destruct (Hd p') as [j Hv]; [multiset_solver|]. exists j. rewrite lookup_insert_ne; [done|congruence].
  - intros p' n j Hin. assert (Hin' : Fresh sh p' n j ∈ ρ) by multiset_solver.
    destruct (He p' n j) as [Hy Hv]; [multiset_solver|]. split; [done|].
    intros j' [[<- <-]|[_ Hp]]%lookup_insert_Some; [by destruct (Hf n j)|by destruct (Hv j')].
  - intros a Hin. apply Hu. multiset_solver.
  - intros j Hin. destruct (decide (j = i)) as [->|Hne]; [rewrite lookup_insert_eq; by eexists|].
    rewrite lookup_insert_ne by done. apply Hk. multiset_solver.
Qed.

(** *** Handles on queues of the table ([with_context]) *)

Lemma handle_alive sh c m ρ p :
  ues_ok sh c m ρ -> Handle sh p ∈ ρ ->
  exists i x, view (queues m) !! i = Some p /\
    arcs (objects m) !! p = Some (Datatypes.S (multiplicity (Handle sh p) ρ), QueueOpen x).
Proof.
  intros Hok Hin. destruct (uo_handle _ _ _ _ Hok p Hin) as [i Hv].
  destruct (uo_filed _ _ _ _ Hok i p Hv) as (x & Hx & _). by exists i, x.
Qed.

(** Any number of handles may be added or dropped; the table keeps its own. *)
Lemma ues_ok_handles sh c m m' ρ ρ' p i n x :
  ues_ok sh c m ρ -> view (queues m) !! i = Some p ->
  arcs (objects m) !! p = Some (n, QueueOpen x) -> queues m' = queues m ->
  objects m' = MkHeap (<[p := (Datatypes.S (multiplicity (Handle sh p) ρ'), QueueOpen x)]> (arcs (objects m)))
    (next_arc (objects m)) ->
  (forall t, t <> Handle sh p -> multiplicity t ρ' = multiplicity t ρ) ->
  ues_ok sh c m' ρ'.
Proof.
  intros Hok Hv Hp Eq Eo Hother. apply (ues_ok_recount sh c m m' ρ ρ' p n _ x Hok Hp Eq Eo).
  - intros t Ht. apply Hother. by intros ->.
  - done.
  - intros _. by exists i.
  - intros k j Hin. rewrite elem_of_multiplicity, Hother, <-elem_of_multiplicity in Hin by done.
    destruct (uo_fresh _ _ _ _ Hok p k j Hin) as [_ Hj]. by destruct (Hj i).
Qed.

(** *** The reference counts of [add_context] and [with_context] *)

Lemma arcs_clone {V : Type} (h : heap V) p n v :
  arcs h !! p = Some (n, v) ->
  arc_clone p h = MkHeap (<[p := (Datatypes.S n, v)]> (arcs h)) (next_arc h).
Proof.
  intros Hp. unfold arc_clone. f_equal. apply map_eq. intros p'.
  destruct (decide (p' = p)) as [->|Hne]; [by rewrite lookup_alter_eq, Hp, lookup_insert_eq|].
  by rewrite lookup_alter_ne, lookup_insert_ne.
Qed.

Lemma arcs_drop {V : Type} (h : heap V) p n v :
  arcs h !! p = Some (Datatypes.S (Datatypes.S n), v) ->
  arc_drop p h = MkHeap (<[p := (Datatypes.S n, v)]> (arcs h)) (next_arc h).
Proof. intros Hp. unfold arc_drop. by rewrite Hp. Qed.

Lemma solo_swap t u ρ : unique t -> (unique u -> u ∉ ρ) -> solo ({[+ t +]} ⊎ ρ) -> solo ({[+ u +]} ⊎ ρ).
Proof. intros Ht Hu Hs. apply solo_add; [done|]. eapply solo_sub; [|exact Hs]. multiset_solver. Qed.

Lemma ues_ok_clone_fresh sh c m ρ p n i :
  solo ({[+ Fresh sh p n i +]} ⊎ ρ) -> ues_ok sh c m ({[+ Fresh sh p n i +]} ⊎ ρ) ->
  solo ({[+ Fresh sh p (Datatypes.S n) i +]} ⊎ ρ) /\
  ues_ok sh c (clone_queue p m) ({[+ Fresh sh p (Datatypes.S n) i +]} ⊎ ρ).
Proof.
  intros Hs Hu. apply solo_absent in Hs as Hout; [|done].
  destruct (fresh_alive _ _ _ _ _ _ _ Hu Hout) as ((x & Hx & _) & _ & _ & Hf).
  split; [by eapply solo_swap; [| |exact Hs]|].
  by apply (ues_ok_fresh_count sh c m _ ρ p n _ i x Hu Hout Hx); [|apply arcs_clone].
Qed.

(** [Arc::into_inner] of one of two handles gives nothing. *)
Lemma ues_ok_into_inner sh c m ρ p i :
  solo ({[+ Fresh sh p 2 i +]} ⊎ ρ) -> ues_ok sh c m ({[+ Fresh sh p 2 i +]} ⊎ ρ) ->
  (on_objects (arc_into_inner p) m).2 = None /\ solo ({[+ Fresh sh p 1 i +]} ⊎ ρ) /\
  ues_ok sh c (on_objects (arc_into_inner p) m).1 ({[+ Fresh sh p 1 i +]} ⊎ ρ).
Proof.
  intros Hs Hu. apply solo_absent in Hs as Hout; [|done].
  destruct (fresh_alive _ _ _ _ _ _ _ Hu Hout) as ((x & Hx & _) & _ & _ & Hf).
  unfold on_objects, arc_into_inner. rewrite Hx. split_and!; [done|by eapply solo_swap; [| |exact Hs]|].
  by apply (ues_ok_fresh_count sh c m _ ρ p 2 _ i x Hu Hout Hx); [|apply (arcs_drop _ _ 0)].
Qed.

Lemma ues_ok_clone_filed sh c m ρ p i :
  ues_ok sh c m ρ -> view (queues m) !! i = Some p ->
  ues_ok sh c (clone_queue p m) ({[+ Handle sh p +]} ⊎ ρ).
Proof.
  intros Hu Hv. destruct (uo_filed _ _ _ _ Hu i p Hv) as (x & Hx & _).
  apply (ues_ok_handles sh c m _ _ _ p i _ x Hu Hv Hx); [done| |].
  - cbn [clone_queue objects]. rewrite (arcs_clone _ _ _ _ Hx).
    by rewrite multiplicity_disj_union, multiplicity_singleton_eq.
  - intros t Ht. by rewrite multiplicity_disj_union, multiplicity_singleton_ne.
Qed.

Lemma ues_ok_drop_filed sh c m ρ p :
  ues_ok sh c m ({[+ Handle sh p +]} ⊎ ρ) -> ues_ok sh c (drop_queue p m) ρ.
Proof.
  intros Hu. destruct (handle_alive sh c m _ p Hu ltac:(multiset_solver)) as (i & x & Hv & Hx).
  apply (ues_ok_handles sh c m _ _ _ p i _ x Hu Hv Hx); [done| |].
  - rewrite multiplicity_disj_union, multiplicity_singleton_eq in Hx.
    cbn [drop_queue objects]. by apply arcs_drop.
  - intros t Ht. by rewrite multiplicity_disj_union, multiplicity_singleton_ne.
Qed.

(** A closure that returns at once finds its queue open and leaves it so. *)
Lemma ues_ok_call {O : Type} sh c m ρ p (o : O) :
  ues_ok sh c m ρ -> Handle sh p ∈ ρ ->
  exists m', call_queue p (Finish o) m = Some (m', Some o) /\ ues_ok sh c m' ρ.
Proof.
  intros Hu Hin. destruct (handle_alive _ _ _ _ _ Hu Hin) as (i & x & Hv & Hx).
  unfold call_queue. rewrite Hx. simpl. eexists. split; [done|].
  by apply (ues_ok_handles sh c m _ ρ ρ p i _ x Hu Hv Hx).
Qed.

(** Two UEs of the table with the same AMF UE id are one. *)
Lemma ues_apart sh c m ρ i j x y :
  ues_ok sh c m ρ -> contents m i = Some (QueueOpen x) -> contents m j = Some (QueueOpen y) ->
  amf_ue_ngap_id x = amf_ue_ngap_id y -> i = j.
Proof.
  intros Hu Hx Hy E. unfold contents in *.
  destruct (view (queues m) !! i) as [p|] eqn:Hp; [|done].
  destruct (view (queues m) !! j) as [q|] eqn:Hq; [|done]. cbn [mbind option_bind] in *.
  destruct (uo_filed _ _ _ _ Hu i p Hp) as (x' & Hx' & Hi). destruct (uo_filed _ _ _ _ Hu j q Hq) as (y' & Hy' & Hj).
  rewrite Hx' in Hx. rewrite Hy' in Hy. simplify_eq/=.
  rewrite (uo_amf _ _ _ _ Hu p q _ _ _ _ Hx' Hy' E) in Hx'. congruence.
Qed.
End ue_table.
