(* ===== verification/Limits.v ===== *)
(** * The limits of [ngap/constants.rs]

    The constants of the application, and the 3GPP maxima, which nothing in
    the program refers to: no list of an answer is cut to them. *)

From S2P Require Import Prelude.

(** ** [mod app] *)

Definition INITIAL_GNB_CAPACITY : Z := 1024.
Definition INITIALIZATION_RETRIES : nat := 3.
Definition MAX_TNLA_ASSOCIATIONS : Z := 32.
Definition DEFAULT_NGAP_PORT : Z := 38412.

(** ** [mod asn] *)

Definition asn : list (string * Z) := [
  ("MAX_NUM_OF_ALLOWED_AREAS", 16);
  ("MAX_NUM_OF_ALLOWED_CAGS_PER_PLMN", 256);
  ("MAX_NUM_OF_ALLOWED_S_NSSAIS", 8);
  ("MAX_NUM_OF_BLUETOOTH_NAME", 4);
  ("MAX_NUM_OF_BPLMNS", 12);
  ("MAX_NUM_OF_CAGS_PER_CELL", 64);
  ("MAX_NUM_OF_CELL_ID_FOR_MDT", 32);
  ("MAX_NUM_OF_CELL_ID_FOR_WARNING", 65535);
  ("MAX_NUM_OF_CELL_IN_AOI", 256);
  ("MAX_NUM_OF_CELL_IN_EAI", 65535);
  ("MAX_NUM_OF_CELL_IN_TAI", 65535);
  ("MAX_NUM_OF_CELLS_FOR_MBS", 8192);
  ("MAX_NUM_OF_CELLS_IN_GNB", 16384);
  ("MAX_NUM_OF_CELLS_IN_NG_ENB", 256);
  ("MAX_NUM_OF_CELLS_IN_NGRAN_NODE", 16384);
  ("MAX_NUM_OF_CELLS_IN_UE_HISTORY_INFO", 16);
  ("MAX_NUM_OF_CELLS_UE_MOVING_TRAJECTORY", 16);
  ("MAX_NUM_OF_DRBS", 32);
  ("MAX_NUM_OF_EMERGENCY_AREA_ID", 65535);
  ("MAX_NUM_OF_EAI_FOR_RESTART", 256);
  ("MAX_NUM_OF_EPLMNS", 15);
  ("MAX_NUM_OF_EPLMNS_PLUS_ONE", 16);
  ("MAX_NUM_OF_E_RABS", 256);
  ("MAX_NUM_OF_ERRORS", 256);
  ("MAX_NUM_OF_EXT_SLICE_ITEMS", 65535);
  ("MAX_NUM_OF_FORB_TACS", 4096);
  ("MAX_NUM_OF_FREQ_FOR_MDT", 8);
  ("MAX_NUM_OF_MBS_AREA_SESSION_IDS", 256);
  ("MAX_NUM_OF_MBS_FSAS", 64);
  ("MAX_NUM_OF_MBS_QOS_FLOWS", 64);
  ("MAX_NUM_OF_MBS_SESSIONS", 32);
  ("MAX_NUM_OF_MBS_SESSIONS_OF_UE", 256);
  ("MAX_NUM_OF_MBS_SERVICE_AREA_INFORMATION", 256);
  ("MAX_NUM_OF_MDT_PLMNS", 16);
  ("MAX_NUM_OF_MRBS", 32);
  ("MAX_NUM_OF_MULTI_CONNECTIVITY", 4);
  ("MAX_NUM_OF_MULTI_CONNECTIVITY_MINUS_ONE", 3);
  ("MAX_NUM_OF_NEIGH_PCI_FOR_MDT", 32);
  ("MAX_NUM_OF_NGAP_IE_SUPPORT_INFO", 32);
  ("MAX_NUM_OF_NG_CONNECTIONS_TO_RESET", 65536);
  ("MAX_NUM_OF_NR_CELL_BANDS", 32);
  ("MAX_NUM_OF_NSAGS", 256);
  ("MAX_NUM_OF_PAGING_AREAS", 64);
  ("MAX_NUM_OF_PC5_QOS_FLOWS", 2048);
  ("MAX_NUM_OF_PDU_SESSIONS", 256);
  ("MAX_NUM_OF_PLMNS", 12);
  ("MAX_NUM_OF_PS_CELLS_PER_PRIMARY_CELL_IN_UE_HISTORY_INFO", 8);
  ("MAX_NUM_OF_QOS_FLOWS", 64);
  ("MAX_NUM_OF_QOS_PARA_SETS", 8);
  ("MAX_NUM_OF_RAN_NODE_IN_AOI", 64);
  ("MAX_NUM_OF_RECOMMENDED_CELLS", 16);
  ("MAX_NUM_OF_RECOMMENDED_RAN_NODES", 16);
  ("MAX_NUM_OF_AOI", 64);
  ("MAX_NUM_OF_REPORTED_CELLS", 256);
  ("MAX_NUM_OF_SENSOR_NAME", 3);
  ("MAX_NUM_OF_SERVED_GUAMIS", 256);
  ("MAX_NUM_OF_SLICE_ITEMS", 1024);
  ("MAX_NUM_OF_SUCCESSFUL_HO_REPORTS", 64);
  ("MAX_NUM_OF_TACS", 256);
  ("MAX_NUM_OF_TACS_IN_NTN", 12);
  ("MAX_NUM_OF_TA_FOR_MDT", 8);
  ("MAX_NUM_OF_TAI_FOR_INACTIVE", 16);
  ("MAX_NUM_OF_TAI_FOR_MBS", 1024);
  ("MAX_NUM_OF_TAI_FOR_PAGING", 16);
  ("MAX_NUM_OF_TAI_FOR_RESTART", 2048);
  ("MAX_NUM_OF_TAI_FOR_WARNING", 65535);
  ("MAX_NUM_OF_TAI_IN_AOI", 16);
  ("MAX_NUM_OF_TIME_PERIODS", 2);
  ("MAX_NUM_OF_TNL_ASSOCIATIONS", 32);
  ("MAX_NUM_OF_UES_FOR_PAGING", 4096);
  ("MAX_NUM_OF_WLAN_NAME", 4);
  ("MAX_NUM_OF_XN_EXT_TLAS", 16);
  ("MAX_NUM_OF_XN_GTP_TLAS", 16);
  ("MAX_NUM_OF_XN_TLAS", 2);
  ("MAX_NUM_OF_CANDIDATE_CELLS", 32);
  ("MAX_NUM_OF_TARGET_S_NSSAIS", 8);
  ("MAX_NR_ARFCN", 3279165);
  ("MAX_NUM_OF_CELL_ID_FOR_QMC", 32);
  ("MAX_NUM_OF_PLMN_FOR_QMC", 16);
  ("MAX_NUM_OF_UE_APP_LAYER_MEAS", 16);
  ("MAX_NUM_OF_SNSSAI_FOR_QMC", 16);
  ("MAX_NUM_OF_TA_FOR_QMC", 8);
  ("MAX_NUM_OF_THRESHOLDS_FOR_EXCESS_PACKET_DELAY", 255)
]%string.

Definition limit (name : string) : option Z := (fun '(_, (_, z)) => z) <$> list_find (fun p => p.1 = name) asn.

(** Every name is given once; every value fits 32 bits; the names that say how
    they are related to another one are. *)
Lemma asn_consistent :
  NoDup asn.*1 /\ Forall (fun p => fits 32 p.2) asn /\
  limit "MAX_NUM_OF_EPLMNS_PLUS_ONE" = Z.succ <$> limit "MAX_NUM_OF_EPLMNS" /\
  limit "MAX_NUM_OF_MULTI_CONNECTIVITY_MINUS_ONE" = Z.pred <$> limit "MAX_NUM_OF_MULTI_CONNECTIVITY" /\
  limit "MAX_NUM_OF_TNL_ASSOCIATIONS" = Some MAX_TNLA_ASSOCIATIONS.
Proof.
  split; [by apply (bool_decide_unpack _); vm_compute|].
  split; [by apply (bool_decide_unpack _); vm_compute|]. done.
Qed.
