(* ===== verification/NgapEngine.v ===== *)
(** * The NGAP handlers and the connection controller
      ([ngap/core/], [ngap/engine/controller.rs], [ngap/engine/ue_actions.rs])

    Each [async fn] is a [prog] over the world: one step per access to shared
    state or to a socket. An endless loop is one iteration that spawns the next
    one, as [tokio] would resume it after other tasks have run. *)

From S2P Require Import Prelude Async Counter Convert SccMap ContextQueue ContextManager Network.
From S2P Require Import NgapMessages NgapContext Limits.

Section engine.
Context `{NgapModels} `{!NgapCodec} `{HexCodec} `{BitVecOps}.
Context {Stream MG MU : Type} `{Sctp Stream} `{SccHashMap GlobalRanNodeId GnbContext MG}
  `{SccHashMap Z nat MU}.
(** The build profile: overflow checks and [debug_assert!]. *)
Context (debug : bool).

Notation world := (world Stream MG MU).

(** ** NG Setup ([ng_setup.rs]) *)

Inductive NgSetupError : Type :=
| NgSetupConversionError (e : ConversionError)
| UnsupportedTais (tais : list SupportedTai)
| ConflictingRanId (id : GlobalRanNodeId).

Definition build_failure (cause : Cause) : NgSetupFailure := MkNgSetupFailure cause.

(** One [broadcast_plmn_item] under one [supported_tai]. *)
Definition supported_tai_of (tac : Octets3) (item : BroadcastPlmnItem) :
    Result SupportedTai ConversionError :=
  let? plmn_id := convert_plmn_id_to_mcc_mnc (bp_plmn_identity item) in
  let tac := convert_ngap_tac_to_sbi_tac tac in
  let tai := MkTai plmn_id tac None in
  let s_nssai_list :=
    (convert_ngap_snssai_to_sbi_snssai (tai_slice_support_list item).1,
      convert_ngap_snssai_to_sbi_snssai <$> (tai_slice_support_list item).2) in
  Ok (MkSupportedTai tai s_nssai_list).

(** The two nested loops: the first item that does not convert ends them. *)
Fixpoint collect_broadcast (tac : Octets3) (items : list BroadcastPlmnItem)
    (acc : list SupportedTai) : Result (list SupportedTai) ConversionError :=
  match items with
  | [] => Ok acc
  | item :: items =>
      let? t := supported_tai_of tac item in
      collect_broadcast tac items (acc ++ [t])
  end.

Fixpoint collect_supported_tais (tas : list SupportedTaItem) (acc : list SupportedTai) :
    Result (list SupportedTai) ConversionError :=
  match tas with
  | [] => Ok acc
  | ta :: tas =>
      let? acc := collect_broadcast (ta_tac ta) (broadcast_plmn_list ta) acc in
      collect_supported_tais tas acc
  end.

(** [any(|supported_tai| ran_tai_set.contains(supported_tai))]. *)
Definition tai_found (amf : list Tai) (ran : list SupportedTai) : bool :=
  existsb (fun t => bool_decide (t ∈ supported_tai <$> ran)) amf.

(** The success case. *)
Definition build_response (cfg : AmfConfiguration) : outcome NgSetupResponse :=
  let! plmn_support_list := convert_plmn_support_list debug (cfg_plmn_support_list cfg) in
  let! served_guami_list := convert_guami_list debug (cfg_served_guami_list cfg) in
  Returns (MkNgSetupResponse (cfg_name cfg) served_guami_list 255 plmn_support_list).

(** [handle_request] for [NgSetupRequest]; the [&mut GnbContext] is returned. *)
Definition handle_ng_setup (state : GnbContext) (request : NgSetupRequest) :
    prog world (GnbContext * Result NgSetupResponse (NgapResponseError NgSetupFailure NgSetupError)) :=
  do! known := read_state (fun w => scc_contains (rq_global_ran_node_id request) (w_gnb_contexts w)) in
  if known : bool then
    Ret (state, Err (new_failure_error (build_failure new_semantic_error_cause)
      (ConflictingRanId (rq_global_ran_node_id request))))
  else
    let name := resolve_ran_name (rq_ran_node_name request) (rq_extended_ran_node_name request) in
    let state := MkGnbContext (gnb_tnla state) (rq_global_ran_node_id request) name
      (rq_default_paging_drx request) (gnb_shared state) in
    match collect_supported_tais (rq_supported_ta_list request) [] with
    | Err e =>
        Ret (state, Err (new_failure_error (build_failure new_semantic_error_cause)
          (NgSetupConversionError e)))
    | Ok supported_tais =>
        do! cfg := get_global_app_context in
        if negb (tai_found (cfg_support_tai_list cfg) supported_tais) then
          Ret (state, Err (new_failure_error (build_failure (Misc UnknownPlmnOrSnpn))
            (UnsupportedTais supported_tais)))
        else
          do! response := lift_outcome (build_response cfg) in
          Ret (state, Ok response)
    end.

(** ** Writing ([controller.rs], [ue_actions.rs]) *)

Inductive NgapWriteError : Type :=
| WriteNetworkError (e : NetworkError)
| EncodingError (e : ThreeGppAsn1PerError).

Definition encode_and_write_ngap_pdu (tnla : Z) (pdu : NgapPdu) :
    prog world (Result unit NgapWriteError) :=
  match codec_to_bytes pdu with
  | Ok bytes =>
      do! r := tnla_write tnla bytes in
      Ret (map_err (fun err => WriteNetworkError (TnlaSendError tnla err)) r)
  | Err e => Ret (Err (EncodingError e))
  end.

(** [UeContext::send_downlink_nas_transport]. *)
Definition send_downlink_nas_transport (ue : UeContext) (nas_pdu : bytes) :
    prog world (Result unit NgapWriteError) :=
  let downlink_nas_transport :=
    MkDownlinkNasTransport (amf_ue_ngap_id ue) (ran_ue_ngap_id ue) nas_pdu in
  encode_and_write_ngap_pdu (gnb_tnla (ue_gnb ue)) (to_ngap_pdu downlink_nas_transport).

(** ** Initial UE messages ([initial_ue_message.rs], [nas/ue_actions.rs]) *)

Inductive UeContextAlreadyExistsError : Type :=
| AlreadyExistsMessage (m : InitialUeMessage)
| AlreadyExistsContext (ue : UeContext).

Inductive InitialUeMessageError : Type :=
| UeContextAlreadyExists (e : UeContextAlreadyExistsError)
| UeContextNotFound (id : Z).

(** [handle_nas]: the body is commented out. *)
Definition handle_nas (nas_pdu : bytes) : body UeContext unit := Finish tt.

(** [five_g_s_tmsi.map(FiveGSTmsi::from)]. *)
Definition map_tmsi (t : option NgapFiveGSTmsi) : outcome (option bytes) :=
  match t with
  | Some t => let! s := FiveGSTmsi_from t in Returns (Some s)
  | None => Returns None
  end.

(** [handle_request] for [InitialUeMessage]. *)
Definition handle_initial_ue (state : GnbContext) (request : InitialUeMessage) :
    prog world (Result EmptyResponse (NgapResponseError EmptyResponse InitialUeMessageError)) :=
  let id := iu_ran_ue_ngap_id request in
  do! known := on_ues state (contains_context id) in
  if known : bool then Ret (Err (new_empty_failure_error (UeContextAlreadyExists (AlreadyExistsMessage request))))
  else
    do! amf_id := access (next_amf_ue_id state) in
    do! tmsi := lift_outcome (map_tmsi (iu_five_g_s_tmsi request)) in
    let ue_context :=
      UeContext_new id amf_id (iu_rrc_establishment_cause request) state tmsi Deregistered in
    do! added := on_ues state (add_context debug ue_context) in
    match added with
    | Err (ContextAlreadyExists _ inner) =>
        Ret (Err (new_empty_failure_error (UeContextAlreadyExists (AlreadyExistsContext inner))))
    | Err _ => Panic
    | Ok _ =>
        do! r := on_ues state (with_context id (handle_nas (iu_nas_pdu request))) in
        match r with
        | Err _ => Ret (Err (new_empty_failure_error (UeContextNotFound id)))
        | Ok _ => Ret (Ok MkEmptyResponse)
        end
    end.

(** ** Routing ([ngap_route.rs]) *)

Definition ngap_route (gnb_context : GnbContext) (request : NgapPdu) : prog world (option NgapPdu) :=
  match request with
  | InitiatingMessage (MsgInitialUeMessage pdu) =>
      do! resp := handle_initial_ue gnb_context pdu in
      Ret (log_and_convert_to_pdu resp)
  | InitiatingMessage _ => Ret (to_pdu (new_semantic_error None None))
  | _ => Ret (to_pdu (new_semantic_error None None))
  end.

(** ** The controller ([controller.rs]) *)

Inductive NgapSetupError : Type :=
| SetupNetworkError (e : NetworkError)
| PerCodecEncodingError (e : PerCodecError)
| PerCodecDecodingError (e : PerCodecError)
| SetupWriteError (e : NgapWriteError)
| DidNotReceiveNgSetup (pdu : NgapPdu)
| SetupError (e : NgSetupError)
| SocketClosed.

(** One attempt: read a message, answer it. *)
Definition try_ng_setup (tnla : Z) : prog world (Result GnbContext NgapSetupError) :=
  do! gnb_context := access (GnbContext_new tnla) in
  do! read := tnla_read (gnb_tnla gnb_context) in
  match map_err (fun e => SetupNetworkError (TnlaReadError tnla e)) read with
  | Err e => Ret (Err e)
  | Ok None => Ret (Err SocketClosed)
  | Ok (Some request) =>
      do! answer :=
        match decode_ngap_pdu request with
        | Ok (InitiatingMessage (MsgNgSetupRequest ng_setup_request)) =>
            do! ngap_resp := handle_ng_setup gnb_context ng_setup_request in
            match ngap_resp with
            | (gnb_context, Ok success) => Ret (Ok gnb_context, to_ngap_pdu success)
            | (_, Err e) => Ret (Err (SetupError (error e)), to_ngap_pdu (failure e))
            end
        | Err (e, err) => Ret (Err (PerCodecEncodingError err), e)
        | Ok request =>
            Ret (Err (DidNotReceiveNgSetup request),
              to_ngap_pdu (MkErrorIndication None None
                (Some (Protocol MessageNotCompatibleWithReceiverState)) None))
        end in
      let (result, response) := answer : Result GnbContext NgapSetupError * NgapPdu in
      do! written := encode_and_write_ngap_pdu tnla response in
      match map_err SetupWriteError written with
      | Err e => Ret (Err e)
      | Ok _ => Ret result
      end
  end.

Fixpoint ng_setup_attempts (n : nat) (tnla : Z) : prog world (option GnbContext) :=
  match n with
  | O => Ret None
  | S n =>
      do! r := try_ng_setup tnla in
      match r with
      | Ok context => Ret (Some context)
      | Err _ => ng_setup_attempts n tnla
      end
  end.

Definition try_ng_setup_with_retries (tnla : Z) : prog world (option GnbContext) :=
  ng_setup_attempts INITIALIZATION_RETRIES tnla.

(** [gnb_contexts.insert_async(id, context)]. *)
Definition insert_gnb (gnb : GnbContext) : prog world (Result unit (GlobalRanNodeId * GnbContext)) :=
  access (fun w =>
    (set_gnb_contexts (scc_insert (global_ran_node_id gnb) gnb (w_gnb_contexts w)).1 w,
      (scc_insert (global_ran_node_id gnb) gnb (w_gnb_contexts w)).2)).

(** [start_ngap_processing]. *)
Definition start_ngap_processing (tnla : Z) : prog world unit :=
  do! context := try_ng_setup_with_retries tnla in
  match context with
  | None => Ret ()
  | Some gnb_context =>
      do! inserted := insert_gnb gnb_context in
      do! _ := lift_outcome (unwrap inserted) in
      write_state (spawn_task (SpawnNgapLoop gnb_context))
  end.

(** [close_ran_connection]. *)
Definition close_ran_connection (gnb_context : GnbContext) : prog world unit :=
  write_state (fun w =>
    set_gnb_contexts (scc_remove (global_ran_node_id gnb_context) (w_gnb_contexts w)).1 w).

(** One iteration of [run_ngap_loop]; [None] is another iteration. *)
Definition run_ngap_loop (gnb_context : GnbContext) : prog world (option (Result unit NetworkError)) :=
  do! read := tnla_read (gnb_tnla gnb_context) in
  match map_err (fun err => TnlaReadError (gnb_tnla gnb_context) err) read with
  | Err e => Ret (Some (Err e))
  | Ok None => Ret (Some (Ok ()))
  | Ok (Some message) =>
      do! _ := write_state (spawn_task (SpawnMessage gnb_context message)) in
      Ret None
  end.

(** The task around the loop, spawned by [start_ngap_processing]. *)
Definition ngap_loop_task (gnb_context : GnbContext) : prog world unit :=
  do! res := run_ngap_loop gnb_context in
  match res with
  | None => write_state (spawn_task (SpawnNgapLoop gnb_context))
  | Some (Ok _) => close_ran_connection gnb_context
  | Some (Err _) => Ret ()
  end.

(** The task spawned for each message. *)
Definition message_task (gnb_context : GnbContext) (message : bytes) : prog world unit :=
  do! response :=
    match decode_ngap_pdu message with
    | Ok pdu => ngap_route gnb_context pdu
    | Err (pdu, _) => Ret (Some pdu)
    end in
  match response with
  | Some response =>
      do! _ := encode_and_write_ngap_pdu (gnb_tnla gnb_context) response in
      Ret ()
  | None => Ret ()
  end.

(** One iteration of [NgapContext::run]. The [select!] is biased: a waiting
    connection comes before the cancellation. [true] is another iteration. *)
Definition run_accept : prog world bool :=
  Act (fun w =>
    match w_incoming w with
    | accepted :: rest =>
        let (net, r) := accept_and_create_tnla accepted (w_network w) in
        let w := set_network net (set_incoming rest w) in
        match r with
        | Ok tnla => Some (spawn_task (SpawnConnection (tnla_id tnla)) w, true)
        | Err _ => Some (w, true)
        end
    | [] => if w_cancelled w then Some (w, false) else None
    end) Ret.

(** [graceful_shutdown] does nothing yet. *)
Definition graceful_shutdown : Result unit NetworkError := Ok ().

Definition task_body (t : spawned_task) : prog world unit :=
  match t with
  | SpawnConnection tnla => start_ngap_processing tnla
  | SpawnNgapLoop gnb => ngap_loop_task gnb
  | SpawnMessage gnb message => message_task gnb message
  end.

(** ** The AMF: the accept loop and the tasks it leads to *)

(** Connections that have not arrived yet, whether the accept loop is still
    running, the other tasks, and the world they share. *)
Record amf : Type := MkAmf {
  amf_arriving : list (Result Stream IoError);
  amf_accepting : bool;
  amf_tasks : list (prog world unit);
  amf_world : world;
}.

Definition clear_spawned (w : world) : world :=
  MkWorld (w_incoming w) (w_cancelled w) (w_network w) (w_gnb_contexts w) (w_shared w)
    (w_next_shared w) (w_config w) [].

Definition cancel (w : world) : world :=
  MkWorld (w_incoming w) true (w_network w) (w_gnb_contexts w) (w_shared w)
    (w_next_shared w) (w_config w) (w_spawned w).

(** What was spawned joins the pool. *)
Definition absorb (arriving : list (Result Stream IoError)) (accepting : bool) (ts : list (prog world unit))
    (w : world) : amf :=
  MkAmf arriving accepting (ts ++ (task_body <$> w_spawned w)) (clear_spawned w).

(** The scheduler runs the accept loop or a task; from outside come connections,
    what the peer does on an association, and, once, the shutdown. *)
Inductive actor : Type := Accept | Task (i : nat) | Arrive | Cancel | Peer (tnla : Z).

(** The peer of an association acts. *)
Definition peer_step (tnla : Z) (w : world) : option world :=
  t ← associations (w_network w).1 !! tnla;
  s ← peer_acts (stream t);
  Some (set_network (MkAssociations (<[tnla := with_stream t s]> (associations (w_network w).1))
    (associations_set (w_network w).1), (w_network w).2) w).

Definition amf_step (who : actor) (s : amf) : option amf :=
  match who with
  | Accept =>
      if amf_accepting s then
        match task_step run_accept (amf_world s) with
        | Some (Ret more, w) => Some (absorb (amf_arriving s) more (amf_tasks s) w)
        | _ => None
        end
      else None
  | Task i =>
      match pool_step i (amf_tasks s, amf_world s) with
      | Some (ts, w) => Some (absorb (amf_arriving s) (amf_accepting s) ts w)
      | None => None
      end
  | Arrive =>
      match amf_arriving s with
      | c :: arriving =>
          Some (MkAmf arriving (amf_accepting s) (amf_tasks s)
            (set_incoming (w_incoming (amf_world s) ++ [c]) (amf_world s)))
      | [] => None
      end
  | Cancel =>
      if w_cancelled (amf_world s) then None
      else Some (MkAmf (amf_arriving s) (amf_accepting s) (amf_tasks s) (cancel (amf_world s)))
  | Peer tnla =>
      match peer_step tnla (amf_world s) with
      | Some w => Some (MkAmf (amf_arriving s) (amf_accepting s) (amf_tasks s) w)
      | None => None
      end
  end.

(** [NgapContext::run] on a new process. *)
Definition amf_new (arriving : list (Result Stream IoError)) (cfg : option AmfConfiguration) : amf :=
  MkAmf arriving true []
    (MkWorld [] false (Associations_new, counter_new) scc_new ∅ 0 cfg []).
End engine.
