(* ===== verification/NgapExample.v ===== *)
(** * A small instance of the NGAP engine

    Concrete types, a toy codec and scripted sockets, on which the properties of
    the engine are evaluated. *)

From S2P Require Import Prelude Async Convert ConvertProps ProcedureCode SccMap ContextQueue.
From S2P Require Import ContextManager Network NgapMessages NgapContext NgapEngine.

#[export] Instance test_models : NgapModels := {|
  GlobalRanNodeId := Z;
  default_ran_id := 0;
  PagingDrx := Z;
  default_paging_drx := 0;
  RrcEstablishmentCause := Z;
  TriggeringMessage := Z;
  Criticality := Z;
  Diagnostics := Z;
  DiagnosticsIe := Z;
  PerCodecError := Z;
  OtherMessage := Z;
|}.

(** PLMN 208 93, TAC 00 00 [tac]. *)
Definition test_setup (ran_id tac : Z) : NgSetupRequest :=
  MkNgSetupRequest ran_id (Some [103]) [MkSupportedTaItem (MkOctets3 0 0 tac)
    [MkBroadcastPlmnItem (MkPlmn 0x02 0xF8 0x39) (MkNgapSnssai 1 None, [])]] 32 None.

Definition test_initial_ue (ue : Z) : InitialUeMessage := MkInitialUeMessage ue [0x7E; 0] 3 None.

(** [1 id tac] is a setup request, [2 ue] an initial UE message, [3 x] another
    message; a PDU is written as the kind of answer it is. *)
Definition test_decode (bs : bytes) : Result NgapPdu ThreeGppAsn1PerError :=
  match bs with
  | [1; id; tac] => Ok (InitiatingMessage (MsgNgSetupRequest (test_setup id tac)))
  | [2; ue] => Ok (InitiatingMessage (MsgInitialUeMessage (test_initial_ue ue)))
  | [3; x] => Ok (InitiatingMessage (MsgOtherInitiating (x : OtherMessage)))
  | _ => Err (MkPerError (7 : Diagnostics) (8 : PerCodecError))
  end.

Definition test_encode (pdu : NgapPdu) : Result bytes ThreeGppAsn1PerError :=
  match pdu with
  | SuccessfulOutcome (MsgNgSetupResponse _) => Ok [101]
  | UnsuccessfulOutcome (MsgNgSetupFailure _) => Ok [102]
  | InitiatingMessage (MsgErrorIndication _) => Ok [103]
  | InitiatingMessage (MsgDownlinkNasTransport _) => Ok [104]
  | _ => Err (MkPerError (7 : Diagnostics) (9 : PerCodecError))
  end.

#[export] Instance test_codec : NgapCodec := {|
  encode_pdu := test_encode;
  pdu_from_bytes := test_decode;
  get_message_info bs := (Some (1 : TriggeringMessage), Some (MkProcedureCode 21), Some (0 : Criticality));
  convert_diagnostics_to_ie d := Some (d : DiagnosticsIe);
|}.

(** A socket with a record of what was received and sent, on which empty
    messages are the end. It takes [sc_room] more messages, and its peer has a
    script: to send something, or to take a message, which makes room for
    another. *)
Inductive peer_act : Type :=
| PeerSends (r : Result bytes IoError)
| PeerTakes.

Record ScriptedStream : Type := MkScripted {
  sc_local : SocketAddr;
  sc_peer : SocketAddr;
  sc_inbox : list (Result bytes IoError);
  sc_taken : list bytes;
  sc_outbox : list (Z * bytes);
  sc_room : nat;
  sc_script : list peer_act;
}.

#[export] Instance scripted_sctp : Sctp ScriptedStream := {
  stream_local_addr s := Ok (sc_local s);
  stream_peer_addr s := Ok (sc_peer s);
  recvmsg_eor_buf s :=
    match sc_inbox s with
    | [] => None
    | r :: inbox => Some (MkScripted (sc_local s) (sc_peer s) inbox
          (sc_taken s ++ match r with Ok (b :: data) => [b :: data] | _ => [] end) (sc_outbox s)
          (sc_room s) (sc_script s),
        result_map (fun data => (Z.of_nat (length data), data)) r)
    end;
  sendmsg data opts s :=
    match sc_room s with
    | O => None
    | S room => Some (MkScripted (sc_local s) (sc_peer s) (sc_inbox s) (sc_taken s)
          (sc_outbox s ++ [(ppid opts, data)]) room (sc_script s),
        Ok (Z.of_nat (length data)))
    end;
  peer_acts s :=
    match sc_script s with
    | [] => None
    | PeerSends r :: script => Some (MkScripted (sc_local s) (sc_peer s) (sc_inbox s ++ [r]) (sc_taken s)
          (sc_outbox s) (sc_room s) script)
    | PeerTakes :: script => Some (MkScripted (sc_local s) (sc_peer s) (sc_inbox s) (sc_taken s)
          (sc_outbox s) (S (sc_room s)) script)
    end;
}.

Definition test_guami : SbiGuami :=
  MkSbiGuami (MkSbiPlmnId [50; 48; 56] [57; 51]) (MkSbiAmfId 202 1016 0).

(** The AMF serves PLMN 208 93 with the given TAC string. *)
Definition test_config (tac : bytes) : AmfConfiguration :=
  MkAmfConfiguration [65; 77; 70] (test_guami, [])
    [MkTai (MkSbiPlmnId [50; 48; 56] [57; 51]) tac None]
    (MkPlmnSupport (MkSbiPlmnId [50; 48; 56] [57; 51]) (MkSbiSnssai 1 None, []), []).

Notation test_world := (world ScriptedStream (gmap GlobalRanNodeId GnbContext) (gmap Z nat)).

Definition slow_socket (port : Z) (inbox : list (Result bytes IoError)) (room : nat) (script : list peer_act) :
    ScriptedStream :=
  MkScripted (V4 0x7F000001, 38412) (V4 0x0A000001, port) inbox [] [] room script.

(** With room enough, and everything there from the start. *)
Definition ran_socket (port : Z) (inbox : list (Result bytes IoError)) : ScriptedStream :=
  slow_socket port inbox 100 [].

(** Before any connection. *)
Definition start_world (tac : bytes) (incoming : list ScriptedStream) : test_world :=
  MkWorld (Ok <$> incoming) false (Associations_new, 1) scc_new ∅ 0 (Some (test_config tac)) [].

(** TAC 00000a, and the same in upper case. *)
Definition tac_lower : bytes := [48; 48; 48; 48; 48; 97].
Definition tac_upper : bytes := [48; 48; 48; 48; 48; 65].
