(* ===== verification/NgSetupProps.v ===== *)
(** * Who gets an NG Setup Response *)

From S2P Require Import Prelude Async Convert ConvertProps SccMap ContextQueue ContextManager.
From S2P Require Import Network NgapMessages NgapContext NgapEngine NgapExample.

Section ng_setup.
Context `{NgapModels} `{!NgapCodec} `{HexLaws} `{BitVecOps}.
Context {Stream MG MU : Type} `{Sctp Stream} `{!SccHashMap GlobalRanNodeId GnbContext MG}
  `{!SccLaws GlobalRanNodeId GnbContext MG} `{SccHashMap Z nat MU}.
Implicit Types (w : world Stream MG MU) (req : NgSetupRequest) (gnb : GnbContext).

(** ** The TAIs of a request *)

Definition items_of req : list (Octets3 * BroadcastPlmnItem) :=
  ta ← rq_supported_ta_list req; (fun item => (ta_tac ta, item)) <$> broadcast_plmn_list ta.

(** The request broadcasts this TAI. *)
Definition broadcasts req (t : Tai) : Prop :=
  exists tac item plmn, (tac, item) ∈ items_of req /\
    convert_plmn_id_to_mcc_mnc (bp_plmn_identity item) = Ok plmn /\
    t = MkTai plmn (hex_string (octets_of tac)) None.

Definition plmns_decode req : Prop :=
  forall tac item, (tac, item) ∈ items_of req ->
    is_ok (convert_plmn_id_to_mcc_mnc (bp_plmn_identity item)) = true.

(** Both loops at once. *)
Fixpoint collect_items (items : list (Octets3 * BroadcastPlmnItem)) (acc : list SupportedTai) :
    Result (list SupportedTai) ConversionError :=
  match items with
  | [] => Ok acc
  | (tac, item) :: items =>
      let? t := supported_tai_of tac item in
      collect_items items (acc ++ [t])
  end.

Lemma collect_items_app l1 l2 acc :
  collect_items (l1 ++ l2) acc = let? acc := collect_items l1 acc in collect_items l2 acc.
Proof.
  revert acc. induction l1 as [|[tac item] l1 IH]; intros acc; simpl; [done|].
  destruct (supported_tai_of tac item); [apply IH|done].
Qed.

Lemma collect_broadcast_items tac l acc :
  collect_broadcast tac l acc = collect_items ((fun item => (tac, item)) <$> l) acc.
Proof.
  revert acc. induction l as [|item l IH]; intros acc; [done|].
  rewrite fmap_cons. cbn [collect_broadcast collect_items].
  destruct (supported_tai_of tac item); [apply IH|done].
Qed.

Lemma collect_flat req acc :
  collect_supported_tais (rq_supported_ta_list req) acc = collect_items (items_of req) acc.
Proof.
  unfold items_of. revert acc. induction (rq_supported_ta_list req) as [|ta l IH]; intros acc; [done|].
  rewrite bind_cons, collect_items_app. cbn [collect_supported_tais].
  rewrite collect_broadcast_items. destruct (collect_items _ acc); [apply IH|done].
Qed.

Lemma supported_tai_ok tac item :
  match convert_plmn_id_to_mcc_mnc (bp_plmn_identity item) with
  | Ok plmn => exists t, supported_tai_of tac item = Ok t /\
      supported_tai t = MkTai plmn (hex_string (octets_of tac)) None
  | Err e => supported_tai_of tac item = Err e
  end.
Proof.
  unfold supported_tai_of. destruct (convert_plmn_id_to_mcc_mnc _); [|done]. by eexists.
Qed.

Lemma collect_items_spec items acc :
  (Forall (fun '(_, item) => is_ok (convert_plmn_id_to_mcc_mnc (bp_plmn_identity item)) = true) items ->
    exists l, collect_items items acc = Ok (acc ++ l) /\
      forall t, t ∈ supported_tai <$> l <-> exists tac item plmn, (tac, item) ∈ items /\
        convert_plmn_id_to_mcc_mnc (bp_plmn_identity item) = Ok plmn /\
        t = MkTai plmn (hex_string (octets_of tac)) None) /\
  (~ Forall (fun '(_, item) => is_ok (convert_plmn_id_to_mcc_mnc (bp_plmn_identity item)) = true) items ->
    exists e, collect_items items acc = Err e).
Proof.
  revert acc. induction items as [|[tac item] items IH]; intros acc.
  - split; [|by intros []]. intros _. exists []. rewrite app_nil_r. split; [done|].
    intros t. simpl. split; [by intros ?%elem_of_nil|]. by intros (? & ? & ? & ?%elem_of_nil & _).
  - pose proof (supported_tai_ok tac item) as Hs. cbn [collect_items]. rewrite Forall_cons.
    destruct (convert_plmn_id_to_mcc_mnc (bp_plmn_identity item)) as [plmn|e] eqn:E; simpl.
    + destruct Hs as (t & Et & Ht). rewrite Et. destruct (IH (acc ++ [t])) as [Q1 Q2]. split.
      * intros [_ Hall]. destruct (Q1 Hall) as (l & El & Hl). exists (t :: l).
        rewrite El, <-app_assoc. split; [done|]. intros t'. rewrite fmap_cons, elem_of_cons, Hl, Ht.
        split.
        { intros [->|(tac' & item' & p' & Hin & ? & ?)]; [exists tac, item, plmn; set_solver|].
          exists tac', item', p'. set_solver. }
        intros (tac' & item' & p' & [Heq|Hin]%elem_of_cons & Hp & ->); [|right; eauto 6].
        left. simplify_eq. congruence.
      * intros Hn. apply Q2. naive_solver.
    + split; [by intros [? _]|]. intros _. rewrite Hs. eauto.
Qed.

Lemma collect_request req :
  (plmns_decode req -> exists l, collect_supported_tais (rq_supported_ta_list req) [] = Ok l /\
    forall t, t ∈ supported_tai <$> l <-> broadcasts req t) /\
  (~ plmns_decode req -> exists e, collect_supported_tais (rq_supported_ta_list req) [] = Err e).
Proof.
  rewrite collect_flat. destruct (collect_items_spec (items_of req) []) as [Q1 Q2].
  assert (Hd : plmns_decode req <-> Forall (fun '(_, item) =>
    is_ok (convert_plmn_id_to_mcc_mnc (bp_plmn_identity item)) = true) (items_of req)).
  { rewrite Forall_forall. split; [intros Hp [tac item] Hin; by eapply Hp|].
    intros Hf tac item Hin. by apply (Hf (tac, item)). }
  rewrite Hd. split; [|done]. intros Hall. destruct (Q1 Hall) as (l & El & Hl). by exists l.
Qed.

Lemma plmns_decode_dec req : plmns_decode req \/ ~ plmns_decode req.
Proof.
  unfold plmns_decode.
  destruct (decide (Forall (fun p : Octets3 * BroadcastPlmnItem =>
    is_ok (convert_plmn_id_to_mcc_mnc (bp_plmn_identity p.2)) = true) (items_of req))) as [Hf|Hf].
  - left. intros tac item Hin. rewrite Forall_forall in Hf. by apply (Hf (tac, item)).
  - right. intros Hp. apply Hf, Forall_forall. intros [tac item] Hin. by eapply Hp.
Qed.

Lemma collected req l :
  collect_supported_tais (rq_supported_ta_list req) [] = Ok l ->
  forall t, t ∈ supported_tai <$> l -> broadcasts req t.
Proof.
  intros El t Ht. destruct (collect_request req) as [Q1 Q2].
  destruct (plmns_decode_dec req) as [Hd|Hd].
  - destruct (Q1 Hd) as (l' & El' & Hl). assert (l' = l) as -> by congruence. by apply Hl.
  - destruct (Q2 Hd) as [e E]. congruence.
Qed.

Lemma tai_found_spec amf l :
  tai_found amf l = true <-> exists t, t ∈ amf /\ t ∈ supported_tai <$> l.
Proof.
  unfold tai_found. rewrite existsb_exists. split; intros (t & Hin & Ht); exists t.
  - split; [by apply list_elem_of_In|by apply bool_decide_eq_true in Ht].
  - split; [by apply list_elem_of_In|by apply bool_decide_eq_true].
Qed.

(** ** The answer *)

(** A configuration whose values have passed the validation of their types. *)
Definition valid_guami (g : SbiGuami) : Prop := valid_plmn (guami_plmn_id g) = true.

Definition valid_config (cfg : AmfConfiguration) : Prop :=
  valid_support (cfg_plmn_support_list cfg).1 /\ Forall valid_support (cfg_plmn_support_list cfg).2 /\
  valid_guami (cfg_served_guami_list cfg).1 /\ Forall valid_guami (cfg_served_guami_list cfg).2.

Lemma build_response_ok debug cfg :
  valid_config cfg -> exists resp, build_response debug cfg = Returns resp /\
    rs_amf_name resp = cfg_name cfg /\
    convert_plmn_support_list debug (cfg_plmn_support_list cfg) = Returns (rs_plmn_support_list resp) /\
    convert_guami_list debug (cfg_served_guami_list cfg) = Returns (rs_served_guami_list resp).
Proof.
  intros (Q1 & Q2 & Q3 & Q4). unfold build_response.
  assert (Hs : exists v, convert_plmn_support_list debug (cfg_plmn_support_list cfg) = Returns v).
  { destruct (plmn_support_converts debug (cfg_plmn_support_list cfg) Q1 Q2) as (v & Ev & _). eauto. }
  assert (Hg : exists v, convert_guami_list debug (cfg_served_guami_list cfg) = Returns v).
  { destruct (transform_nonempty_forall (from_guami debug) valid_guami (fun _ _ => True)
      (cfg_served_guami_list cfg)) as (v & Ev & _); [|done..|by exists v].
    intros g Hg. destruct (plmn_encodes debug (guami_plmn_id g) Hg)
      as (a & b & c & f & d & e & _ & _ & _ & _ & _ & _ & He & _).
    unfold from_guami, convert, from_amf_id, from_plmn_id. simpl. rewrite He. by eexists. }
  destruct Hs as [v1 E1], Hg as [v2 E2]. rewrite E1, E2. by eexists.
Qed.

(** C8 (functional): the AMF accepts a gNB exactly when its id is not in the
    table, every PLMN it broadcasts decodes, and one of the TAIs it broadcasts
    is configured. The answer is then built from the configuration, and the
    context takes the id and the paging cycle of the request; otherwise the
    failure names the first of these conditions that is broken. Nothing is
    changed in the shared state and a valid configuration never panics. *)
Theorem ng_setup_decision debug gnb req w cfg :
  w_config w = Some cfg -> valid_config cfg ->
  exists gnb' r, run (handle_ng_setup debug gnb req) w = Finished w (gnb', r) /\
    match r with
    | Ok resp =>
        view (w_gnb_contexts w) !! rq_global_ran_node_id req = None /\ plmns_decode req /\
        (exists t, t ∈ cfg_support_tai_list cfg /\ broadcasts req t) /\
        rs_amf_name resp = cfg_name cfg /\
        convert_plmn_support_list debug (cfg_plmn_support_list cfg) =
          Returns (rs_plmn_support_list resp) /\
        global_ran_node_id gnb' = rq_global_ran_node_id req /\
        gnb_paging_drx gnb' = rq_default_paging_drx req /\
        gnb_tnla gnb' = gnb_tnla gnb
    | Err e =>
        (is_Some (view (w_gnb_contexts w) !! rq_global_ran_node_id req) /\ gnb' = gnb /\
          failure e = FailureMessage (MkNgSetupFailure (Protocol SemanticError)) /\
          error e = ConflictingRanId (rq_global_ran_node_id req)) \/
        (view (w_gnb_contexts w) !! rq_global_ran_node_id req = None /\ ~ plmns_decode req /\
          failure e = FailureMessage (MkNgSetupFailure (Protocol SemanticError))) \/
        (view (w_gnb_contexts w) !! rq_global_ran_node_id req = None /\ plmns_decode req /\
          (forall t, t ∈ cfg_support_tai_list cfg -> ~ broadcasts req t) /\
          failure e = FailureMessage (MkNgSetupFailure (Misc UnknownPlmnOrSnpn)))
    end.
Proof.
  intros Hcfg Hv. unfold handle_ng_setup. autorewrite with run. rewrite scc_contains_view.
  case_bool_decide as Hk; [eexists _, _; split; [done|]; by left|].
  apply eq_None_not_Some in Hk. destruct (collect_request req) as [Hc1 Hc2].
  pose proof (plmns_decode_dec req) as Hdec.
  destruct Hdec as [Hd|Hd].
  2: { destruct (Hc2 Hd) as [e E]. rewrite E. eexists _, _. split; [done|]. right. by left. }
  destruct (Hc1 Hd) as (l & El & Hl). rewrite El. unfold get_global_app_context.
  autorewrite with run. rewrite Hcfg. simpl.
  destruct (tai_found (cfg_support_tai_list cfg) l) eqn:Ef; simpl.
  - destruct (build_response_ok debug cfg Hv) as (resp & Er & Hn & Hs & _).
    rewrite Er. simpl. eexists _, _. split; [done|]. apply tai_found_spec in Ef as (t & Ht & Hin).
    apply Hl in Hin. split_and!; try done. by exists t.
  - eexists _, _. split; [done|]. right. right. split_and!; try done.
    intros t Ht Hb. apply Hl in Hb. enough (tai_found (cfg_support_tai_list cfg) l = true) by congruence.
    apply tai_found_spec. by exists t.
Qed.

(** C36 (error): a TAC configured with an upper-case hex digit matches no gNB:
    the gNB's code is printed in lower case and the strings are compared. With
    only such TAIs configured every NG Setup Request is refused. *)
Theorem upper_case_tac_refuses_everyone debug gnb req w cfg gnb' r w' :
  w_config w = Some cfg ->
  (forall t, t ∈ cfg_support_tai_list cfg -> to_lower <$> tai_tac t <> tai_tac t) ->
  (forall tac item, (tac, item) ∈ items_of req -> octets_fit tac) ->
  run (handle_ng_setup debug gnb req) w = Finished w' (gnb', r) -> is_ok r = false.
Proof.
  intros Hcfg Hup Hfit. unfold handle_ng_setup. autorewrite with run.
  destruct (scc_contains _ _); [intros; by simplify_eq/=|].
  destruct (collect_supported_tais _ _) as [l|e] eqn:El; [|intros; by simplify_eq/=].
  unfold get_global_app_context. autorewrite with run. rewrite Hcfg. simpl.
  destruct (tai_found (cfg_support_tai_list cfg) l) eqn:Ef; simpl; [|intros; by simplify_eq/=].
  exfalso. apply tai_found_spec in Ef as (t & Ht & Hin). apply (Hup t Ht).
  destruct (collected req l El t Hin) as (tac & item & plmn & Hi & _ & ->). simpl.
  pose proof (Hfit tac item Hi) as Hf. rewrite hex_string_spec by done. by apply hex_print_hex.
Qed.
End ng_setup.

(** ** On a concrete gNB *)

Definition test_gnb : GnbContext := MkGnbContext 1 default_ran_id [] default_paging_drx 0.

Lemma test_config_valid tac : valid_config (test_config tac).
Proof. split_and!; try constructor; try done; repeat constructor. Qed.

Lemma ng_setup_decision_witness :
  exists gnb' resp, run (handle_ng_setup true test_gnb (test_setup 5 10)) (start_world tac_lower []) =
      Finished (start_world tac_lower []) (gnb', Ok resp) /\ rs_amf_name resp = [65; 77; 70].
Proof.
  destruct (ng_setup_decision true test_gnb (test_setup 5 10) (start_world tac_lower [])
    (test_config tac_lower)) as (gnb' & r & Hr & Hd).
  - reflexivity.
  - apply test_config_valid.
  - destruct r as [resp|e].
    + exists gnb', resp. split; [exact Hr|]. apply Hd.
    + exfalso. vm_compute in Hr. discriminate Hr.
Defined.

Lemma upper_case_tac_refuses_everyone_witness :
  exists gnb' r, run (handle_ng_setup true test_gnb (test_setup 5 10)) (start_world tac_upper []) =
      Finished (start_world tac_upper []) (gnb', r) /\ is_ok r = false.
Proof.
  destruct (run (handle_ng_setup true test_gnb (test_setup 5 10)) (start_world tac_upper []))
    as [w' [gnb' r]| |] eqn:E; [|vm_compute in E; discriminate E..].
  exists gnb', r. split; [vm_compute in E; injection E as <- <- <-; reflexivity|].
  apply (upper_case_tac_refuses_everyone true test_gnb (test_setup 5 10) (start_world tac_upper [])
    (test_config tac_upper) gnb' r w').
  - reflexivity.
  - intros t Ht. apply list_elem_of_singleton in Ht as ->. vm_compute. discriminate.
  - intros tac item Hi. apply list_elem_of_singleton in Hi as [= -> ->].
    repeat constructor; vm_compute; congruence.
  - exact E.
Defined.
