(* ===== verification/EngineProps.v ===== *)
(** * The AMF under every schedule: connections, gNBs and their messages *)

From S2P Require Import Prelude Async Counter Convert ConvertProps SccMap ContextQueue.
From S2P Require Import ContextManager ContextManagerProps Network NetworkProps NgapMessages.
From S2P Require Import NgapContext NgapEngine NgapExample.

Section engine_props.
Context `{NM : NgapModels} `{NC : !NgapCodec} `{HX : HexCodec} `{BV : BitVecOps}.
Context {Stream MG MU : Type} `{SC : Sctp Stream} `{GM : !SccHashMap GlobalRanNodeId GnbContext MG}
  `{GL : !SccLaws GlobalRanNodeId GnbContext MG} `{UM : !SccHashMap Z nat MU}
  `{UL : !SccLaws Z nat MU}.
Implicit Types (w : world Stream MG MU) (gnb : GnbContext) (cfg : option AmfConfiguration) (n : nat).

(** ** What every access keeps *)

(** Each gNB is filed under its own id, the network's table is consistent, its
    ids cannot run out on the connections that wait and [n] more, and the
    configuration is the one set at start-up. *)
Record amf_ok cfg (n : nat) w : Prop := {
  ak_keyed : forall k g, view (w_gnb_contexts w) !! k = Some g -> global_ran_node_id g = k;
  ak_network : associations_ok (w_network w).1;
  ak_ids : ids_below (w_network w);
  ak_counter : 1 <= (w_network w).2 /\
    (w_network w).2 + Z.of_nat (length (w_incoming w) + n) < 2 ^ 64;
  ak_config : w_config w = cfg;
}.

(** The parts of the world the invariant speaks about. *)
Definition same_core w w' : Prop :=
  w_gnb_contexts w' = w_gnb_contexts w /\ w_network w' = w_network w /\
  w_incoming w' = w_incoming w /\ w_config w' = w_config w.

Lemma amf_ok_core cfg n w w' : same_core w w' -> amf_ok cfg n w -> amf_ok cfg n w'.
Proof. intros (E1 & E2 & E3 & E4) [Ha Hb Hc Hd He]. by split; rewrite ?E1, ?E2, ?E3, ?E4. Qed.

(** Replacing an association by itself with another stream. *)
Lemma amf_ok_stream cfg n w id t t' :
  amf_ok cfg n w -> associations (w_network w).1 !! id = Some t -> tnla_id t' = tnla_id t ->
  addresses t' = addresses t ->
  amf_ok cfg n (set_network (MkAssociations (<[id := t']> (associations (w_network w).1))
      (associations_set (w_network w).1), (w_network w).2) w).
Proof.
  intros [Ha Hb Hc Hd He] Ht Ei Ea. split; simpl; try done.
  - by apply (ok_update _ id t t').
  - intros j Hj. apply Hc. simpl in Hj. destruct (decide (id = j)) as [<-|Hne]; [by eexists|].
    by rewrite lookup_insert_ne in Hj.
Qed.

Lemma preserves_read_tnla cfg n id : preserves (amf_ok cfg n) (tnla_read id : prog (world Stream MG MU) _).
Proof.
  split; [|done]. intros w w' r Hok E.
  destruct (associations (w_network w).1 !! id) as [t|] eqn:Ht; [|done]. simpl in E.
  unfold read_data in E. destruct (recvmsg_eor_buf (stream t)) as [[s r']|]; simplify_eq/=.
  by apply (amf_ok_stream cfg n w id t).
Qed.

Lemma preserves_write_tnla cfg n id data :
  preserves (amf_ok cfg n) (tnla_write id data : prog (world Stream MG MU) _).
Proof.
  split; [|done]. intros w w' r Hok E.
  destruct (associations (w_network w).1 !! id) as [t|] eqn:Ht; [|done]. simpl in E.
  unfold write_data in E. destruct (sendmsg _ _ _) as [[s r']|]; simplify_eq/=.
  by apply (amf_ok_stream cfg n w id t).
Qed.

Lemma preserves_ues {A : Type} cfg n gnb (m : prog (manager UeContext MU) A) :
  preserves (amf_ok cfg n) (on_ues gnb m : prog (world Stream MG MU) A).
Proof. apply preserves_zoom. intros p w. by apply amf_ok_core. Qed.

Lemma preserves_config cfg n : preserves (amf_ok cfg n) (get_global_app_context : prog (world Stream MG MU) _).
Proof. apply preserves_bind; [apply preserves_read|intros; apply preserves_lift]. Qed.

Lemma preserves_encode cfg n id pdu :
  preserves (amf_ok cfg n) (encode_and_write_ngap_pdu id pdu : prog (world Stream MG MU) _).
Proof.
  unfold encode_and_write_ngap_pdu. destruct (codec_to_bytes pdu); [|done].
  apply preserves_bind; [apply preserves_write_tnla|done].
Qed.

Lemma preserves_spawn cfg n t :
  preserves (amf_ok cfg n) (write_state (spawn_task t) : prog (world Stream MG MU) unit).
Proof. apply preserves_write. intros w. by apply amf_ok_core. Qed.

#[local] Hint Resolve preserves_bind preserves_read preserves_lift preserves_read_tnla
  preserves_write_tnla preserves_ues preserves_config preserves_encode preserves_spawn : preserve.

(** Case analysis down the body. *)
Ltac preserve :=
  repeat first
    [ done | apply preserves_bind; [|intros] | solve [eauto with preserve]
    | case_match ].

Lemma preserves_ng_setup debug cfg n gnb req :
  preserves (amf_ok cfg n) (handle_ng_setup debug gnb req : prog (world Stream MG MU) _).
Proof. unfold handle_ng_setup. preserve. Qed.

Lemma preserves_initial_ue debug cfg n gnb req :
  preserves (amf_ok cfg n) (handle_initial_ue debug gnb req : prog (world Stream MG MU) _).
Proof.
  unfold handle_initial_ue. apply preserves_bind; [apply preserves_ues|]. intros [|]; [done|].
  apply preserves_bind.
  { apply preserves_access. intros w. by apply amf_ok_core. }
  intros. preserve.
Qed.

Lemma preserves_try cfg n debug id :
  preserves (amf_ok cfg n) (try_ng_setup debug id : prog (world Stream MG MU) _).
Proof.
  unfold try_ng_setup. apply preserves_bind.
  { apply preserves_access. intros w. by apply amf_ok_core. }
  intros gnb. apply preserves_bind; [apply preserves_read_tnla|]. intros [[data|]|e]; [|done..].
  cbn [map_err]. apply preserves_bind; [|intros [r resp]; preserve].
  destruct (decode_ngap_pdu data) as [[m| |]|[e err]]; try done. destruct m; try done.
  apply preserves_bind; [apply preserves_ng_setup|]. by intros [g [s|e]].
Qed.

Lemma preserves_attempts cfg n debug tries id :
  preserves (amf_ok cfg n) (ng_setup_attempts debug tries id : prog (world Stream MG MU) _).
Proof.
  induction tries as [|tries IH]; [done|]. apply preserves_bind; [apply preserves_try|]. by intros [g|e].
Qed.

Lemma preserves_insert cfg n gnb :
  preserves (amf_ok cfg n) (insert_gnb gnb : prog (world Stream MG MU) _).
Proof.
  apply preserves_access. intros w [Ha Hb Hc Hd He]. split; try done. simpl.
  pose proof (view_insert (global_ran_node_id gnb) gnb (w_gnb_contexts w)) as Hv.
  destruct (view (w_gnb_contexts w) !! global_ran_node_id gnb); destruct Hv as [-> _]; [done|].
  intros k g [[<- <-]|[_ Hk]]%lookup_insert_Some; [done|by apply Ha].
Qed.

Lemma preserves_close cfg n gnb :
  preserves (amf_ok cfg n) (close_ran_connection gnb : prog (world Stream MG MU) _).
Proof.
  apply preserves_write. intros w [Ha Hb Hc Hd He]. split; try done. simpl.
  destruct (view_remove (global_ran_node_id gnb) (w_gnb_contexts w)) as [-> _].
  intros k g [_ Hk]%lookup_delete_Some. by apply Ha.
Qed.

Lemma preserves_task cfg n debug t :
  preserves (amf_ok cfg n) (task_body debug t : prog (world Stream MG MU) unit).
Proof.
  destruct t as [id|gnb|gnb msg]; cbn [task_body].
  - unfold start_ngap_processing. apply preserves_bind; [apply preserves_attempts|].
    intros [gnb|]; [|done]. apply preserves_bind; [apply preserves_insert|]. intros. preserve.
  - unfold ngap_loop_task, run_ngap_loop. apply preserves_bind.
    + apply preserves_bind; [apply preserves_read_tnla|]. intros [[data|]|e]; [|done..]. preserve.
    + intros [[[]|e]|]; [apply preserves_close|done|apply preserves_spawn].
  - unfold message_task. apply preserves_bind; [|intros [resp|]; preserve].
    destruct (decode_ngap_pdu msg) as [pdu|[pdu e]]; [|done]. unfold ngap_route.
    destruct pdu as [m| |]; try done. destruct m; try done.
    apply preserves_bind; [apply preserves_initial_ue|done].
Qed.

Lemma accept_ok_world cfg n w w' (b : bool) :
  amf_ok cfg n w -> task_step run_accept w = Some (Ret b, w') -> amf_ok cfg n w'.
Proof.
  intros [Ha Hb Hc Hd He] E. unfold run_accept in E. simpl in E.
  destruct (w_incoming w) as [|acc rest] eqn:Hi.
  { destruct (w_cancelled w); simplify_eq/=. by split; rewrite ?Hi. }
  destruct (w_network w) as [a c] eqn:En. simpl in *.
  pose proof (network_step_ok (OpAccept acc) a c Hb Hc ltac:(lia) ltac:(intros _; lia)) as Hst.
  cbn [network_step is_accept] in Hst. rewrite Nat2Z.inj_succ in Hd.
  destruct (accept_and_create_tnla acc (a, c)) as [[a' c'] [t|e]] eqn:Ea; simplify_eq/=;
    destruct Hst as (Hs1 & Hs2 & Hs3); split; simpl; try done; lia.
Qed.

(** The invariant of the whole AMF: all tasks keep it and it holds now, with
    ids for the connections that are still to arrive. *)
Definition amf_inv cfg (s : amf (Stream := Stream) (MG := MG) (MU := MU)) : Prop :=
  (forall n, Forall (preserves (amf_ok cfg n)) (amf_tasks s)) /\
  amf_ok cfg (length (amf_arriving s)) (amf_world s).

Lemma absorb_inv cfg debug arriving accepting ts w :
  (forall n, Forall (preserves (amf_ok cfg n)) ts) -> amf_ok cfg (length arriving) w ->
  amf_inv cfg (absorb debug arriving accepting ts w).
Proof.
  intros Hts Hw. split; simpl.
  - intros n. apply Forall_app_2; [done|]. apply Forall_fmap, Forall_true. intros t. apply preserves_task.
  - revert Hw. by apply amf_ok_core.
Qed.

Lemma arrive_inv cfg n c w :
  amf_ok cfg (Datatypes.S n) w -> amf_ok cfg n (set_incoming (w_incoming w ++ [c]) w).
Proof. intros [Ha Hb Hc Hd He]. split; try done. simpl. rewrite length_app; simpl; lia. Qed.

Lemma amf_inv_step cfg debug who s s' :
  amf_inv cfg s -> amf_step debug who s = Some s' -> amf_inv cfg s'.
Proof.
  intros [Hts Hw] E. destruct who as [|i| | |id]; cbn [amf_step] in E.
  - destruct (amf_accepting s); [|done].
    destruct (task_step run_accept (amf_world s)) as [[[b| |] w]|] eqn:Et; simplify_eq.
    apply absorb_inv; [done|]. by apply (accept_ok_world cfg _ (amf_world s) w b).
  - destruct (pool_step i (amf_tasks s, amf_world s)) as [[ts w]|] eqn:Ep; simplify_eq.
    apply absorb_inv; [intros n|];
      by apply (preserves_pool_step _ i (amf_tasks s, amf_world s) (ts, w)).
  - destruct (amf_arriving s) as [|c arriving] eqn:Ea; [done|]. simplify_eq. split; [done|].
    cbn [amf_world amf_arriving]. by apply arrive_inv.
  - destruct (w_cancelled (amf_world s)); [done|]. simplify_eq. split; [done|].
    destruct Hw as [Ha Hb Hc Hd He]. by split.
  - destruct (peer_step id (amf_world s)) as [w|] eqn:Ep; [|done]. simplify_eq. split; [done|].
    unfold peer_step in Ep. destruct (associations (w_network (amf_world s)).1 !! id) as [t|] eqn:Ht; [|done].
    simpl in Ep. destruct (peer_acts (stream t)); [|done]. simplify_eq/=. by apply (amf_ok_stream cfg _ _ id t).
Qed.

Lemma amf_inv_new cfg arriving :
  Z.of_nat (length arriving) + 1 < 2 ^ 64 -> amf_inv cfg (amf_new arriving cfg).
Proof.
  intros Hlen. split; [constructor|]. split; simpl; [|apply associations_ok_new|..|done].
  - intros k g. by rewrite view_new.
  - intros j [t Ht]. done.
  - unfold counter_new. lia.
Qed.

(** What the single accesses keep holds of the whole AMF under every schedule. *)
Lemma amf_ok_reachable debug cfg arriving s :
  Z.of_nat (length arriving) + 1 < 2 ^ 64 ->
  reachable (amf_step debug) (amf_new arriving cfg) s ->
  amf_ok cfg 0 (amf_world s).
Proof.
  intros Hlen Hr. enough (amf_inv cfg s) as [_ [Ha Hb Hc Hd He]] by (split; try done; lia).
  revert Hr. apply (invariant_reachable (amf_step debug) (amf_inv cfg)); [by apply amf_inv_new|].
  intros who s1 s2 Hi E. by apply (amf_inv_step cfg debug who s1).
Qed.
End engine_props.
