(* ===== verification/EngineTermination.v ===== *)
(** * The AMF comes to rest

    If every connection brings finitely many messages, the accept loop and all
    the tasks it leads to end or wait: nothing in the controller spins. Each
    access of a task is paid for from a budget, a message that is read brings
    the budget of the task that handles it, an accepted connection that of
    its set-up, of its messages and of what its peer will do, and a message that
    is sent pays for the peer that takes it. *)

From S2P Require Import Prelude Async Counter Convert ConvertProps SccMap ContextQueue ContextManager Network.
From S2P Require Import NgapMessages NgapContext NgapEngine NgapExample.

(** A stream on which finitely much happens: [unread] messages at most will be
    read, receiving one uses it up; the peer acts [coming] times at most, and
    once more for a message that is sent, to take it. *)
Class FiniteStream (Stream : Type) `{Sctp Stream} := {
  unread : Stream -> nat;
  coming : Stream -> nat;
  unread_receive : forall s s' n data,
    recvmsg_eor_buf s = Some (s', Ok (n, data)) -> n <> 0 -> (unread s' < unread s)%nat;
  unread_end : forall s s' r, recvmsg_eor_buf s = Some (s', r) -> (unread s' <= unread s)%nat;
  unread_send : forall data opts s s' r, sendmsg data opts s = Some (s', r) -> (unread s' <= unread s)%nat;
  unread_peer : forall s s', peer_acts s = Some s' -> (unread s' <= unread s)%nat;
  coming_receive : forall s s' r, recvmsg_eor_buf s = Some (s', r) -> (coming s' <= coming s)%nat;
  coming_send : forall data opts s s' r, sendmsg data opts s = Some (s', r) -> (coming s' <= S (coming s))%nat;
  coming_peer : forall s s', peer_acts s = Some s' -> (coming s' < coming s)%nat;
}.

#[local] Open Scope nat_scope.

(** What the bodies cost: accesses, and the price of a message to be read. *)
Definition message_cost : nat := 13.
Definition loop_cost : nat := 2.
Definition setup_cost : nat := 22.
Definition read_price : nat := 16.

Section termination.
Context `{NM : NgapModels} `{NC : !NgapCodec} `{HX : HexCodec} `{BV : BitVecOps}.
Context {Stream MG MU : Type} `{SC : Sctp Stream} `{FS : !FiniteStream Stream}.
Context `{GM : !SccHashMap GlobalRanNodeId GnbContext MG} `{UM : !SccHashMap Z nat MU}.
Context (debug : bool).

Notation W := (world Stream MG MU).
Implicit Types (w : W) (gnb : GnbContext) (t : TnlaAssociation Stream).

(** ** The potential of the world *)

(** Over all associations. *)
Definition sum_in (f : Stream -> nat) (m : gmap Z (TnlaAssociation Stream)) : nat :=
  map_fold (fun _ t n => f (stream t) + n)%nat 0%nat m.

Definition unread_in : gmap Z (TnlaAssociation Stream) -> nat := sum_in unread.
Definition coming_in : gmap Z (TnlaAssociation Stream) -> nat := sum_in coming.

Definition task_cost (t : spawned_task) : nat :=
  match t with
  | SpawnConnection _ => setup_cost
  | SpawnNgapLoop _ => loop_cost
  | SpawnMessage _ _ => message_cost
  end.

(** What accepting a connection can lead to. *)
Definition connection_cost (c : Result Stream IoError) : nat :=
  match c with
  | Ok s => 1 + setup_cost + read_price * unread s + coming s
  | Err _ => 1
  end.

Definition potential w : nat :=
  (read_price * unread_in (associations (w_network w).1) + coming_in (associations (w_network w).1) +
    sum_list_with connection_cost (w_incoming w) + sum_list_with task_cost (w_spawned w) +
    (if w_cancelled w then 0 else 1))%nat.

Lemma sum_insert_le f id t m : (sum_in f (<[id := t]> m) <= f (stream t) + sum_in f m)%nat.
Proof.
  unfold sum_in. rewrite <-insert_delete_eq, map_fold_insert_L;
    [|intros; lia|apply lookup_delete_eq].
  destruct (m !! id) as [u|] eqn:Em.
  - rewrite (map_fold_delete_L _ _ id u m); [lia|intros; lia|done].
  - rewrite delete_id; [lia|done].
Qed.

Lemma sum_replace f id t t' m :
  m !! id = Some t -> sum_in f (<[id := t']> m) = (f (stream t') + sum_in f (delete id m))%nat /\
    sum_in f m = (f (stream t) + sum_in f (delete id m))%nat.
Proof.
  intros Ht. unfold sum_in. split.
  - by rewrite <-insert_delete_eq, map_fold_insert_L; [|intros; lia|apply lookup_delete_eq].
  - rewrite (map_fold_delete_L _ _ id t m); [done|intros; lia|done].
Qed.

(** The stream of an association moves on. *)
Lemma potential_moved w id t s :
  associations (w_network w).1 !! id = Some t ->
  (potential (set_network (MkAssociations (<[id := with_stream t s]> (associations (w_network w).1))
      (associations_set (w_network w).1), (w_network w).2) w) +
    (read_price * unread (stream t) + coming (stream t)) =
   potential w + (read_price * unread s + coming s))%nat.
Proof.
  intros Ht. unfold potential, unread_in, coming_in. simpl.
  destruct (sum_replace unread id t (with_stream t s) _ Ht) as [-> ->].
  destruct (sum_replace coming id t (with_stream t s) _ Ht) as [-> ->]. simpl. lia.
Qed.

(** ** What the accesses cost *)

Lemma pays_tnla_read {A : Type} id (k : Result (option bytes) TnlaError -> prog W A) n :
  (forall e, pays potential n (k (Err e))) -> pays potential n (k (Ok None)) ->
  (forall data, pays potential (n + read_price) (k (Ok (Some data)))) ->
  pays potential (Datatypes.S n) (prog_bind (tnla_read id) k).
Proof.
  intros He Hn Hd w w' r E. destruct (associations (w_network w).1 !! id) as [t|] eqn:Ht; [|done].
  simpl in E. unfold read_data in E.
  destruct (recvmsg_eor_buf (stream t)) as [[s r']|] eqn:Er; [|done]. simplify_eq/=.
  pose proof (unread_end _ _ _ Er) as Hle. pose proof (coming_receive _ _ _ Er) as Hco.
  pose proof (potential_moved w id t s Ht) as Hp.
  assert (Hcalm : forall r, pays potential n (k r) -> exists n',
    (n' + potential (set_network (MkAssociations (<[id := with_stream t s]> (associations (w_network w).1))
      (associations_set (w_network w).1), (w_network w).2) w) < Datatypes.S n + potential w)%nat /\
    pays potential n' (k r)).
  { intros r Hr. exists n. split; [|done]. unfold read_price in *. lia. }
  destruct r' as [[len data]|e]; cbn [map_err]; [|auto].
  destruct (Z.eqb_spec len 0%Z) as [->|Hlen]; [auto|].
  pose proof (unread_receive _ _ _ _ Er Hlen) as Hlt.
  exists (n + read_price)%nat. split; [|done]. unfold read_price in *. lia.
Qed.

Lemma pays_tnla_write id data : pays potential 2 (tnla_write id data : prog W _).
Proof.
  intros w w' r E. exists 0%nat. split; [|done].
  destruct (associations (w_network w).1 !! id) as [t|] eqn:Ht; [|done]. simpl in E.
  unfold write_data in E. destruct (sendmsg _ _ _) as [[s r']|] eqn:Es; simplify_eq/=.
  pose proof (unread_send _ _ _ _ _ Es) as Hu. pose proof (coming_send _ _ _ _ _ Es) as Hc.
  pose proof (potential_moved w id t s Ht) as Hp. unfold read_price in *. lia.
Qed.

(** The peer uses up its own. *)
Lemma peer_pays id w w' : peer_step id w = Some w' -> (potential w' < potential w)%nat.
Proof.
  unfold peer_step. destruct (associations (w_network w).1 !! id) as [t|] eqn:Ht; [|done]. simpl.
  destruct (peer_acts (stream t)) as [s|] eqn:Es; [|done]. intros [= <-].
  pose proof (unread_peer _ _ Es) as Hu. pose proof (coming_peer _ _ Es) as Hc.
  pose proof (potential_moved w id t s Ht) as Hp. unfold read_price in *. lia.
Qed.

(** An access elsewhere. *)
Lemma pays_elsewhere {X : Type} (f : W -> W * X) :
  (forall w, potential (f w).1 = potential w) -> pays potential 1 (access f).
Proof. intros Hf. apply pays_access. intros w. rewrite Hf. lia. Qed.

Lemma pays_spawn (t : spawned_task) : pays potential (1 + task_cost t) (write_state (spawn_task t) : prog W unit).
Proof.
  apply pays_access. intros w. unfold potential. simpl. rewrite sum_list_with_app. simpl. lia.
Qed.

Lemma pays_ues {A : Type} n gnb (m : prog (manager UeContext MU) A) :
  accesses_below n m -> pays potential n (on_ues gnb m : prog W A).
Proof. apply pays_zoom. done. Qed.

(** ** What the bodies cost *)

(** Pay [n] for the next call, which costs that much by the lemma [cost]. *)
Tactic Notation "charge" constr(n) uconstr(cost) := apply (pays_split _ n); [apply cost|lia|].

Lemma counts_one {T X : Type} (f : T -> T * X) : accesses_below 1 (access f).
Proof. apply pays_access. simpl. lia. Qed.

Lemma counts_call {T X : Type} (f : T -> option (T * X)) : accesses_below 1 (Act f Ret).
Proof. intros s s' x E. exists 0%nat. split; [lia|done]. Qed.

Lemma pays_add_context (x : UeContext) :
  accesses_below 6 (add_context debug x : prog (manager UeContext MU) _).
Proof.
  unfold add_context.
  charge 1 counts_one. intros queue. charge 1 counts_one. intros _. charge 1 counts_one.
  intros [u|[id clone]]; [by charge 1 counts_one|].
  charge 1 counts_one. intros n. case_match; [done|]. charge 1 counts_one. intros v.
  charge 0 pays_lift. intros q. charge 0 pays_lift. intros inner. by charge 1 counts_one.
Qed.

Lemma pays_with_context {O : Type} id (closure : body UeContext O) :
  accesses_below 3 (with_context id closure : prog (manager UeContext MU) _).
Proof.
  unfold with_context. charge 1 counts_one. intros [p|]; [|done]. charge 1 counts_call.
  intros r. charge 0 pays_lift. intros o. by charge 1 counts_one.
Qed.

Lemma pays_encode id pdu : pays potential 2 (encode_and_write_ngap_pdu id pdu : prog W _).
Proof.
  unfold encode_and_write_ngap_pdu. destruct (codec_to_bytes pdu); [|done].
  by charge 2 pays_tnla_write.
Qed.

Lemma pays_next_id gnb : pays potential 1 (access (next_amf_ue_id gnb) : prog W _).
Proof. apply pays_elsewhere. intros w. unfold next_amf_ue_id. by destruct (increment _ _). Qed.

Lemma pays_initial_ue gnb req :
  pays potential 11 (handle_initial_ue debug gnb req : prog W _).
Proof.
  unfold handle_initial_ue. apply (pays_split _ 1); [apply pays_ues, pays_read|lia|].
  intros [|]; [done|]. charge 1 pays_next_id. intros amf_id. charge 0 pays_lift. intros tmsi.
  apply (pays_split _ 6); [apply pays_ues, pays_add_context|lia|].
  intros [u|[]]; [|done..]. apply (pays_split _ 3); [apply pays_ues, pays_with_context|lia|].
  by intros [|].
Qed.

Lemma pays_config : pays potential 1 (get_global_app_context : prog W _).
Proof.
  unfold get_global_app_context. charge 1 pays_read. intros cfg.
  eapply pays_le; [apply pays_lift|lia].
Qed.

Lemma pays_ng_setup gnb req : pays potential 2 (handle_ng_setup debug gnb req : prog W _).
Proof.
  unfold handle_ng_setup. charge 1 pays_read. intros [|]; [done|].
  destruct (collect_supported_tais _ _); [|done]. charge 1 pays_config. intros cfg.
  case_match; [done|]. by charge 0 pays_lift.
Qed.

Lemma pays_try id : pays potential 6 (try_ng_setup debug id : prog W _).
Proof.
  unfold try_ng_setup. apply (pays_split _ 1); [by apply pays_elsewhere|lia|intros gnb].
  apply pays_tnla_read; [done|done|intros data]. cbn [map_err]. apply (pays_split _ 2); [|lia|].
  - destruct (decode_ngap_pdu data) as [[m| |]|[e err]]; try done. destruct m; try done.
    charge 2 pays_ng_setup. by intros [g [s|e]].
  - intros [r resp]. charge 2 pays_encode. intros [u|e]; done.
Qed.

Lemma pays_attempts n id : pays potential (6 * n) (ng_setup_attempts debug n id : prog W _).
Proof.
  induction n as [|n IH]; [done|]. cbn [ng_setup_attempts]. charge 6 pays_try.
  intros [g|e]; [done|]. eapply pays_le; [apply IH|lia].
Qed.

(** A message that is read pays for its task and for the next round. *)
Lemma pays_loop gnb : pays potential loop_cost (ngap_loop_task gnb : prog W unit).
Proof.
  unfold ngap_loop_task, run_ngap_loop. lazymatch goal with
  | |- pays _ _ (prog_bind (prog_bind ?m ?k) ?k') =>
      change (pays potential 2 (prog_bind m (fun r => prog_bind (k r) k')))
  end.
  apply pays_tnla_read; [done|by apply pays_elsewhere|intros msg]. cbn [map_err].
  change (pays potential 17 (do! _ := write_state (spawn_task (SpawnMessage gnb msg)) in
    write_state (spawn_task (SpawnNgapLoop gnb)) : prog W unit)).
  charge 14 (pays_spawn (SpawnMessage gnb msg)). intros _. apply (pays_spawn (SpawnNgapLoop gnb)).
Qed.

(** Each task can be paid for from what spawning it cost. *)
Lemma pays_task (t : spawned_task) : pays potential (task_cost t) (task_body debug t : prog W unit).
Proof.
  destruct t as [id|gnb|gnb msg]; cbn [task_body task_cost]; unfold setup_cost, loop_cost, message_cost.
  - unfold start_ngap_processing. apply (pays_split _ 18); [apply (pays_attempts 3)|lia|].
    intros [gnb|]; [|done]. apply (pays_split _ 1); [by apply pays_elsewhere|lia|intros r].
    charge 0 pays_lift. intros u. apply (pays_le _ 3); [apply (pays_spawn (SpawnNgapLoop gnb))|lia].
  - apply pays_loop.
  - unfold message_task. apply (pays_split _ 11); [|lia|].
    + destruct (decode_ngap_pdu msg) as [pdu|[pdu e]]; [|done]. unfold ngap_route.
      destruct pdu as [m| |]; try done. destruct m; try done. by charge 11 pays_initial_ue.
    + intros [resp|]; [|done]. by charge 2 pays_encode.
Qed.

(** ** The measure of the whole AMF *)

Notation amf := (amf (Stream := Stream) (MG := MG) (MU := MU)).
Implicit Types s : amf.

Definition arrival_cost (arriving : list (Result Stream IoError)) : nat :=
  sum_list_with (fun c => 1 + connection_cost c) arriving.

(** The budgets of the tasks, the potential of the world, and what is still to
    come from outside. *)
Definition energy (bs : list nat) s : nat :=
  sum_list bs + potential (amf_world s) + arrival_cost (amf_arriving s) +
  (if amf_accepting s then 1 else 0).

Definition paid (bs : list nat) s : Prop := Forall2 (pays potential) bs (amf_tasks s).

Lemma sum_list_costs {A : Type} (f : A -> nat) l : sum_list (f <$> l) = sum_list_with f l.
Proof. induction l as [|x l IH]; simpl; [done|]. by rewrite <-IH. Qed.

Lemma sum_list_app (l k : list nat) : sum_list (l ++ k) = sum_list l + sum_list k.
Proof. apply sum_list_with_app. Qed.

Lemma potential_spawned w :
  potential (clear_spawned w) + sum_list_with task_cost (w_spawned w) = potential w.
Proof. unfold potential. simpl sum_list_with. cbn [clear_spawned w_network w_incoming w_cancelled]. lia. Qed.

Lemma absorb_paid arriving accepting bs ts w :
  Forall2 (pays potential) bs ts ->
  exists bs', paid bs' (absorb debug arriving accepting ts w) /\
    energy bs' (absorb debug arriving accepting ts w) =
      sum_list bs + potential w + arrival_cost arriving + (if accepting then 1 else 0).
Proof.
  intros Hbs. exists (bs ++ (task_cost <$> w_spawned w)). split.
  - apply Forall2_app; [done|]. apply Forall2_fmap, Forall_Forall2_diag, Forall_true.
    intros t. apply pays_task.
  - unfold energy. cbn [absorb amf_world amf_arriving amf_accepting].
    rewrite <-(potential_spawned w), sum_list_app, sum_list_costs. lia.
Qed.

(** Accepting pays for the task that is spawned and for the messages that the
    connection brings. *)
Lemma accept_pays w w' more :
  task_step run_accept w = Some (Ret more, w') ->
  potential w' + (if more : bool then 1 else 0) < potential w + 1.
Proof.
  unfold run_accept. cbn [task_step]. destruct (w_incoming w) as [|acc rest] eqn:Hi.
  { destruct (w_cancelled w); [|done]. intros [= <- <-]. lia. }
  destruct (accept_and_create_tnla acc (w_network w)) as [net r] eqn:Ea. intros E.
  assert (Hu : (forall f, sum_in f (associations net.1) <= sum_in f (associations (w_network w).1) +
      match r, acc with Ok _, Ok s => f s | _, _ => 0 end) /\
    match r, acc with Ok _, Err _ => False | _, _ => True end).
  { unfold accept_and_create_tnla in Ea.
    destruct acc as [s|e]; simpl in Ea; [|simplify_eq; simpl; split; [lia|done]].
    destruct (w_network w) as [a c]. simpl in Ea. unfold TnlaAssociation_new in Ea.
    repeat case_match; simplify_eq/=; split; try done; try lia.
    intros f. etrans; [apply sum_insert_le|]. simpl. lia. }
  destruct Hu as [Hu Hr]. pose proof (Hu unread) as Hu1. pose proof (Hu coming) as Hu2. clear Hu. destruct r as [t|e]; simplify_eq/=; unfold potential, setup_cost, unread_in, coming_in; simpl;
    rewrite Hi; simpl; destruct acc as [s|err]; simpl in *; try done;
    rewrite ?sum_list_with_app; simpl; unfold setup_cost, read_price in *; lia.
Qed.

Lemma energy_decreases bs s who s' :
  paid bs s -> amf_step debug who s = Some s' ->
  exists bs', paid bs' s' /\ energy bs' s' < energy bs s.
Proof.
  intros Hp E. destruct who as [|i| | |id]; cbn [amf_step] in E.
  - destruct (amf_accepting s) eqn:Ha; [|done].
    destruct (task_step run_accept (amf_world s)) as [[[more| |] w]|] eqn:Et; simplify_eq.
    destruct (absorb_paid (amf_arriving s) more bs (amf_tasks s) w Hp) as (bs' & Hp' & He).
    exists bs'. split; [done|]. rewrite He. unfold energy. rewrite Ha.
    pose proof (accept_pays _ _ _ Et). lia.
  - destruct (pool_step i (amf_tasks s, amf_world s)) as [[ts w]|] eqn:Ep; simplify_eq.
    destruct (pays_pool_step potential i bs (_, _) _ Hp Ep) as (b1 & Hb1 & Hlt).
    destruct (absorb_paid (amf_arriving s) (amf_accepting s) b1 ts w Hb1) as (bs' & Hp' & He).
    exists bs'. split; [done|]. rewrite He. unfold energy. simpl in Hlt. lia.
  - destruct (amf_arriving s) as [|c arriving] eqn:Ha; simplify_eq. exists bs. split; [done|].
    unfold energy, potential. simpl. rewrite Ha, sum_list_with_app. simpl. lia.
  - destruct (w_cancelled (amf_world s)) eqn:Hc; simplify_eq. exists bs. split; [done|].
    unfold energy, potential. simpl. rewrite Hc. lia.
  - destruct (peer_step id (amf_world s)) as [w|] eqn:Ep; simplify_eq. exists bs. split; [done|].
    apply peer_pays in Ep. unfold energy. simpl. lia.
Qed.

Lemma paid_terminates bs s : paid bs s -> terminates (amf_step debug) s.
Proof.
  remember (energy bs s) as n eqn:Hn. revert bs s Hn.
  induction n as [n IH] using lt_wf_ind. intros bs s -> Hp. constructor. intros s' [who E].
  destruct (energy_decreases bs s who s' Hp E) as (bs' & Hp' & Hlt). by apply (IH _ Hlt bs').
Qed.

(** Whether anybody can move can be read off the state: it is enough to ask
    those that are there. *)
Definition actors s : list actor :=
  [Accept; Arrive; Cancel] ++ (Task <$> seq 0 (length (amf_tasks s))) ++
  (Peer <$> (map_to_list (associations (w_network (amf_world s)).1)).*1).

Lemma actors_all s who : is_Some (amf_step debug who s) -> who ∈ actors s.
Proof.
  intros [s' E]. unfold actors. destruct who as [|i| | |id]; try set_solver; cbn [amf_step] in E.
  - apply elem_of_app. right. apply elem_of_app. left. apply list_elem_of_fmap. exists i. split; [done|].
    apply elem_of_seq. split; [lia|]. unfold pool_step in E. simpl in E.
    destruct (amf_tasks s !! i) eqn:Ei; [|done]. simpl. by eapply lookup_lt_Some.
  - apply elem_of_app. right. apply elem_of_app. right. apply list_elem_of_fmap. exists id. split; [done|].
    unfold peer_step in E. destruct (associations (w_network (amf_world s)).1 !! id) as [t|] eqn:Ht; [|done].
    apply list_elem_of_fmap. exists (id, t). split; [done|]. by apply elem_of_map_to_list.
Qed.

Definition at_rest s : bool :=
  forallb (fun who => match amf_step debug who s with Some _ => false | None => true end) (actors s).

Lemma at_rest_quiescent s : at_rest s = true -> quiescent (amf_step debug) s.
Proof.
  unfold at_rest. rewrite forallb_forall. intros Hall who. destruct (amf_step debug who s) as [s'|] eqn:E; [|done].
  specialize (Hall who). rewrite E in Hall. exfalso. assert (false = true) by (apply Hall;
    apply list_elem_of_In, actors_all; by rewrite E). done.
Qed.

Lemma amf_moves s : (exists who, is_Some (amf_step debug who s)) \/ quiescent (amf_step debug) s.
Proof.
  destruct (decide (Exists (fun who => is_Some (amf_step debug who s)) (actors s))) as [Hex|Hno].
  - left. apply Exists_exists in Hex as (who & _ & Hw). by exists who.
  - right. intros who. apply eq_None_not_Some. intros Hw. apply Hno, Exists_exists.
    exists who. split; [by apply actors_all|done].
Qed.

(** However the steps are interleaved, finitely many connections with finitely
    many messages lead to finitely many steps. *)
Lemma amf_terminates cfg arriving : terminates (amf_step debug) (amf_new arriving cfg).
Proof. by apply (paid_terminates []); constructor. Qed.

(** At rest nothing is left to come from outside. *)
Lemma amf_quiescent s :
  quiescent (amf_step debug) s ->
  amf_arriving s = [] /\ w_cancelled (amf_world s) = true /\ amf_accepting s = false /\
  (forall id t, associations (w_network (amf_world s)).1 !! id = Some t -> peer_acts (stream t) = None).
Proof.
  intros Hq. assert (Hc : w_cancelled (amf_world s) = true).
  { pose proof (Hq Cancel) as E. cbn in E. by destruct (w_cancelled _). }
  split_and!; [|done|..].
  - pose proof (Hq Arrive) as E. cbn in E. by destruct (amf_arriving s).
  - pose proof (Hq Accept) as E. cbn [amf_step] in E. destruct (amf_accepting s); [|done].
    unfold run_accept in E. cbn [task_step] in E.
    destruct (w_incoming (amf_world s)); [rewrite Hc in E; done|].
    destruct (accept_and_create_tnla _ _) as [net [t|e]]; done.
  - intros id t Ht. pose proof (Hq (Peer id)) as E. cbn [amf_step] in E. unfold peer_step in E.
    rewrite Ht in E. simpl in E. by destruct (peer_acts (stream t)).
Qed.
End termination.

(** ** Scripted connections *)

Definition sends (l : list peer_act) : nat :=
  sum_list_with (fun a => match a with PeerSends _ => 1 | PeerTakes => 0 end) l.

#[export] Program Instance scripted_finite : FiniteStream ScriptedStream := {
  unread s := length (sc_inbox s) + sends (sc_script s);
  coming s := length (sc_script s);
}.
Next Obligation. intros [l p [|r inbox] taken out room script] s' n data E Hn; simplify_eq/=. lia. Qed.
Next Obligation. intros [l p [|r inbox] taken out room script] s' r' E; simplify_eq/=. lia. Qed.
Next Obligation. intros data opts [l p inbox taken out [|room] script] s' r' E; by simplify_eq/=. Qed.
Next Obligation.
  intros [l p inbox taken out room [|[r|] script]] s' E; simplify_eq/=; [|done]. rewrite length_app. simpl. lia.
Qed.
Next Obligation. intros [l p [|r inbox] taken out room script] s' r' E; by simplify_eq/=. Qed.
Next Obligation. intros data opts [l p inbox taken out [|room] script] s' r' E; simplify_eq/=; lia. Qed.
Next Obligation. intros [l p inbox taken out room [|[r|] script]] s' E; simplify_eq/=; lia. Qed.
