(* ===== verification/EngineInvariant.v ===== *)
(** * UE contexts and gNBs under every schedule

    The invariant of the AMF's world and of what its tasks have in hand
    ([Tokens]): which connections, gNBs and UE contexts belong together and which
    messages must still be settled; and how the steps of the world keep it. *)

From S2P Require Import Prelude Async Ghost Counter Convert ConvertProps SccMap ContextQueue ContextManager.
From S2P Require Import Network NetworkProps NgapMessages NgapContext Tokens NgapEngine NgapExample.
From S2P Require Import EngineProps EngineTermination.

#[local] Open Scope Z_scope.

(** A stream remembers what was sent and received on it and whether sending has
    failed: a message that was sent is at the end of [sent], one that was read at
    the end of [got], and nothing is ever taken back. *)
Class StreamLog (Stream : Type) `{Sctp Stream} := {
  sent : Stream -> list (Z * bytes);
  got : Stream -> list bytes;
  send_failed : Stream -> Prop;
  sent_ok : forall data opts s s' n, sendmsg data opts s = Some (s', Ok n) -> sent s' = sent s ++ [(ppid opts, data)];
  sent_send : forall data opts s s' r, sendmsg data opts s = Some (s', r) -> prefix (sent s) (sent s');
  sent_receive : forall s s' r, recvmsg_eor_buf s = Some (s', r) -> sent s' = sent s;
  sent_peer : forall s s', peer_acts s = Some s' -> sent s' = sent s;
  got_receive : forall s s' r, recvmsg_eor_buf s = Some (s', r) ->
    got s' = got s ++ match r with Ok (n, data) => if n =? 0 then [] else [data] | Err _ => [] end;
  got_send : forall data opts s s' r, sendmsg data opts s = Some (s', r) -> got s' = got s;
  got_peer : forall s s', peer_acts s = Some s' -> got s' = got s;
  failed_now : forall data opts s s' e, sendmsg data opts s = Some (s', Err e) -> send_failed s';
  failed_send : forall data opts s s' r, sendmsg data opts s = Some (s', r) -> send_failed s -> send_failed s';
  failed_receive : forall s s' r, recvmsg_eor_buf s = Some (s', r) -> send_failed s -> send_failed s';
  failed_peer : forall s s', peer_acts s = Some s' -> send_failed s -> send_failed s';
}.

Section engine_invariant.
Context `{NM : NgapModels} `{NC : !NgapCodec} `{HX : HexCodec} `{BV : BitVecOps}.
Context {Stream MG MU : Type} `{SC : Sctp Stream} `{FS : !FiniteStream Stream} `{SL : !StreamLog Stream}.
Context `{GM : !SccHashMap GlobalRanNodeId GnbContext MG} `{GL : !SccLaws GlobalRanNodeId GnbContext MG}
  `{UM : !SccHashMap Z nat MU} `{UL : !SccLaws Z nat MU}.
(** The build profile, the configuration and a bound on the AMF UE ids. *)
Context (debug : bool) (cfg : option AmfConfiguration) (B : Z).

Notation W := (world Stream MG MU).
Implicit Types (w : W) (ρ fr : gmultiset token) (gnb g : GnbContext) (t : TnlaAssociation Stream).

Definition table w : gmap Z (TnlaAssociation Stream) := associations (w_network w).1.

(** The NG Setup Response of this AMF. *)
Definition setup_answer (data : bytes) : Prop :=
  exists c resp, cfg = Some c /\ build_response debug c = Returns resp /\
    codec_to_bytes (to_ngap_pdu resp) = Ok data.

Definition answered t : Prop :=
  exists data, setup_answer data /\ (NGAP_PPID, data) ∈ sent (stream t).

(** It went out, or sending has failed. *)
Definition went_out t (data : bytes) : Prop := (NGAP_PPID, data) ∈ sent (stream t) \/ send_failed (stream t).

Definition unread_arrived (l : list (Result Stream IoError)) : nat :=
  sum_list_with (fun c => match c with Ok s => unread s | Err _ => 0%nat end) l.

(** The messages that may still ask for an AMF UE id. *)
Definition credits w ρ : Z :=
  Z.of_nat (multiplicity Msg ρ + unread_in (table w) + unread_arrived (w_incoming w)).

(** What a token says of the world. *)
Definition says w (tk : token) : Prop :=
  match tk with
  | Assoc id | Bound id _ => is_Some (table w !! id)
  | Answered id => exists t, table w !! id = Some t /\ answered t
  | Sent id data => exists t, table w !! id = Some t /\ went_out t data
  | Conn id seen => exists t, table w !! id = Some t /\
      match seen with Some data => exists l, got (stream t) = l ++ [data] | None => True end
  | Shared sh | Setup sh | UeId sh _ | Fresh sh _ _ _ | Handle sh _ | Filed sh _ =>
      (sh < w_next_shared w)%nat
  | Msg | Owe _ _ _ => True
  end.

Definition registered w k g : Prop := view (w_gnb_contexts w) !! k = Some g.

(** The NG Setup Request of the RAN node with this id. *)
Definition setup_from (data : bytes) (k : GlobalRanNodeId) : Prop :=
  exists req, pdu_from_bytes data = Ok (InitiatingMessage (MsgNgSetupRequest req)) /\
    rq_global_ran_node_id req = k.

(** What was read on the association of a gNB after its NG Setup Request is a
    message that some task must settle. *)
Definition owed w ρ k g : Prop :=
  exists t n data, table w !! gnb_tnla g = Some t /\ got (stream t) !! n = Some data /\
    setup_from data k /\
    forall j msg, (n < j)%nat -> got (stream t) !! j = Some msg ->
      Owe (gnb_tnla g) (gnb_shared g) msg ∈ ρ.

(** The association has no registered gNB yet. *)
Definition unclaimed id ρ : Prop := exists seen, Conn id seen ∈ ρ.

Record world_ok w ρ : Prop := {
  wk_says : forall tk, tk ∈ ρ -> says w tk;
  wk_solo : solo ρ;
  wk_tables : forall sh, is_Some (w_shared w !! sh) <-> (sh < w_next_shared w)%nat;
  wk_ues : forall sh m c, w_shared w !! sh = Some (m, c) ->
    ues_ok sh c m ρ /\ 1 <= c /\ c + credits w ρ <= B;
  wk_credits : 1 + credits w ρ <= B;
  wk_gnbs : forall k g, registered w k g ->
    global_ran_node_id g = k /\ says w (Answered (gnb_tnla g)) /\ says w (Shared (gnb_shared g)) /\
    ~ unclaimed (gnb_tnla g) ρ /\ (Setup (gnb_shared g) ∉ ρ);
  wk_apart : forall k k' g g', registered w k g -> registered w k' g' ->
    gnb_tnla g = gnb_tnla g' \/ gnb_shared g = gnb_shared g' -> k = k';
  wk_conn : forall id seen seen', Conn id seen ∈ ρ -> Conn id seen' ∈ ρ -> seen = seen';
  wk_bound : forall id sh, Bound id sh ∈ ρ ->
    ~ unclaimed id ρ /\ forall k g, registered w k g -> gnb_tnla g = id -> gnb_shared g = sh;
  wk_owed : forall k g, registered w k g -> owed w ρ k g;
  wk_config : w_config w = cfg;
}.

(** ** Steps that leave the UE tables alone *)

Lemma same_in ρ ρ' tk : multiplicity tk ρ' = multiplicity tk ρ -> tk ∈ ρ' <-> tk ∈ ρ.
Proof. intros E. by rewrite !elem_of_multiplicity, E. Qed.

(** What becomes of an association: nothing it knows is lost. *)
Definition grows t t' : Prop :=
  prefix (sent (stream t)) (sent (stream t')) /\ prefix (got (stream t)) (got (stream t')) /\
  (send_failed (stream t) -> send_failed (stream t')).

(** Associations and UE tables stay. *)
Definition extends w w' : Prop :=
  (forall id t, table w !! id = Some t -> exists t', table w' !! id = Some t' /\ grows t t') /\
  (w_next_shared w <= w_next_shared w')%nat.

(** And nothing is read. *)
Definition unread_yet w w' : Prop :=
  forall id t, table w !! id = Some t -> exists t', table w' !! id = Some t' /\ got (stream t') = got (stream t).

Lemma says_extends w w' tk : extends w w' -> (forall id n, tk <> Conn id n) -> says w tk -> says w' tk.
Proof.
  intros [Ht Hn] Hc. destruct tk as [id|id|sh|id data|id sh|id n|sh| |sh a|sh p n i|sh p|sh i|id sh msg];
    simpl; try lia; try done.
  1,4: intros [t E]; destruct (Ht id t E) as (t' & E' & _); by eexists.
  - intros (t & E & data & Hd & Hin). destruct (Ht id t E) as (t' & E' & [l Hl] & _).
    exists t'. split; [done|]. exists data. split; [done|]. rewrite Hl. set_solver.
  - intros (t & E & Hd). destruct (Ht id t E) as (t' & E' & [l Hl] & _ & Hf). exists t'. split; [done|].
    destruct Hd as [Hd|Hd]; [left; rewrite Hl; set_solver|right; auto].
  - by destruct (Hc id n).
Qed.

Lemma says_quiet w w' tk : extends w w' -> unread_yet w w' -> says w tk -> says w' tk.
Proof.
  intros Hext Hu. destruct tk as [| | | | |id seen| | | | | | |]; try (by apply says_extends).
  intros (t & E & Hl). destruct (Hu id t E) as (t' & E' & Hg). exists t'. by rewrite Hg.
Qed.

Lemma owed_quiet w w' ρ ρ' k g :
  unread_yet w w' -> (forall id sh msg, Owe id sh msg ∈ ρ -> Owe id sh msg ∈ ρ') ->
  owed w ρ k g -> owed w' ρ' k g.
Proof.
  intros Hu Ho (t & n & data & Ht & Hn & Hd & Hj). destruct (Hu _ _ Ht) as (t' & Ht' & Hg).
  exists t', n, data. rewrite Hg. split_and!; [done..|]. intros j msg Hlt Hm. eauto.
Qed.

Lemma world_update w w' ρ ρ' :
  extends w w' -> w_shared w' = w_shared w -> w_next_shared w' = w_next_shared w ->
  w_gnb_contexts w' = w_gnb_contexts w -> w_config w' = w_config w ->
  solo ρ' -> (forall tk, tk ∈ ρ' -> says w' tk) ->
  (forall tk, is_Some (ues_of tk) -> multiplicity tk ρ' = multiplicity tk ρ) ->
  (forall id sh, Bound id sh ∈ ρ' -> Bound id sh ∈ ρ) ->
  (forall id, unclaimed id ρ' -> unclaimed id ρ \/ table w !! id = None) ->
  (forall id seen seen', Conn id seen ∈ ρ' -> Conn id seen' ∈ ρ' -> seen = seen') ->
  (forall sh, Setup sh ∈ ρ' -> Setup sh ∈ ρ) ->
  (forall k g, registered w k g -> owed w' ρ' k g) ->
  credits w' ρ' <= credits w ρ -> world_ok w ρ -> world_ok w' ρ'.
Proof.
  intros Hext Es En Eg Ec Hsolo Hsays Hues Hbound Hconn Hone Hsetup Howed Hcr [Ha _ Hc Hd He Hf Hg _ Hb _ Hh].
  assert (Hclaimed : forall id, is_Some (table w !! id) -> ~ unclaimed id ρ -> ~ unclaimed id ρ').
  { intros id [t Ht] Hno [?|Hn]%Hconn; [done|congruence]. }
  split; unfold registered; rewrite ?Es, ?En, ?Eg, ?Ec; try done.
  - intros sh m c Hsh. destruct (Hd sh m c Hsh) as (Hu & H1 & H2). split_and!; [|done|lia].
    revert Hu. apply ues_ok_local. intros tk Htk. apply Hues. by eexists.
  - lia.
  - intros k g Hk. destruct (Hf k g Hk) as (H1 & H2 & H3 & H4 & H5).
    split_and!; [done|by apply (says_extends w)|by apply (says_extends w)| |intros ?%Hsetup; done].
    apply Hclaimed; [|done]. destruct H2 as (t & Ht & _). by eexists.
  - intros id sh Hin%Hbound. destruct (Hb id sh Hin) as [H1 H2]. split; [|done].
    apply Hclaimed; [|done]. exact (Ha _ Hin).
Qed.

(** Only messages and knowledge are gained or lost. *)
Definition same_use ρ ρ' : Prop :=
  forall tk, tk <> Msg -> ~ knowledge tk -> multiplicity tk ρ' = multiplicity tk ρ.

Lemma same_use_in ρ ρ' tk : same_use ρ ρ' -> tk <> Msg -> ~ knowledge tk -> tk ∈ ρ' <-> tk ∈ ρ.
Proof. intros Hu H1 H2. by apply same_in, Hu. Qed.

Lemma world_quiet w w' ρ ρ' :
  extends w w' -> unread_yet w w' -> w_shared w' = w_shared w -> w_next_shared w' = w_next_shared w ->
  w_gnb_contexts w' = w_gnb_contexts w -> w_config w' = w_config w ->
  same_use ρ ρ' -> (forall tk, tk ∈ ρ' -> knowledge tk -> tk ∈ ρ \/ (fact tk /\ says w' tk)) ->
  credits w' ρ' <= credits w ρ -> world_ok w ρ -> world_ok w' ρ'.
Proof.
  intros Hext Hread Es En Eg Ec Huse Hk Hcr Hok.
  pose proof (fun tk => same_use_in ρ ρ' tk Huse) as Hin.
  apply (world_update w w' ρ); try done.
  - intros tk Htk. rewrite Huse; [by apply (wk_solo _ _ Hok)|by intros ->|].
    intros Hn. by destruct tk.
  - intros tk Htk. destruct (decide (tk = Msg)) as [->|Hne]; [done|].
    assert (Hd : knowledge tk \/ ~ knowledge tk) by (destruct tk; simpl; tauto).
    destruct Hd as [Hd|Hd]; [destruct (Hk tk Htk Hd) as [Hi|[_ ?]]; [|done]|apply Hin in Htk as Hi; [|done..]];
      by apply (says_quiet w), (wk_says _ _ Hok).
  - intros tk Htk. apply Huse; [intros ->; by destruct Htk|intros Hn; destruct tk; by destruct Htk].
  - intros id sh Hb. by destruct (Hk _ Hb I) as [|[]].
  - intros id [n Hn]. left. exists n. apply Hin; [done|by intros []|done].
  - intros id o o'. rewrite !Hin by (done || by intros []). apply (wk_conn _ _ Hok).
  - intros sh. apply Hin; [done|by intros []].
  - intros k g Hg. apply (owed_quiet w w' ρ); [done| |by apply (wk_owed _ _ Hok)].
    intros id sh msg. apply Hin; [done|by intros []].
Qed.

Lemma extends_refl w : extends w w.
Proof. split; [|lia]. intros id t E. by exists t. Qed.

Lemma unread_refl w : unread_yet w w.
Proof. intros id t E. by exists t. Qed.

(** What the invariant does not speak about may change. *)
Lemma world_elsewhere w w' ρ :
  w_network w' = w_network w -> w_incoming w' = w_incoming w -> w_shared w' = w_shared w ->
  w_next_shared w' = w_next_shared w -> w_gnb_contexts w' = w_gnb_contexts w ->
  w_config w' = w_config w -> world_ok w ρ -> world_ok w' ρ.
Proof.
  intros E1 E2 E3 E4 E5 E6. apply world_quiet; try done.
  - split; [|lia]. unfold table. rewrite E1. intros id t E. by exists t.
  - unfold unread_yet, table. rewrite E1. intros id t E. by exists t.
  - intros tk Hin _. by left.
  - unfold credits, table. rewrite E1, E2. lia.
Qed.

(** A fact about the world may be written down. *)
Lemma world_learn w ρ tk :
  knowledge tk -> tk ∈ ρ \/ (fact tk /\ says w tk) -> world_ok w ρ -> world_ok w ({[+ tk +]} ⊎ ρ).
Proof.
  intros Hk Hs Hok. assert (Hne : tk <> Msg) by (intros ->; done).
  apply (world_quiet w w ρ); try done.
  - apply extends_refl.
  - apply unread_refl.
  - intros u Hu Hnk. rewrite multiplicity_disj_union, multiplicity_singleton_ne; [done|intros ->; by apply Hnk].
  - intros u [->%gmultiset_elem_of_singleton|Hin]%gmultiset_elem_of_disj_union _; [done|by left].
  - unfold credits. rewrite multiplicity_disj_union, multiplicity_singleton_ne by done. lia.
Qed.

(** An association's stream moves on; what was read may become a message. *)
Definition moved (id : Z) t w : W :=
  set_network (MkAssociations (<[id := t]> (table w)) (associations_set (w_network w).1), (w_network w).2) w.

Lemma extends_moved w id t s :
  table w !! id = Some t -> grows t (with_stream t s) -> extends w (moved id (with_stream t s) w).
Proof.
  intros Ht Hg. split; [|done]. intros j u Hj. unfold table. simpl. destruct (decide (j = id)) as [->|Hne].
  - rewrite Ht in Hj. simplify_eq. exists (with_stream u s). by rewrite lookup_insert_eq.
  - rewrite lookup_insert_ne by done. by exists u.
Qed.

Lemma credits_moved w ρ ρ' id t s :
  table w !! id = Some t ->
  (multiplicity Msg ρ' + unread s <= multiplicity Msg ρ + unread (stream t))%nat ->
  credits (moved id (with_stream t s) w) ρ' <= credits w ρ.
Proof.
  intros Ht Hm. unfold credits, unread_in. change (table (moved _ _ _)) with (<[id := with_stream t s]> (table w)).
  destruct (sum_replace unread id t (with_stream t s) _ Ht) as [-> ->]. simpl. lia.
Qed.

Lemma world_moved w ρ id t s :
  table w !! id = Some t -> grows t (with_stream t s) -> got s = got (stream t) ->
  (unread s <= unread (stream t))%nat -> world_ok w ρ -> world_ok (moved id (with_stream t s) w) ρ.
Proof.
  intros Ht Hs Hg Hm. apply world_quiet; try done.
  - by apply extends_moved.
  - intros j u Hj. unfold table. simpl. destruct (decide (j = id)) as [->|Hne].
    + rewrite Ht in Hj. simplify_eq. exists (with_stream u s). by rewrite lookup_insert_eq.
    + rewrite lookup_insert_ne by done. by exists u.
  - intros tk Hin _. by left.
  - apply credits_moved; [done|lia].
Qed.

(** A message is read: what the tokens and the gNBs on other associations say
    stays so. *)
Lemma says_moved w id t s tk :
  table w !! id = Some t -> grows t (with_stream t s) -> (forall n, tk <> Conn id n) ->
  says w tk -> says (moved id (with_stream t s) w) tk.
Proof.
  intros Ht Hg Hne Hs. destruct tk as [| | | | |j seen| | | | | | |];
    try (by apply (says_extends w); [apply extends_moved|..]).
  destruct Hs as (u & Hu & Hl). exists u. split; [|done]. unfold table. simpl.
  rewrite lookup_insert_ne; [done|]. intros <-. by destruct (Hne seen).
Qed.

Lemma owed_moved w ρ ρ' id t s k g :
  gnb_tnla g <> id -> (forall id sh msg, Owe id sh msg ∈ ρ -> Owe id sh msg ∈ ρ') ->
  owed w ρ k g -> owed (moved id (with_stream t s) w) ρ' k g.
Proof.
  intros Hne Ho (u & n & data & Hu & H1 & H2 & H3). exists u, n, data. split_and!; [|done|done|eauto].
  unfold table. simpl. by rewrite lookup_insert_ne.
Qed.

Section one_message.
Context (w : W) (ρ : gmultiset token) (id : Z) (t : TnlaAssociation Stream) (s : Stream) (data : bytes).
Hypothesis Ht : table w !! id = Some t.
Hypothesis Hgrows : grows t (with_stream t s).
Hypothesis Hgot : got s = got (stream t) ++ [data].
Hypothesis Hunread : (unread s < unread (stream t))%nat.

(** By the loop of the gNB: it must be settled. *)
Lemma world_take sh :
  Bound id sh ∈ ρ -> world_ok w ρ ->
  world_ok (moved id (with_stream t s) w) ({[+ Msg; Owe id sh data +]} ⊎ ρ).
Proof.
  intros Hb Hok. destruct (wk_bound _ _ Hok _ _ Hb) as [Hun Hreg].
  assert (Hin : forall tk, tk ∈ {[+ Msg; Owe id sh data +]} ⊎ ρ -> tk = Msg \/ tk = Owe id sh data \/ tk ∈ ρ).
  { intros tk. rewrite !gmultiset_elem_of_disj_union, !gmultiset_elem_of_singleton. tauto. }
  apply (world_update w _ ρ); try done.
  - by apply extends_moved.
  - rewrite <-(assoc_L (⊎)). do 2 (apply solo_add; [done|]). apply (wk_solo _ _ Hok).
  - intros tk [->|[->|Htk]]%Hin; [done..|]. apply says_moved; [done|done| |by apply (wk_says _ _ Hok)].
    intros n ->. apply Hun. by exists n.
  - intros tk [sh' Htk]. rewrite !multiplicity_disj_union, !multiplicity_singleton_ne; [done|by intros ->..].
  - by intros id' sh' [?|[?|?]]%Hin.
  - intros id' [n [?|[?|?]]%Hin]; [done..|]. left. by exists n.
  - intros id' o o' [?|[?|?]]%Hin [?|[?|?]]%Hin; try done. by apply (wk_conn _ _ Hok id').
  - by intros sh' [?|[?|?]]%Hin.
  - intros k g Hk. pose proof (wk_owed _ _ Hok k g Hk) as Ho. destruct (decide (gnb_tnla g = id)) as [E|Hne].
    + destruct Ho as (u & n & d & Hu & H1 & H2 & H3). rewrite E, Ht in Hu. injection Hu as <-.
      exists (with_stream t s), n, d. rewrite E. simpl. rewrite Hgot. unfold table. simpl.
      rewrite lookup_insert_eq. split_and!; [done|by apply lookup_app_l_Some|done|].
      intros j msg Hj [Hm|[Hlen Hm]]%lookup_app_Some.
      * specialize (H3 j msg Hj Hm). rewrite E in H3. multiset_solver.
      * apply list_lookup_singleton_Some in Hm as [_ <-]. rewrite (Hreg k g Hk E). multiset_solver.
    + apply (owed_moved w ρ); [done| |done]. multiset_solver.
  - apply credits_moved; [done|]. rewrite !multiplicity_disj_union, multiplicity_singleton_eq.
    rewrite multiplicity_singleton_ne by done. lia.
Qed.

(** Before there is a gNB. *)
Lemma world_take_early seen :
  world_ok w ({[+ Conn id seen +]} ⊎ ρ) ->
  world_ok (moved id (with_stream t s) w) ({[+ Msg; Conn id (Some data) +]} ⊎ ρ).
Proof.
  intros Hok. pose proof (wk_solo _ _ Hok) as Hs.
  assert (Hsub : forall tk, tk ∈ ρ -> tk ∈ {[+ Conn id seen +]} ⊎ ρ).
  { intros tk Htk. apply gmultiset_elem_of_disj_union. by right. }
  assert (Hmine : Conn id seen ∈ {[+ Conn id seen +]} ⊎ ρ).
  { apply gmultiset_elem_of_disj_union. left. by apply gmultiset_elem_of_singleton. }
  assert (Hother : forall o, Conn id o ∉ ρ).
  { intros o Ho. pose proof (wk_conn _ _ Hok id o seen (Hsub _ Ho) Hmine) as ->. by apply solo_absent in Hs. }
  assert (Hnow : table (moved id (with_stream t s) w) !! id = Some (with_stream t s)) by apply lookup_insert_eq.
  assert (Hin : forall tk, tk ∈ {[+ Msg; Conn id (Some data) +]} ⊎ ρ ->
    tk = Msg \/ tk = Conn id (Some data) \/ tk ∈ ρ).
  { intros tk. rewrite !gmultiset_elem_of_disj_union, !gmultiset_elem_of_singleton. tauto. }
  apply (world_update w _ ({[+ Conn id seen +]} ⊎ ρ)); try done.
  - by apply extends_moved.
  - rewrite <-!(assoc_L (⊎)). apply solo_add; [done|]. apply solo_add; [intros _; apply Hother|].
    eapply solo_sub; [|exact Hs]. apply gmultiset_disj_union_subseteq_r.
  - intros tk [->|[->|Htk]]%Hin; [done|..].
    + exists (with_stream t s). split; [done|]. by exists (got (stream t)).
    + apply says_moved; [done|done| |by apply (wk_says _ _ Hok), Hsub]. intros m ->. by destruct (Hother m).
  - intros tk [sh' Htk]. rewrite !multiplicity_disj_union, !multiplicity_singleton_ne; [done|by intros ->..].
  - intros id' sh' [?|[?|?]]%Hin; by auto.
  - intros id' [m Hm]. left. apply Hin in Hm as [?|[[= -> ->]|?]]; [done|by exists seen|exists m; auto].
  - intros id' o o' [?|[[= -> ->]|Ho]]%Hin [?|[[= E2]|Ho']]%Hin; try done; subst;
      try (by destruct (Hother o)); try (by destruct (Hother o')). apply (wk_conn _ _ Hok id'); auto.
  - intros sh' [?|[?|?]]%Hin; by auto.
  - intros k g Hk. destruct (decide (gnb_tnla g = id)) as [<-|Hne].
    + destruct (wk_gnbs _ _ Hok k g Hk) as (_ & _ & _ & Hun & _). destruct Hun. by exists seen.
    + apply (owed_moved w ({[+ Conn id seen +]} ⊎ ρ)); [done| |by apply (wk_owed _ _ Hok)].
      intros id' sh' msg. rewrite !gmultiset_elem_of_disj_union, !gmultiset_elem_of_singleton. naive_solver.
  - apply credits_moved; [done|]. rewrite !multiplicity_disj_union, multiplicity_singleton_eq.
    rewrite !multiplicity_singleton_ne by done. lia.
Qed.
End one_message.

(** ** Steps of one UE table *)

Definition set_table (sh : nat) (m : manager UeContext MU) (c : Z) w : W :=
  set_shared (<[sh := (m, c)]> (w_shared w)) w.

Lemma world_ues w ρ ρ' sh m c m' c' :
  w_shared w !! sh = Some (m, c) -> ues_ok sh c' m' ρ' -> 1 <= c' -> c' + credits w ρ' <= B ->
  solo ρ' -> (multiplicity Msg ρ' <= multiplicity Msg ρ)%nat ->
  (forall tk, tk <> Msg -> ues_of tk <> Some sh -> multiplicity tk ρ' = multiplicity tk ρ) ->
  world_ok w ρ -> world_ok (set_table sh m' c' w) ρ'.
Proof.
  intros Hsh Hu Hc' Hcr Hsolo Hmsg Huse [Ha _ Hc Hd He Hf Hg Hcn Hb Ho Hh].
  assert (Hin : forall tk, tk <> Msg -> ues_of tk <> Some sh -> tk ∈ ρ' <-> tk ∈ ρ)
    by (intros; by apply same_in, Huse).
  assert (Hun : forall id, unclaimed id ρ' -> unclaimed id ρ) by (intros id [n Hn%Hin]; [by exists n|done..]).
  assert (Hcredits : credits (set_table sh m' c' w) ρ' = credits w ρ') by done.
  assert (Hless : credits w ρ' <= credits w ρ) by (unfold credits; lia).
  assert (Hlt : (sh < w_next_shared w)%nat) by (apply Hc; by eexists).
  split; rewrite ?Hcredits; try done.
  - intros tk Htk. change (says w tk). destruct (decide (tk = Msg)) as [->|Hne]; [done|].
    destruct (decide (ues_of tk = Some sh)) as [Hs|Hs]; [by destruct tk; simplify_eq/=|].
    by apply Ha, Hin.
  - intros sh'. simpl. destruct (decide (sh' = sh)) as [->|Hne].
    + rewrite lookup_insert_eq. split; [done|by eexists].
    + by rewrite lookup_insert_ne by done.
  - cbn [set_table set_shared w_shared]. intros sh' m1 c1 [[<- [= <- <-]]|[Hne H1]]%lookup_insert_Some; [done|].
    destruct (Hd sh' m1 c1 H1) as (H2 & H3 & H4). split_and!; [|done|lia].
    revert H2. apply ues_ok_local. intros tk Htk. apply Huse; [by intros ->|congruence].
  - lia.
  - intros k g Hk. destruct (Hf k g Hk) as (H1 & H2 & H3 & H4 & H5).
    split_and!; [done..|by intros ?%Hun|by rewrite Hin].
  - intros id o o'. rewrite !Hin by done. apply Hcn.
  - intros id sh' Hbd. apply Hin in Hbd; [|done..]. destruct (Hb id sh' Hbd) as [H1 H2].
    split; [by intros ?%Hun|done].
  - intros k g Hk. apply (owed_quiet w _ ρ); [by intros id t Ht; exists t| |by apply Ho].
    intros id sh' msg. by apply Hin.
Qed.

(** The table of a gNB that a task knows. *)
Lemma table_known w ρ gnb :
  world_ok w ρ -> Shared (gnb_shared gnb) ∈ ρ ->
  exists m c, shared_of gnb w = (m, c) /\ w_shared w !! gnb_shared gnb = Some (m, c).
Proof.
  intros Hok Hin. pose proof (wk_says _ _ Hok _ Hin) as Hs. simpl in Hs.
  apply (wk_tables _ _ Hok) in Hs as [[m c] E]. exists m, c. unfold shared_of. by rewrite E.
Qed.

(** ** gNBs *)

Lemma absent_ne tk u ρ : u <> tk -> u ∉ ρ -> u ∉ ({[+ tk +]} ⊎ ρ).
Proof. rewrite gmultiset_elem_of_disj_union, gmultiset_elem_of_singleton. naive_solver. Qed.

(** [GnbContext::new]. *)
Lemma world_new_gnb w ρ id :
  world_ok w ρ ->
  let p := w_next_shared w in
  world_ok (GnbContext_new id w).1 ({[+ Shared p +]} ⊎ ({[+ Setup p +]} ⊎ ρ)).
Proof.
  intros Hok p. set (w' := (GnbContext_new id w).1). pose proof Hok as [Ha Hb Hc Hd He Hf Hg Hcn Hbd Ho Hh].
  assert (Hnone : forall tk, tk ∈ ρ -> tk <> Setup p /\ ues_of tk <> Some p).
  { intros tk Hin. specialize (Ha tk Hin). destruct tk; simpl in *; split; try congruence;
      intros E; simplify_eq; unfold p in *; lia. }
  assert (Hext : extends w w').
  { split; [|unfold w'; simpl; lia]. intros j t Hj. by exists t. }
  apply world_learn; [done|right; split; [done|unfold w', p; simpl; lia]|].
  assert (Hkeep : forall tk, tk <> Setup p -> tk ∈ {[+ Setup p +]} ⊎ ρ <-> tk ∈ ρ).
  { intros tk Hne. rewrite gmultiset_elem_of_disj_union, gmultiset_elem_of_singleton. naive_solver. }
  assert (Hun : forall id', unclaimed id' ({[+ Setup p +]} ⊎ ρ) -> unclaimed id' ρ)
    by (intros id' [n Hn%Hkeep]; [by exists n|done]).
  assert (Hcr : credits w' ({[+ Setup p +]} ⊎ ρ) = credits w ρ).
  { unfold credits. rewrite multiplicity_disj_union, multiplicity_singleton_ne by done. done. }
  assert (Hues : forall sh m c, ues_ok sh c m ρ -> ues_ok sh c m ({[+ Setup p +]} ⊎ ρ)).
  { intros sh m c. apply ues_ok_local. intros tk Htk.
    rewrite multiplicity_disj_union, multiplicity_singleton_ne; [done|by intros ->]. }
  split; rewrite ?Hcr; try done.
  - intros tk [->%gmultiset_elem_of_singleton|Hin]%gmultiset_elem_of_disj_union.
    + unfold w', p; simpl; lia.
    + apply (says_quiet w); [done|by intros j t Hj; exists t|by apply Ha].
  - apply solo_add; [|done]. intros _ Hin. by destruct (Hnone _ Hin).
  - intros sh. unfold w'. simpl. fold p. destruct (decide (sh = p)) as [->|Hne].
    + rewrite lookup_insert_eq. split; [lia|by eexists].
    + rewrite lookup_insert_ne, Hc by done. unfold p in *. lia.
  - unfold w'. cbn [GnbContext_new fst set_next_shared set_shared w_shared]. fold p.
    intros sh m c [[<- [= <- <-]]|[Hne H1]]%lookup_insert_Some.
    + split_and!; [|unfold counter_new; lia..]. apply Hues, ues_ok_new.
      intros tk Htk Hin. by destruct (Hnone _ Hin).
    + destruct (Hd sh m c H1) as (H2 & H3). split; [by apply Hues|done].
  - intros k g Hk. destruct (Hf k g Hk) as (H1 & H2 & H3 & H4 & H5).
    split_and!; [done|done|by apply (says_extends w)|by intros ?%Hun|]. apply absent_ne; [|done].
    intros [= E]. simpl in H3. unfold p in E. lia.
  - intros id' o o'. rewrite !Hkeep by done. apply Hcn.
  - intros id' sh Hb1. apply Hkeep in Hb1; [|done]. destruct (Hbd id' sh Hb1) as [H1 H2].
    split; [by intros ?%Hun|done].
  - intros k g Hk. apply (owed_quiet w _ ρ); [by intros j t Hj; exists t|multiset_solver|by apply Ho].
Qed.

(** Who has an association and a UE table to give to a gNB has them alone. *)
Lemma sole_claim w ρ id sh seen :
  world_ok w ({[+ Conn id seen; Setup sh +]} ⊎ ρ) -> (Setup sh ∉ ρ) /\ forall seen', Conn id seen' ∉ ρ.
Proof.
  intros Hok. pose proof (wk_solo _ _ Hok) as Hs. rewrite <-(assoc_L (⊎)) in Hs. split.
  - apply (solo_sub ({[+ Setup sh +]} ⊎ ρ)), solo_absent in Hs; [done..|]. clear. multiset_solver.
  - intros seen' Hm.
    pose proof (wk_conn _ _ Hok id seen' seen ltac:(multiset_solver) ltac:(multiset_solver)) as ->.
    apply solo_absent in Hs; [|done]. multiset_solver.
Qed.

(** No gNB has them yet. *)
Lemma claim_is_new w ρ id sh seen k g :
  world_ok w ({[+ Conn id seen; Setup sh +]} ⊎ ρ) -> registered w k g ->
  gnb_tnla g <> id /\ gnb_shared g <> sh.
Proof.
  intros Hok Hk. destruct (wk_gnbs _ _ Hok k g Hk) as (_ & _ & _ & H4 & H5).
  split; intros E; rewrite E in *; [destruct H4; exists seen|destruct H5]; multiset_solver.
Qed.

(** They are bound to each other. *)
Lemma world_bind w ρ id sh seen :
  world_ok w ({[+ Conn id seen; Setup sh +]} ⊎ ρ) -> world_ok w ({[+ Bound id sh +]} ⊎ ρ).
Proof.
  intros Hok. set (ρ0 := {[+ Conn id seen; Setup sh +]} ⊎ ρ) in *.
  assert (Hin : forall tk, tk ∈ ρ -> tk ∈ ρ0) by (unfold ρ0; multiset_solver).
  assert (Hnew : forall tk, tk ∈ {[+ Bound id sh +]} ⊎ ρ -> tk = Bound id sh \/ tk ∈ ρ)
    by (clear; multiset_solver).
  assert (Hun : forall id', unclaimed id' ({[+ Bound id sh +]} ⊎ ρ) -> unclaimed id' ρ0).
  { intros id' [m [?|Hm%Hin]%Hnew]; [done|by exists m]. }
  destruct (sole_claim w ρ id sh seen Hok) as [_ Hout].
  destruct (wk_says _ _ Hok (Conn id seen)) as (t & Ht & _); [unfold ρ0; multiset_solver|].
  assert (Hcr : credits w ({[+ Bound id sh +]} ⊎ ρ) = credits w ρ0).
  { unfold credits, ρ0. by rewrite !multiplicity_disj_union, !multiplicity_singleton_ne. }
  pose proof Hok as [Ha Hb Hc Hd He Hf Hg Hcn Hbd Ho Hh]. split; rewrite ?Hcr; try done.
  - intros tk [->|Htk%Hin]%Hnew; [by exists t|exact (Ha tk Htk)].
  - apply solo_add; [done|]. eapply solo_sub; [|exact Hb]. unfold ρ0. multiset_solver.
  - intros sh' m c Hm. destruct (Hd sh' m c Hm) as (H1 & H2 & H3). split_and!; [|done..].
    revert H1. apply ues_ok_local. intros tk Htk. unfold ρ0.
    by rewrite !multiplicity_disj_union, !multiplicity_singleton_ne by (by intros ->).
  - intros k g Hk. destruct (Hf k g Hk) as (H1 & H2 & H3 & H4 & H5).
    split_and!; [done..|by intros ?%Hun|intros [?|?%Hin]%Hnew; done].
  - intros id' o o' [?|H1]%Hnew [?|H2]%Hnew; try done. by apply (Hcn id'); apply Hin.
  - intros id' sh' [[= -> ->]|Hb']%Hnew.
    + split; [intros [m [?|Hm]%Hnew]; [done|by apply (Hout m)]|].
      intros k g Hk E. by destruct (claim_is_new w ρ id sh seen k g Hok Hk).
    + destruct (Hbd id' sh' (Hin _ Hb')) as [H1 H2]. split; [by intros ?%Hun|done].
  - intros k g Hk. apply (owed_quiet w _ ρ0); [by intros j u Hj; exists u| |by apply Ho].
    intros id' sh' msg. unfold ρ0. clear. multiset_solver.
Qed.

(** [insert_async] of a gNB that was answered: its association, of which the
    last message was the NG Setup Request, and its UE table are bound to it. *)
Lemma world_insert w ρ g data :
  view (w_gnb_contexts w) !! global_ran_node_id g = None ->
  Answered (gnb_tnla g) ∈ ρ -> setup_from data (global_ran_node_id g) ->
  world_ok w ({[+ Conn (gnb_tnla g) (Some data); Setup (gnb_shared g) +]} ⊎ ρ) ->
  world_ok (set_gnb_contexts (scc_insert (global_ran_node_id g) g (w_gnb_contexts w)).1 w)
    ({[+ Bound (gnb_tnla g) (gnb_shared g) +]} ⊎ ρ).
Proof.
  intros Hfree Hans Hfrom Hold.
  pose proof (world_bind w ρ _ _ _ Hold) as [Ha Hb Hc Hd He Hf Hg Hcn Hbd Ho Hh].
  destruct (scc_insert_fresh _ g _ Hfree) as [Hv _].
  destruct (sole_claim w ρ _ _ _ Hold) as [Hout1 Hout2].
  destruct (wk_says _ _ Hold (Conn (gnb_tnla g) (Some data))) as (t & Ht & l & Hl); [multiset_solver|].
  pose proof (wk_says _ _ Hold (Setup (gnb_shared g)) ltac:(multiset_solver)) as Hsh.
  pose proof (fun k g' => claim_is_new w ρ _ _ _ k g' Hold) as Hother.
  assert (Hunbound : forall sh, Bound (gnb_tnla g) sh ∉ ρ).
  { intros sh Hin. destruct (wk_bound _ _ Hold (gnb_tnla g) sh) as [Hun _]; [multiset_solver|].
    destruct Hun. exists (Some data). multiset_solver. }
  clear Hold.
  assert (Hnew : forall tk, tk ∈ {[+ Bound (gnb_tnla g) (gnb_shared g) +]} ⊎ ρ ->
    tk = Bound (gnb_tnla g) (gnb_shared g) \/ tk ∈ ρ) by (clear; multiset_solver).
  split; unfold registered; cbn [set_gnb_contexts w_gnb_contexts]; rewrite ?Hv; try done.
  - intros k g' [[<- <-]|[_ Hk]]%lookup_insert_Some; [|by apply Hf].
    split_and!; [done|apply (Ha (Answered _)); multiset_solver|exact Hsh| |by intros [?|?]%Hnew].
    intros [m [?|Hm]%Hnew]; [done|by apply (Hout2 m)].
  - intros k k' g1 g2 [[<- <-]|[_ Hk]]%lookup_insert_Some [[<- <-]|[_ Hk']]%lookup_insert_Some E; [done|..].
    + destruct (Hother _ _ Hk'). destruct E; congruence.
    + destruct (Hother _ _ Hk). destruct E; congruence.
    + by apply (Hg k k' g1 g2).
  - intros id sh Hin. destruct (Hbd id sh Hin) as [H1 H2]. split; [done|].
    intros k g' [[_ <-]|[_ Hk]]%lookup_insert_Some E; [|by apply (H2 k)].
    apply Hnew in Hin as [[= _ ->]|Hin]; [done|]. subst id. by destruct (Hunbound sh).
  - intros k g' [[<- <-]|[_ Hk]]%lookup_insert_Some; [|by apply Ho].
    exists t, (length l), data. rewrite Hl.
    split_and!; [done|by apply list_lookup_middle|done|]. intros j msg Hj Hm.
    apply lookup_lt_Some in Hm. rewrite length_app in Hm. simpl in Hm. lia.
Qed.

(** gNBs may go. *)
Lemma world_fewer_gnbs w ρ (gs : MG) :
  (forall k g, view gs !! k = Some g -> registered w k g) -> world_ok w ρ ->
  world_ok (set_gnb_contexts gs w) ρ.
Proof.
  intros Hsub [Ha Hb Hc Hd He Hf Hg Hcn Hbd Ho Hh]. split; unfold registered; cbn [set_gnb_contexts w_gnb_contexts]; try done.
  - intros k g Hk. by apply Hf, Hsub.
  - intros k k' g g' Hk Hk'. apply Hg; by apply Hsub.
  - intros id sh Hb1. destruct (Hbd id sh Hb1) as [H1 H2]. split; [done|]. intros k g Hk%Hsub. by apply (H2 k).
  - intros k g Hk%Hsub. by apply Ho.
Qed.

(** ** Accepting *)

Lemma accept_outcome acc (a : Associations Stream) c a' c' r :
  accept_and_create_tnla acc (a, c) = ((a', c'), r) ->
  match r with
  | Ok t => tnla_id t = c /\ acc = Ok (stream t) /\ associations a' = <[c := t]> (associations a)
  | Err _ => associations a' = associations a
  end.
Proof.
  unfold accept_and_create_tnla, add_tnla_association, TnlaAssociation_new.
  destruct acc as [s|e]; simpl; [|by intros [= <- <- <-]].
  destruct (stream_local_addr s) as [l|e]; simpl; [|by intros [= <- <- <-]].
  destruct (stream_peer_addr s) as [p|e]; simpl; [|by intros [= <- <- <-]].
  destruct (decide _); by intros [= <- <- <-].
Qed.

Lemma world_accept w ρ id t s rest :
  w_incoming w = Ok s :: rest -> table w !! id = None -> stream t = s ->
  world_ok w ρ ->
  forall net, associations net.1 = <[id := t]> (table w) ->
  world_ok (spawn_task (SpawnConnection id) (set_network net (set_incoming rest w)))
    ({[+ Assoc id; Conn id None +]} ⊎ ρ).
Proof.
  intros Hinc Hid Hs Hok net Hnet. set (w' := set_network net (set_incoming rest w)).
  apply (world_elsewhere w'); [done..|]. rewrite <-(assoc_L (⊎)).
  assert (Hnow : table w' !! id = Some t) by (unfold table, w'; simpl; rewrite Hnet; apply lookup_insert_eq).
  apply world_learn; [done|right; split; [done|by eexists]|].
  assert (Hstay : forall j u, table w !! j = Some u -> table w' !! j = Some u).
  { intros j u Hj. unfold table, w'. simpl. rewrite Hnet, lookup_insert_ne; [done|congruence]. }
  assert (Hext : extends w w') by (split; [|done]; intros j u Hj; exists u; split; [auto|done]).
  assert (Hread : unread_yet w w') by (intros j u Hj; exists u; auto).
  assert (Hnew : forall seen, Conn id seen ∉ ρ).
  { intros seen Hc. pose proof (wk_says _ _ Hok _ Hc) as (u & Hu & _). congruence. }
  assert (Hin : forall tk, tk ∈ {[+ Conn id None +]} ⊎ ρ -> tk = Conn id None \/ tk ∈ ρ).
  { intros tk. rewrite gmultiset_elem_of_disj_union, gmultiset_elem_of_singleton. done. }
  apply (world_update w w' ρ); try done.
  - apply solo_add; [by intros _|apply (wk_solo _ _ Hok)].
  - intros tk [->|Htk]%Hin; [by exists t|]. by apply (says_quiet w), (wk_says _ _ Hok).
  - intros tk [sh Htk]. rewrite multiplicity_disj_union, multiplicity_singleton_ne; [done|by intros ->].
  - by intros id' sh [?|?]%Hin.
  - intros id' [o [[= -> ->]|?]%Hin]; [by right|left; by exists o].
  - intros id' o o' [E|Ho]%Hin [E'|Ho']%Hin; [congruence| | |by apply (wk_conn _ _ Hok id')].
    + injection E as -> ->. by destruct (Hnew o').
    + injection E' as -> ->. by destruct (Hnew o).
  - by intros sh [?|?]%Hin.
  - intros k g Hk. apply (owed_quiet w w' ρ); [done| |by apply (wk_owed _ _ Hok)].
    intros id' sh msg. rewrite gmultiset_elem_of_disj_union. tauto.
  - unfold credits, unread_in, w'. unfold table at 1. cbn [set_network w_network w_incoming set_incoming].
    rewrite Hnet, Hinc, multiplicity_disj_union, multiplicity_singleton_ne by done.
    pose proof (sum_insert_le unread id t (table w)). simpl. rewrite Hs in *. lia.
Qed.
End engine_invariant.
