(* ===== verification/EngineRules.v ===== *)
(** * What the bodies of the AMF do with their tokens

    One rule for every body of the controller up to the tasks it spawns: what it
    needs, what it leaves, and what is left when it dies or waits. *)

From S2P Require Import Prelude Async Ghost Counter Convert ConvertProps SccMap ContextQueue ContextManager.
From S2P Require Import Network NetworkProps NgapMessages NgapContext Tokens NgapEngine NgapExample.
From S2P Require Import EngineProps EngineTermination EngineInvariant.

#[local] Open Scope Z_scope.

Section engine_rules.
Context `{NM : NgapModels} `{NC : !NgapCodec} `{HX : HexCodec} `{BV : BitVecOps}.
Context {Stream MG MU : Type} `{SC : Sctp Stream} `{FS : !FiniteStream Stream} `{SL : !StreamLog Stream}.
Context `{GM : !SccHashMap GlobalRanNodeId GnbContext MG} `{GL : !SccLaws GlobalRanNodeId GnbContext MG}
  `{UM : !SccHashMap Z nat MU} `{UL : !SccLaws Z nat MU}.
Context (debug : bool) (cfg : option AmfConfiguration) (B : Z).

Notation W := (world Stream MG MU).
Implicit Types (w : W) (ρ fr r : gmultiset token) (gnb g : GnbContext) (t : TnlaAssociation Stream).

Notation says := (says debug cfg).
Notation world_ok := (world_ok debug cfg B).
Notation covers := (covers harmless).


(** ** Tasks *)

(** What every task of a registered gNB knows. *)
Definition known gnb : gmultiset token :=
  {[+ Assoc (gnb_tnla gnb); Shared (gnb_shared gnb); Bound (gnb_tnla gnb) (gnb_shared gnb) +]}.

(** What a task is spawned with. *)
Definition task_tokens (t : spawned_task) : gmultiset token :=
  match t with
  | SpawnConnection id => {[+ Assoc id; Conn id None +]}
  | SpawnNgapLoop gnb => known gnb
  | SpawnMessage gnb message => known gnb ⊎ {[+ Msg; Owe (gnb_tnla gnb) (gnb_shared gnb) message +]}
  end.

Definition spawned_tokens w : gmultiset token := total (task_tokens <$> w_spawned w).

(** The invariant of the pool: what was spawned and is not in the pool yet has
    its tokens already. *)
Definition engine_ok w ρ : Prop := world_ok w (ρ ⊎ spawned_tokens w).

(** Where a task may wait: for a message, and for room to send [data]. *)
Inductive stop : Type :=
| Reading (id : Z)
| Writing (id : Z) (data : bytes).

(** The only accesses that may not be ready, on an association that is in the
    table. *)
Definition read_access (id : Z) : W -> option (W * Result (option bytes) TnlaError) :=
  fun w =>
    t ← table w !! id;
    '(t, r) ← read_data t;
    Some (moved id t w, r).

Definition write_access (id : Z) (data : bytes) : W -> option (W * Result unit TnlaError) :=
  fun w =>
    t ← table w !! id;
    '(t, r) ← write_data data None t;
    Some (moved id t w, r).

Inductive parks (r : gmultiset token) : stop -> forall X : Type, (W -> option (W * X)) -> Prop :=
| parks_reading id : Assoc id ∈ r -> parks r (Reading id) _ (read_access id)
| parks_writing id data : Assoc id ∈ r -> parks r (Writing id data) _ (write_access id data).

Definition parked_at (b : stop) (r : gmultiset token) : forall X : Type, (W -> option (W * X)) -> Prop := parks r b.

Lemma parks_frame b r fr X f : parked_at b r X f -> parked_at b (r ⊎ fr) X f.
Proof. intros [id Hid|id data Hid]; constructor; multiset_solver. Qed.

Notation holds := (owns engine_ok parked_at).
Implicit Types (b : option stop).

(** A body that neither waits nor dies; one that is left with [r0] wherever it
    does; one that only waits for room to send. *)
Definition never : option stop -> gmultiset token -> Prop := fun _ _ => False.

Definition left_with r0 : option stop -> gmultiset token -> Prop := fun _ r => covers r0 r.

Definition sending (id : Z) (data : bytes) : option stop -> gmultiset token -> Prop :=
  fun b r => b = Some (Writing id data) /\ covers {[+ Assoc id +]} r.

Definition sending_pdu (id : Z) (pdu : NgapPdu) : option stop -> gmultiset token -> Prop :=
  fun b r => exists data, codec_to_bytes pdu = Ok data /\ sending id data b r.

(** ** Messages that are settled *)

(** What becomes of a message, by what [filed] says of RAN UE ids and [out] of
    answers: an Initial UE Message whose TMSI can be written is filed, any other
    PDU and anything that is no PDU is answered with an Error Indication, unless
    that cannot be encoded. *)
Definition settles (filed : Z -> Prop) (out : bytes -> Prop) (message : bytes) : Prop :=
  let indicated (e : ErrorIndication) := forall data, codec_to_bytes (to_ngap_pdu e) = Ok data -> out data in
  match pdu_from_bytes message with
  | Ok (InitiatingMessage (MsgInitialUeMessage m)) =>
      map_tmsi (iu_five_g_s_tmsi m) <> Panics -> filed (iu_ran_ue_ngap_id m)
  | Ok _ => indicated (new_semantic_error None None)
  | Err e => indicated (build_criticality_diagnostics message e).1
  end.

Lemma settles_mono (filed filed' : Z -> Prop) (out out' : bytes -> Prop) message :
  (forall i, filed i -> filed' i) -> (forall data, out data -> out' data) ->
  settles filed out message -> settles filed' out' message.
Proof.
  intros Hf Ho. unfold settles. destruct (pdu_from_bytes message) as [pdu|e]; [|eauto].
  destruct pdu as [[]| |]; eauto.
Qed.

(** A task has settled the messages that it must. *)
Definition paid id sh message r : Prop :=
  settles (fun i => Filed sh i ∈ r) (fun data => Sent id data ∈ r) message.

Definition clean r : Prop := forall id sh message, Owe id sh message ∈ r -> paid id sh message r.

Definition done_with : unit -> gmultiset token -> Prop := fun _ => clean.

(** The same for a task that has not ended: what it waits to send counts as
    sent. *)
Definition clean_at : option stop -> gmultiset token -> Prop :=
  fun b r => clean (r ⊎ match b with Some (Writing id data) => {[+ Sent id data +]} | _ => ∅ end).

Lemma covers_sub r r' : covers r r' -> r ⊆ r'.
Proof. intros (k & _ & ->). multiset_solver. Qed.

Lemma covers_owe r r' id sh message : covers r r' -> Owe id sh message ∈ r' -> Owe id sh message ∈ r.
Proof. intros (k & Hk & ->) [?|Hin]%gmultiset_elem_of_disj_union; [done|by destruct (Hk _ Hin)]. Qed.

Lemma clean_covers r r' : covers r r' -> clean r -> clean r'.
Proof.
  intros Hr Hc id sh message Hin. apply covers_sub in Hr as Hs. eapply settles_mono; [..|apply Hc; by eapply covers_owe].
  - intros i. simpl. multiset_solver.
  - intros data. simpl. multiset_solver.
Qed.

Lemma covers_closed r0 r r' : covers r r' -> covers r0 r -> covers r0 r'.
Proof. intros Hr Hr0. by eapply covers_trans. Qed.

Lemma closed_left r0 : closed harmless (left_with r0).
Proof. intros b r r'. apply covers_closed. Qed.

Lemma closed_never : closed harmless never.
Proof. by intros b r r' _ ?. Qed.

Lemma closed_clean : closed harmless clean_at.
Proof. intros b r r' Hr. apply clean_covers. by apply covers_frame. Qed.

Lemma clean_left b r : clean r -> clean_at b r.
Proof.
  apply clean_covers. exists match b with Some (Writing id data) => {[+ Sent id data +]} | _ => ∅ end.
  split; [|done]. destruct b as [[]|]; multiset_solver.
Qed.

Lemma sending_left id data b r : sending id data b r -> left_with {[+ Assoc id +]} b r.
Proof. by intros [_ ?]. Qed.

Lemma sending_pdu_left id pdu b r : sending_pdu id pdu b r -> left_with {[+ Assoc id +]} b r.
Proof. intros (data & _ & Hs). by eapply sending_left. Qed.

Lemma tolerant_need {A : Type} (P : A -> Prop) (need : A -> gmultiset token) :
  tolerant harmless (fun a r => P a /\ covers (need a) r).
Proof. intros a r r' Hr [HP Hn]. split; [done|by eapply covers_trans]. Qed.

Lemma tolerant_done : tolerant harmless done_with.
Proof. intros a r r'. apply clean_covers. Qed.

(** [covers] between tokens that are written out. *)
Lemma covers_owed r r' :
  r ⊆ r' ->
  (forall id sh message, (multiplicity (Owe id sh message) r' <= multiplicity (Owe id sh message) r)%nat) ->
  covers r r'.
Proof. intros Hr Ho. apply covers_intro; [done| |apply _]. intros t Ht. by destruct t; try (destruct Ht; exact I). Qed.

Ltac covering :=
  apply covers_owed; [multiset_solver|intros; rewrite ?multiplicity_disj_union;
    repeat (rewrite multiplicity_singleton_ne by (intros [=])); rewrite ?multiplicity_empty; lia].

(** ... and against what a rule left. *)
Ltac covered := eapply covers_trans; [|eassumption]; covering.

(** ** Reading and writing *)

(** An access that spawns nothing. *)
Lemma holds_access {X : Type} L (Q : X -> gmultiset token -> Prop) r (f : W -> W * X) :
  (forall w, w_spawned (f w).1 = w_spawned w) ->
  (forall w fr, world_ok w (r ⊎ fr) -> exists r', world_ok (f w).1 (r' ⊎ fr) /\ Q (f w).2 r') ->
  holds L Q r (access f).
Proof.
  intros Hsp Hf. apply owns_access. intros w fr HI. unfold engine_ok, spawned_tokens in *.
  rewrite Hsp. rewrite <-(assoc_L (⊎)) in HI. destruct (Hf w _ HI) as (r' & HI' & HQ).
  exists r'. by rewrite <-(assoc_L (⊎)).
Qed.

(** Reading only learns what the invariant says. *)
Lemma holds_read {X : Type} L (P : X -> Prop) r (f : W -> X) :
  (forall w fr, world_ok w (r ⊎ fr) -> P (f w)) ->
  holds L (fun x r' => P x /\ covers r r') r (read_state f).
Proof.
  intros Hf. apply holds_access; [done|]. intros w fr HI. exists r.
  split; [done|]. split; [by eapply Hf|apply covers_refl].
Qed.

(** [tnla.read_data()] as a step of the stream: [Q] is shown of what came, the
    state of the stream and the tokens. *)
Lemma holds_read_data L (Q : Result (option bytes) TnlaError -> gmultiset token -> Prop) r id :
  Assoc id ∈ r -> L (Some (Reading id)) r ->
  (forall res, (forall data, res <> Ok (Some data)) -> Q res r) ->
  (forall w fr t s data, table w !! id = Some t -> grows t (with_stream t s) ->
    got s = got (stream t) ++ [data] -> (unread s < unread (stream t))%nat -> world_ok w (r ⊎ fr) ->
    exists r', world_ok (moved id (with_stream t s) w) (r' ⊎ fr) /\ Q (Ok (Some data)) r') ->
  holds L Q r (tnla_read id).
Proof.
  intros Hin HL Hquiet Hmsg. split; [|left; exists (Reading id); split; [done|by apply (parks_reading _ id)]].
  change (forall w fr w' x, engine_ok w (r ⊎ fr) -> read_access id w = Some (w', x) ->
    exists r', engine_ok w' (r' ⊎ fr) /\ Q x r').
  intros w fr w' x HI E. unfold engine_ok, spawned_tokens in *. rewrite <-(assoc_L (⊎)) in HI.
  unfold read_access in E. destruct (table w !! id) as [t|] eqn:Ht; [|done]. simpl in E.
  unfold read_data in E. destruct (recvmsg_eor_buf (stream t)) as [[s res]|] eqn:Er; [|done].
  injection E as <- <-. pose proof (unread_end _ _ _ Er) as Hle. pose proof (got_receive _ _ _ Er) as Hgot.
  assert (Hgrows : grows t (with_stream t s)).
  { split_and!; simpl; [by rewrite (sent_receive _ _ _ Er)|rewrite Hgot; by apply prefix_app_r|].
    by apply (failed_receive _ _ _ Er). }
  assert (Hcalm : got s = got (stream t) -> world_ok (moved id (with_stream t s) w) (r ⊎ (fr ⊎ spawned_tokens w))).
  { intros Hg. by apply world_moved. }
  cbn [moved set_network w_spawned]. unfold spawned_tokens in Hcalm.
  destruct res as [[n data]|e]; cbn [map_err]; [destruct (Z.eqb_spec n 0) as [->|Hn]|].
  - exists r. rewrite app_nil_r in Hgot. rewrite <-(assoc_L (⊎)). split; [by apply Hcalm|by apply Hquiet].
  - pose proof (unread_receive _ _ _ _ Er Hn) as Hlt.
    destruct (Hmsg w _ t s data Ht Hgrows Hgot Hlt HI) as (r' & HI' & HQ). exists r'.
    by rewrite <-(assoc_L (⊎)).
  - exists r. rewrite app_nil_r in Hgot. rewrite <-(assoc_L (⊎)). split; [by apply Hcalm|by apply Hquiet].
Qed.

(** Before there is a gNB, what was read last is remembered; ... *)
Lemma holds_read_early id seen :
  holds (left_with {[+ Assoc id; Conn id seen +]})
    (fun res r' => True /\
      covers match res with
        | Ok (Some data) => {[+ Assoc id; Msg; Conn id (Some data) +]}
        | _ => {[+ Assoc id; Conn id seen +]}
        end r')
    {[+ Assoc id; Conn id seen +]} (tnla_read id).
Proof.
  apply holds_read_data; [multiset_solver|apply covers_refl|..].
  - intros [[data|]|e] Hno; [by destruct (Hno data)|..]; (split; [done|apply covers_refl]).
  - intros w fr t s data Ht Hg Hgot Hlt HI. exists {[+ Assoc id; Msg; Conn id (Some data) +]}.
    split; [|split; [done|apply covers_refl]].
    replace ({[+ Assoc id; Msg; Conn id (Some data) +]} ⊎ fr) with
      ({[+ Msg; Conn id (Some data) +]} ⊎ ({[+ Assoc id +]} ⊎ fr)) by multiset_solver.
    apply (world_take_early _ _ _ w _ id t s data Ht Hg Hgot Hlt seen). eapply eq_ind; [exact HI|]. multiset_solver.
Qed.

(** ... from then on it must be settled. *)
Lemma holds_read_message gnb :
  holds (left_with (known gnb))
    (fun res r' => True /\
      covers match res with
        | Ok (Some data) => known gnb ⊎ {[+ Msg; Owe (gnb_tnla gnb) (gnb_shared gnb) data +]}
        | _ => known gnb
        end r')
    (known gnb) (tnla_read (gnb_tnla gnb)).
Proof.
  apply holds_read_data; [unfold known; multiset_solver|apply covers_refl|..].
  - intros [[data|]|e] Hno; [by destruct (Hno data)|..]; (split; [done|apply covers_refl]).
  - intros w fr t s data Ht Hg Hgot Hlt HI.
    exists (known gnb ⊎ {[+ Msg; Owe (gnb_tnla gnb) (gnb_shared gnb) data +]}).
    split; [|split; [done|apply covers_refl]].
    rewrite (comm_L (⊎) (known gnb)), <-(assoc_L (⊎)).
    apply (world_take _ _ _ w _ _ t s data Ht Hg Hgot Hlt); [unfold known; multiset_solver|done].
Qed.

Lemma world_written w ρ id data t t' (r : Result unit TnlaError) :
  table w !! id = Some t -> write_data data None t = Some (t', r) -> world_ok w ρ ->
  world_ok (moved id t' w) ρ /\ says (moved id t' w) (Sent id data) /\
  (setup_answer debug cfg data -> r = Ok () -> says (moved id t' w) (Answered id)).
Proof.
  intros Ht Ew Hok. unfold write_data in Ew. cbn [default stream_no default_send_options] in Ew.
  set (opts := MkSendOptions NGAP_PPID 0) in *.
  destruct (sendmsg data opts (stream t)) as [[s r0]|] eqn:Es; [|done].
  injection Ew as <- <-.
  pose proof (unread_send _ _ _ _ _ Es) as Hu. pose proof (got_send _ _ _ _ _ Es) as Hg.
  pose proof (sent_send _ _ _ _ _ Es) as Hp. pose proof (failed_send _ _ _ _ _ Es) as Hf.
  assert (Ho : forall n, r0 = Ok n -> sent s = sent (stream t) ++ [(ppid opts, data)])
    by (intros n ->; by apply (sent_ok _ _ _ _ n)).
  assert (Hn : forall e, r0 = Err e -> send_failed s) by (intros e ->; by apply (failed_now _ _ _ _ e Es)).
  assert (Hs : forall n, r0 = Ok n -> (NGAP_PPID, data) ∈ sent s) by (intros n E; rewrite (Ho n E); set_solver).
  assert (Hnow : table (moved id (with_stream t s) w) !! id = Some (with_stream t s)) by apply lookup_insert_eq.
  split_and!.
  - apply world_moved; [done| |done..]. split_and!; simpl; [done|by rewrite Hg|done].
  - exists (with_stream t s). split; [done|]. destruct r0 as [n|e]; [left; by apply (Hs n)|right; by apply (Hn e)].
  - intros Hd Hr. destruct r0 as [n|e]; [|done]. exists (with_stream t s).
    split; [done|]. exists data. split; [done|by apply (Hs n)].
Qed.

(** An access to the association of a task. *)
Lemma holds_write_data L (Q : Result unit TnlaError -> gmultiset token -> Prop) r id data :
  Assoc id ∈ r -> L (Some (Writing id data)) r ->
  (forall w fr t t' res, table w !! id = Some t -> write_data data None t = Some (t', res) ->
    world_ok w (r ⊎ fr) -> exists r', world_ok (moved id t' w) (r' ⊎ fr) /\ Q res r') ->
  holds L Q r (tnla_write id data).
Proof.
  intros Hin HL Hw. split; [|left; exists (Writing id data); split; [done|by apply (parks_writing _ id)]].
  change (forall w fr w' x, engine_ok w (r ⊎ fr) -> write_access id data w = Some (w', x) ->
    exists r', engine_ok w' (r' ⊎ fr) /\ Q x r').
  intros w fr w' x HI E. unfold engine_ok, spawned_tokens in *. rewrite <-(assoc_L (⊎)) in HI.
  unfold write_access in E. destruct (table w !! id) as [t|] eqn:Ht; [|done]. cbn [mbind option_bind] in E.
  destruct (write_data data None t) as [[t' res]|] eqn:Ew; simplify_eq/=.
  destruct (Hw w _ t t' _ Ht Ew HI) as (r' & HI' & HQ). exists r'. by rewrite <-(assoc_L (⊎)).
Qed.

Lemma holds_tnla_write id data :
  holds (sending id data) (fun _ r' => True /\ covers {[+ Assoc id; Sent id data +]} r') {[+ Assoc id +]}
    (tnla_write id data).
Proof.
  apply holds_write_data; [multiset_solver|split; [done|apply covers_refl]|]. intros w fr t t' res Ht Ew HI.
  destruct (world_written w _ id data t t' res Ht Ew HI) as (HI' & Hs & _).
  exists ({[+ Sent id data +]} ⊎ {[+ Assoc id +]}).
  split; [|split; [done|covering]]. rewrite <-(assoc_L (⊎)). apply world_learn; [done|by right|done].
Qed.

Lemma holds_tnla_answer id data :
  setup_answer debug cfg data ->
  holds (left_with {[+ Assoc id +]}) (fun res r' => True /\
      covers match res with Ok _ => {[+ Assoc id; Answered id +]} | Err _ => {[+ Assoc id +]} end r')
    {[+ Assoc id +]} (tnla_write id data).
Proof.
  intros Hd. apply holds_write_data; [multiset_solver|apply covers_refl|]. intros w fr t t' res Ht Ew HI.
  destruct (world_written w _ id data t t' res Ht Ew HI) as (HI' & _ & Ha).
  destruct res as [[]|e]; [|exists {[+ Assoc id +]}; split; [done|split; [done|apply covers_refl]]].
  exists ({[+ Answered id +]} ⊎ {[+ Assoc id +]}).
  split; [|split; [done|covering]]. rewrite <-(assoc_L (⊎)). apply world_learn; [done| |done].
  right. split; [done|by apply Ha].
Qed.

(** Spawning gives the new task its tokens; what the spawner knows it keeps. *)
Lemma world_copy w ρ k :
  (forall tk, tk ∈ k -> knowledge tk /\ tk ∈ ρ) -> world_ok w ρ -> world_ok w (k ⊎ ρ).
Proof.
  intros Hk Hok. induction k as [|tk k IH] using gmultiset_ind; [by rewrite (left_id_L ∅ (⊎))|].
  rewrite <-(assoc_L (⊎)). destruct (Hk tk ltac:(multiset_solver)) as [H1 H2].
  apply world_learn; [done|left; multiset_solver|]. apply IH. intros u Hu. apply Hk. multiset_solver.
Qed.

Lemma spawned_spawn (task : spawned_task) w :
  spawned_tokens (spawn_task task w) = spawned_tokens w ⊎ task_tokens task.
Proof.
  unfold spawned_tokens. cbn [spawn_task w_spawned]. rewrite fmap_app, total_app. simpl. multiset_solver.
Qed.

Lemma holds_spawn (task : spawned_task) copied kept given :
  task_tokens task = copied ⊎ given ->
  (forall tk, tk ∈ copied -> knowledge tk /\ tk ∈ kept ⊎ given) ->
  holds never (fun _ r' => True /\ covers kept r') (kept ⊎ given) (write_state (spawn_task task)).
Proof.
  intros Ht Hc. apply owns_access. intros w fr HI. exists kept. split; [|split; [done|apply covers_refl]].
  unfold engine_ok in *. cbn [fst]. rewrite spawned_spawn, Ht.
  replace (kept ⊎ fr ⊎ (spawned_tokens w ⊎ (copied ⊎ given))) with
    (copied ⊎ ((kept ⊎ given) ⊎ fr ⊎ spawned_tokens w)) by multiset_solver.
  apply (world_elsewhere _ _ _ w); [done..|]. apply world_copy; [|done]. intros tk Hin.
  destruct (Hc tk Hin) as [H1 H2]. split; [done|multiset_solver].
Qed.

(** ** UE contexts *)

(** Tokens about the contexts of one table. *)
Definition about (sh : nat) (r : gmultiset token) : Prop := forall tk, tk ∈ r -> ues_of tk = Some sh.

Lemma about_other sh r tk : about sh r -> ues_of tk <> Some sh -> multiplicity tk r = 0%nat.
Proof. intros Hr Htk. apply not_elem_of_multiplicity. intros Hin. by apply Htk, Hr. Qed.

(** An access to the UE manager of [gnb]. *)
Lemma holds_ues {X : Type} L (Q : X -> gmultiset token -> Prop) gnb r0
    (f : manager UeContext MU -> option (manager UeContext MU * X)) :
  let sh := gnb_shared gnb in
  about sh r0 ->
  (forall fr m c, solo (r0 ⊎ fr) -> ues_ok sh c m (r0 ⊎ fr) ->
    exists m' x r', f m = Some (m', x) /\ about sh r' /\ solo (r' ⊎ fr) /\ ues_ok sh c m' (r' ⊎ fr) /\
      Q x ({[+ Shared sh +]} ⊎ r')) ->
  holds L Q ({[+ Shared sh +]} ⊎ r0) (on_ues gnb (Act f Ret)).
Proof.
  intros sh Hr0 Hf.
  assert (Hready : forall w fr, world_ok w ({[+ Shared sh +]} ⊎ r0 ⊎ fr) -> exists m m' c x r',
    shared_of gnb w = (m, c) /\ f m = Some (m', x) /\
    world_ok (set_table sh m' c w) ({[+ Shared sh +]} ⊎ r' ⊎ fr) /\ Q x ({[+ Shared sh +]} ⊎ r')).
  { intros w fr HI. destruct (table_known _ _ _ w _ gnb HI) as (m & c & Esh & Hsh); [multiset_solver|].
    fold sh in Hsh. pose proof (wk_ues _ _ _ _ _ HI sh m c Hsh) as (Hu & Hc & Hcr).
    assert (Eass : forall r, {[+ Shared sh +]} ⊎ r ⊎ fr = r ⊎ ({[+ Shared sh +]} ⊎ fr)) by multiset_solver.
    pose proof (wk_solo _ _ _ _ _ HI) as Hs. rewrite Eass in Hs, Hu.
    destruct (Hf _ m c Hs Hu) as (m' & x & r' & Ef & Hr' & Hs' & Hu' & HQ).
    exists m, m', c, x, r'. split_and!; try done. rewrite <-Eass in Hs', Hu'.
    assert (Hmult : forall tk, ues_of tk <> Some sh ->
      multiplicity tk ({[+ Shared sh +]} ⊎ r' ⊎ fr) = multiplicity tk ({[+ Shared sh +]} ⊎ r0 ⊎ fr)).
    { intros tk Htk. rewrite !multiplicity_disj_union. by rewrite (about_other sh r'), (about_other sh r0). }
    apply (world_ues _ _ _ w ({[+ Shared sh +]} ⊎ r0 ⊎ fr) _ sh m c); try done.
    - unfold credits. by rewrite Hmult.
    - by rewrite Hmult.
    - intros tk _. apply Hmult. }
  split.
  - intros w fr w' x HI E. unfold engine_ok, spawned_tokens in *. rewrite <-(assoc_L (⊎)) in HI.
    destruct (Hready w _ HI) as (m & m' & c & y & r' & Esh & Ef & HI' & HQ).
    unfold ue_context_manager, set_ue_context_manager in E. rewrite Esh in E. cbn [fst snd] in E.
    rewrite Ef in E. simpl in E. injection E as <- <-. exists ({[+ Shared sh +]} ⊎ r').
    split; [|done]. by rewrite <-(assoc_L (⊎)).
  - right. intros w fr HI. unfold engine_ok in HI. rewrite <-(assoc_L (⊎)) in HI.
    destruct (Hready w _ HI) as (m & m' & c & y & r' & Esh & Ef & _).
    unfold ue_context_manager. rewrite Esh. cbn [fst]. rewrite Ef. by eexists.
Qed.

(** [amf_ue_id_generator.increment()] spends the message. *)
Lemma holds_next_id gnb :
  B < 2 ^ 64 ->
  holds never (fun a r' => True /\ covers {[+ Shared (gnb_shared gnb); UeId (gnb_shared gnb) a +]} r')
    {[+ Shared (gnb_shared gnb); Msg +]} (access (next_amf_ue_id gnb)).
Proof.
  intros HB. set (sh := gnb_shared gnb). apply holds_access.
  { intros w. unfold next_amf_ue_id. by destruct (increment _ _). }
  intros w fr HI. destruct (table_known _ _ _ w _ gnb HI) as (m & c & Esh & Hsh); [multiset_solver|].
  fold sh in Hsh. pose proof (wk_ues _ _ _ _ _ HI sh m c Hsh) as (Hu & Hc & Hcr).
  assert (Hcredits : credits w ({[+ Shared sh; Msg +]} ⊎ fr) =
    1 + credits w ({[+ Shared sh; UeId sh c +]} ⊎ fr)).
  { unfold credits. rewrite !multiplicity_disj_union, multiplicity_singleton_eq.
    rewrite !multiplicity_singleton_ne by done. lia. }
  unfold next_amf_ue_id. rewrite Esh. cbn [snd fst increment bits].
  assert (Ew : wrap 64 (c + 1) = c + 1) by (apply wrap_small; unfold fits, credits in *; lia).
  rewrite Ew. exists {[+ Shared sh; UeId sh c +]}. split; [|split; [done|apply covers_refl]]. fold sh.
  assert (Huse : forall tk, tk <> Msg -> ues_of tk <> Some sh ->
    multiplicity tk ({[+ Shared sh; UeId sh c +]} ⊎ fr) = multiplicity tk ({[+ Shared sh; Msg +]} ⊎ fr)).
  { intros tk H1 H2. rewrite !multiplicity_disj_union, (multiplicity_singleton_ne _ Msg) by done.
    rewrite (multiplicity_singleton_ne _ (UeId sh c)) by (by intros ->). lia. }
  assert (Hu0 : ues_ok sh c m ({[+ Shared sh +]} ⊎ fr)).
  { revert Hu. apply ues_ok_local. intros tk Htk. rewrite !multiplicity_disj_union.
    rewrite (multiplicity_singleton_ne _ Msg) by (by intros ->). lia. }
  destruct (ues_ok_take sh c m _ Hc Hu0) as [Hnew Hu1].
  replace ({[+ UeId sh c +]} ⊎ ({[+ Shared sh +]} ⊎ fr)) with ({[+ Shared sh; UeId sh c +]} ⊎ fr) in Hu1
    by multiset_solver.
  apply (world_ues _ _ _ w ({[+ Shared sh; Msg +]} ⊎ fr) _ sh m c); try done; try lia.
  - pose proof (wk_solo _ _ _ _ _ HI) as Hs.
    replace ({[+ Shared sh; UeId sh c +]} ⊎ fr) with ({[+ UeId sh c +]} ⊎ ({[+ Shared sh +]} ⊎ fr))
      by multiset_solver.
    apply solo_add; [done|]. eapply solo_sub; [|exact Hs]. multiset_solver.
  - rewrite !multiplicity_disj_union, multiplicity_singleton_eq, !multiplicity_singleton_ne by done. lia.
Qed.

(** An access that is always ready, as [holds_ues] wants it. *)
Lemma holds_ues_access {X : Type} L (P : X -> Prop) (need : X -> gmultiset token) gnb r0
    (f : manager UeContext MU -> manager UeContext MU * X) :
  let sh := gnb_shared gnb in
  about sh r0 -> (forall x, about sh (need x)) ->
  (forall fr m c, solo (r0 ⊎ fr) -> ues_ok sh c m (r0 ⊎ fr) ->
    P (f m).2 /\ solo (need (f m).2 ⊎ fr) /\ ues_ok sh c (f m).1 (need (f m).2 ⊎ fr)) ->
  holds L (fun x r' => P x /\ r' = {[+ Shared sh +]} ⊎ need x) ({[+ Shared sh +]} ⊎ r0)
    (on_ues gnb (access f)).
Proof.
  intros sh Hr0 Hneed Hf. apply holds_ues; [done|]. intros fr m c Hs Hu.
  destruct (Hf fr m c Hs Hu) as (HP & Hs' & Hu'). destruct (f m) as [m' x] eqn:E.
  exists m', x, (need x). done.
Qed.

Lemma about_one sh tk : ues_of tk = Some sh -> about sh {[+ tk +]}.
Proof. intros Htk u ->%gmultiset_elem_of_singleton. done. Qed.

Lemma about_none sh : about sh ∅.
Proof. intros u Hu. multiset_solver. Qed.


Lemma about_union sh r r' : about sh r -> about sh r' -> about sh (r ⊎ r').
Proof. intros H1 H2 tk [?|?]%gmultiset_elem_of_disj_union; auto. Qed.

(** [insert_async]: the queue is in the table, or the caller has it back because
    another is. *)
Lemma holds_insert_queue L gnb p i :
  let sh := gnb_shared gnb in
  holds L (fun res r' => match res with Ok _ => True | Err (j, q) => j = i /\ q = p end /\
      r' = {[+ Shared sh +]} ⊎ ({[+ Filed sh i +]} ⊎
        match res with Ok _ => {[+ Handle sh p +]} | Err _ => {[+ Fresh sh p 2 i +]} end))
    ({[+ Shared sh +]} ⊎ {[+ Fresh sh p 2 i +]}) (on_ues gnb (access (on_queues (scc_insert i p)))).
Proof.
  intros sh.
  apply (holds_ues_access L (fun res => match res with Ok _ => True | Err (j, q) => j = i /\ q = p end)
    (fun res => {[+ Filed sh i +]} ⊎ match res with Ok _ => {[+ Handle sh p +]} | Err _ => {[+ Fresh sh p 2 i +]} end));
    [by apply about_one|intros [u|e]; by apply about_union; apply about_one|].
  intros fr m c Hs Hu. apply solo_absent in Hs as Hout; [|done]. rewrite <-(assoc_L (⊎)).
  destruct (view (queues m) !! i) as [q|] eqn:Hi.
  - destruct (scc_insert_taken i p (queues m) q Hi) as [Ev Er]. cbn [on_queues snd fst].
    rewrite Er. split_and!; [done|done|by apply solo_add|].
    apply ues_ok_know; [cbn [queues]; rewrite Ev; by eexists|].
    destruct Hu as [Ha Hb Hc Hd He Hf Hk]. by split; cbn [queues objects]; rewrite ?Ev.
  - destruct (scc_insert_fresh i p (queues m) Hi) as [Ev Er]. pose proof (ues_ok_file _ _ _ _ _ _ Hu Hout Hi).
    cbn [on_queues snd fst] in *. rewrite Er. split_and!; [done| |].
    + apply solo_add; [done|]. by eapply solo_swap; [| |exact Hs].
    + apply ues_ok_know; [|done]. cbn [queues]. rewrite Ev, lookup_insert_eq. by eexists.
Qed.

Lemma holds_drop_handle L gnb p k :
  let sh := gnb_shared gnb in
  about sh k ->
  holds L (fun _ r' => True /\ r' = {[+ Shared sh +]} ⊎ k) ({[+ Shared sh +]} ⊎ ({[+ Handle sh p +]} ⊎ k))
    (on_ues gnb (write_state (drop_queue p))).
Proof.
  intros sh Hk. apply (holds_ues_access L (fun _ => True) (fun _ => k));
    [apply about_union; [by apply about_one|done]|done|].
  intros fr m c Hs Hu. rewrite <-(assoc_L (⊎)) in Hs, Hu. split; [done|]. split.
  - eapply solo_sub; [|exact Hs]. multiset_solver.
  - by apply ues_ok_drop_filed.
Qed.

(** [contains_async]. *)
Lemma holds_contains L gnb i :
  let sh := gnb_shared gnb in
  holds L (fun known r' => True /\ r' = {[+ Shared sh +]} ⊎ (if known : bool then {[+ Filed sh i +]} else ∅))
    ({[+ Shared sh +]} ⊎ ∅) (on_ues gnb (contains_context i)).
Proof.
  intros sh. apply (holds_ues_access L (fun _ => True) (fun known => if known : bool then {[+ Filed sh i +]} else ∅));
    [apply about_none|intros [|]; [by apply about_one|apply about_none]|].
  intros fr m c Hs Hu. split; [done|]. rewrite (left_id_L ∅ (⊎)) in Hs, Hu. cbn [fst snd].
  rewrite scc_contains_view. destruct (view (queues m) !! i) as [p|] eqn:Hv; simpl; [|by rewrite (left_id_L ∅ (⊎))].
  split; [by apply solo_add|]. apply ues_ok_know; [by rewrite Hv|done].
Qed.

(** What a rule leaves when it dies or waits, with the tokens kept aside. *)
Ltac lost := let b := fresh "b" in let r := fresh "r" in let Hr := fresh "Hr" in
  intros b r Hr; first [destruct Hr; fail |
    try first [apply sending_left in Hr | apply sending_pdu_left in Hr];
    lazymatch goal with |- left_with _ _ (r ⊎ ?k) =>
      apply (covers_frame _ _ _ k) in Hr; eapply covers_trans; [|exact Hr]; covering end].

(** [add_context] files the UE, or dies when its RAN UE id is taken. *)
Lemma holds_add_context gnb (x : UeContext) :
  let sh := gnb_shared gnb in
  gnb_shared (ue_gnb x) = sh ->
  holds (left_with {[+ Filed sh (ran_ue_ngap_id x) +]})
    (fun _ r' => True /\ covers {[+ Shared sh; Filed sh (ran_ue_ngap_id x) +]} r')
    ({[+ Shared sh +]} ⊎ {[+ UeId sh (amf_ue_ngap_id x) +]}) (on_ues gnb (add_context debug x)).
Proof.
  intros sh. set (i := ran_ue_ngap_id x). intros Hx.
  unfold add_context, on_ues. change (identify x) with i.
  eapply owns_zoom_bind.
  { apply (holds_ues_access _ (fun _ => True) (fun p => {[+ Fresh sh p 1 i +]}) gnb
      {[+ UeId sh (amf_ue_ngap_id x) +]}); [by apply about_one|intros; by apply about_one|].
    intros fr m c Hs Hu. apply solo_absent in Hs as Hout; [|done].
    destruct (ues_ok_alloc sh c m x fr Hx Hout Hu) as [Hnew Hu'].
    split_and!; [done|by eapply solo_swap; [| |exact Hs]|done]. }
  intros p r [_ ->]. eapply owns_zoom_bind.
  { apply (holds_ues_access _ (fun _ => True) (fun _ => {[+ Fresh sh p 2 i +]}) gnb {[+ Fresh sh p 1 i +]});
      [by apply about_one|intros; by apply about_one|].
    intros fr m c Hs Hu. split; [done|]. by apply ues_ok_clone_fresh. }
  intros [] r [_ ->]. eapply owns_zoom_bind; [apply holds_insert_queue|].
  intros [u|[j q]] r [Hq ->].
  - rewrite (comm_L (⊎) {[+ Filed _ _ +]}). eapply owns_zoom_bind; [apply holds_drop_handle; by apply about_one|].
    intros [] r [_ ->]. split; [done|covering].
  - destruct Hq as [-> ->]. eapply owns_zoom_bind.
    { apply (holds_ues_access _ (fun _ => True)
        (fun _ => {[+ Filed sh i +]} ⊎ {[+ Fresh sh p 2 i +]}) gnb ({[+ Filed sh i +]} ⊎ {[+ Fresh sh p 2 i +]}));
        [by apply about_union; apply about_one|intros; by apply about_union; apply about_one|done]. }
    intros n r [_ ->]. case_match; [covering|]. eapply owns_zoom_bind.
    { apply (holds_ues_access _ (fun v => v = None) (fun _ => {[+ Fresh sh p 1 i +]} ⊎ {[+ Filed sh i +]}));
        [by apply about_union; apply about_one|intros; by apply about_union; apply about_one|].
      intros fr m c. rewrite (comm_L (⊎) {[+ Filed _ _ +]}), <-!(assoc_L (⊎)). apply ues_ok_into_inner. }
    intros v r [-> ->]. simpl. covering.
Qed.

(** [with_context] of a closure that returns at once never waits. *)
Lemma holds_with_context {O : Type} gnb i (o : O) :
  holds never (fun _ r' => True /\ covers {[+ Shared (gnb_shared gnb) +]} r') {[+ Shared (gnb_shared gnb) +]}
    (on_ues gnb (with_context i (Finish o))).
Proof.
  set (sh := gnb_shared gnb). unfold with_context, on_ues.
  apply (owns_mono _ _ harmless parks_frame _ _ ({[+ Shared sh +]} ⊎ ∅)); [apply closed_never|apply tolerant_need|covering|].
  eapply owns_zoom_bind.
  { apply (holds_ues_access _ (fun _ => True)
      (fun q => match q with Some p => {[+ Handle sh p +]} | None => ∅ end));
      [apply about_none|intros [p|]; [by apply about_one|apply about_none]|].
    intros fr m c Hs Hu. split; [done|]. rewrite (left_id_L ∅ (⊎)) in Hs, Hu. rewrite view_read.
    destruct (view (queues m) !! i) as [p|] eqn:Hv; simpl; [|by rewrite (left_id_L ∅ (⊎))].
    split; [by apply solo_add|]. by apply (ues_ok_clone_filed _ _ _ _ _ i). }
  intros [p|] r [_ ->]; [|split; [done|covering]]. eapply owns_zoom_bind.
  { apply (holds_ues _ (fun res r' => res = Some o /\ r' = {[+ Shared sh +]} ⊎ {[+ Handle sh p +]}) gnb
      {[+ Handle sh p +]}); [by apply about_one|].
    intros fr m c Hs Hu. destruct (ues_ok_call sh c m _ p o Hu ltac:(multiset_solver)) as (m' & Ec & Hu').
    exists m', (Some o), {[+ Handle sh p +]}. split_and!; try done. by apply about_one. }
  intros res r [-> ->]. cbn [unwrap_option lift_outcome prog_bind].
  rewrite <-(right_id_L ∅ (⊎) {[+ Handle _ _ +]}).
  eapply owns_zoom_bind; [apply holds_drop_handle, about_none|]. intros [] r [_ ->]. split; [done|covering].
Qed.

(** ** Bodies *)

(** What an attempt at a set-up owns when it is over: on success the gNB is ready
    to be registered. *)
Definition attempted id (res : Result GnbContext NgapSetupError) (r : gmultiset token) : Prop :=
  match res with
  | Ok g => gnb_tnla g = id /\ exists data, setup_from data (global_ran_node_id g) /\
      covers {[+ Assoc id; Answered id; Shared (gnb_shared g); Setup (gnb_shared g); Conn id (Some data) +]} r
  | Err _ => exists seen, covers {[+ Assoc id; Conn id seen +]} r
  end.

Lemma tolerant_attempted id : tolerant harmless (attempted id).
Proof.
  intros [g|e] r r' Hr; [intros (H1 & data & H2 & H3)|intros (seen & H3)].
  - split; [done|]. exists data. split; [done|by eapply covers_trans].
  - exists seen. by eapply covers_trans.
Qed.

(** Run a call by its rule, setting the tokens [k] aside. *)
Tactic Notation "call" uconstr(k) uconstr(rule) :=
  eapply (owns_call _ _ harmless parks_frame _ _ _ _ _ _ k);
  [first [apply closed_left | apply closed_never | apply closed_clean]
  |first [apply tolerant_need | apply tolerant_attempted | apply tolerant_done
    | solve [intros ? ? ?; apply covers_closed] | solve [intros [?|] ? ?; apply covers_closed]]
  | |apply rule| |]; [try covering|..]; try solve [lost].

(** The answer went out, if there is one. *)
Definition out_tokens id pdu : gmultiset token :=
  match codec_to_bytes pdu with Ok data => {[+ Sent id data +]} | Err _ => ∅ end.

Lemma holds_encode id pdu :
  holds (sending_pdu id pdu) (fun _ r' => True /\ covers ({[+ Assoc id +]} ⊎ out_tokens id pdu) r') {[+ Assoc id +]}
    (encode_and_write_ngap_pdu id pdu).
Proof.
  unfold encode_and_write_ngap_pdu, out_tokens. destruct (codec_to_bytes pdu) as [data|e] eqn:Ed.
  - eapply owns_bind; [eapply owns_weaken; [apply holds_tnla_write| |done]|].
    + intros b r Hr. by exists data.
    + intros res r [_ Hr]. by split.
  - split; [done|covering].
Qed.

Lemma holds_encode_any id pdu :
  holds (left_with {[+ Assoc id +]}) (fun _ r' => True /\ covers {[+ Assoc id +]} r') {[+ Assoc id +]}
    (encode_and_write_ngap_pdu id pdu).
Proof.
  eapply owns_weaken; [apply holds_encode|apply sending_pdu_left|]. intros a r [_ Hr]. split; [done|].
  eapply covers_trans; [|exact Hr]. unfold out_tokens. destruct (codec_to_bytes pdu); covering.
Qed.

Lemma holds_answer id resp c :
  cfg = Some c -> build_response debug c = Returns resp ->
  holds (left_with {[+ Assoc id +]}) (fun res r' => True /\
      covers match res with Ok _ => {[+ Assoc id; Answered id +]} | Err _ => {[+ Assoc id +]} end r')
    {[+ Assoc id +]} (encode_and_write_ngap_pdu id (to_ngap_pdu resp)).
Proof.
  intros Hc Hr. unfold encode_and_write_ngap_pdu.
  destruct (codec_to_bytes (to_ngap_pdu resp)) as [data|e] eqn:Ed; [|split; [done|covering]].
  call ∅ holds_tnla_answer.
  - by exists c, resp.
  - intros [u|e] _; simpl; (split; [done|covering]).
Qed.

(** [handle_request] of the NG Setup Request keeps the association and the
    table of the gNB, and succeeds only with this AMF's response and with the
    node's id. *)
Definition setup_handled gnb req
    (a : GnbContext * Result NgSetupResponse (NgapResponseError NgSetupFailure NgSetupError)) : Prop :=
  gnb_tnla a.1 = gnb_tnla gnb /\ gnb_shared a.1 = gnb_shared gnb /\
  match a.2 with
  | Ok resp => global_ran_node_id a.1 = rq_global_ran_node_id req /\
      exists c, cfg = Some c /\ build_response debug c = Returns resp
  | Err _ => True
  end.

Lemma holds_ng_setup gnb req :
  holds (left_with ∅) (fun a r' => setup_handled gnb req a /\ covers ∅ r') ∅ (handle_ng_setup debug gnb req).
Proof.
  unfold handle_ng_setup. call ∅ (holds_read never (fun _ => True) ∅); [done|].
  intros [|] _; [split; [done|covering]|].
  destruct (collect_supported_tais _ _) as [tais|e]; [|split; [done|covering]].
  apply (owns_call _ _ harmless parks_frame (fun c => cfg = Some c) (fun _ => ∅) (left_with ∅) _ _ ∅ ∅);
    [apply closed_left|apply tolerant_need|covering| |lost|].
  - unfold get_global_app_context. call ∅ (holds_read never (fun c => c = cfg) ∅).
    { intros w fr HI. apply (wk_config _ _ _ _ _ HI). }
    intros c ->. destruct cfg; simpl; [split; [done|covering]|covering].
  - intros c Hc. case_match; [split; [done|covering]|].
    destruct (build_response debug c) as [resp|] eqn:Er; simpl; [|covering].
    split; [|covering]. split_and!; [done..|]. split; [done|by exists c].
Qed.

(** The answer that goes out belongs to the result. *)
Definition answer_fits id gnb data (a : Result GnbContext NgapSetupError * NgapPdu) : Prop :=
  match a.1 with
  | Ok g => gnb_tnla g = id /\ gnb_shared g = gnb_shared gnb /\ setup_from data (global_ran_node_id g) /\
      exists c resp, cfg = Some c /\ build_response debug c = Returns resp /\ a.2 = to_ngap_pdu resp
  | Err _ => True
  end.

Lemma holds_answer_out id gnb data (a : Result GnbContext NgapSetupError * NgapPdu) r :
  answer_fits id gnb data a ->
  covers {[+ Assoc id; Shared (gnb_shared gnb); Setup (gnb_shared gnb); Conn id (Some data) +]} r ->
  holds (left_with ∅) (attempted id) r
    (do! written := encode_and_write_ngap_pdu id a.2 in
     match map_err SetupWriteError written with Err e => Ret (Err e) | Ok _ => Ret a.1 end).
Proof.
  destruct a as [[g|e] resp]; intros Hfit Hr; cbn [fst snd answer_fits] in *.
  - destruct Hfit as (Hid & Hsh & Hfrom & c & rs & Hc & Hrs & ->).
    call {[+ Shared (gnb_shared gnb); Setup (gnb_shared gnb); Conn id (Some data) +]} (holds_answer id rs c Hc Hrs);
      [covered|].
    intros [u|e] _.
    + split; [done|]. exists data. split; [done|]. rewrite Hsh. covering.
    + exists (Some data). covering.
  - call {[+ Conn id (Some data) +]} holds_encode_any; [covered|].
    intros [u|e'] _; exists (Some data); covering.
Qed.

Lemma holds_try id seen :
  holds (left_with ∅) (attempted id) {[+ Assoc id; Conn id seen +]} (try_ng_setup debug id).
Proof.
  unfold try_ng_setup.
  apply (owns_call _ _ harmless parks_frame (fun g => gnb_tnla g = id)
    (fun g => {[+ Shared (gnb_shared g); Setup (gnb_shared g) +]}) never _ _ ∅ {[+ Assoc id; Conn id seen +]});
    [apply closed_left|apply tolerant_attempted|covering| |lost|].
  { apply holds_access; [done|]. intros w fr HI. rewrite (left_id_L ∅ (⊎)) in HI.
    exists {[+ Shared (w_next_shared w); Setup (w_next_shared w) +]}.
    split; [|split; [done|apply covers_refl]]. rewrite <-(assoc_L (⊎)). by apply world_new_gnb. }
  intros gnb Hid. rewrite Hid.
  call {[+ Shared (gnb_shared gnb); Setup (gnb_shared gnb) +]} (holds_read_early id seen).
  intros [[data|]|e] _; cbn [map_err]; [|exists seen; covering..].
  apply (owns_call _ _ harmless parks_frame (answer_fits id gnb data) (fun _ => ∅) (left_with ∅) _ _ ∅
    {[+ Assoc id; Shared (gnb_shared gnb); Setup (gnb_shared gnb); Conn id (Some data) +]});
    [apply closed_left|apply tolerant_attempted|covering| |lost|].
  - unfold decode_ngap_pdu. destruct (pdu_from_bytes data) as [[m| |]|e] eqn:Ed; try (split; [done|covering]).
    + destruct m as [req| | | |]; try (split; [done|covering]).
      call ∅ holds_ng_setup. intros [g [resp|e]] (H1 & H2 & H3); (split; [|covering]); [|done].
      destruct H3 as (H3 & c & Hc & Hr). simpl in *. split_and!; [congruence|done|by exists req|]. by exists c, resp.
    + destruct (build_criticality_diagnostics data e). split; [done|covering].
  - intros [res resp] Ha. apply (holds_answer_out id gnb data (res, resp) _ Ha). covering.
Qed.

Definition attempts_left id (res : option GnbContext) r : Prop :=
  match res with Some g => attempted id (Ok g) r | None => covers ∅ r end.

Lemma holds_attempts n id seen :
  holds (left_with ∅) (attempts_left id) {[+ Assoc id; Conn id seen +]} (ng_setup_attempts debug n id).
Proof.
  revert seen. induction n as [|n IH]; intros seen; [simpl; covering|]. cbn [ng_setup_attempts].
  eapply owns_bind; [apply holds_try|]. intros [g|e] r Hr; [done|]. destruct Hr as [seen' Hr].
  eapply (owns_mono _ _ harmless parks_frame); [apply closed_left| |exact Hr|apply IH].
  intros [g|] r1 r2 Hs; [by apply tolerant_attempted|by apply covers_closed].
Qed.

(** ** Tasks *)

(** Nothing is left that had to be settled. *)
Definition harmless_end : unit -> gmultiset token -> Prop := fun _ => covers ∅.

Lemma tolerant_end : tolerant harmless harmless_end.
Proof. intros a r r'. apply covers_closed. Qed.

Lemma known_knowledge gnb tk : tk ∈ known gnb -> knowledge tk /\ tk ∈ known gnb.
Proof. split; [|done]. unfold known in *. destruct tk; try done; exfalso; multiset_solver. Qed.

Lemma holds_spawn_loop g r :
  covers (known g) r -> holds (left_with ∅) harmless_end r (write_state (spawn_task (SpawnNgapLoop g))).
Proof.
  intros Hr. eapply (owns_mono _ _ harmless parks_frame); [apply closed_left|apply tolerant_end|exact Hr|].
  rewrite <-(right_id_L ∅ (⊎) (known g)). eapply owns_weaken.
  - apply (holds_spawn (SpawnNgapLoop g) (known g) (known g) ∅); [simpl; multiset_solver|].
    intros tk Hin. destruct (known_knowledge g tk Hin). split; [done|multiset_solver].
  - done.
  - intros [] r' [_ Hr']. eapply covers_trans; [|exact Hr']. unfold known. covering.
Qed.

(** Registering the gNB. *)
Lemma holds_insert_gnb g data :
  setup_from data (global_ran_node_id g) ->
  holds (left_with ∅) (fun res r => match res with Ok _ => covers (known g) r | Err _ => covers ∅ r end)
    ({[+ Conn (gnb_tnla g) (Some data); Setup (gnb_shared g) +]} ⊎
     {[+ Answered (gnb_tnla g); Assoc (gnb_tnla g); Shared (gnb_shared g) +]}) (insert_gnb g).
Proof.
  intros Hfrom. apply holds_access; [done|]. intros w fr HI. cbn [fst snd].
  destruct (view (w_gnb_contexts w) !! global_ran_node_id g) as [g'|] eqn:Hv.
  - destruct (scc_insert_taken _ g _ g' Hv) as [Ev Er]. rewrite Er.
    eexists. split; [apply world_fewer_gnbs; [|exact HI]|covering]. intros k g1. unfold registered. by rewrite Ev.
  - destruct (scc_insert_fresh _ g _ Hv) as [Ev Er]. rewrite Er. rewrite <-(assoc_L (⊎)) in HI.
    exists ({[+ Bound (gnb_tnla g) (gnb_shared g) +]} ⊎
      {[+ Answered (gnb_tnla g); Assoc (gnb_tnla g); Shared (gnb_shared g) +]}).
    split; [|unfold known; covering]. rewrite <-(assoc_L (⊎)).
    apply (world_insert _ _ _ w _ g data); [done|multiset_solver|done|done].
Qed.

(** [start_ngap_processing]. *)
Lemma holds_start id :
  holds (left_with ∅) harmless_end {[+ Assoc id; Conn id None +]} (start_ngap_processing debug id).
Proof.
  unfold start_ngap_processing. eapply owns_bind; [apply holds_attempts|].
  intros [g|] r; [|done]. intros (Hid & data & Hfrom & Hr). subst id.
  eapply (owns_mono _ _ harmless parks_frame _ _
    ({[+ Conn (gnb_tnla g) (Some data); Setup (gnb_shared g) +]} ⊎
     {[+ Answered (gnb_tnla g); Assoc (gnb_tnla g); Shared (gnb_shared g) +]}));
    [apply closed_left|apply tolerant_end|eapply covers_trans; [|exact Hr]; covering|].
  eapply owns_bind; [by apply holds_insert_gnb|]. intros [u|e] r' Hr'; [|done].
  by apply holds_spawn_loop.
Qed.

(** The loop passes on what is read. *)
Lemma holds_loop gnb : holds (left_with ∅) harmless_end (known gnb) (ngap_loop_task gnb).
Proof.
  unfold ngap_loop_task, run_ngap_loop.
  eapply (owns_bind _ _ _ (fun res r => match res with None => covers (known gnb) r | Some _ => covers ∅ r end)).
  - call ∅ holds_read_message; [unfold known; lost|].
    intros [[data|]|e] _; [|unfold known; simpl; covering..]. cbn [map_err].
    call ∅ (holds_spawn (SpawnMessage gnb data) (known gnb) (known gnb)); [done|..].
    + intros tk Hin. destruct (known_knowledge gnb tk Hin). split; [done|multiset_solver].
    + intros [] _. unfold known. covering.
  - intros [[[]|e]|] r Hr; [|done|by apply holds_spawn_loop].
    apply holds_access; [done|]. intros w fr HI. exists r. split; [|done].
    apply world_fewer_gnbs; [|done]. intros k g.
    destruct (view_remove (global_ran_node_id gnb) (w_gnb_contexts w)) as [Ev _]. unfold registered.
    rewrite Ev. by intros [_ Hk]%lookup_delete_Some.
Qed.

(** What shows that an Initial UE Message is settled. *)
Definition filed_tokens gnb (m : InitialUeMessage) : gmultiset token :=
  match map_tmsi (iu_five_g_s_tmsi m) with
  | Returns _ => {[+ Filed (gnb_shared gnb) (iu_ran_ue_ngap_id m) +]}
  | Panics => ∅
  end.

(** An Initial UE Message spends the message on at most one AMF UE id. *)
Lemma holds_initial_ue gnb req :
  B < 2 ^ 64 ->
  holds (left_with (filed_tokens gnb req)) (fun _ => covers (filed_tokens gnb req))
    {[+ Shared (gnb_shared gnb); Msg +]} (handle_initial_ue debug gnb req).
Proof.
  intros HB. unfold handle_initial_ue, filed_tokens.
  destruct (map_tmsi _) as [tmsi|]; cbn [lift_outcome prog_bind]; set (sh := gnb_shared gnb).
  all: eapply (owns_call _ _ harmless parks_frame (fun _ => True)
    (fun known : bool => {[+ Shared sh +]} ⊎ (if known then {[+ Filed sh (iu_ran_ue_ngap_id req) +]} else ∅))
    never _ _ ({[+ Shared sh +]} ⊎ ∅) {[+ Msg +]});
    [apply closed_left|intros ? ? ?; apply covers_closed|covering| |lost|].
  1,3: eapply owns_weaken; [apply holds_contains|done|]; intros a r [_ ->]; split; [done|apply covers_refl].
  all: intros [|] _; [simpl; covering|].
  all: call ∅ (holds_next_id gnb HB); intros a _; fold sh.
  2: { simpl. covering. }
  set (x := UeContext_new _ a _ gnb tmsi Deregistered).
  call ∅ (holds_add_context gnb x); [done|].
  intros [u|[]] _; [|simpl; covering..].
  call {[+ Filed sh (iu_ran_ue_ngap_id req) +]} holds_with_context.
  intros [|] _; simpl; covering.
Qed.

(** With one message in hand it is enough to settle that. *)
Lemma clean_one id sh message r :
  paid id sh message r ->
  (forall id' sh' message', Owe id' sh' message' ∈ r -> Owe id' sh' message' = Owe id sh message) -> clean r.
Proof. intros Hp Ho id' sh' message' [= -> -> ->]%Ho. done. Qed.

(** Answering settles what only asks for an answer. *)
Lemma holds_reply gnb message (e : ErrorIndication) :
  (forall r, (forall data, codec_to_bytes (to_ngap_pdu e) = Ok data -> Sent (gnb_tnla gnb) data ∈ r) ->
    paid (gnb_tnla gnb) (gnb_shared gnb) message r) ->
  holds clean_at done_with (task_tokens (SpawnMessage gnb message))
    (do! _ := encode_and_write_ngap_pdu (gnb_tnla gnb) (to_ngap_pdu e) in Ret ()).
Proof.
  intros Hpaid. simpl. set (id := gnb_tnla gnb). set (sh := gnb_shared gnb).
  set (k := {[+ Shared sh; Bound id sh; Msg; Owe id sh message +]} : gmultiset token).
  assert (Hclean : forall r, (forall data, codec_to_bytes (to_ngap_pdu e) = Ok data -> Sent id data ∈ r) ->
    (forall tk, tk ∈ r -> tk = Assoc id \/ exists data, tk = Sent id data) -> clean (r ⊎ k)).
  { intros r Hr Ho. apply (clean_one id sh message).
    - apply Hpaid. intros data Ed. specialize (Hr data Ed). unfold id in Hr. multiset_solver.
    - intros id' sh' m'. unfold k. rewrite !gmultiset_elem_of_disj_union, ?gmultiset_elem_of_singleton.
      intros [[?|[? ?]]%Ho|?]; naive_solver. }
  call k holds_encode; [unfold known, k; covering|..].
  - intros b r (data & Ed & -> & Hr). unfold clean_at.
    apply (clean_covers ({[+ Assoc id; Sent id data +]} ⊎ k)).
    + apply (covers_frame _ _ _ (k ⊎ {[+ Sent id data +]})) in Hr. rewrite (assoc_L (⊎) r) in Hr. covered.
    + apply Hclean; [intros d Ed'; assert (d = data) as -> by congruence; multiset_solver|].
      intros tk. rewrite gmultiset_elem_of_disj_union, !gmultiset_elem_of_singleton. naive_solver.
  - intros u _. apply Hclean.
    + intros data Ed. unfold out_tokens. rewrite Ed. multiset_solver.
    + intros tk. unfold out_tokens. destruct (codec_to_bytes _) as [data|];
        rewrite gmultiset_elem_of_disj_union, ?gmultiset_elem_of_singleton; [naive_solver|multiset_solver].
Qed.

Lemma holds_message gnb message :
  B < 2 ^ 64 -> holds clean_at done_with (task_tokens (SpawnMessage gnb message)) (message_task debug gnb message).
Proof.
  intros HB. unfold message_task, decode_ngap_pdu.
  destruct (pdu_from_bytes message) as [pdu|err] eqn:Ed.
  2: { destruct (build_criticality_diagnostics message err) as [e ce] eqn:Ee. apply (holds_reply gnb message e).
    intros r Hr. unfold paid, settles. by rewrite Ed, Ee. }
  assert (Hother : (forall m, pdu <> InitiatingMessage (MsgInitialUeMessage m)) ->
    holds clean_at done_with (task_tokens (SpawnMessage gnb message))
      (do! _ := encode_and_write_ngap_pdu (gnb_tnla gnb) (to_ngap_pdu (new_semantic_error None None)) in Ret ())).
  { intros Hno. apply holds_reply. intros r Hr. unfold paid, settles. rewrite Ed.
    destruct pdu as [[]| |]; try done. by destruct (Hno m). }
  destruct pdu as [m| |]; [|by apply Hother..]. destruct m as [|m| | |]; try (by apply Hother).
  clear Hother. cbn [ngap_route prog_bind task_tokens]. set (id := gnb_tnla gnb). set (sh := gnb_shared gnb).
  set (k := {[+ Assoc id; Bound id sh; Owe id sh message +]} : gmultiset token).
  assert (Hclean : clean (filed_tokens gnb m ⊎ k)).
  { apply (clean_one id sh message).
    - unfold paid, settles. rewrite Ed. unfold filed_tokens. destruct (map_tmsi _); [|done]. multiset_solver.
    - intros id' sh' m'. unfold filed_tokens, k. destruct (map_tmsi _);
        rewrite !gmultiset_elem_of_disj_union, ?gmultiset_elem_of_singleton; [naive_solver|multiset_solver]. }
  apply (owns_call _ _ harmless parks_frame (fun _ => True) (fun _ => filed_tokens gnb m)
    (left_with (filed_tokens gnb m)) _ _ {[+ Shared sh; Msg +]} k);
    [apply closed_clean|apply tolerant_done|unfold known, k; covering| | |].
  - eapply owns_bind; [by apply holds_initial_ue|]. intros res r Hr. by split.
  - intros b r Hr. apply clean_left. eapply clean_covers; [by apply covers_frame|done].
  - intros [resp|] _; [|done]. call (filed_tokens gnb m ⊎ {[+ Bound id sh; Owe id sh message +]}) holds_encode_any;
      [unfold k; covering|..].
    { intros b r Hr. apply clean_left. eapply clean_covers; [|exact Hclean]. unfold k.
      eapply covers_trans; [|by apply covers_frame]. covering. }
    intros u _. eapply clean_covers; [|exact Hclean]. unfold k. covering.
Qed.

Lemma clean_end r : covers ∅ r -> clean r.
Proof. intros Hr id sh message Hin. eapply covers_owe in Hin; [|exact Hr]. multiset_solver. Qed.

Lemma holds_task (task : spawned_task) :
  B < 2 ^ 64 -> holds clean_at done_with (task_tokens task) (task_body debug task).
Proof.
  intros HB. destruct task as [id|gnb|gnb message]; cbn [task_body].
  - eapply owns_weaken; [apply holds_start|intros b r ?; by apply clean_left, clean_end|intros ?; apply clean_end].
  - eapply owns_weaken; [apply holds_loop|intros b r ?; by apply clean_left, clean_end|intros ?; apply clean_end].
  - by apply holds_message.
Qed.

End engine_rules.
