(* ===== verification/AmfSafety.v ===== *)
(** * What holds of the AMF at every moment, and at rest

    The ghost-token invariant of [EngineInvariant] along the steps of the whole
    AMF, by the rules of [EngineRules]: what the tables of gNBs and UEs look like
    under every schedule, what can still be waiting when nothing moves, and what
    has become of every message by then. *)

From S2P Require Import Prelude Async Ghost Counter Convert ConvertProps SccMap ContextQueue ContextManager.
From S2P Require Import ContextManagerProps Network NetworkProps NgapMessages NgapContext Tokens NgapEngine.
From S2P Require Import NgapExample EngineProps EngineTermination EngineInvariant EngineRules.

#[local] Open Scope Z_scope.

Section amf_safety.
Context `{NM : NgapModels} `{NC : !NgapCodec} `{HX : HexCodec} `{BV : BitVecOps}.
Context {Stream MG MU : Type} `{SC : Sctp Stream} `{FS : !FiniteStream Stream} `{SL : !StreamLog Stream}.
Context `{GM : !SccHashMap GlobalRanNodeId GnbContext MG} `{GL : !SccLaws GlobalRanNodeId GnbContext MG}
  `{UM : !SccHashMap Z nat MU} `{UL : !SccLaws Z nat MU}.
Context (debug : bool) (cfg : option AmfConfiguration).

Notation W := (world Stream MG MU).
Notation amf := (amf (Stream := Stream) (MG := MG) (MU := MU)).
Implicit Types (w : W) (s : amf) (ρ : gmultiset token) (arriving : list (Result Stream IoError)).

(** AMF UE ids stay below the range of their counter. *)
Definition last_id : Z := 2 ^ 64 - 1.

Notation world_ok := (world_ok debug cfg last_id).
Notation engine_ok := (engine_ok debug cfg last_id).
Notation holds := (owns engine_ok parked_at clean_at).

(** The messages that connections will still bring. *)
Definition to_come arriving : gmultiset token := unread_arrived arriving *: {[+ Msg +]}.

Definition owned s : Prop :=
  w_spawned (amf_world s) = [] /\
  exists rs, Forall2 (holds done_with) rs (amf_tasks s) /\
    engine_ok (amf_world s) (total rs ⊎ to_come (amf_arriving s)).

Lemma absorb_owned arriving accepting rs ts w :
  Forall2 (holds done_with) rs ts -> engine_ok w (total rs ⊎ to_come arriving) ->
  owned (absorb debug arriving accepting ts w).
Proof.
  intros Hrs Hw. split; [done|]. exists (rs ++ (task_tokens <$> w_spawned w)). split.
  - apply Forall2_app; [done|]. apply Forall2_fmap, Forall_Forall2_diag, Forall_true.
    intros t. by apply holds_task.
  - unfold EngineRules.engine_ok in *. cbn [absorb amf_world amf_arriving].
    apply (world_elsewhere _ _ _ w); [done..|]. eapply eq_ind; [exact Hw|].
    rewrite total_app. unfold spawned_tokens. cbn [clear_spawned w_spawned fmap list_fmap total foldr].
    multiset_solver.
Qed.

Lemma accept_owned w w' more ρ :
  ids_below (w_network w) -> task_step run_accept w = Some (Ret more, w') ->
  engine_ok w ρ -> engine_ok w' ρ.
Proof.
  intros Hids E Hok. unfold run_accept in E. cbn [task_step] in E.
  destruct (w_incoming w) as [|acc rest] eqn:Hin.
  { destruct (w_cancelled w); [|done]. by injection E as _ <-. }
  unfold ids_below in Hids. destruct (w_network w) as [a c] eqn:En. cbn [fst snd] in Hids.
  destruct (accept_and_create_tnla acc (a, c)) as [[a' c'] r] eqn:Ea. apply accept_outcome in Ea.
  destruct r as [t|e]; simpl in E; injection E as _ <-.
  - destruct Ea as (Hid & -> & Ha). unfold EngineRules.engine_ok in *.
    rewrite spawned_spawn. simpl task_tokens. change (spawned_tokens (set_network _ _)) with (spawned_tokens w).
    replace (ρ ⊎ (spawned_tokens w ⊎ {[+ Assoc (tnla_id t); Conn (tnla_id t) None +]})) with
      ({[+ Assoc (tnla_id t); Conn (tnla_id t) None +]} ⊎ (ρ ⊎ spawned_tokens w)) by multiset_solver.
    apply (world_accept _ _ _ w _ (tnla_id t) t _ rest Hin); [|done|done|].
    + destruct (table w !! tnla_id t) as [u|] eqn:Hu; [|done]. unfold table in Hu. rewrite En in Hu.
      specialize (Hids (tnla_id t) ltac:(by eexists)). lia.
    + simpl. rewrite Ha, Hid. unfold table. by rewrite En.
  - unfold EngineRules.engine_ok in *. change (spawned_tokens (set_network _ _)) with (spawned_tokens w).
    revert Hok. apply world_quiet; try done.
    + split; [|done]. intros id t Ht. exists t. split; [|done]. unfold table in *. simpl. rewrite Ea.
      by rewrite En in Ht.
    + intros id t Ht. exists t. split; [|done]. unfold table in *. simpl. rewrite Ea. by rewrite En in Ht.
    + intros tk Htk _. by left.
    + unfold credits, table. simpl. rewrite Ea, En, Hin. simpl. lia.
Qed.

Lemma owned_step n who s s' :
  amf_ok cfg n (amf_world s) -> amf_step debug who s = Some s' -> owned s -> owned s'.
Proof.
  intros Hok E (Hnone & rs & Hrs & Hw). destruct who as [|i| | |id]; cbn [amf_step] in E.
  - destruct (amf_accepting s); [|done].
    destruct (task_step run_accept (amf_world s)) as [[[more| |] w]|] eqn:Et; simplify_eq.
    apply (absorb_owned _ _ rs); [done|]. revert Hw. by apply accept_owned with more; [apply Hok|].
  - destruct (pool_step i (amf_tasks s, amf_world s)) as [[ts w]|] eqn:Ep; simplify_eq.
    destruct (owns_pool_step engine_ok parked_at clean_at done_with i rs (to_come (amf_arriving s))
      (amf_tasks s, amf_world s) _ Hrs Hw Ep)
      as (rs' & Hrs' & Hw').
    by apply (absorb_owned _ _ rs').
  - destruct (amf_arriving s) as [|acc arriving] eqn:Ha; simplify_eq. split; [done|]. exists rs. split; [done|].
    unfold EngineRules.engine_ok, spawned_tokens in *. cbn [amf_world amf_arriving set_incoming w_spawned].
    revert Hw. apply world_quiet; try done.
    + split; [|done]. intros id t Ht. by exists t.
    + intros id t Ht. by exists t.
    + intros tk Hne _. unfold to_come. rewrite !multiplicity_disj_union, !multiplicity_scalar_mul.
      rewrite !multiplicity_singleton_ne by done. lia.
    + intros tk Htk Hk. left. unfold to_come in *. destruct (decide (tk = Msg)) as [->|Hne]; [done|].
      revert Htk. rewrite !elem_of_multiplicity, !multiplicity_disj_union, !multiplicity_scalar_mul.
      rewrite !multiplicity_singleton_ne by done. lia.
    + unfold credits, to_come. simpl. rewrite !multiplicity_disj_union, !multiplicity_scalar_mul.
      rewrite multiplicity_singleton_eq. unfold unread_arrived. rewrite sum_list_with_app. simpl. 
      change (table (set_incoming _ _)) with (table (amf_world s)). lia.
  - destruct (w_cancelled (amf_world s)); simplify_eq. split; [done|]. exists rs. split; [done|].
    by apply (world_elsewhere _ _ _ (amf_world s)).
  - destruct (peer_step id (amf_world s)) as [w|] eqn:Ep; simplify_eq. unfold peer_step in Ep.
    change (associations (w_network (amf_world s)).1) with (table (amf_world s)) in Ep.
    destruct (table (amf_world s) !! id) as [t|] eqn:Ht; [|done]. simpl in Ep.
    destruct (peer_acts (stream t)) as [st|] eqn:Es; [|done]. simplify_eq/=. split; [done|]. exists rs.
    split; [done|]. change (engine_ok (moved id (with_stream t st) (amf_world s)) (total rs ⊎ to_come (amf_arriving s))).
    apply world_moved; [done| |by apply got_peer|by apply unread_peer|done].
    split_and!; simpl; [by rewrite (sent_peer _ _ Es)|by rewrite (got_peer _ _ Es)|by apply failed_peer].
Qed.

Lemma owned_new arriving :
  Z.of_nat (unread_arrived arriving) + 1 < 2 ^ 64 -> owned (amf_new arriving cfg).
Proof.
  intros Hlen. split; [done|]. exists []. split; [constructor|]. unfold EngineRules.engine_ok.
  change (spawned_tokens (amf_world (amf_new arriving cfg : amf))) with (∅ : gmultiset token).
  change (total []) with (∅ : gmultiset token). cbn [amf_new amf_arriving].
  rewrite (left_id_L ∅ (⊎)), (right_id_L ∅ (⊎)).
  assert (Hmsg : forall tk, tk ∈ to_come arriving -> tk = Msg).
  { intros tk. unfold to_come. rewrite gmultiset_elem_of_scalar_mul, gmultiset_elem_of_singleton. tauto. }
  assert (Hcr : credits (amf_world (amf_new arriving cfg : amf)) (to_come arriving) =
    Z.of_nat (unread_arrived arriving)).
  { unfold credits, to_come, table. cbn [amf_new amf_world w_network w_incoming fst associations Associations_new].
    rewrite multiplicity_scalar_mul, multiplicity_singleton_eq. unfold unread_in, sum_in. rewrite map_fold_empty. simpl. lia. }
  split.
  - by intros tk ->%Hmsg.
  - intros tk Htk. destruct (decide (tk ∈ to_come arriving)) as [->%Hmsg|Hno]; [done|].
    apply not_elem_of_multiplicity in Hno. lia.
  - intros sh. cbn. rewrite lookup_empty. split; [by intros []|lia].
  - done.
  - rewrite Hcr. unfold last_id. lia.
  - intros k g. unfold registered. cbn. by rewrite view_new.
  - intros k k' g g'. unfold registered. cbn. by rewrite view_new.
  - by intros id o o' ?%Hmsg.
  - by intros id sh ?%Hmsg.
  - intros k g. unfold registered. cbn. by rewrite view_new.
  - done.
Qed.

Lemma owned_reachable arriving s :
  Z.of_nat (length arriving) + 1 < 2 ^ 64 -> Z.of_nat (unread_arrived arriving) + 1 < 2 ^ 64 ->
  reachable (amf_step debug) (amf_new arriving cfg) s -> owned s.
Proof.
  intros Hlen Hun Hr. enough (amf_inv cfg s /\ owned s) by tauto. revert Hr.
  apply (invariant_reachable (amf_step debug) (fun s => amf_inv cfg s /\ owned s)).
  - split; [by apply amf_inv_new|by apply owned_new].
  - intros who s1 s2 [Hi Ho] E. split; [by apply (amf_inv_step cfg debug who s1)|].
    destruct Hi as [_ Hok]. by apply (owned_step _ who s1 s2 Hok).
Qed.

(** Nobody can have said more than the counters can tell apart. *)
Definition fits_counters arriving : Prop :=
  Z.of_nat (length arriving) + 1 < 2 ^ 64 /\ Z.of_nat (unread_arrived arriving) + 1 < 2 ^ 64.

(** A UE of [g] under RAN UE id [i]. *)
Definition ue_filed (g : GnbContext) w i (x : UeContext) : Prop :=
  contents (ue_context_manager g w) i = Some (QueueOpen x).

(** C2 (invariant): whatever connects and sends, and however the accept loop,
    the set-ups, the receive loops and the messages are interleaved: every
    registered gNB is filed under its own RAN node id, its connection is in the
    network's table and has been sent this AMF's NG Setup Response; no two
    registered gNBs share a connection or a table of UEs; every UE in a gNB's
    table has an open queue and is filed under its own RAN UE id, it belongs to
    that gNB's table, and no two UEs of a gNB have the same AMF UE id. The
    network's table is consistent, with at most one association per pair of
    addresses, and the configuration is never touched. *)
Theorem gnbs_and_ues_consistent arriving s :
  fits_counters arriving -> reachable (amf_step debug) (amf_new arriving cfg) s ->
  let w := amf_world s in
  (forall k g, registered w k g ->
    global_ran_node_id g = k /\
    (exists t, table w !! gnb_tnla g = Some t /\ answered debug cfg t) /\
    (forall i, is_Some (view (queues (ue_context_manager g w)) !! i) ->
      exists x, ue_filed g w i x /\ ran_ue_ngap_id x = i /\ gnb_shared (ue_gnb x) = gnb_shared g /\
        1 <= amf_ue_ngap_id x < 2 ^ 64) /\
    (forall i j x y, ue_filed g w i x -> ue_filed g w j y ->
      amf_ue_ngap_id x = amf_ue_ngap_id y -> i = j)) /\
  (forall k k' g g', registered w k g -> registered w k' g' ->
    gnb_tnla g = gnb_tnla g' \/ gnb_shared g = gnb_shared g' -> k = k') /\
  associations_ok (w_network w).1 /\ w_config w = cfg.
Proof.
  intros [Hlen Hun] Hr w. destruct (owned_reachable arriving s Hlen Hun Hr) as (_ & rs & _ & Hok). fold w in Hok.
  split; [|split; [apply (wk_apart _ _ _ _ _ Hok)|]].
  2: { by destruct (amf_ok_reachable debug cfg arriving s Hlen Hr). }
  intros k g Hk.
  destruct (wk_gnbs _ _ _ _ _ Hok k g Hk) as (H1 & H2 & H3 & _).
  split_and!; [done|done|..].
  all: simpl in H3; apply (wk_tables _ _ _ _ _ Hok) in H3 as [[m c] E].
  all: assert (Em : ue_context_manager g w = m) by (unfold ue_context_manager, shared_of; by rewrite E).
  all: destruct (wk_ues _ _ _ _ _ Hok _ m c E) as (Hu & Hc & Hcr); unfold ue_filed; rewrite Em.
  - intros i [p Hp]. destruct (uo_filed _ _ _ _ Hu i p Hp) as (x & Hx & Hi). exists x.
    split; [by apply (contents_some m i p _ _ Hp Hx)|]. split; [done|].
    destruct (uo_arc _ _ _ _ Hu p _ _ Hx) as (_ & y & [= <-] & H4 & H5 & _). split; [done|].
    unfold credits, last_id in Hcr. lia.
  - intros i j x y Hx Hy Ea. exact (ues_apart _ _ _ _ i j x y Hu Hx Hy Ea).
Qed.

(** A task that has read everything there is on its association, ... *)
Definition waits_to_read w (m : prog W unit) : Prop :=
  exists id t k, m = prog_bind (tnla_read id) k /\ table w !! id = Some t /\ read_data t = None.

(** ... and one that sends [data] on an association that takes no more. *)
Definition waits_to_send w (id : Z) (data : bytes) (m : prog W unit) : Prop :=
  exists t k, m = prog_bind (tnla_write id data) k /\ table w !! id = Some t /\ write_data data None t = None.

(** At rest a task has settled what it must, and if it has not ended it waits. *)
Lemma stuck_task s i m rs ρ :
  quiescent (amf_step debug) s -> Forall2 (holds done_with) rs (amf_tasks s) ->
  engine_ok (amf_world s) (total rs ⊎ ρ) -> amf_tasks s !! i = Some m ->
  exists r, rs !! i = Some r /\
    (((status m <> Running \/ waits_to_read (amf_world s) m) /\ clean r) \/
     exists id data, waits_to_send (amf_world s) id data m /\ clean (r ⊎ {[+ Sent id data +]})).
Proof.
  intros Hq Hrs Hok Hm.
  assert (Hs : task_step m (amf_world s) = None).
  { pose proof (Hq (Task i)) as E. cbn [amf_step] in E. unfold pool_step in E. cbn [fst snd] in E.
    rewrite Hm in E. by destruct (task_step m (amf_world s)) as [[]|]. }
  destruct (owns_stuck engine_ok parked_at clean_at done_with i rs _ _ _ m Hrs Hok Hm Hs)
    as (r & Hri & [(a & -> & Hd)|[[-> Hd]|(b & X & f & k & -> & Hd & Hb & Hf)]]); exists r; (split; [done|]).
  1: left; split; [by left|done].
  1: left; unfold clean_at in Hd; rewrite (right_id_L ∅ (⊎)) in Hd; split; [by left|done].
  assert (Ha : forall id, Assoc id ∈ r -> exists t, table (amf_world s) !! id = Some t).
  { intros id Hid. destruct (total_insert rs i r Hri) as (fr & Et & _).
    apply (wk_says _ _ _ _ _ Hok (Assoc id)). rewrite Et. multiset_solver. }
  destruct Hb as [id Hid|id data Hid]; destruct (Ha id Hid) as [t Ht].
  - left. unfold read_access in Hf. rewrite Ht in Hf. simpl in Hf. split; [right; exists id, t, k|].
    + split_and!; [done|done|]. by destruct (read_data t) as [[t' res]|].
    + unfold clean_at in Hd. by rewrite (right_id_L ∅ (⊎)) in Hd.
  - right. exists id, data. split; [|done]. exists t, k. unfold write_access in Hf. rewrite Ht in Hf. simpl in Hf.
    split_and!; [done|done|]. by destruct (write_data data None t) as [[t' res]|].
Qed.

Lemma total_in rs (tk : token) : tk ∈ total rs -> exists i r, rs !! i = Some r /\ tk ∈ r.
Proof.
  induction rs as [|r rs IH]; simpl; [multiset_solver|].
  intros [Hin|Hin]%gmultiset_elem_of_disj_union; [by exists 0%nat, r|].
  destruct (IH Hin) as (i & r' & Hi & Hr). by exists (Datatypes.S i), r'.
Qed.

(** Some task waits to send [data]. *)
Definition being_sent s (id : Z) (data : bytes) : Prop :=
  exists i m, amf_tasks s !! i = Some m /\ waits_to_send (amf_world s) id data m.

(** What must be settled has been, at rest, or its answer waits to be sent. *)
Lemma rest_paid s rs ρ id sh message :
  quiescent (amf_step debug) s -> Forall2 (holds done_with) rs (amf_tasks s) ->
  engine_ok (amf_world s) (total rs ⊎ ρ) -> Owe id sh message ∈ total rs ->
  settles (fun i => Filed sh i ∈ total rs) (fun data => Sent id data ∈ total rs \/ being_sent s id data) message.
Proof.
  intros Hq Hrs Hok (i & r & Hi & Hin)%total_in.
  destruct (Forall2_lookup_l _ _ _ _ _ Hrs Hi) as (m & Hm & _).
  destruct (stuck_task s i m rs ρ Hq Hrs Hok Hm) as (r' & Hi' & Hc). rewrite Hi in Hi'. injection Hi' as <-.
  destruct (total_insert rs i r Hi) as (fr & -> & _).
  destruct Hc as [[_ Hc]|(id' & data & Hw & Hc)].
  - eapply settles_mono; [..|by apply Hc]; intros x; simpl; rewrite gmultiset_elem_of_disj_union; tauto.
  - eapply settles_mono; [..|apply Hc, gmultiset_elem_of_disj_union; left; exact Hin]; intros x; simpl;
      rewrite !gmultiset_elem_of_disj_union, gmultiset_elem_of_singleton; [by intros [?|]; [left|]|].
    intros [?|[= -> ->]]; [by left; left|right]. by exists i, m.
Qed.

(** What has become of a message for [g]. *)
Definition settled s (g : GnbContext) (message : bytes) : Prop :=
  settles (fun i => is_Some (view (queues (ue_context_manager g (amf_world s))) !! i))
    (fun data => (exists t, table (amf_world s) !! gnb_tnla g = Some t /\ went_out t data) \/
      being_sent s (gnb_tnla g) data) message.

(** [g] is registered since its NG Setup Request was read, and every message
    read from it after that is settled. *)
Definition served s (k : GlobalRanNodeId) (g : GnbContext) : Prop :=
  exists t n setup, table (amf_world s) !! gnb_tnla g = Some t /\ got (stream t) !! n = Some setup /\
    setup_from setup k /\
    forall j message, (n < j)%nat -> got (stream t) !! j = Some message -> settled s g message.

Lemma rest_settled s k g :
  quiescent (amf_step debug) s -> owned s -> registered (amf_world s) k g -> served s k g.
Proof.
  intros Hq (Hnone & rs & Hrs & Hok) Hk. pose proof Hok as Hw.
  unfold EngineRules.engine_ok, spawned_tokens in Hw. rewrite Hnone in Hw. simpl in Hw.
  destruct (wk_owed _ _ _ _ _ Hw k g Hk) as (t & n & data & Ht & Hn & Hd & Hj).
  exists t, n, data. split_and!; [done..|]. intros j message Hlt Hm. specialize (Hj j message Hlt Hm).
  assert (Hin : Owe (gnb_tnla g) (gnb_shared g) message ∈ total rs).
  { revert Hj. unfold to_come. rewrite !gmultiset_elem_of_disj_union, gmultiset_elem_of_scalar_mul,
      gmultiset_elem_of_singleton. intros [[?|[? ?]]|?]; [done..|]. multiset_solver. }
  eapply settles_mono; [..|by eapply rest_paid]; simpl.
  - intros i Hi. destruct (wk_gnbs _ _ _ _ _ Hw k g Hk) as (_ & _ & Hs & _).
    apply (wk_tables _ _ _ _ _ Hw) in Hs as [[m c] E]. unfold ue_context_manager, shared_of. rewrite E.
    destruct (wk_ues _ _ _ _ _ Hw _ m c E) as [Hu _]. apply (uo_known _ _ _ _ Hu). multiset_solver.
  - intros d [Hi|Hi]; [left|by right]. apply (wk_says _ _ _ _ _ Hw (Sent (gnb_tnla g) d)). multiset_solver.
Qed.

(** C3 (termination): however the arrivals, the accept loop, the tasks, the
    peers and the shutdown are interleaved, the AMF makes finitely many steps on
    finitely many connections with finitely many messages each: its loops do not
    spin and its retries are bounded. It can always be run to a state of rest. At
    rest every connection has been delivered, the shutdown has come, the accept
    loop has ended, no peer does anything more, and every task has returned, has
    died, waits for a message on a connection on which there is none, or waits to
    send on a connection whose peer takes no more: no task waits for another. *)
Theorem amf_comes_to_rest arriving :
  terminates (amf_step debug) (amf_new arriving cfg : amf) /\
  (exists s, reachable (amf_step debug) (amf_new arriving cfg) s /\ quiescent (amf_step debug) s) /\
  (fits_counters arriving ->
   forall s, reachable (amf_step debug) (amf_new arriving cfg) s -> quiescent (amf_step debug) s ->
    amf_arriving s = [] /\ w_cancelled (amf_world s) = true /\ amf_accepting s = false /\
    (forall id t, table (amf_world s) !! id = Some t -> peer_acts (stream t) = None) /\
    forall i m, amf_tasks s !! i = Some m -> status m <> Running \/ waits_to_read (amf_world s) m \/
      exists id data, waits_to_send (amf_world s) id data m).
Proof.
  split_and!.
  - apply amf_terminates.
  - apply terminates_quiescent; [apply amf_moves|apply amf_terminates].
  - intros [Hlen Hun] s Hr Hq. destruct (amf_quiescent debug s Hq) as (H1 & H2 & H3 & H4).
    destruct (owned_reachable arriving s Hlen Hun Hr) as (_ & rs & Hrs & Hok). split_and!; [done..|].
    intros i m Hm. destruct (stuck_task s i m rs _ Hq Hrs Hok Hm) as (r & _ & [[[?|?] _]|(id & data & ? & _)]);
      [by left|by right; left|right; right; by exists id, data].
Qed.

(** C4 (liveness): no message is lost. When the AMF has come to rest after any
    schedule, for every registered gNB its NG Setup Request is among the messages
    read on its connection, and every message read after that has been settled:
    the UE of an Initial UE Message is in the gNB's table (unless its TMSI cannot
    be written), and any other message was answered on that connection with the
    Error Indication it deserves (unless that cannot be encoded, or sending on
    the connection has failed), or a task still waits to send just that answer
    because the peer takes no more. *)
Theorem messages_settled_at_rest arriving s k g :
  fits_counters arriving -> reachable (amf_step debug) (amf_new arriving cfg) s -> quiescent (amf_step debug) s ->
  registered (amf_world s) k g -> served s k g.
Proof. intros [Hlen Hun] Hr Hq. apply rest_settled; [done|by apply (owned_reachable arriving)]. Qed.
End amf_safety.

(** ** Two scripted gNBs, one of which brings a UE *)

#[export] Program Instance scripted_log : StreamLog ScriptedStream :=
  { sent := sc_outbox; got := sc_taken; send_failed _ := False }.
Next Obligation. by intros data opts [l p inbox taken out [|room] script] s' n E; simplify_eq/=. Qed.
Next Obligation.
  intros data opts [l p inbox taken out [|room] script] s' r E; simplify_eq/=. by apply prefix_app_r.
Qed.
Next Obligation. intros [l p [|r inbox] taken out room script] s' r' E; by simplify_eq/=. Qed.
Next Obligation. intros [l p inbox taken out room [|[r|] script]] s' E; by simplify_eq/=. Qed.
Next Obligation. by intros [l p [|[[|b data]|e] inbox] taken out room script] s' r' E; simplify_eq/=. Qed.
Next Obligation. by intros data opts [l p inbox taken out [|room] script] s' r E; simplify_eq/=. Qed.
Next Obligation. intros [l p inbox taken out room [|[r|] script]] s' E; by simplify_eq/=. Qed.
Next Obligation. by intros data opts [l p inbox taken out [|room] script] s' e E; simplify_eq/=. Qed.
Next Obligation. done. Qed.
Next Obligation. done. Qed.
Next Obligation. done. Qed.

Notation test_amf := (amf (Stream := ScriptedStream) (MG := gmap GlobalRanNodeId GnbContext) (MU := gmap Z nat)).

Definition two_gnbs : list (Result ScriptedStream IoError) :=
  Ok <$> [ran_socket 1 [Ok [1; 5; 10]; Ok [2; 7]; Ok [2; 8]]; ran_socket 2 [Ok [1; 6; 10]]].

(** Everybody in turn. *)
Definition round_robin (rounds tasks : nat) : list actor :=
  concat (replicate rounds (Task <$> seq 0 tasks)).

(** As much of a schedule as can be carried out. *)
Fixpoint exec_ready (sched : list actor) (s : test_amf) : test_amf :=
  match sched with
  | [] => s
  | who :: sched => exec_ready sched (default s (amf_step true who s))
  end.

Lemma exec_ready_reachable sched s : reachable (amf_step true) s (exec_ready sched s).
Proof.
  revert s. induction sched as [|who sched IH]; intros s; cbn [exec_ready]; [apply reachable_refl|].
  destruct (amf_step true who s) as [s'|] eqn:E; cbn [default]; [|apply IH].
  eapply reachable_trans; [|apply IH]. exists [who]. cbn [exec]. by rewrite E.
Qed.

Definition two_gnbs_up : test_amf :=
  exec_ready ([Arrive; Arrive; Accept; Accept] ++ round_robin 60 8) (amf_new two_gnbs (Some (test_config tac_lower))).

Lemma gnbs_and_ues_consistent_witness :
  exists g, registered (amf_world two_gnbs_up) 5 g /\ global_ran_node_id g = 5 /\
    exists x y, ue_filed g (amf_world two_gnbs_up) 7 x /\ ue_filed g (amf_world two_gnbs_up) 8 y /\
      amf_ue_ngap_id x <> amf_ue_ngap_id y.
Proof.
  destruct (gnbs_and_ues_consistent true (Some (test_config tac_lower)) two_gnbs two_gnbs_up) as [H _].
  - split; vm_compute; reflexivity.
  - apply exec_ready_reachable.
  - destruct (view (w_gnb_contexts (amf_world two_gnbs_up)) !! (5 : @GlobalRanNodeId test_models)) as [g|] eqn:Eg;
      [|vm_compute in Eg; discriminate Eg].
    destruct (H _ g Eg) as (Hid & _ & Hue & Hne). exists g. split; [exact Eg|]. split; [exact Hid|].
    assert (Hg : gnb_shared g = 0%nat) by (vm_compute in Eg; injection Eg as <-; reflexivity).
    destruct (Hue 7) as (x & Hx & _); [unfold ue_context_manager, shared_of; rewrite Hg; eexists; vm_compute; reflexivity|].
    destruct (Hue 8) as (y & Hy & _); [unfold ue_context_manager, shared_of; rewrite Hg; eexists; vm_compute; reflexivity|].
    exists x, y. split; [exact Hx|]. split; [exact Hy|]. intros E. discriminate (Hne 7 8 x y Hx Hy E).
Defined.

(** A gNB that brings a UE and two messages that are not handled, and whose
    peer takes the NG Setup Response before it sends the second of them: there is
    room for the first Error Indication only. *)
Definition busy_gnb : list (Result ScriptedStream IoError) :=
  [Ok (slow_socket 1 [Ok [1; 5; 10]; Ok [2; 7]; Ok [3; 9]] 1 [PeerTakes; PeerSends (Ok [3; 4])])].

Definition busy_at_rest : test_amf :=
  exec_ready ([Arrive; Accept] ++ round_robin 40 8 ++ [Peer 1; Peer 1] ++ round_robin 40 8 ++ [Cancel; Accept])
    (amf_new busy_gnb (Some (test_config tac_lower))).

Lemma busy_quiescent : quiescent (amf_step true) busy_at_rest.
Proof. apply at_rest_quiescent. vm_compute. reflexivity. Qed.

Lemma amf_comes_to_rest_witness :
  amf_arriving busy_at_rest = [] /\ w_cancelled (amf_world busy_at_rest) = true /\
    forall i m, amf_tasks busy_at_rest !! i = Some m ->
      status m <> Running \/ waits_to_read (amf_world busy_at_rest) m \/
      exists id data, waits_to_send (amf_world busy_at_rest) id data m.
Proof.
  destruct (amf_comes_to_rest (MG := gmap GlobalRanNodeId GnbContext) (MU := gmap Z nat) true
    (Some (test_config tac_lower)) busy_gnb) as (_ & _ & Hrest).
  destruct (Hrest ltac:(split; vm_compute; reflexivity) busy_at_rest ltac:(apply exec_ready_reachable)
    busy_quiescent) as (H1 & H2 & _ & _ & H3). split; [exact H1|]. split; [exact H2|exact H3].
Defined.

Lemma messages_settled_at_rest_witness :
  exists g t, registered (amf_world busy_at_rest) 5 g /\ served busy_at_rest 5 g /\
    table (amf_world busy_at_rest) !! gnb_tnla g = Some t /\
    got (stream t) = [[1; 5; 10]; [2; 7]; [3; 9]; [3; 4]] /\ sent (stream t) = [(60, [101]); (60, [103])].
Proof.
  destruct (view (w_gnb_contexts (amf_world busy_at_rest)) !! (5 : @GlobalRanNodeId test_models)) as [g|] eqn:Eg;
    [|vm_compute in Eg; discriminate Eg].
  exists g. eexists. split; [exact Eg|]. split.
  - apply (messages_settled_at_rest true (Some (test_config tac_lower)) busy_gnb);
      [split; vm_compute; reflexivity|apply exec_ready_reachable|exact busy_quiescent|exact Eg].
  - assert (Hg : gnb_tnla g = 1) by (vm_compute in Eg; injection Eg as <-; reflexivity). rewrite Hg.
    split; [vm_compute; reflexivity|]. split; reflexivity.
Defined.
