(* ===== verification/NgapProps.v ===== *)
(** * What each NGAP body does

    Setup attempts, the reading loop, routing and initial UE messages, each run
    on its own; then the interleavings in which two of them get in each other's
    way. *)

From S2P Require Import Prelude Async Counter Convert ConvertProps SccMap ContextQueue.
From S2P Require Import ContextManager ContextManagerProps Network NetworkProps NgapMessages.
From S2P Require Import NgapContext NgapEngine NgapExample EngineProps.

Section ngap_props.
Context `{NM : NgapModels} `{NC : !NgapCodec} `{HX : HexCodec} `{BV : BitVecOps}.
Context {Stream MG MU : Type} `{SC : Sctp Stream} `{GM : !SccHashMap GlobalRanNodeId GnbContext MG}
  `{GL : !SccLaws GlobalRanNodeId GnbContext MG} `{UM : !SccHashMap Z nat MU}
  `{UL : !SccLaws Z nat MU}.
Implicit Types (w : world Stream MG MU) (gnb : GnbContext).

(** The world after the stream of an association has moved on. *)
Definition stream_moved w (id : Z) (t : TnlaAssociation Stream) : world Stream MG MU :=
  set_network (MkAssociations (<[id := t]> (associations (w_network w).1))
    (associations_set (w_network w).1), (w_network w).2) w.

Lemma run_tnla_read w id t :
  associations (w_network w).1 !! id = Some t ->
  run (tnla_read id) w =
  match read_data t with
  | Some (t', r) => Finished (stream_moved w id t') r
  | None => Parked w
  end.
Proof.
  intros Ht. unfold tnla_read. cbn [run]. rewrite Ht. cbn [mbind option_bind].
  by destruct (read_data t) as [[t' r]|].
Qed.

Lemma run_tnla_write w id t data :
  associations (w_network w).1 !! id = Some t ->
  run (tnla_write id data) w =
  match write_data data None t with
  | Some (t', r) => Finished (stream_moved w id t') r
  | None => Parked w
  end.
Proof.
  intros Ht. unfold tnla_write. cbn [run]. rewrite Ht. cbn [mbind option_bind].
  by destruct (write_data data None t) as [[t' r]|].
Qed.

Lemma read_data_keeps (t t' : TnlaAssociation Stream) r :
  read_data t = Some (t', r) -> tnla_id t' = tnla_id t /\ addresses t' = addresses t.
Proof.
  unfold read_data. destruct (recvmsg_eor_buf (stream t)) as [[s r']|]; [|done]. by intros [= <- _].
Qed.

Lemma write_data_keeps (t t' : TnlaAssociation Stream) data o r :
  write_data data o t = Some (t', r) -> tnla_id t' = tnla_id t /\ addresses t' = addresses t.
Proof. unfold write_data. destruct (sendmsg _ _ _) as [[s r']|]; [|done]. by intros [= <- _]. Qed.

(** ** The reading loop *)

Definition gnb_removed w gnb : world Stream MG MU :=
  set_gnb_contexts (scc_remove (global_ran_node_id gnb) (w_gnb_contexts w)).1 w.

Lemma run_loop w gnb t :
  associations (w_network w).1 !! gnb_tnla gnb = Some t ->
  run (ngap_loop_task gnb) w =
  match read_data t with
  | None => Parked w
  | Some (t', Ok (Some data)) =>
      Finished (spawn_task (SpawnNgapLoop gnb) (spawn_task (SpawnMessage gnb data)
        (stream_moved w (gnb_tnla gnb) t'))) ()
  | Some (t', Ok None) => Finished (gnb_removed (stream_moved w (gnb_tnla gnb) t') gnb) ()
  | Some (t', Err _) => Finished (stream_moved w (gnb_tnla gnb) t') ()
  end.
Proof.
  intros Ht. unfold ngap_loop_task, run_ngap_loop. autorewrite with run.
  rewrite (run_tnla_read w _ t Ht). destruct (read_data t) as [[t' [[data|]|e]]|]; done.
Qed.

(** C11 (functional): an iteration of a gNB's loop hands a message to a task of
    its own and goes on; the peer closing the stream removes the gNB from the
    table; a read error just ends the loop. *)
Theorem ngap_loop_outcomes w gnb t :
  associations (w_network w).1 !! gnb_tnla gnb = Some t ->
  match read_data t with
  | None => run (ngap_loop_task gnb) w = Parked w
  | Some (t', r) => exists w', run (ngap_loop_task gnb) w = Finished w' () /\
      match r with
      | Ok (Some data) =>
          w_spawned w' = w_spawned w ++ [SpawnMessage gnb data; SpawnNgapLoop gnb] /\
          w_gnb_contexts w' = w_gnb_contexts w
      | Ok None => w_spawned w' = w_spawned w /\
          view (w_gnb_contexts w') = delete (global_ran_node_id gnb) (view (w_gnb_contexts w))
      | Err _ => w_spawned w' = w_spawned w /\ w_gnb_contexts w' = w_gnb_contexts w
      end
  end.
Proof.
  intros Ht. rewrite (run_loop w gnb t Ht).
  destruct (read_data t) as [[t' [[data|]|e]]|]; [..|done]; (eexists; split; [done|]).
  - split; [|done]. simpl. by rewrite <-app_assoc.
  - split; [done|]. apply view_remove.
  - done.
Qed.

(** C33 (error): what a finished connection leaves behind. However the loop
    ends, the association stays in the network's table, so a new connection
    between the same addresses is refused; if it ends with a read error the gNB
    stays in the gNB table, and an NG Setup Request with its id, from whatever
    connection, then fails as conflicting. *)
Theorem closed_connection_leftovers cfg n w gnb t t' r :
  amf_ok cfg n w -> associations (w_network w).1 !! gnb_tnla gnb = Some t ->
  read_data t = Some (t', r) -> (forall data, r <> Ok (Some data)) ->
  view (w_gnb_contexts w) !! global_ran_node_id gnb = Some gnb ->
  exists w', run (ngap_loop_task gnb) w = Finished w' () /\ w_spawned w' = w_spawned w /\
    (forall s, stream_local_addr s = Ok (local_addr t) -> stream_peer_addr s = Ok (remote_addr t) ->
      (accept_and_create_tnla (Ok s) (w_network w')).2 =
        Err (AssociationAlreadyExists (local_addr t) (remote_addr t))) /\
    ((exists e, r = Err e) -> forall debug g req,
      rq_global_ran_node_id req = global_ran_node_id gnb ->
      exists e, run (handle_ng_setup debug g req) w' = Finished w' (g, Err e) /\
        error e = ConflictingRanId (global_ran_node_id gnb)).
Proof.
  intros Hok Ht Hread Hend Hgnb. rewrite (run_loop w gnb t Ht), Hread.
  assert (Haddr : forall w', w_network w' = w_network (stream_moved w (gnb_tnla gnb) t') ->
    forall s, stream_local_addr s = Ok (local_addr t) -> stream_peer_addr s = Ok (remote_addr t) ->
      (accept_and_create_tnla (Ok s) (w_network w')).2 =
        Err (AssociationAlreadyExists (local_addr t) (remote_addr t))).
  { intros w' -> s Hl Hr. rewrite accept_ok. unfold stream_moved. simpl w_network.
    assert (Hin : (local_addr t, remote_addr t) ∈ associations_set (w_network w).1).
    { apply (ao_set _ (ak_network cfg n w Hok)). by exists (gnb_tnla gnb), t. }
    match goal with |- (add_tnla_association s (?a, ?c)).2 = _ =>
      destruct (add_cases s a c) as [e E|l p El Ep Hi|l p El Ep Hni] end; simpl.
    - unfold TnlaAssociation_new in E. by rewrite Hl, Hr in E.
    - congruence.
    - destruct Hni. simpl. by assert ((l, p) = (local_addr t, remote_addr t)) as -> by congruence. }
  destruct r as [[data|]|e]; [by destruct (Hend data)|..].
  - eexists. split_and!; [done|done|by apply Haddr|]. by intros [e He].
  - eexists. split_and!; [done|done|by apply Haddr|]. intros _ debug g req Hid.
    unfold handle_ng_setup. autorewrite with run. rewrite scc_contains_view, Hid. simpl.
    rewrite Hgnb. by eexists.
Qed.

(** ** Setup *)

Lemma run_encode_write w id t pdu w' :
  associations (w_network w).1 !! id = Some t ->
  run (encode_and_write_ngap_pdu id pdu) w = Finished w' (Ok ()) ->
  exists data s n, encode_pdu pdu = Ok data /\
    sendmsg data (MkSendOptions NGAP_PPID 0) (stream t) = Some (s, Ok n) /\
    w' = stream_moved w id (with_stream t s).
Proof.
  intros Ht. unfold encode_and_write_ngap_pdu, codec_to_bytes.
  destruct (encode_pdu pdu) as [data|e]; [|done]. autorewrite with run.
  rewrite (run_tnla_write w id t data Ht). unfold write_data. simpl.
  destruct (sendmsg data (MkSendOptions NGAP_PPID 0) (stream t)) as [[s [n|e]]|] eqn:Es; simpl; [|done..].
  intros [= <-]. by exists data, s, n.
Qed.

Lemma run_ng_setup_ok debug gnb req w w' g resp :
  run (handle_ng_setup debug gnb req) w = Finished w' (g, Ok resp) ->
  w' = w /\ global_ran_node_id g = rq_global_ran_node_id req /\ gnb_tnla g = gnb_tnla gnb /\
  view (w_gnb_contexts w) !! rq_global_ran_node_id req = None.
Proof.
  unfold handle_ng_setup. autorewrite with run. rewrite scc_contains_view.
  case_bool_decide as Hk; [done|]. apply eq_None_not_Some in Hk.
  destruct (collect_supported_tais _ _) as [l|e]; [|done].
  unfold get_global_app_context. autorewrite with run. destruct (w_config w) as [cfg|]; [|done]. simpl.
  destruct (tai_found _ _); simpl; [|done]. destruct (build_response debug cfg) as [r|]; [|done].
  simpl. by intros [= <- <- _].
Qed.

(** A gNB is accepted by a setup attempt only if one message was
    read, it decoded as an NG Setup Request, its id was not in the table, and an
    NG Setup Response was encoded and handed to the socket without an error;
    the accepted context has the request's id and the association of the
    attempt. Nothing is spawned and no table but that of the association changes. *)
Theorem accepted_gnb_was_answered debug id w w' g t :
  associations (w_network w).1 !! id = Some t ->
  run (try_ng_setup debug id) w = Finished w' (Ok g) ->
  exists t1 data req resp out s n,
    read_data t = Some (t1, Ok (Some data)) /\
    pdu_from_bytes data = Ok (InitiatingMessage (MsgNgSetupRequest req)) /\
    view (w_gnb_contexts w) !! rq_global_ran_node_id req = None /\
    global_ran_node_id g = rq_global_ran_node_id req /\ gnb_tnla g = id /\
    encode_pdu (SuccessfulOutcome (MsgNgSetupResponse resp)) = Ok out /\
    sendmsg out (MkSendOptions NGAP_PPID 0) (stream t1) = Some (s, Ok n) /\
    associations (w_network w').1 !! id = Some (with_stream t1 s) /\
    (forall j, j <> id -> associations (w_network w').1 !! j = associations (w_network w).1 !! j) /\
    w_gnb_contexts w' = w_gnb_contexts w /\ w_spawned w' = w_spawned w.
Proof.
  intros Ht. unfold try_ng_setup. rewrite run_bind, run_access. cbn [GnbContext_new fst snd gnb_tnla].
  rewrite run_bind, (run_tnla_read _ id t) by done.
  destruct (read_data t) as [[t1 [[data|]|e]]|] eqn:Er; [|done..]. cbn [map_err].
  set (w1 := stream_moved _ id t1). unfold decode_ngap_pdu.
  assert (Ht1 : associations (w_network w1).1 !! id = Some t1) by apply lookup_insert_eq.
  destruct (pdu_from_bytes data) as [pdu|e] eqn:Ed.
  2: { destruct (build_criticality_diagnostics data e) as [ei ce].
       rewrite !run_bind. cbn [run]. rewrite run_bind.
       destruct (run (encode_and_write_ngap_pdu _ _) _) as [w2 [[]|e']| |]; done. }
  destruct pdu as [m| |]; [destruct m as [req| | | |]|..].
  2-7: rewrite !run_bind; cbn [run]; rewrite run_bind;
    destruct (run (encode_and_write_ngap_pdu _ _) _) as [w2 [[]|e']| |]; done.
  rewrite !run_bind. destruct (run (handle_ng_setup _ _ _) _) as [w2 [g' [resp|e]]| |] eqn:Eh; try done.
  2: { cbn [run]. rewrite run_bind.
       destruct (run (encode_and_write_ngap_pdu _ _) _) as [w3 [[]|e']| |]; done. }
  destruct (run_ng_setup_ok _ _ _ _ _ _ _ Eh) as (-> & Hid & Htn & Hnone).
  cbn [run]. rewrite run_bind.
  destruct (run (encode_and_write_ngap_pdu _ _) _) as [w3 [[]|e']| |] eqn:Ew; try done.
  cbn [run map_err]. intros [= <- <-].
  destruct (run_encode_write w1 id t1 _ w3 Ht1 Ew) as (out & s & n & Eo & En & ->).
  exists t1, data, req, resp, out, s, n. split_and!; try done; [apply lookup_insert_eq|].
  intros j Hj. unfold w1. simpl. by rewrite !lookup_insert_ne by done.
Qed.

(** ** Routing *)

Definition is_initial_ue (pdu : NgapPdu) : bool :=
  match pdu with InitiatingMessage (MsgInitialUeMessage _) => true | _ => false end.

Lemma run_route_other debug gnb pdu w :
  is_initial_ue pdu = false ->
  run (ngap_route debug gnb pdu) w = Finished w (Some (to_ngap_pdu (new_semantic_error None None))).
Proof. destruct pdu as [[]| |]; by intros. Qed.

(** C10 (error): a message that is not an Initial UE Message is answered with
    exactly one Error Indication and changes nothing else: with the header's
    procedure and the codec's diagnostics when it does not decode, as a semantic
    error when it is any other PDU. *)
Theorem message_answered debug gnb data w :
  (forall pdu, pdu_from_bytes data = Ok pdu -> is_initial_ue pdu = false) ->
  exists ei, run (message_task debug gnb data) w =
      run (do! _ := encode_and_write_ngap_pdu (gnb_tnla gnb) (to_ngap_pdu (ei : ErrorIndication)) in Ret ()) w /\
    match pdu_from_bytes data with
    | Ok _ => ei = new_semantic_error None None
    | Err e => exists cd, ei_cause ei = Some (Protocol AbstractSyntaxErrorFalselyConstructedMessage) /\
        ei_criticality_diagnostics ei = Some cd /\
        cd_procedure_code cd = (get_message_info data).1.2 /\
        cd_ies cd = convert_diagnostics_to_ie (per_diagnostics e)
    end.
Proof.
  intros Hni. unfold message_task, decode_ngap_pdu.
  destruct (pdu_from_bytes data) as [pdu|e] eqn:Ed.
  - exists (new_semantic_error None None). split; [|done].
    by rewrite run_bind, (run_route_other debug gnb pdu w (Hni pdu eq_refl)).
  - unfold build_criticality_diagnostics.
    destruct (get_message_info data) as [[tm pc] cr] eqn:Ei.
    eexists. split; [by rewrite run_bind|]. by eexists.
Qed.

(** ** Initial UE messages *)

Lemma on_ues_run {A : Type} gnb (m : prog (manager UeContext MU) A) w sh :
  w_shared w !! gnb_shared gnb = Some sh ->
  run (on_ues gnb m) w =
  match run m sh.1 with
  | Finished p a => Finished (set_ue_context_manager gnb p w) a
  | Panicked p => Panicked (set_ue_context_manager gnb p w)
  | Parked p => Parked (set_ue_context_manager gnb p w)
  end.
Proof.
  intros Hsh. unfold on_ues. rewrite run_zoom.
  - unfold ue_context_manager, shared_of. by rewrite Hsh.
  - intros p v. unfold ue_context_manager, set_ue_context_manager, shared_of. simpl.
    by rewrite lookup_insert_eq.
  - intros p q v. unfold set_ue_context_manager, shared_of, set_shared. simpl.
    by rewrite lookup_insert_eq, insert_insert_eq.
  - unfold ue_context_manager, set_ue_context_manager, shared_of, set_shared. rewrite Hsh. simpl.
    destruct sh as [m0 c]. simpl. rewrite insert_id by done. by destruct w.
Qed.

(** The UE context that an accepted message creates. *)
Definition new_ue gnb (req : InitialUeMessage) (amf_id : Z) (tmsi : option bytes) : UeContext :=
  UeContext_new (iu_ran_ue_ngap_id req) amf_id (iu_rrc_establishment_cause req) gnb tmsi Deregistered.

Lemma run_initial_ue debug gnb req w m c tmsi :
  w_shared w !! gnb_shared gnb = Some (m, c) -> manager_ok m ->
  map_tmsi (iu_five_g_s_tmsi req) = Returns tmsi ->
  contents m (iu_ran_ue_ngap_id req) = None ->
  exists m', run (handle_initial_ue debug gnb req) w =
      Finished (set_shared (<[gnb_shared gnb := (m', wrap 64 (c + 1))]> (w_shared w)) w)
        (Ok MkEmptyResponse) /\ manager_ok m' /\
    forall i, contents m' i =
      if decide (i = iu_ran_ue_ngap_id req) then Some (QueueOpen (new_ue gnb req c tmsi)) else contents m i.
Proof.
  intros Hsh Hok Htm Hnone. unfold handle_initial_ue. rewrite run_bind, (on_ues_run gnb _ w _ Hsh).
  unfold contains_context. rewrite run_read. cbn [fst].
  assert (Hc : scc_contains (iu_ran_ue_ngap_id req) (queues m) = false).
  { rewrite scc_contains_view. apply bool_decide_eq_false_2. rewrite <-contents_is_some, Hnone by done.
    by intros [? ?]. }
  rewrite Hc. set (w0 := set_ue_context_manager gnb m w).
  assert (E0 : w0 = w).
  { unfold w0, set_ue_context_manager, shared_of, set_shared. rewrite Hsh. simpl.
    rewrite insert_id by done. by destruct w. }
  rewrite E0. rewrite run_bind, run_access. unfold next_amf_ue_id, shared_of. rewrite Hsh.
  cbn [default from_option id fst snd increment bits]. rewrite run_bind, Htm. cbn [lift_outcome run].
  set (w1 := set_shared _ w).
  assert (H1 : w_shared w1 !! gnb_shared gnb = Some (m, wrap 64 (c + 1))) by apply lookup_insert_eq.
  rewrite run_bind, (on_ues_run gnb _ w1 _ H1). cbn [fst].
  destruct (run_add_free debug (new_ue gnb req c tmsi) m Hok Hnone) as (m2 & Ea & Ev & Eo).
  destruct (add_free_ok m m2 (new_ue gnb req c tmsi) Hok Hnone Ev Eo) as [Hok2 Hc2].
  unfold new_ue in Ea. rewrite Ea. set (w2 := set_ue_context_manager gnb m2 w1).
  assert (H2 : w_shared w2 !! gnb_shared gnb = Some (m2, wrap 64 (c + 1))).
  { unfold w2, set_ue_context_manager, shared_of. rewrite H1. apply lookup_insert_eq. }
  rewrite run_bind, (on_ues_run gnb _ w2 _ H2). cbn [fst].
  pose proof (run_with_context (iu_ran_ue_ngap_id req) (handle_nas (iu_nas_pdu req)) m2 Hok2) as Hw.
  rewrite Hc2, decide_True in Hw by done. cbn [run_body handle_nas fst snd] in Hw.
  destruct Hw as (m3 & _ & Er & Hok3 & Hc3). rewrite Er. cbn [run].
  exists m3. split_and!; [|done|].
  - f_equal. unfold set_ue_context_manager at 1, shared_of. rewrite H2. cbn [default from_option id snd].
    unfold w2, set_ue_context_manager, shared_of. rewrite H1. unfold w1, set_shared. simpl.
    by rewrite !insert_insert_eq.
  - intros i. rewrite Hc3, Hc2. repeat case_decide; done.
Qed.

(** C9 (functional): the first Initial UE Message with a RAN UE id creates the
    UE context with the next AMF UE id of its gNB, in the deregistered state,
    and leaves all other UEs alone; a message with an id in use changes
    nothing. In neither case is anything sent to the gNB, and the NAS message
    is dropped. *)
Theorem initial_ue_outcomes debug gnb req w m c tmsi :
  w_shared w !! gnb_shared gnb = Some (m, c) -> manager_ok m ->
  map_tmsi (iu_five_g_s_tmsi req) = Returns tmsi ->
  let msg := InitiatingMessage (MsgInitialUeMessage req) in
  (contents m (iu_ran_ue_ngap_id req) = None ->
    exists m', run (ngap_route debug gnb msg) w =
        Finished (set_shared (<[gnb_shared gnb := (m', wrap 64 (c + 1))]> (w_shared w)) w) None /\
      manager_ok m' /\
      forall i, contents m' i =
        if decide (i = iu_ran_ue_ngap_id req) then Some (QueueOpen (new_ue gnb req c tmsi))
        else contents m i) /\
  (is_Some (contents m (iu_ran_ue_ngap_id req)) ->
    run (ngap_route debug gnb msg) w = Finished w None).
Proof.
  intros Hsh Hok Htm msg. split.
  - intros Hnone. destruct (run_initial_ue debug gnb req w m c tmsi Hsh Hok Htm Hnone)
      as (m' & Er & ? & ?). exists m'. split; [|done].
    unfold msg, ngap_route. by rewrite run_bind, Er.
  - intros Hs. unfold msg, ngap_route, handle_initial_ue.
    rewrite !run_bind, (on_ues_run gnb _ w _ Hsh). unfold contains_context. rewrite run_read. cbn [fst].
    rewrite scc_contains_view, bool_decide_eq_true_2 by (by rewrite <-contents_is_some). cbn.
    f_equal. unfold set_ue_context_manager, shared_of, set_shared. rewrite Hsh. simpl.
    rewrite insert_id by done. by destruct w.
Qed.

(** The AMF UE id is unique per gNB only. The first UEs of two
    gNBs both get the id 1, so the id does not name one UE of this AMF. *)
Theorem amf_ue_ids_collide debug gnb1 gnb2 req1 req2 w :
  gnb_shared gnb1 <> gnb_shared gnb2 ->
  w_shared w !! gnb_shared gnb1 = Some (manager_new, counter_new) ->
  w_shared w !! gnb_shared gnb2 = Some (manager_new, counter_new) ->
  iu_five_g_s_tmsi req1 = None -> iu_five_g_s_tmsi req2 = None ->
  exists w1 w2 ue1 ue2,
    run (handle_initial_ue debug gnb1 req1) w = Finished w1 (Ok MkEmptyResponse) /\
    run (handle_initial_ue debug gnb2 req2) w1 = Finished w2 (Ok MkEmptyResponse) /\
    contents (ue_context_manager gnb1 w2) (iu_ran_ue_ngap_id req1) = Some (QueueOpen ue1) /\
    contents (ue_context_manager gnb2 w2) (iu_ran_ue_ngap_id req2) = Some (QueueOpen ue2) /\
    amf_ue_ngap_id ue1 = 1 /\ amf_ue_ngap_id ue2 = 1.
Proof.
  intros Hne Hsh1 Hsh2 Ht1 Ht2.
  assert (Hnew : forall i, contents (manager_new : manager UeContext MU) i = None).
  { intros i. unfold contents, manager_new. simpl. by rewrite view_new. }
  destruct (run_initial_ue debug gnb1 req1 w manager_new counter_new None Hsh1 manager_ok_new)
    as (m1 & Er1 & _ & Hc1); [by rewrite Ht1|apply Hnew|].
  set (w1 := set_shared (<[gnb_shared gnb1 := (m1, wrap 64 (counter_new + 1))]> (w_shared w)) w) in Er1.
  assert (Hsh2' : w_shared w1 !! gnb_shared gnb2 = Some (manager_new, counter_new)).
  { simpl. by rewrite lookup_insert_ne. }
  destruct (run_initial_ue debug gnb2 req2 w1 manager_new counter_new None Hsh2' manager_ok_new)
    as (m2 & Er2 & _ & Hc2); [by rewrite Ht2|apply Hnew|].
  eexists _, _, _, _. split_and!; [exact Er1|exact Er2|..].
  - unfold ue_context_manager, shared_of. simpl. rewrite lookup_insert_ne, lookup_insert_eq by done.
    simpl. rewrite Hc1, decide_True by done. done.
  - unfold ue_context_manager, shared_of. simpl. rewrite lookup_insert_eq. simpl.
    rewrite Hc2, decide_True by done. done.
  - done.
  - done.
Qed.

(** ** Interleavings *)

(** The last thing that was done on the association is that an NG Setup
    Response was sent on it. *)
Definition responded w (id : Z) : Prop :=
  exists t resp out s n, encode_pdu (SuccessfulOutcome (MsgNgSetupResponse resp)) = Ok out /\
    sendmsg out (MkSendOptions NGAP_PPID 0) (stream t) = Some (s, Ok n) /\
    associations (w_network w).1 !! id = Some (with_stream t s).

Lemma try_accepted debug id w w' g :
  run (try_ng_setup debug id) w = Finished w' (Ok g) ->
  view (w_gnb_contexts w) !! global_ran_node_id g = None /\ responded w' id /\
  (forall j, j <> id -> associations (w_network w').1 !! j = associations (w_network w).1 !! j) /\
  w_gnb_contexts w' = w_gnb_contexts w /\ w_spawned w' = w_spawned w.
Proof.
  intros Hr. destruct (associations (w_network w).1 !! id) as [t|] eqn:Ht.
  - destruct (accepted_gnb_was_answered debug id w w' g t Ht Hr)
      as (t1 & data & req & resp & out & s & n & _ & _ & Hno & Hg & _ & Ho & Hs & Ha & Hrest).
    rewrite Hg. split; [done|]. split; [|done]. by exists t1, resp, out, s, n.
  - exfalso. unfold try_ng_setup in Hr. rewrite run_bind, run_access in Hr. cbn [GnbContext_new fst snd gnb_tnla] in Hr.
    rewrite run_bind in Hr. unfold tnla_read in Hr. cbn [run] in Hr. cbn in Hr. by rewrite Ht in Hr.
Qed.

(** The first attempt suffices. *)
Lemma run_retries debug id w w' g :
  run (try_ng_setup debug id) w = Finished w' (Ok g) ->
  run (try_ng_setup_with_retries debug id) w = Finished w' (Some g).
Proof.
  intros Hr. change (try_ng_setup_with_retries debug id) with (ng_setup_attempts debug 3 id : prog (world Stream MG MU) _).
  cbn [ng_setup_attempts]. by rewrite run_bind, Hr.
Qed.

(** Two associations of one RAN node are set up, both before either is
    registered. *)
Lemma setups_race debug id1 id2 w w1 w2 g1 g2 :
  id1 <> id2 -> run (try_ng_setup debug id1) w = Finished w1 (Ok g1) ->
  run (try_ng_setup debug id2) w1 = Finished w2 (Ok g2) -> global_ran_node_id g1 = global_ran_node_id g2 ->
  exists sched w', pool_run sched ([start_ngap_processing debug id1; start_ngap_processing debug id2], w) =
      Some ([Ret (); Panic], w') /\
    responded w' id1 /\ responded w' id2 /\ w_spawned w' = w_spawned w ++ [SpawnNgapLoop g1] /\
    view (w_gnb_contexts w') = <[global_ran_node_id g1 := g1]> (view (w_gnb_contexts w)).
Proof.
  intros Hne H1 H2 Hid.
  destruct (try_accepted debug id1 w w1 g1 H1) as (Hfree & Hr1 & _ & Hg1 & Hs1).
  destruct (try_accepted debug id2 w1 w2 g2 H2) as (_ & Hr2 & Ha2 & Hg2 & Hs2).
  rewrite <-Hg1, <-Hg2 in Hfree. rewrite <-Hg1, <-Hg2. rewrite <-Hs1, <-Hs2.
  destruct (scc_insert_fresh _ g1 _ Hfree) as [Hv1 Hi1].
  set (w3 := spawn_task (SpawnNgapLoop g1)
    (set_gnb_contexts (scc_insert (global_ran_node_id g1) g1 (w_gnb_contexts w2)).1 w2)).
  assert (Htaken : view (w_gnb_contexts w3) !! global_ran_node_id g2 = Some g1).
  { rewrite <-Hid. simpl. by rewrite Hv1, lookup_insert_eq. }
  destruct (scc_insert_taken _ g2 _ g1 Htaken) as [Hv2 Hi2].
  set (w4 := set_gnb_contexts (scc_insert (global_ran_node_id g2) g2 (w_gnb_contexts w3)).1 w3).
  set (k := fun context => match context with
      | None => Ret ()
      | Some g => do! inserted := insert_gnb g in do! _ := lift_outcome (unwrap inserted) in
          write_state (spawn_task (SpawnNgapLoop g))
      end : prog (world Stream MG MU) unit).
  destruct (pool_race (try_ng_setup_with_retries debug id1) (try_ng_setup_with_retries debug id2) k k
    w w1 w2 w3 w4 _ _ () (run_retries debug id1 w w1 g1 H1) (run_retries debug id2 w1 w2 g2 H2)) as [sched E].
  { unfold k, insert_gnb. rewrite run_bind, run_access. cbn [fst snd]. by rewrite Hi1. }
  { unfold k, insert_gnb. rewrite run_bind, run_access. cbn [fst snd]. by rewrite Hi2. }
  exists sched, w4. split; [exact E|]. split_and!; try done.
  - destruct Hr1 as (t & resp & out & s & n & Ho & Hs & Ha). exists t, resp, out, s, n. split_and!; [done..|].
    simpl. by rewrite Ha2.
  - etrans; [exact Hv2|exact Hv1].
Qed.

(** A message task checks for the UE first; if the UE is there by the time it
    goes on, it dies. *)
Lemma message_parts debug gnb msg req :
  pdu_from_bytes msg = Ok (InitiatingMessage (MsgInitialUeMessage req)) ->
  exists k, message_task debug gnb msg =
      (prog_bind (on_ues gnb (contains_context (iu_ran_ue_ngap_id req))) k : prog (world Stream MG MU) unit) /\
    forall w m c tmsi, w_shared w !! gnb_shared gnb = Some (m, c) -> manager_ok m ->
      map_tmsi (iu_five_g_s_tmsi req) = Returns tmsi -> is_Some (contents m (iu_ran_ue_ngap_id req)) ->
      exists w', run (k false) w = Panicked w' /\ w_network w' = w_network w /\
        forall i, contents (ue_context_manager gnb w') i = contents m i.
Proof.
  intros Hd. unfold message_task, decode_ngap_pdu. rewrite Hd. cbn [ngap_route]. unfold handle_initial_ue.
  eexists. split; [reflexivity|]. intros w m c tmsi Hsh Hok Ht [q Hq]. cbn beta iota.
  rewrite !run_bind, run_access. unfold next_amf_ue_id, shared_of. rewrite Hsh.
  cbn [default from_option id fst snd increment bits]. rewrite run_bind, Ht. cbn [lift_outcome run].
  set (w1 := set_shared _ w).
  assert (H1 : w_shared w1 !! gnb_shared gnb = Some (m, wrap 64 (c + 1))) by apply lookup_insert_eq.
  rewrite run_bind, (on_ues_run gnb _ w1 _ H1). cbn [fst].
  set (ue := UeContext_new _ _ _ _ _ _).
  destruct (run_add_taken debug ue m q Hok Hq) as (m' & -> & _ & Hc).
  eexists. split; [reflexivity|]. split; [done|]. intros i. rewrite <-Hc.
  unfold ue_context_manager, shared_of. simpl. by rewrite lookup_insert_eq.
Qed.

(** A RAN UE id comes twice: both messages pass the check before either adds its
    context. *)
Lemma initial_ues_race debug gnb msg1 msg2 req1 req2 w m c tmsi1 tmsi2 :
  pdu_from_bytes msg1 = Ok (InitiatingMessage (MsgInitialUeMessage req1)) ->
  pdu_from_bytes msg2 = Ok (InitiatingMessage (MsgInitialUeMessage req2)) ->
  iu_ran_ue_ngap_id req1 = iu_ran_ue_ngap_id req2 ->
  map_tmsi (iu_five_g_s_tmsi req1) = Returns tmsi1 -> map_tmsi (iu_five_g_s_tmsi req2) = Returns tmsi2 ->
  w_shared w !! gnb_shared gnb = Some (m, c) -> manager_ok m -> contents m (iu_ran_ue_ngap_id req1) = None ->
  exists sched w', pool_run sched ([message_task debug gnb msg1; message_task debug gnb msg2], w) =
      Some ([Ret (); Panic], w') /\ w_network w' = w_network w /\
    contents (ue_context_manager gnb w') (iu_ran_ue_ngap_id req1) = Some (QueueOpen (new_ue gnb req1 c tmsi1)).
Proof.
  intros D1 D2 Hid T1 T2 Hsh Hok Hnone.
  set (check := on_ues gnb (contains_context (iu_ran_ue_ngap_id req1)) : prog (world Stream MG MU) bool).
  assert (Hcheck : run check w = Finished w false).
  { unfold check, contains_context. rewrite (on_ues_run gnb _ w _ Hsh), run_read. cbn [fst].
    rewrite scc_contains_view, bool_decide_eq_false_2.
    2: { rewrite <-contents_is_some, Hnone by done. by intros [? ?]. }
    f_equal. unfold set_ue_context_manager, shared_of, set_shared. rewrite Hsh. simpl.
    rewrite insert_id by done. by destruct w. }
  destruct (run_initial_ue debug gnb req1 w m c tmsi1 Hsh Hok T1 Hnone) as (m1 & Er1 & Hok1 & Hc1).
  set (w1 := set_shared _ w) in Er1.
  destruct (message_parts debug gnb msg1 req1 D1) as (k1 & Ek1 & _).
  destruct (message_parts debug gnb msg2 req2 D2) as (k2 & Ek2 & Hk2). rewrite <-Hid in Ek2, Hk2.
  fold check in Ek1, Ek2.
  assert (H1 : run (k1 false) w = Finished w1 ()).
  { assert (Hall : run (message_task debug gnb msg1) w = Finished w1 ()).
    { unfold message_task, decode_ngap_pdu, ngap_route. rewrite D1. by rewrite !run_bind, Er1. }
    by rewrite Ek1, run_bind, Hcheck in Hall. }
  destruct (Hk2 w1 m1 (wrap 64 (c + 1)) tmsi2) as (w2 & H2 & Hn & Hc2); [apply lookup_insert_eq|done|done| |].
  { rewrite Hc1, decide_True by done. by eexists. }
  destruct (pool_race check check k1 k2 w w w w1 w2 _ _ () Hcheck Hcheck H1 H2) as [sched E].
  exists sched, w2. rewrite Ek1, Ek2. split; [exact E|]. split; [done|].
  by rewrite Hc2, Hc1, decide_True.
Qed.

(** C34 (error): the checks for duplicates race with the insertions they guard.
    Whenever two associations bring set-ups with one RAN node id that would each
    be accepted (the second after the first, as long as that is not registered
    yet), their tasks can be interleaved so that both get an NG Setup Response,
    the first gNB is registered and its reading loop spawned, and the task of
    the second dies on the [unwrap] of its insertion. Whenever a gNB sends two
    Initial UE Messages with one RAN UE id that is not in use, their tasks can
    be interleaved so that the first files its UE and the second, instead of
    being refused, dies while it adds the context; nothing is sent. *)
Theorem checks_race_with_insertions debug :
  (forall id1 id2 w w1 w2 g1 g2,
    id1 <> id2 -> run (try_ng_setup debug id1) w = Finished w1 (Ok g1) ->
    run (try_ng_setup debug id2) w1 = Finished w2 (Ok g2) -> global_ran_node_id g1 = global_ran_node_id g2 ->
    exists sched w', pool_run sched ([start_ngap_processing debug id1; start_ngap_processing debug id2], w) =
        Some ([Ret (); Panic], w') /\
      responded w' id1 /\ responded w' id2 /\ w_spawned w' = w_spawned w ++ [SpawnNgapLoop g1] /\
      view (w_gnb_contexts w') = <[global_ran_node_id g1 := g1]> (view (w_gnb_contexts w))) /\
  (forall gnb msg1 msg2 req1 req2 w m c tmsi1 tmsi2,
    pdu_from_bytes msg1 = Ok (InitiatingMessage (MsgInitialUeMessage req1)) ->
    pdu_from_bytes msg2 = Ok (InitiatingMessage (MsgInitialUeMessage req2)) ->
    iu_ran_ue_ngap_id req1 = iu_ran_ue_ngap_id req2 ->
    map_tmsi (iu_five_g_s_tmsi req1) = Returns tmsi1 -> map_tmsi (iu_five_g_s_tmsi req2) = Returns tmsi2 ->
    w_shared w !! gnb_shared gnb = Some (m, c) -> manager_ok m -> contents m (iu_ran_ue_ngap_id req1) = None ->
    exists sched w', pool_run sched ([message_task debug gnb msg1; message_task debug gnb msg2], w) =
        Some ([Ret (); Panic], w') /\ w_network w' = w_network w /\
      contents (ue_context_manager gnb w') (iu_ran_ue_ngap_id req1) = Some (QueueOpen (new_ue gnb req1 c tmsi1))).
Proof. split; [apply setups_race|apply initial_ues_race]. Qed.
End ngap_props.

(** ** The properties on one connected gNB *)

Definition ran_addr : SocketAddr := (V4 0x0A000001, 1).

Definition gnb_5 : GnbContext := MkGnbContext 1 (5 : GlobalRanNodeId) [103] (32 : PagingDrx) 0.

Definition gnb_6 : GnbContext := MkGnbContext 2 (6 : GlobalRanNodeId) [] (0 : PagingDrx) 1.

Definition tnla_1 (inbox : list (Result bytes IoError)) : TnlaAssociation ScriptedStream :=
  MkTnla 1 (V4 0x7F000001, 38412) ran_addr (ran_socket 1 inbox).

Definition connected (inbox : list (Result bytes IoError)) : test_world :=
  MkWorld [] false
    (MkAssociations {[1 := tnla_1 inbox]} {[((V4 0x7F000001, 38412), ran_addr)]}, 2)
    {[(5 : GlobalRanNodeId) := gnb_5]} {[0%nat := (manager_new, counter_new)]} 1
    (Some (test_config tac_lower)) [].

Lemma connected_ok inbox : amf_ok (Some (test_config tac_lower)) 0 (connected inbox).
Proof.
  split.
  - intros k g Hk. change (({[(5 : GlobalRanNodeId) := gnb_5]} : gmap GlobalRanNodeId GnbContext) !! k
      = Some g) in Hk. by apply lookup_singleton_Some in Hk as [<- <-].
  - split; simpl.
    + by intros i t [<- <-]%lookup_singleton_Some.
    + intros p. rewrite elem_of_singleton. split.
      * intros ->. exists 1, (tnla_1 inbox). by rewrite lookup_singleton_eq.
      * by intros (i & t & [<- <-]%lookup_singleton_Some & <-).
    + by intros i j t u [<- _]%lookup_singleton_Some [<- _]%lookup_singleton_Some.
  - intros i [t Ht]. simpl in Ht. apply lookup_singleton_Some in Ht as [<- _]. simpl. lia.
  - simpl. lia.
  - done.
Qed.

Lemma ngap_loop_outcomes_witness :
  exists w', run (ngap_loop_task gnb_5) (connected [Ok []]) = Finished w' () /\
    view (w_gnb_contexts w') = ∅.
Proof.
  pose proof (ngap_loop_outcomes (connected [Ok []]) gnb_5 (tnla_1 [Ok []]) eq_refl) as H.
  change (read_data (tnla_1 [Ok []])) with (Some (tnla_1 [], Ok None) :
    option (TnlaAssociation ScriptedStream * Result (option bytes) TnlaError)) in H.
  cbv beta iota in H. destruct H as (w' & H1 & _ & H2). exists w'. split; [exact H1|].
  rewrite H2. reflexivity.
Defined.

Lemma closed_connection_leftovers_witness :
  exists w', run (ngap_loop_task gnb_5) (connected [Err (OsError 104)]) = Finished w' () /\
    exists e, run (handle_ng_setup true gnb_5 (test_setup 5 10)) w' = Finished w' (gnb_5, Err e).
Proof.
  destruct (closed_connection_leftovers (Some (test_config tac_lower)) 0
    (connected [Err (OsError 104)]) gnb_5 (tnla_1 [Err (OsError 104)]) (tnla_1 [])
    (Err (ReadError (OsError 104)))) as (w' & H1 & _ & _ & H2).
  - apply connected_ok.
  - reflexivity.
  - reflexivity.
  - intros data. discriminate.
  - reflexivity.
  - exists w'. split; [exact H1|].
    destruct (H2 (ex_intro _ _ eq_refl) true gnb_5 (test_setup 5 10) eq_refl) as (e & H3 & _).
    exists e. exact H3.
Defined.

Lemma accepted_gnb_was_answered_witness :
  exists w' g, run (try_ng_setup true 1) (connected [Ok [1; 6; 10]]) = Finished w' (Ok g) /\
    gnb_tnla g = 1.
Proof.
  destruct (run (try_ng_setup true 1) (connected [Ok [1; 6; 10]])) as [w' [g|e]| |] eqn:E;
    [|vm_compute in E; discriminate E..].
  exists w', g. split; [reflexivity|].
  destruct (accepted_gnb_was_answered true 1 (connected [Ok [1; 6; 10]]) w' g (tnla_1 [Ok [1; 6; 10]]))
    as (t1 & data & req & resp & out & s & n & _ & _ & _ & _ & H & _).
  - reflexivity.
  - exact E.
  - exact H.
Defined.

Lemma message_answered_witness :
  exists ei, run (message_task true gnb_5 [9; 9]) (connected []) =
    run (do! _ := encode_and_write_ngap_pdu 1 (to_ngap_pdu (ei : ErrorIndication)) in Ret ())
      (connected []).
Proof.
  destruct (message_answered true gnb_5 [9; 9] (connected [])) as (ei & H & _).
  - intros pdu. discriminate.
  - exists ei. exact H.
Defined.

Lemma initial_ue_outcomes_witness :
  exists m', run (ngap_route true gnb_5 (InitiatingMessage (MsgInitialUeMessage (test_initial_ue 7))))
      (connected []) = Finished (set_shared {[0%nat := (m', 2)]} (connected [])) None /\
    contents m' 7 = Some (QueueOpen (new_ue gnb_5 (test_initial_ue 7) 1 None)).
Proof.
  destruct (initial_ue_outcomes true gnb_5 (test_initial_ue 7) (connected []) manager_new counter_new
    None) as [H _].
  - reflexivity.
  - apply manager_ok_new.
  - reflexivity.
  - destruct H as (m' & H1 & _ & H2); [reflexivity|]. exists m'. split; [exact H1|]. rewrite H2. reflexivity.
Defined.

Lemma amf_ue_ids_collide_witness :
  exists w w1 w2 : test_world,
    run (handle_initial_ue true gnb_5 (test_initial_ue 7)) w = Finished w1 (Ok MkEmptyResponse) /\
    run (handle_initial_ue true gnb_6
      (test_initial_ue 7)) w1 = Finished w2 (Ok MkEmptyResponse).
Proof.
  exists (set_shared {[0%nat := (manager_new, counter_new); 1%nat := (manager_new, counter_new)]}
    (connected [])).
  destruct (amf_ue_ids_collide true gnb_5 gnb_6
    (test_initial_ue 7) (test_initial_ue 7)
    (set_shared {[0%nat := (manager_new, counter_new); 1%nat := (manager_new, counter_new)]}
      (connected []))) as (w1 & w2 & _ & _ & H1 & H2 & _).
  - discriminate.
  - reflexivity.
  - reflexivity.
  - reflexivity.
  - reflexivity.
  - exists w1, w2. split; [exact H1|exact H2].
Defined.

(** Two associations of a RAN node whose set-up requests carry the same id, ... *)
Definition twice : test_world :=
  MkWorld [] false
    (MkAssociations {[1 := tnla_1 [Ok [1; 5; 10]];
        2 := MkTnla 2 (V4 0x7F000001, 38412) (V4 0x0A000001, 2) (ran_socket 2 [Ok [1; 5; 10]])]}
      {[((V4 0x7F000001, 38412), ran_addr); ((V4 0x7F000001, 38412), (V4 0x0A000001, 2))]}, 3)
    ∅ ∅ 0 (Some (test_config tac_lower)) [].

(** ... and a gNB that repeats an Initial UE Message. *)
Lemma checks_race_with_insertions_witness :
  (exists sched w', pool_run sched ([start_ngap_processing true 1; start_ngap_processing true 2], twice) =
    Some ([Ret (); Panic], w') /\ responded w' 1 /\ responded w' 2) /\
  (exists sched w', pool_run sched ([message_task false gnb_5 [2; 7]; message_task false gnb_5 [2; 7]],
    connected []) = Some ([Ret (); Panic], w') /\
    contents (ue_context_manager gnb_5 w') 7 = Some (QueueOpen (new_ue gnb_5 (test_initial_ue 7) 1 None))).
Proof.
  split.
  - destruct (run (try_ng_setup true 1) twice) as [w1 [g1|e]| |] eqn:E1; [|vm_compute in E1; discriminate E1..].
    destruct (run (try_ng_setup true 2) w1) as [w2 [g2|e]| |] eqn:E2;
      [|vm_compute in E1; injection E1 as <- <-; vm_compute in E2; discriminate E2..].
    assert (Hid : global_ran_node_id g1 = global_ran_node_id g2).
    { vm_compute in E1. injection E1 as <- <-. vm_compute in E2. injection E2 as _ <-. reflexivity. }
    destruct (checks_race_with_insertions (MU := gmap Z nat) true) as [H _].
    destruct (H 1 2 twice w1 w2 g1 g2 ltac:(discriminate) E1 E2 Hid) as (sched & w' & H1 & H2 & H3 & _).
    exists sched, w'. split; [exact H1|]. split; [exact H2|exact H3].
  - destruct (checks_race_with_insertions (MU := gmap Z nat) false) as [_ H].
    destruct (H gnb_5 [2; 7] [2; 7] (test_initial_ue 7) (test_initial_ue 7) (connected []) manager_new counter_new
      None None eq_refl eq_refl eq_refl eq_refl eq_refl eq_refl manager_ok_new eq_refl)
      as (sched & w' & H1 & _ & H2).
    exists sched, w'. split; [exact H1|exact H2].
Defined.
