(* ===== verification/TokenStore.v ===== *)
(** * The token store ([client/src/token_store.rs])

    A concurrent map from keys to token states: ready with a value, being
    updated (with the [Notify] its waiters wait on), or failed. [get] and [set]
    are bodies of [async fn]s over the shared map. *)

From S2P Require Import Prelude Async Counter SccMap.

(** [tokio::sync::Notify] as the store uses it: a [notified()] future is a
    ticket, and [notify_waiters] completes the tickets that exist. *)
Class NotifyOps (N Ticket : Type) := {
  notify_new : N;
  notified : N -> Ticket;
  completed : Ticket -> N -> bool;
  notify_waiters : N -> N;
}.

Class NotifyLaws (N Ticket : Type) `{NotifyOps N Ticket} : Prop := {
  not_yet_completed n : completed (notified n) n = false;
  waiters_completed n : completed (notified n) (notify_waiters n) = true;
  stays_completed t n : completed t n = true -> completed t (notify_waiters n) = true;
}.

(** A [Notify] that counts its notifications behaves so. *)
#[export] Instance plain_notify : NotifyOps nat nat := {
  notify_new := 0%nat;
  notified n := n;
  completed t n := (t <? n)%nat;
  notify_waiters := S;
}.

#[export] Instance plain_notify_laws : NotifyLaws nat nat.
Proof.
  split; simpl.
  - apply Nat.ltb_irrefl.
  - intros n. apply Nat.ltb_lt. lia.
  - intros t n H%Nat.ltb_lt. apply Nat.ltb_lt. lia.
Qed.

Definition HASH_MAP_CAPACITY : Z := 1024.

(** [TokenStateInner]; the [Arc<Notify>] is a pointer. *)
Inductive TokenStateInner (V : Type) : Type :=
| Ready (v : V)
| Updating (notify : nat)
| Failed.
Arguments Ready {V} v.
Arguments Updating {V} notify.
Arguments Failed {V}.

Record TokenState (V : Type) : Type := MkTokenState { token_id : Z; token_state : TokenStateInner V }.
Arguments MkTokenState {V} _ _.
Arguments token_id {V} _.
Arguments token_state {V} _.

Definition is_updating {V : Type} (t : TokenState V) : bool :=
  match token_state t with Updating _ => true | _ => false end.

Definition is_ready {V : Type} (t : TokenState V) : bool :=
  match token_state t with Ready _ => true | _ => false end.

Inductive StoreError (E : Type) : Type :=
| ReadError (id : Z)
| InvalidStateTransitionError (id : Z)
| UpdateAlredyInProgress (id : Z)
| TokenEntryCreationError (id : Z)
| MaximumReadIterations (id : Z)
| InnerFutureError (e : E).
Arguments ReadError {E} id.
Arguments InvalidStateTransitionError {E} id.
Arguments UpdateAlredyInProgress {E} id.
Arguments TokenEntryCreationError {E} id.
Arguments MaximumReadIterations {E} id.
Arguments InnerFutureError {E} e.

(** [TokenEntry(Arc<TokenState>)]. *)
Record TokenEntry (V : Type) : Type := MkTokenEntry { entry_state : TokenState V }.
Arguments MkTokenEntry {V} _.
Arguments entry_state {V} _.

(** [TokenEntry::new]. *)
Definition TokenEntry_new {V E : Type} (value : TokenState V) : Result (TokenEntry V) (StoreError E) :=
  if is_ready value then Ok (MkTokenEntry value) else Err (TokenEntryCreationError (token_id value)).

Definition new_unchecked {V : Type} (value : TokenState V) : TokenEntry V := MkTokenEntry value.

(** [TokenEntry::get]: [unreachable!] outside the ready state. *)
Definition entry_get {V : Type} (e : TokenEntry V) : outcome V :=
  match token_state (entry_state e) with Ready v => Returns v | _ => Panics end.

Section TokenStore.
Context {K V E M N Ticket W : Type} `{NotifyOps N Ticket} `{SccHashMap K (TokenState V) M}.

(** The map, the global id counter, the [Notify] objects, and whatever else the
    futures given to [set] work on. *)
Record store : Type := MkStore {
  token_map : M;
  token_counter : Z;
  notifies : gmap nat N;
  next_notify : nat;
  outside : W;
}.

Definition store_new (w : W) : store := MkStore scc_new counter_new ∅ 0 w.

Definition set_token_map (m : M) (s : store) : store :=
  MkStore m (token_counter s) (notifies s) (next_notify s) (outside s).

(** [Arc::new(Notify::new())]. *)
Definition alloc_notify (s : store) : store * nat :=
  (MkStore (token_map s) (token_counter s) (<[next_notify s := notify_new]> (notifies s))
    (S (next_notify s)) (outside s), next_notify s).

(** [TOKEN_COUNTER.increment()]. *)
Definition next_token_id (s : store) : store * Z :=
  let (id, c) := increment CounterU32 (token_counter s) in
  (MkStore (token_map s) c (notifies s) (next_notify s) (outside s), id).

Definition notify_of (p : nat) (s : store) : N := default notify_new (notifies s !! p).

(** [TokenState::new_ready] and [TokenState::new]. *)
Definition new_ready (value : V) : prog store (TokenState V) :=
  do! id := access next_token_id in
  Ret (MkTokenState id (Ready value)).

Definition new_updating (notify : nat) : prog store (TokenState V) :=
  do! id := access next_token_id in
  Ret (MkTokenState id (Updating notify)).

(** [get]: the loop [for _ in 1..10]. Creating the [notified()] future is a step
    of its own, after the read of the map. *)
Fixpoint get_loop (n : nat) (key : K) : prog store (Result (option (TokenEntry V)) (StoreError E)) :=
  match n with
  | O => Ret (Ok None)
  | S n =>
      do! value := read_state (fun s => scc_read key (token_map s)) in
      match value with
      | None => Ret (Ok None)
      | Some val =>
          match token_state val with
          | Ready _ => Ret (Ok (Some (new_unchecked val)))
          | Failed => Ret (Err (ReadError (token_id val)))
          | Updating notify =>
              do! ticket := read_state (fun s => notified (notify_of notify s)) in
              do! _ := wait_for (fun s =>
                if completed ticket (notify_of notify s) then Some () else None) in
              get_loop n key
          end
      end
  end.

Definition get (key : K) : prog store (Result (option (TokenEntry V)) (StoreError E)) := get_loop 9 key.

(** What [set] does once its future has given [res]. *)
Definition set_finish (key : K) (id : Z) (notify : nat) (res : Result V E) :
    prog store (Result (TokenEntry V) (StoreError E)) :=
  let (val, res) :=
    match res with
    | Ok value => (Ready value, Ok ())
    | Err err => (Failed, Err (InnerFutureError err))
    end in
  let token_state := MkTokenState id val in
  do! _ := write_state (fun s => set_token_map (scc_update key (fun _ => token_state) (token_map s)) s) in
  do! _ := write_state (fun s =>
    MkStore (token_map s) (token_counter s) (alter notify_waiters notify (notifies s)) (next_notify s)
      (outside s)) in
  Ret (result_map (fun _ => new_unchecked token_state) res).

Definition set (key : K) (future : prog store (Result V E)) :
    prog store (Result (TokenEntry V) (StoreError E)) :=
  do! notify := access alloc_notify in
  do! new_token_state := new_updating notify in
  let id := token_id new_token_state in
  do! entry := read_state (fun s => scc_read key (token_map s)) in
  let proceed :=
    do! _ := write_state (fun s => set_token_map (scc_upsert key new_token_state (token_map s)).1 s) in
    do! res := future in
    set_finish key id notify res in
  match entry with
  | Some val =>
      if is_updating val then Ret (Err (UpdateAlredyInProgress (token_id val))) else proceed
  | None => proceed
  end.
End TokenStore.

Arguments store : clear implicits.
