(* ===== verification/TokenStoreProps.v ===== *)
(** * What the token store guarantees, and what its callers must not assume *)

From S2P Require Import Prelude Async Counter SccMap TokenStore.

Section token_props.
Context {K V E M N Ticket W : Type} `{Countable K} `{NO : !NotifyOps N Ticket}
  `{NL : !NotifyLaws N Ticket} `{SM : !SccHashMap K (TokenState V) M} `{SL : !SccLaws K (TokenState V) M}.
Implicit Types (s : store M N W) (key : K) (v : V) (err : E).

(** The state filed under a key. *)
Definition token_at s key : option (TokenState V) := view (token_map s) !! key.

Definition updating_at s key : bool :=
  match token_at s key with Some t => is_updating t | None => false end.

Definition result_state (res : Result V E) : TokenStateInner V :=
  match res with Ok v => Ready v | Err _ => Failed end.

(** [set] run alone, up to its future. *)
Lemma run_set_started s key (fut : prog (store M N W) (Result V E)) :
  updating_at s key = false ->
  exists s', token_counter s' = (next_token_id s).1.(token_counter) /\
    view (token_map s') =
      <[key := MkTokenState (token_counter s) (Updating (next_notify s))]> (view (token_map s)) /\
    run (set key fut) s =
      run (do! res := fut in set_finish key (token_counter s) (next_notify s) res) s'.
Proof.
  intros Hu. unfold set, new_updating. autorewrite with run. cbn [next_token_id alloc_notify increment fst snd].
  autorewrite with run. cbn [fst snd token_counter token_id run token_map].
  rewrite run_bind, run_read, view_read. cbn [token_map]. unfold updating_at, token_at in Hu.
  destruct (view (token_map s) !! key) as [t|]; [rewrite Hu|];
    (eexists; split; [|split; [|rewrite run_bind, run_write; reflexivity]]; [done|]; simpl;
      apply view_upsert).
Qed.

Lemma run_set_finish s key id p (res : Result V E) t :
  token_at s key = Some t ->
  exists s', run (set_finish key id p res) s =
      Finished s' (result_map (fun v => new_unchecked (MkTokenState id (Ready v))) (map_err InnerFutureError res)) /\
    view (token_map s') = <[key := MkTokenState id (result_state res)]> (view (token_map s)) /\
    notifies s' = alter notify_waiters p (notifies s) /\ outside s' = outside s.
Proof.
  intros Ht. unfold token_at in Ht. unfold set_finish.
  assert (Hv : forall st, view (scc_update key (fun _ => st) (token_map s)) = <[key := st]> (view (token_map s))).
  { intros st. rewrite view_update. apply map_eq. intros k. destruct (decide (key = k)) as [->|Hne].
    - by rewrite lookup_alter_eq, lookup_insert_eq, Ht.
    - by rewrite lookup_alter_ne, lookup_insert_ne. }
  destruct res as [v|e]; autorewrite with run; eexists; (split; [done|split_and!; [|done|done]]); simpl; apply Hv.
Qed.

Lemma run_get_ready s key id v (n : nat) :
  token_at s key = Some (MkTokenState id (Ready v)) ->
  run (get_loop (E := E) (S n) key) s = Finished s (Ok (Some (new_unchecked (MkTokenState id (Ready v))))).
Proof. intros Ht. cbn [get_loop]. autorewrite with run. rewrite view_read. unfold token_at in Ht. by rewrite Ht. Qed.

Lemma run_get_failed s key id (n : nat) :
  token_at s key = Some (MkTokenState id Failed) ->
  run (get_loop (E := E) (S n) key) s = Finished s (Err (ReadError id)).
Proof. intros Ht. cbn [get_loop]. autorewrite with run. rewrite view_read. unfold token_at in Ht. by rewrite Ht. Qed.

(** C12 (roundtrip): [set] and [get] with nobody else in between, and a future
    that is ready. A [set] on a key that is not being updated stores the outcome
    of its future under the key and nowhere else. After a success it
    returns the value, and so does every later [get]; after a failure it returns
    the future's error and every later [get] fails with the token's id. A [set]
    on a key being updated is refused and leaves the map alone. *)
Theorem set_then_get s key (res : Result V E) :
  (updating_at s key = false ->
    exists s' r, run (set key (Ret res)) s = Finished s' r /\
      view (token_map s') =
        <[key := MkTokenState (token_counter s) (result_state res)]> (view (token_map s)) /\
      match res with
      | Ok v => exists e, r = Ok e /\ entry_get e = Returns v /\
          run (get (E := E) key) s' = Finished s' (Ok (Some e))
      | Err err => r = Err (InnerFutureError err) /\
          run (get (E := E) key) s' = Finished s' (Err (ReadError (token_counter s)))
      end) /\
  (updating_at s key = true ->
    exists s' id, run (set key (Ret res)) s = Finished s' (Err (UpdateAlredyInProgress id)) /\
      token_map s' = token_map s).
Proof.
  split; intros Hu.
  - destruct (run_set_started s key (Ret res) Hu) as (s1 & _ & Hv1 & Er).
    assert (Ht1 : token_at s1 key = Some (MkTokenState (token_counter s) (Updating (next_notify s)))).
    { unfold token_at. by rewrite Hv1, lookup_insert_eq. }
    destruct (run_set_finish s1 key (token_counter s) (next_notify s) res _ Ht1) as (s2 & Ef & Hv2 & _ & _).
    exists s2. eexists. split; [rewrite Er, run_bind; exact Ef|].
    assert (Ht2 : token_at s2 key = Some (MkTokenState (token_counter s) (result_state res))).
    { unfold token_at. by rewrite Hv2, lookup_insert_eq. }
    split; [by rewrite Hv2, Hv1, insert_insert_eq|]. destruct res as [v|e]; simpl.
    + eexists. split_and!; [done|done|]. by apply (run_get_ready s2 key _ v 8).
    + split; [done|]. by apply (run_get_failed s2 key _ 8).
  - unfold updating_at, token_at in Hu. destruct (view (token_map s) !! key) as [t|] eqn:Ht; [|done].
    unfold set, new_updating. autorewrite with run. cbn [next_token_id alloc_notify increment fst snd].
    autorewrite with run. cbn [fst snd token_counter token_id run token_map].
    rewrite run_bind, run_read, view_read. cbn [token_map]. rewrite Ht, Hu. by eexists _, _.
Qed.

(** ** Where tokens come from *)

(** Every value in the map satisfies [P] for its key. *)
Definition tokens_ok (P : K -> V -> Prop) s : Prop :=
  forall key id v, token_at s key = Some (MkTokenState id (Ready v)) -> P key v.

(** A caller of the store. *)
Inductive store_call : Type :=
| CallGet (key : K)
| CallSet (key : K) (future : prog (store M N W) (Result V E)).

Definition call_body (c : store_call) : prog (store M N W) (Result (option (TokenEntry V)) (StoreError E)) :=
  match c with
  | CallGet key => get key
  | CallSet key future => do! r := set key future in Ret (result_map Some r)
  end.

Definition entry_ok (P : K -> V -> Prop) key (e : TokenEntry V) : Prop :=
  exists v, entry_get e = Returns v /\ P key v.

(** What a call may return when the values satisfy [P]. *)
Definition answer_ok (P : K -> V -> Prop) (c : store_call) (r : Result (option (TokenEntry V)) (StoreError E)) :
    Prop :=
  match c, r with
  | CallGet key, Ok (Some e) | CallSet key _, Ok (Some e) => entry_ok P key e
  | CallGet _, Ok None => True
  | CallSet _ _, Ok None => False
  | CallGet _, Err e => exists id, e = ReadError id
  | CallSet _ _, Err _ => True
  end.

Lemma get_upholds P n key : upholds (tokens_ok P) (answer_ok P (CallGet key)) (get_loop n key).
Proof.
  induction n as [|n IH]; [done|]. cbn [get_loop].
  apply (upholds_bind _ (fun r => forall id v, r = Some (MkTokenState id (Ready v)) -> P key v)).
  { apply upholds_access. intros s Hs. split; [done|]. simpl. rewrite view_read. intros id v. apply Hs. }
  intros [[id [v|p|]]|] Hr; simpl; [|intros s s' ticket Hs [= <- <-]; split; [done|]| |done].
  - exists v. split; [done|]. by apply (Hr id).
  - intros s1 s2 u Hs1 Eu. destruct (completed _ _); simplify_eq/=. by split.
  - by eexists.
Qed.

Lemma set_finish_upholds P key id p (res : Result V E) :
  (forall v, res = Ok v -> P key v) ->
  upholds (tokens_ok P) (fun r => match r with Ok e => entry_ok P key e | Err _ => True end)
    (set_finish key id p res : prog (store M N W) _).
Proof.
  intros Hres. unfold set_finish. destruct res as [v|e]; (apply (upholds_bind _ (fun _ => True));
    [|intros _ _; apply (upholds_bind _ (fun _ => True)); [by apply upholds_access|intros _ _; simpl]]).
  - apply upholds_access. intros s Hs. split; [|done]. intros k id' v'. unfold token_at. simpl.
    rewrite view_update. intros [[<- (t & _ & Et)]|[_ Hk]]%lookup_alter_Some; [simplify_eq; auto|by apply (Hs k id')].
  - exists v. auto.
  - apply upholds_access. intros s Hs. split; [|done]. intros k id' v'. unfold token_at. simpl.
    rewrite view_update. intros [[<- (t & _ & Et)]|[_ Hk]]%lookup_alter_Some; [done|by apply (Hs k id')].
  - done.
Qed.

Lemma set_upholds P key (fut : prog (store M N W) (Result V E)) :
  upholds (tokens_ok P) (fun r => forall v, r = Ok v -> P key v) fut ->
  upholds (tokens_ok P) (fun r => match r with Ok e => entry_ok P key e | Err _ => True end) (set key fut).
Proof.
  intros Hfut. unfold set. apply (upholds_bind _ (fun _ => True)); [by apply upholds_access|intros p _].
  apply (upholds_bind _ (fun t => is_ready t = false)).
  { unfold new_updating. apply (upholds_bind _ (fun _ => True)); [|done].
    apply upholds_access. intros s Hs. unfold next_token_id. destruct (increment _ _). by split. }
  intros t Ht. apply (upholds_bind _ (fun _ => True)); [by apply upholds_access|].
  assert (Hp : upholds (tokens_ok P) (fun r => match r with Ok e => entry_ok P key e | Err _ => True end)
    (do! _ := write_state (fun s => set_token_map (scc_upsert key t (token_map s)).1 s) in
     do! res := fut in set_finish key (token_id t) p res)).
  { apply (upholds_bind _ (fun _ => True)).
    - apply upholds_access. intros s Hs. split; [|done]. intros k id v. unfold token_at. simpl.
      rewrite (proj1 (view_upsert key t (token_map s))). intros [[<- ->]|[_ Hk]]%lookup_insert_Some; [done|by apply (Hs k id)].
    - intros _ _. eapply upholds_bind; [exact Hfut|]. intros res Hres. by apply set_finish_upholds. }
  intros [t'|] _; [|exact Hp]. by destruct (is_updating t').
Qed.

(** C32 (type): under any interleaving of [get]s and [set]s, whose futures may
    do anything that keeps the stored values in [P], every value in the store
    and every value a call returns satisfies [P] for its own key: a token comes
    from a future given to [set] with that key. A returned entry is ready, so
    [TokenEntry::get] never reaches its [unreachable!]; a successful [set]
    returns an entry; and [get] has no other error than [ReadError]: it gives
    up on a key that is updated again and again with [None], never with
    [MaximumReadIterations]. *)
Theorem tokens_come_from_futures (P : K -> V -> Prop) (calls : list store_call) s sched c :
  tokens_ok P s ->
  Forall (fun call => match call with
    | CallSet key fut => upholds (tokens_ok P) (fun r => forall v, r = Ok v -> P key v) fut
    | CallGet _ => True
    end) calls ->
  pool_run sched (call_body <$> calls, s) = Some c ->
  tokens_ok P c.2 /\
  forall i call r, calls !! i = Some call -> c.1 !! i = Some (Ret r) -> answer_ok P call r.
Proof.
  intros Hs Hcalls Hr.
  destruct (upholds_pool_run (tokens_ok P) (answer_ok P <$> calls) sched (call_body <$> calls, s) c)
    as [Hc Hs']; [|done|done|].
  { apply Forall2_fmap, Forall_Forall2_diag. eapply Forall_impl; [exact Hcalls|].
    intros [key|key fut] Hcall; [apply get_upholds|]. eapply upholds_bind; [by apply set_upholds|].
    by intros [e|e]. }
  split; [done|]. intros i call r Hi Hri.
  destruct (Forall2_lookup_r _ _ _ _ _ Hc Hri) as (Q & HQ & HQr).
  rewrite list_lookup_fmap, Hi in HQ. by simplify_eq/=.
Qed.

(** ** Waiting *)

(** Readers of a key that is being updated, and the end of the update. *)
Section waiting.
Context (s : store M N W) (key : K) (id : Z) (p : nat) (v : V) (nt : N) (n k : nat).
Hypothesis Hkey : token_at s key = Some (MkTokenState id (Updating p)).
Hypothesis Hnotify : notifies s !! p = Some nt.

Notation body := (prog (store M N W) (Result (option (TokenEntry V)) (StoreError E))).

Definition new_entry : TokenEntry V := new_unchecked (MkTokenState id (Ready v)).

Definition reader : body := get_loop (S (S n)) key.

Definition writer : body := do! r := set_finish key id p (Ok v : Result V E) in Ret (result_map Some r).

(** Readers [0] to [k - 1]; the writer is task [k]. *)
Definition readers_and_writer : list body := replicate k reader ++ [writer].

(** What the writer has done to the store after [w] of its two steps. *)
Definition updated : store M N W :=
  set_token_map (scc_update key (fun _ => MkTokenState id (Ready v)) (token_map s)) s.

Definition notify_step (s : store M N W) : store M N W :=
  MkStore (token_map s) (token_counter s) (alter notify_waiters p (notifies s)) (next_notify s) (outside s).

Definition store_after (w : nat) : store M N W :=
  match w with 0%nat => s | 1%nat => updated | _ => notify_step updated end.

Definition writer_after (w : nat) : body :=
  match w with
  | 0%nat => writer
  | 1%nat => do! _ := write_state notify_step in Ret (Ok (Some new_entry))
  | _ => Ret (Ok (Some new_entry))
  end.

Definition notify_after (w : nat) : N := if decide (w <= 1)%nat then nt else notify_waiters nt.

(** A reader that has seen the update in progress, and one that has its ticket. *)
Definition sleeping (ticket : Ticket) : body :=
  do! _ := wait_for (fun s => if completed ticket (notify_of p s) then Some () else None) in
  get_loop (S n) key.

Definition falling_asleep : body :=
  do! ticket := read_state (fun s => notified (notify_of p s)) in sleeping ticket.

(** Where reader [i] is when the writer has made [w] steps, by the order [h] in
    which the two were scheduled. *)
Inductive reader_phase (i : nat) : nat -> list nat -> body -> Prop :=
| reader_starts w : reader_phase i w (replicate w k) reader
| reader_looked w : reader_phase i w (i :: replicate w k) falling_asleep
| reader_sleeps w0 w : (w0 <= w)%nat ->
    reader_phase i w (i :: replicate w0 k ++ i :: replicate (w - w0) k) (sleeping (notified (notify_after w0)))
| reader_woke h : (5 <= length h)%nat -> reader_phase i 2 h (get_loop (S n) key)
| reader_returned w h : (1 <= w)%nat -> (5 <= length h)%nat \/ head h = Some k ->
    reader_phase i w h (Ret (Ok (Some new_entry))).

Lemma read_after w :
  scc_read key (token_map (store_after w)) =
    Some (if decide (w = 0%nat) then MkTokenState id (Updating p) else MkTokenState id (Ready v)).
Proof.
  destruct w as [|[|w]]; rewrite view_read; [done|..]; simpl; rewrite view_update, lookup_alter_eq;
    unfold token_at in Hkey; by rewrite Hkey.
Qed.

Lemma notify_of_after w : notify_of p (store_after w) = notify_after w.
Proof.
  unfold notify_of, notify_after. destruct w as [|[|w]]; simpl; [by rewrite Hnotify..|].
  by rewrite lookup_alter_eq, Hnotify.
Qed.

(** A step of the reader, ... *)
Lemma reader_phase_step i w h m m' s' :
  (w <= 2)%nat -> reader_phase i w h m -> task_step m (store_after w) = Some (m', s') ->
  s' = store_after w /\ reader_phase i w (h ++ [i]) m'.
Proof.
  intros Hw Hp Est. destruct Hp as [w|w|w0 w Hle|h Hl|w h Hw1 Hh]; [..|done].
  - cbn [reader get_loop prog_bind read_state access task_step fmap option_fmap option_map] in Est.
    injection Est as <- <-. split; [done|]. rewrite read_after. case_decide as Hw0; cbn [token_state].
    + subst w. apply (reader_looked i 0).
    + apply reader_returned; [lia|right]. by destruct w.
  - injection Est as <- <-. split; [done|]. rewrite notify_of_after.
    pose proof (reader_sleeps i w w (le_n w)) as Hs. by rewrite Nat.sub_diag in Hs.
  - unfold sleeping, wait_for in Est. cbn [prog_bind task_step] in Est. rewrite notify_of_after in Est.
    destruct (completed _ _) eqn:Ec; [|done]. injection Est as <- <-. split; [done|].
    assert (w = 2%nat /\ (w0 <= 1)%nat) as [-> Hw0].
    { unfold notify_after in Ec. repeat case_decide; try lia; by rewrite not_yet_completed in Ec. }
    apply reader_woke. simpl. rewrite !length_app. simpl. rewrite !length_replicate. lia.
  - cbn [get_loop prog_bind read_state access task_step fmap option_fmap option_map] in Est.
    rewrite read_after in Est. injection Est as <- <-. split; [done|]. apply reader_returned; [lia|left].
    rewrite length_app. lia.
Qed.

(** ... and of the writer. *)
Lemma reader_phase_writer i w h m :
  (w <= 1)%nat -> reader_phase i w h m -> reader_phase i (S w) (h ++ [k]) m.
Proof.
  intros Hw Hp. destruct Hp as [w|w|w0 w Hle|h Hl|w h Hw1 Hh]; [..|lia|].
  - rewrite <-replicate_S_end. constructor.
  - simpl. rewrite <-replicate_S_end. constructor.
  - rewrite app_comm_cons, <-app_assoc. cbn [app]. rewrite <-replicate_S_end.
    replace (S (w - w0)) with (S w - w0)%nat by lia. constructor. lia.
  - constructor; [lia|]. destruct Hh as [Hh|Hh]; [left; rewrite length_app; lia|right; by destruct h].
Qed.

Lemma writer_step w m' s' :
  (w <= 2)%nat -> task_step (writer_after w) (store_after w) = Some (m', s') ->
  (w <= 1)%nat /\ m' = writer_after (S w) /\ s' = store_after (S w).
Proof. destruct w as [|[|w]]; intros Hw Est; [..|done]; injection Est as <- <-; (split; [lia|done]). Qed.

(** The order in which reader [i] and the writer were scheduled. *)
Definition order_of (i : nat) (sched : list nat) : list nat := filter (fun t => t = i \/ t = k) sched.

Lemma order_snoc i sched t :
  order_of i (sched ++ [t]) = order_of i sched ++ (if decide (t = i \/ t = k) then [t] else []).
Proof. unfold order_of. by rewrite filter_app. Qed.

Definition waiting_inv (sched : list nat) (c : list body * store M N W) : Prop :=
  exists w, (w <= 2)%nat /\ c.2 = store_after w /\ length c.1 = S k /\ c.1 !! k = Some (writer_after w) /\
    forall i, (i < k)%nat -> exists m, c.1 !! i = Some m /\ reader_phase i w (order_of i sched) m.

Lemma waiting_step sched t c c' :
  waiting_inv sched c -> pool_step t c = Some c' -> waiting_inv (sched ++ [t]) c'.
Proof.
  intros (w & Hw & Es & Hlen & Hk & Hr) Est. destruct c as [l st]. unfold pool_step in Est. simpl in *. subst st.
  destruct (l !! t) as [m|] eqn:Ht; [|done]. destruct (task_step m _) as [[m' s']|] eqn:Em; [|done].
  injection Est as <-. pose proof (lookup_lt_Some _ _ _ Ht) as Hlt. rewrite Hlen in Hlt.
  destruct (decide (t = k)) as [->|Hne].
  - rewrite Hk in Ht. injection Ht as <-. destruct (writer_step w m' s' Hw Em) as (Hw1 & -> & ->).
    exists (S w). simpl. rewrite length_insert, list_lookup_insert_eq by lia. split_and!; [lia|done..|].
    intros i Hi. destruct (Hr i Hi) as (m & Hm & Hp). exists m. rewrite list_lookup_insert_ne by lia.
    split; [done|]. rewrite order_snoc, decide_True by auto. by apply reader_phase_writer.
  - destruct (Hr t ltac:(lia)) as (m0 & Hm0 & Hp). rewrite Ht in Hm0. injection Hm0 as <-.
    destruct (reader_phase_step t w _ m m' s' Hw Hp Em) as [-> Hp']. exists w. simpl.
    rewrite length_insert, (list_lookup_insert_ne l t k) by done. split_and!; [done..|].
    intros i Hi. rewrite order_snoc. destruct (decide (t = i)) as [->|Hti].
    + exists m'. rewrite list_lookup_insert_eq, decide_True by (lia || auto). done.
    + destruct (Hr i Hi) as (m1 & Hm1 & Hp1). exists m1. rewrite list_lookup_insert_ne, decide_False by (done || naive_solver).
      by rewrite app_nil_r.
Qed.

Lemma waiting_run sched c :
  pool_run sched (readers_and_writer, s) = Some c -> waiting_inv sched c.
Proof.
  revert c. induction sched as [|t sched IH] using rev_ind; intros c Est.
  - injection Est as <-. exists 0%nat. unfold readers_and_writer. simpl.
    rewrite length_app, length_replicate. split_and!; [lia|done|simpl; lia| |].
    + rewrite lookup_app_r, length_replicate, Nat.sub_diag by (rewrite length_replicate; lia). done.
    + intros i Hi. exists reader. rewrite lookup_app_l by (by rewrite length_replicate).
      split; [by apply lookup_replicate_2|apply (reader_starts i 0)].
  - unfold pool_run in *. rewrite exec_app in Est. destruct (exec pool_step sched _) as [c1|]; [|done].
    simpl in Est. destruct (pool_step t c1) as [c2|] eqn:Et; [|done]. injection Est as <-.
    eapply waiting_step; [by apply IH|done].
Qed.

(** Who can still move. *)
Lemma reader_stuck i h m :
  i <> k -> reader_phase i 2 h m -> task_step m (store_after 2) = None ->
  (m = Ret (Ok (Some new_entry)) /\ h <> [i; k; k; i]) \/ (status m = Running /\ h = [i; k; k; i]).
Proof.
  intros Hne Hp Est. inversion Hp as [| |w0 w Hle|h' Hl|w h' Hw1 Hh]; subst; [done|done| |done|].
  - right. split; [done|]. unfold sleeping, wait_for in Est. cbn [prog_bind task_step] in Est.
    rewrite notify_of_after in Est. destruct (completed _ _) eqn:Ec; [done|].
    destruct w0 as [|[|[|w0]]]; [..|done|lia]; unfold notify_after in Ec; simpl in Ec; by rewrite waiters_completed in Ec.
  - left. split; [done|]. intros ->. destruct Hh as [Hh|[= ->]]; [simpl in Hh; lia|done].
Qed.
End waiting.

(** C31 (liveness): any number of readers of a key that is being updated, and
    the end of the update. Whatever the schedule, when nobody can move any more
    the new value is in the map and the writer has returned it; a reader has
    returned the new value too, unless it has looked at the map before the value
    was there and has created its [notified()] future after [notify_waiters]:
    exactly then (the order of the two tasks' steps is reader, writer, writer,
    reader) it sleeps, with the value in the map and nobody left to wake it. *)
Theorem wakeup_depends_on_order s key id p v (n k : nat) sched c :
  token_at s key = Some (MkTokenState id (Updating p)) -> is_Some (notifies s !! p) ->
  pool_run sched (readers_and_writer key id p v n k, s) = Some c -> quiescent pool_step c ->
  token_at c.2 key = Some (MkTokenState id (Ready v)) /\
  c.1 !! k = Some (Ret (Ok (Some (new_entry id v)))) /\
  forall i, (i < k)%nat ->
    (order_of k i sched = [i; k; k; i] -> exists m, c.1 !! i = Some m /\ status m = Running) /\
    (order_of k i sched <> [i; k; k; i] -> c.1 !! i = Some (Ret (Ok (Some (new_entry id v))))).
Proof.
  intros Hkey [nt Hnt] Hrun Hq.
  destruct (waiting_run s key id p v nt n k Hkey Hnt sched c Hrun) as (w & Hw & Est & Hlen & Hk & Hr).
  assert (Hstuck : forall i m, c.1 !! i = Some m -> task_step m c.2 = None).
  { intros i m Hi. specialize (Hq i). unfold pool_step in Hq. rewrite Hi in Hq. by destruct (task_step m c.2) as [[]|]. }
  assert (w = 2%nat) as -> by (destruct w as [|[|[|w]]]; [by specialize (Hstuck k _ Hk)..|done|lia]).
  split_and!; [|done|].
  - pose proof (read_after s key id p v Hkey 2) as Hread. rewrite view_read in Hread. by rewrite Est.
  - intros i Hi. destruct (Hr i Hi) as (m & Hm & Hp). pose proof (Hstuck i m Hm) as Hs. rewrite Est in Hs.
    destruct (reader_stuck s key id p v nt n k Hnt i _ m ltac:(lia) Hp Hs) as [[-> Ho]|[Hst Ho]];
      (split; [intros Ho'|intros Ho']); [by destruct Ho|done|by exists m|by destruct Ho'].
Qed.

(** The refusal of a second update is a check before the entry is
    replaced, not part of the replacement. Two calls of [set] on a key that is
    free can both pass it: then both futures run and both calls succeed. *)
Theorem both_updates_run s key v1 v2 :
  updating_at s key = false ->
  exists sched s', pool_run sched ([set key (Ret (Ok v1 : Result V E)); set key (Ret (Ok v2))], s) =
      Some ([Ret (Ok (new_unchecked (MkTokenState (token_counter s) (Ready v1))));
             Ret (Ok (new_unchecked (MkTokenState (wrap 32 (token_counter s + 1)) (Ready v2))))], s') /\
    token_at s' key = Some (MkTokenState (wrap 32 (token_counter s + 1)) (Ready v2)).
Proof.
  intros Hu. exists [0; 0; 0; 1; 1; 1; 0; 1; 0; 0; 1; 1]%nat.
  unfold updating_at, token_at in Hu. unfold pool_run. cbn -[scc_read scc_update scc_upsert wrap].
  rewrite !view_read. destruct (view (token_map s) !! key) as [t|] eqn:Ht; [rewrite Hu|];
    cbn -[scc_read scc_update scc_upsert wrap].
  all: (eexists; split; [reflexivity|]; unfold token_at; cbn -[scc_read scc_update scc_upsert wrap];
    rewrite !view_update;
    repeat match goal with |- context [view (scc_upsert ?k ?x ?m).1] =>
      rewrite (proj1 (view_upsert k x m)) end;
    by rewrite !lookup_alter_eq, lookup_insert_eq).
Qed.
End token_props.

(** ** A store of numbers *)

Notation test_store := (store (gmap Z (TokenState Z)) nat unit).

(** Key 3 is being updated; its [Notify] is the first one. *)
Definition updating_store : test_store :=
  MkStore {[3 := MkTokenState 1 (Updating 0)]} 2 {[0%nat := 0%nat]} 1 ().

Lemma set_then_get_witness :
  exists s' e, run (set (E := unit) 3 (Ret (Ok 42))) (store_new () : test_store) = Finished s' (Ok e) /\
    entry_get e = Returns 42.
Proof.
  destruct (set_then_get (store_new () : test_store) 3 (Ok 42 : Result Z unit)) as [H _].
  destruct (H eq_refl) as (s' & r & H1 & _ & e & H2 & H3 & _). exists s', e. split; [|exact H3].
  rewrite H1, H2. reflexivity.
Defined.

(** A reader and a writer of key 3, the writer first. *)
Definition two_calls : list store_call :=
  [CallGet 3; CallSet 3 (Ret (Ok 42) : prog test_store (Result Z unit))].

Lemma tokens_come_from_futures_witness :
  exists c, pool_run [1; 1; 1; 1; 1; 1; 0]%nat (call_body <$> two_calls, store_new () : test_store) = Some c /\
    tokens_ok (fun key v => key = 3 /\ v = 42) c.2 /\
    exists e, c.1 !! 0%nat = Some (Ret (Ok (Some e))) /\ exists v, entry_get e = Returns v /\ 3 = 3 /\ v = 42.
Proof.
  destruct (pool_run [1; 1; 1; 1; 1; 1; 0]%nat (call_body <$> two_calls, store_new () : test_store))
    as [c|] eqn:Hc; [|vm_compute in Hc; discriminate].
  destruct (tokens_come_from_futures (E := unit) (fun key v => key = 3 /\ v = 42) two_calls
    (store_new () : test_store) [1; 1; 1; 1; 1; 1; 0]%nat c) as [H1 H2].
  - intros key id v Hk. discriminate Hk.
  - repeat constructor; simpl in *; congruence.
  - exact Hc.
  - exists c. split; [done|]. split; [exact H1|].
    assert (Hr : c.1 !! 0%nat = Some (Ret (Ok (Some (new_unchecked (MkTokenState 1 (Ready 42))))))).
    { vm_compute in Hc. injection Hc as <-. reflexivity. }
    eexists. split; [exact Hr|]. exact (H2 0%nat (CallGet 3) _ eq_refl Hr).
Defined.

(** Two readers: the first looks at the map before the update and takes its
    ticket after it, the second waits in time. *)
Definition one_too_late : list nat := [0; 1; 1; 2; 2; 0; 1; 1]%nat.

Lemma wakeup_depends_on_order_witness :
  exists c m, pool_run one_too_late (readers_and_writer (E := unit) 3 1 0 42 7 2, updating_store) = Some c /\
    quiescent pool_step c /\ c.1 !! 0%nat = Some m /\ status m = Running /\
    c.1 !! 1%nat = Some (Ret (Ok (Some (new_entry 1 42)))).
Proof.
  destruct (pool_run one_too_late (readers_and_writer (E := unit) 3 1 0 42 7 2, updating_store))
    as [c|] eqn:Hc; [|vm_compute in Hc; discriminate].
  assert (Hq : quiescent pool_step c).
  { vm_compute in Hc. injection Hc as <-. intros [|[|[|i]]]; vm_compute; reflexivity. }
  destruct (wakeup_depends_on_order (E := unit) updating_store 3 1 0 42 7 2 one_too_late c) as (_ & _ & H).
  - reflexivity.
  - exists 0%nat. reflexivity.
  - exact Hc.
  - exact Hq.
  - destruct (proj1 (H 0%nat ltac:(lia)) eq_refl) as (m & Hm & Hs). exists c, m.
    split; [reflexivity|]. split; [exact Hq|]. split; [exact Hm|]. split; [exact Hs|].
    apply (H 1%nat ltac:(lia)). intros Ho. vm_compute in Ho. discriminate Ho.
Defined.

Lemma both_updates_run_witness :
  exists sched s', pool_run sched ([set 3 (Ret (Ok 42 : Result Z unit)); set 3 (Ret (Ok 43))],
      store_new () : test_store) =
    Some ([Ret (Ok (new_unchecked (MkTokenState 1 (Ready 42))));
           Ret (Ok (new_unchecked (MkTokenState 2 (Ready 43))))], s').
Proof.
  destruct (both_updates_run (E := unit) (store_new () : test_store) 3 42 43) as (sched & s' & H & _).
  - reflexivity.
  - exists sched, s'. exact H.
Defined.
