(* ===== verification/Bench.v ===== *)
(** * The benchmarks of the token store ([client/benches/token_store_bench.rs])

    Five concurrent stores, the token store and four alternatives, under three
    workloads. The tasks of a benchmark check what they read, so a benchmark
    fails when a store does. Times are not modelled: a task returns [()]. *)

From stdpp Require Import pretty.
From S2P Require Import Prelude Async Counter SccMap TokenStore.

(** The other stores come from libraries. [dashmap::DashMap]: *)
Class DashMap (K V M : Type) := {
  dash_with_capacity : Z -> M;
  dash_insert : K -> V -> M -> M * option V;
  dash_get : K -> M -> option V;
}.

Class DashLaws (K V M : Type) `{Countable K} `{DashMap K V M} := {
  dash_view : M -> gmap K V;
  dash_view_new n : dash_view (dash_with_capacity n) = ∅;
  dash_view_get k m : dash_get k m = dash_view m !! k;
  dash_view_insert k v m : dash_view (dash_insert k v m).1 = <[k := v]> (dash_view m);
}.

(** [scc::HashIndex]: [get_async] locks an entry, which [update] replaces;
    [insert_async] refuses a key that is present; [peek_with] takes no lock. *)
Class HashIndex (K V M : Type) := {
  index_with_capacity : Z -> M;
  index_get : K -> M -> option V;
  index_update : K -> V -> M -> M;
  index_insert : K -> V -> M -> M * Result unit (K * V);
  index_peek : K -> M -> option V;
}.

Class HashIndexLaws (K V M : Type) `{Countable K} `{HashIndex K V M} := {
  index_view : M -> gmap K V;
  index_view_new n : index_view (index_with_capacity n) = ∅;
  index_view_get k m : index_get k m = index_view m !! k;
  index_view_update k v m :
    is_Some (index_view m !! k) -> index_view (index_update k v m) = <[k := v]> (index_view m);
  index_view_insert k v m :
    index_view m !! k = None ->
    index_view (index_insert k v m).1 = <[k := v]> (index_view m) /\ (index_insert k v m).2 = Ok ();
  index_view_peek k m : index_peek k m = index_view m !! k;
}.

#[export] Instance gmap_dash {K V : Type} `{Countable K} : DashMap K V (gmap K V) := {
  dash_with_capacity _ := ∅;
  dash_insert k v m := (<[k := v]> m, m !! k);
  dash_get k m := m !! k;
}.

#[export] Instance gmap_dash_laws {K V : Type} `{Countable K} : DashLaws K V (gmap K V).
Proof. by refine {| dash_view m := m |}. Defined.

#[export] Instance gmap_index {K V : Type} `{Countable K} : HashIndex K V (gmap K V) := {
  index_with_capacity _ := ∅;
  index_get k m := m !! k;
  index_update k v m := <[k := v]> m;
  index_insert k v m :=
    match m !! k with Some _ => (m, Err (k, v)) | None => (<[k := v]> m, Ok ()) end;
  index_peek k m := m !! k;
}.

#[export] Instance gmap_index_laws {K V : Type} `{Countable K} : HashIndexLaws K V (gmap K V).
Proof. refine {| index_view m := m |}; simpl; try done. by intros k v m ->. Defined.

Definition CAPACITY : Z := 1024.

(** [assert!] and [assert_eq!]. *)
Definition assert_that (b : bool) : outcome unit := if b then Returns () else Panics.

Definition assert_eq (a b : Z) : outcome unit := assert_that (a =? b).

(** A store under test: what the macros take as [$store], [$write_fn] and
    [$read_fn]. *)
Record bench_store : Type := MkBenchStore {
  shared : Type;
  new_store : shared;
  write_fn : string -> Z -> prog shared unit;
  read_fn : string -> Z -> prog shared unit;
}.

Definition key_of (i : N) : string := "key_" +:+ pretty i.

(** [0..iters] *)
Definition indices (iters : nat) : list N := N.of_nat <$> seq 0 iters.

Section Bench.
(** The width of [usize]; what the global [TOKEN_COUNTER] stands at. *)
Variables (pointer_width counter : Z).
Context {E N Ticket M MD MS MI : Type} `{NotifyOps N Ticket}
  `{SccHashMap string (TokenState Z) M} `{DashMap string Z MD} `{SccHashMap string Z MS}
  `{HashIndex string Z MI}.

(** ** The token store *)

Notation token_store := (store M N unit).

Definition tokenstore_write_operation (key : string) (value : Z) : prog token_store unit :=
  do! r := set key (Ret (Ok value : Result Z E)) in
  do! _ := lift_outcome (unwrap r) in
  Ret ().

Definition tokenstore_read_operation (key : string) (expected_value : Z) : prog token_store unit :=
  do! r := get (E := E) key in
  lift_outcome (
    let! entry := unwrap r in
    let! _ := assert_that (match entry with Some _ => true | None => false end) in
    let! e := unwrap_option entry in
    let! v := entry_get e in
    assert_eq v expected_value).

Definition tokenstore : bench_store :=
  MkBenchStore token_store (MkStore scc_new counter ∅ 0 ())
    tokenstore_write_operation tokenstore_read_operation.

(** ** [DashMap] *)

Definition dashmap_write_operation (key : string) (value : Z) : prog MD unit :=
  write_state (fun store => (dash_insert key value store).1).

Definition dashmap_read_operation (key : string) (expected_value : Z) : prog MD unit :=
  do! entry := read_state (dash_get key) in
  lift_outcome (let! v := unwrap_option entry in assert_eq v expected_value).

Definition dashmap : bench_store :=
  MkBenchStore MD (dash_with_capacity CAPACITY) dashmap_write_operation dashmap_read_operation.

(** ** [RwLock<HashMap>]: nothing is awaited while a guard is held, so what is
    done under the lock is one access. *)

Notation rwlock := (gmap string Z).

Definition rwlock_write_operation (key : string) (value : Z) : prog rwlock unit :=
  write_state (fun guard => <[key := value]> guard).

Definition rwlock_read_operation (key : string) (expected_value : Z) : prog rwlock unit :=
  do! entry := read_state (fun guard : rwlock => guard !! key) in
  lift_outcome (let! v := unwrap_option entry in assert_eq v expected_value).

Definition rwlock_map : bench_store :=
  MkBenchStore rwlock ∅ rwlock_write_operation rwlock_read_operation.

(** ** [scc::HashMap] *)

Definition raw_scc_hashmap_write_operation (key : string) (value : Z) : prog MS unit :=
  write_state (fun store => (scc_upsert key value store).1).

Definition raw_scc_hashmap_read_operation (key : string) (expected_value : Z) : prog MS unit :=
  do! value := read_state (scc_read key) in
  lift_outcome (let! v := unwrap_option value in assert_eq v expected_value).

Definition raw_scc_hashmap : bench_store :=
  MkBenchStore MS scc_new raw_scc_hashmap_write_operation raw_scc_hashmap_read_operation.

(** ** [scc::HashIndex]: the entry stays locked from [get_async] to [update],
    but a key that is absent is looked up first and inserted then. *)

Definition raw_scc_hashindex_write_operation (key : string) (value : Z) : prog MI unit :=
  do! found := access (fun store =>
    match index_get key store with
    | Some _ => (index_update key value store, true)
    | None => (store, false)
    end) in
  if found : bool then Ret ()
  else
    do! r := access (index_insert key value) in
    lift_outcome (unwrap r).

Definition raw_scc_hashindex_read_operation (key : string) (expected_value : Z) : prog MI unit :=
  do! value := read_state (index_peek key) in
  lift_outcome (let! v := unwrap_option value in assert_eq v expected_value).

Definition raw_scc_hashindex : bench_store :=
  MkBenchStore MI (index_with_capacity CAPACITY) raw_scc_hashindex_write_operation raw_scc_hashindex_read_operation.

(** ** The workloads: what is done before any task is spawned, and the tasks. *)

(** [i as usize] *)
Definition as_usize (i : BinNums.N) : Z := wrap pointer_width (Z.of_N i).

Record workload (A : Type) : Type := MkWorkload {
  prefill : prog A unit;
  tasks : list (prog A unit);
}.
Arguments MkWorkload {A} _ _.
Arguments prefill {A} _.
Arguments tasks {A} _.

Definition read_write_benchmark (b : bench_store) (iters : nat) : workload (shared b) :=
  MkWorkload (Ret ())
    ((fun i =>
        do! _ := write_fn b (key_of i) (as_usize i) in
        read_fn b (key_of i) (as_usize i)) <$> indices iters).

(** One write after the other. *)
Fixpoint write_all (b : bench_store) (l : list BinNums.N) : prog (shared b) unit :=
  match l with
  | [] => Ret ()
  | i :: l => do! _ := write_fn b (key_of i) (as_usize i) in write_all b l
  end.

Definition read_benchmark (b : bench_store) (iters : nat) : workload (shared b) :=
  MkWorkload (write_all b (indices iters))
    ((fun i => read_fn b (key_of i) (as_usize i)) <$> indices iters).

Definition write_benchmark (b : bench_store) (iters : nat) : workload (shared b) :=
  MkWorkload (Ret ()) ((fun i => write_fn b (key_of i) (as_usize i)) <$> indices iters).

(** [join_all(tasks)]: pending while a task runs; a task that died is a
    [JoinError]. *)
Definition join_all {A : Type} (l : list (prog A unit)) : option (list (Result unit unit)) :=
  mapM (fun m => match status m with
    | Running => None
    | Returned a => Some (Ok a)
    | Died => Some (Err ())
    end) l.

(** [.map(|r| r.unwrap())] *)
Fixpoint unwrap_all (l : list (Result unit unit)) : outcome unit :=
  match l with
  | [] => Returns ()
  | r :: l => let! _ := unwrap r in unwrap_all l
  end.

(** One call of the [iter_custom] closure, with the tasks scheduled by [sched]:
    the store afterwards, or a panic; [None] when [sched] is not a schedule of
    the tasks, or some have not ended. *)
Definition iter_custom {A : Type} (w : workload A) (sched : list nat) (s : A) : option (outcome A) :=
  match run (prefill w) s with
  | Finished s _ =>
      match pool_run sched (tasks w, s) with
      | Some (l, s) => (fun rs => let! _ := unwrap_all rs in Returns s) <$> join_all l
      | None => None
      end
  | Panicked _ => Some Panics
  | Parked _ => None
  end.

(** Criterion calls the closure again and again, on one store. *)
Fixpoint bench_function {A : Type} (w : nat -> workload A) (rounds : list (nat * list nat)) (s : A) :
    option (outcome A) :=
  match rounds with
  | [] => Some (Returns s)
  | (iters, sched) :: rounds =>
      match iter_custom (w iters) sched s with
      | Some (Returns s) => bench_function w rounds s
      | r => r
      end
  end.

(** The [$store] and the macro of a [bench_function]. *)
Inductive store_kind : Set := Tokenstore | Dashmap | RwlockMap | RawSccHashmap | RawSccHashindex.
Inductive workload_kind : Set := ReadWrite | ReadOnly | WriteOnly.

Definition store_of (k : store_kind) : bench_store :=
  match k with
  | Tokenstore => tokenstore
  | Dashmap => dashmap
  | RwlockMap => rwlock_map
  | RawSccHashmap => raw_scc_hashmap
  | RawSccHashindex => raw_scc_hashindex
  end.

Definition workload_of (k : workload_kind) (b : bench_store) : nat -> workload (shared b) :=
  match k with
  | ReadWrite => read_write_benchmark b
  | ReadOnly => read_benchmark b
  | WriteOnly => write_benchmark b
  end.

Record benchmark : Set := MkBenchmark {
  bench_name : string;
  bench_on : store_kind;
  bench_workload : workload_kind;
}.

Definition bench_read_write_with_runtime : list benchmark := [
  MkBenchmark "tokenstore_multi_spawned_read_write_operation" Tokenstore ReadWrite;
  MkBenchmark "dashmap_multi_spawned_read_write_operation" Dashmap ReadWrite;
  MkBenchmark "rwlock_multi_spawned_read_write_operation" RwlockMap ReadWrite;
  MkBenchmark "raw_scc_hashmap_multi_spawned_read_write_operation" RawSccHashmap ReadWrite;
  MkBenchmark "raw_scc_hashindex_multi_spawned_read_write_operation" RawSccHashindex ReadWrite
].

Definition bench_read_with_runtime : list benchmark := [
  MkBenchmark "tokenstore_read_operation_with_runtime" Tokenstore ReadOnly;
  MkBenchmark "dashmap_read_operation_with_runtime" Dashmap ReadOnly;
  MkBenchmark "rwlock_read_operation_with_runtime" RwlockMap ReadOnly;
  MkBenchmark "raw_scc_hashmap_read_operation_with_runtime" RawSccHashmap ReadOnly;
  MkBenchmark "raw_scc_hashindex_read_operation_with_runtime" RawSccHashindex ReadOnly
].

Definition bench_write_with_runtime : list benchmark := [
  MkBenchmark "tokenstore_write_operation_with_runtime" Tokenstore WriteOnly;
  MkBenchmark "dashmap_write_operation_with_runtime" Dashmap WriteOnly;
  MkBenchmark "rwlock_write_operation_with_runtime" RwlockMap WriteOnly;
  MkBenchmark "raw_scc_hashmap_write_operation_with_runtime" RawSccHashmap WriteOnly;
  MkBenchmark "raw_scc_hashindex_write_operation_with_runtime" RawSccHashindex WriteOnly
].

Definition criterion_benchmark : list benchmark :=
  bench_read_write_with_runtime ++ bench_read_with_runtime ++ bench_write_with_runtime.
End Bench.

Arguments MkWorkload {A} _ _.
Arguments prefill {A} _.
Arguments tasks {A} _.
