(* ===== verification/BenchProps.v ===== *)
(** * What a benchmark asks of a store, and that no benchmark can fail *)

From stdpp Require Import pretty.
From S2P Require Import Prelude Async Counter SccMap TokenStore Bench.

(** ** The interface between stores and workloads *)

(** A store has a cell for every key; [writable] cells can be written, and a
    write leaves a cell that [holds] the value. Reading it changes nothing a
    reader could see. *)
Class BenchLaws (b : bench_store) := {
  cell_content : Type;
  cell : shared b -> string -> cell_content;
  writable : cell_content -> Prop;
  holds : Z -> cell_content -> Prop;
  new_writable key : writable (cell (new_store b) key);
  holds_writable v c : holds v c -> writable c;
  write_works key v c : writable c -> works cell key (fun c' _ => holds v c') c (write_fn b key v);
  read_works key v c : holds v c -> works cell key (fun c' _ => holds v c') c (read_fn b key v);
}.

(** ** Keys *)

Lemma key_of_inj : Inj (=) (=) key_of.
Proof. intros i j E. unfold key_of in E. apply (inj (String.append "key_")) in E. by apply (inj pretty). Qed.

Lemma indices_NoDup iters : NoDup (indices iters).
Proof. apply NoDup_fmap_2; [intros i j; lia|]. apply NoDup_seq. Qed.

Lemma keys_NoDup iters : NoDup (key_of <$> indices iters).
Proof. apply NoDup_fmap_2; [exact key_of_inj|apply indices_NoDup]. Qed.

(** ** Every workload, on any store that keeps the laws *)

Section workloads.
Context (pointer_width : Z) (b : bench_store) `{BL : !BenchLaws b}.
Implicit Types (s : shared b) (l : list BinNums.N) (f : BinNums.N -> prog (shared b) unit).

Definition all_writable s : Prop := forall key, writable (cell s key).

(** Key [i] holds what the benchmarks write to it. *)
Definition filled s l : Prop :=
  Forall (fun i => holds (as_usize pointer_width i) (cell s (key_of i))) l.

(** Task [i] works on the cell of key [i] and leaves its value there. *)
Definition task_ok s i (m : prog (shared b) unit) : Prop :=
  works cell (key_of i) (fun c _ => holds (as_usize pointer_width i) c) (cell s (key_of i)) m.

Lemma write_ok s i : all_writable s -> task_ok s i (write_fn b (key_of i) (as_usize pointer_width i)).
Proof. intros Hs. by apply write_works. Qed.

Lemma write_read_ok s i :
  all_writable s ->
  task_ok s i (do! _ := write_fn b (key_of i) (as_usize pointer_width i) in
               read_fn b (key_of i) (as_usize pointer_width i)).
Proof. intros Hs. eapply works_bind; [by apply write_works|]. intros c a. apply read_works. Qed.

(** Filling the store before the tasks start. *)
Lemma write_all_run s l :
  NoDup l -> all_writable s ->
  exists s', run (write_all pointer_width b l) s = Finished s' () /\ all_writable s' /\ filled s' l /\
    forall i, i ∉ l -> cell s' (key_of i) = cell s (key_of i).
Proof.
  revert s. induction l as [|i l IH]; intros s Hnd Hs; [exists s; by split_and!; [..|constructor|]|].
  apply NoDup_cons in Hnd as [Hi Hnd].
  destruct (works_run cell (key_of i) _ _ s (write_ok s i Hs)) as (s1 & [] & E1 & Hh & Hc).
  assert (Hs1 : all_writable s1).
  { intros key. destruct (decide (key = key_of i)) as [->|Hne]; [by eapply holds_writable|by rewrite Hc]. }
  destruct (IH s1 Hnd Hs1) as (s2 & E2 & Hs2 & Hl & Hc2). exists s2. split_and!; [|done| |].
  - simpl. by rewrite run_bind, E1.
  - constructor; [by rewrite Hc2|done].
  - intros j [Hj Hjl]%not_elem_of_cons. rewrite Hc2, Hc; [done| |done]. by intros ?%key_of_inj.
Qed.

Definition jobs_of l : list (string * (cell_content -> unit -> Prop)) :=
  (fun i => (key_of i, fun c _ => holds (as_usize pointer_width i) c)) <$> l.

Lemma jobs_of_keys l : (jobs_of l).*1 = key_of <$> l.
Proof. unfold jobs_of. by rewrite <-list_fmap_compose. Qed.

(** Tasks that are all right stay so under every schedule. *)
Definition tasks_ok s iters (c : list (prog (shared b) unit) * shared b) : Prop :=
  length c.1 = iters /\ pool_works cell (jobs_of (indices iters)) c /\
  forall key, key ∉ key_of <$> indices iters -> cell c.2 key = cell s key.

Lemma tasks_stay_ok f s iters sched c :
  (forall i, i ∈ indices iters -> task_ok s i (f i)) -> pool_run sched (f <$> indices iters, s) = Some c -> tasks_ok s iters c.
Proof.
  intros Hf Hr.
  destruct (pool_works_run cell (jobs_of (indices iters)) sched (f <$> indices iters, s) c) as [Hc Hkeep].
  - rewrite jobs_of_keys. apply keys_NoDup.
  - apply Forall2_fmap, Forall_Forall2_diag, Forall_forall. exact Hf.
  - exact Hr.
  - rewrite jobs_of_keys in Hkeep. split; [|done]. apply Forall2_length in Hc.
    unfold jobs_of, indices in Hc. by rewrite !length_fmap, length_seq in Hc.
Qed.

(** What [join_all] is ready with when every task has returned. *)
Lemma join_all_returned (ms : list (prog (shared b) unit)) :
  Forall (fun m => m = Ret ()) ms -> join_all ms = Some (replicate (length ms) (Ok ())).
Proof. induction 1 as [|m ms -> _ IH]; [done|]. unfold join_all in *. simpl. by rewrite IH. Qed.

Lemma join_all_ends s iters c rs :
  tasks_ok s iters c -> join_all c.1 = Some rs -> Forall (fun m => m = Ret ()) c.1.
Proof.
  intros (_ & Hc & _) Ej. apply Forall_lookup. intros i m Hm.
  pose proof (pool_works_status cell _ _ i m Hc Hm) as Hst.
  apply mapM_Some in Ej. destruct (Forall2_lookup_l _ _ _ _ _ Ej Hm) as (r & _ & Er).
  by destruct m as [[]| |].
Qed.

Lemma quiescent_ends s iters c :
  tasks_ok s iters c -> quiescent pool_step c -> Forall (fun m => m = Ret ()) c.1.
Proof.
  intros (_ & Hc & _) Hq. apply Forall_lookup. intros i m Hm.
  pose proof (pool_works_status cell _ _ i m Hc Hm) as Hst.
  destruct m as [[]| |X g k]; [done..|]. rewrite (Hq i) in Hst. by destruct Hst.
Qed.

(** The values are in the store then, and it can be used for another round. *)
Lemma ended_writable s iters c :
  tasks_ok s iters c -> Forall (fun m => m = Ret ()) c.1 -> all_writable s -> all_writable c.2.
Proof.
  intros (_ & Hc & Hkeep) Hend Hs key.
  destruct (decide (key ∈ key_of <$> indices iters)) as [(i & -> & Hi)%list_elem_of_fmap|Hne];
    [|by rewrite Hkeep].
  apply list_elem_of_lookup in Hi as [n Hn].
  assert (Hj : jobs_of (indices iters) !! n = Some (key_of i, fun c _ => holds (as_usize pointer_width i) c))
    by (unfold jobs_of; by rewrite list_lookup_fmap, Hn).
  destruct (Forall2_lookup_l _ _ _ _ _ Hc Hj) as (m & Hm & Hw).
  rewrite Forall_lookup in Hend. specialize (Hend n m Hm) as ->. by eapply holds_writable.
Qed.

(** ** One round, and all rounds *)

(** A workload that fills the store and then spawns tasks that are all right. *)
Definition workload_ok (w : nat -> workload (shared b)) : Prop :=
  forall iters s, all_writable s ->
    exists s' f, run (prefill (w iters)) s = Finished s' () /\ all_writable s' /\
      tasks (w iters) = f <$> indices iters /\ forall i, i ∈ indices iters -> task_ok s' i (f i).

Lemma read_write_ok : workload_ok (read_write_benchmark pointer_width b).
Proof. intros iters s Hs. eexists s, _. split_and!; [done..|]. intros i _. by apply write_read_ok. Qed.

Lemma write_benchmark_ok : workload_ok (write_benchmark pointer_width b).
Proof. intros iters s Hs. eexists s, _. split_and!; [done..|]. intros i _. by apply write_ok. Qed.

Lemma read_benchmark_ok : workload_ok (read_benchmark pointer_width b).
Proof.
  intros iters s Hs. destruct (write_all_run s (indices iters)) as (s' & Er & Hs' & Hf & _); [|done|].
  - apply indices_NoDup.
  - eexists s', _. split_and!; [done..|]. intros i Hi. unfold filled in Hf. rewrite Forall_forall in Hf.
    apply read_works. by apply Hf.
Qed.

(** What is promised of one round. *)
Definition round_ends (w : workload (shared b)) s iters : Prop :=
  exists s', run (prefill w) s = Finished s' () /\ terminates pool_step (tasks w, s') /\
    forall sched c, pool_run sched (tasks w, s') = Some c -> quiescent pool_step c ->
      join_all c.1 = Some (replicate iters (Ok ())).

Lemma round_ok w s iters :
  workload_ok w -> all_writable s ->
  round_ends (w iters) s iters /\
  forall sched r, iter_custom (w iters) sched s = Some r -> exists s', r = Returns s' /\ all_writable s'.
Proof.
  intros Hw Hs. destruct (Hw iters s Hs) as (s1 & f & Er & Hs1 & Et & Hf). split.
  - exists s1. split; [done|]. split; [apply pool_terminates|]. intros sched c Hr Hq. rewrite Et in Hr.
    pose proof (tasks_stay_ok f s1 iters sched c Hf Hr) as Hc. rewrite <-(proj1 Hc).
    by eapply join_all_returned, quiescent_ends.
  - intros sched r. unfold iter_custom. rewrite Er, Et.
    destruct (pool_run sched (f <$> indices iters, s1)) as [[ms s2]|] eqn:Ep; [|done].
    pose proof (tasks_stay_ok f s1 iters sched _ Hf Ep) as Hc.
    destruct (join_all ms) as [rs|] eqn:Ej; [|done]. simpl. intros [= <-].
    pose proof (join_all_ends _ _ _ rs Hc Ej) as Hend. simpl in Hend.
    rewrite (join_all_returned ms Hend) in Ej. injection Ej as <-. exists s2. split.
    + clear. induction (length ms) as [|n IH]; [done|exact IH].
    + exact (ended_writable _ _ _ Hc Hend Hs1).
Qed.

Lemma rounds_ok w rounds s :
  workload_ok w -> all_writable s ->
  forall r, bench_function w rounds s = Some r -> exists s', r = Returns s' /\ all_writable s'.
Proof.
  intros Hw. revert s. induction rounds as [|[iters sched] rounds IH]; intros s Hs r E; simplify_eq/=.
  { by exists s. }
  destruct (round_ok w s iters Hw Hs) as [_ H].
  destruct (iter_custom (w iters) sched s) as [r1|] eqn:Ei; [|done].
  destruct (H sched r1 Ei) as (s1 & -> & Hs1). by eapply IH.
Qed.
End workloads.

(** ** The five stores keep the laws *)

(** A read that finds the value it expects. *)
Lemma read_expected {S C : Type} (cell : S -> string -> C) key (f : S -> option Z) v c (Q : C -> unit -> Prop) :
  (forall s, cell s key = c -> f s = Some v) -> Q c () ->
  works cell key Q c
    (do! entry := read_state f in lift_outcome (let! w := unwrap_option entry in assert_eq w v)).
Proof.
  intros Hf HQ. apply (works_bind cell key (fun c' entry => c' = c /\ entry = Some v)).
  - apply works_access. intros s Hs. simpl. auto.
  - intros c' entry [-> ->]. simpl. unfold assert_eq. by rewrite Z.eqb_refl.
Qed.

(** A write of one key of a finite map. *)
Lemma write_key {S : Type} (view : S -> gmap string Z) key v c (f : S -> S) :
  (forall s, view (f s) = <[key := v]> (view s)) ->
  works (fun s k => view s !! k) key (fun c' _ => c' = Some v) c (write_state f).
Proof.
  intros Hf. apply works_access. intros s _. simpl. rewrite Hf, lookup_insert_eq. split; [|done].
  intros key' Hne. by rewrite lookup_insert_ne.
Qed.

Section stores.
Context (pointer_width counter : Z) {E N Ticket M MD MS MI : Type} `{NO : !NotifyOps N Ticket}
  `{SM : !SccHashMap string (TokenState Z) M} `{SL : !SccLaws string (TokenState Z) M}
  `{DM : !DashMap string Z MD} `{DL : !DashLaws string Z MD}
  `{SR : !SccHashMap string Z MS} `{SRL : !SccLaws string Z MS}
  `{HI : !HashIndex string Z MI} `{HL : !HashIndexLaws string Z MI}.

#[export] Instance rwlock_laws : BenchLaws rwlock_map.
Proof.
  refine {| cell (s : shared rwlock_map) k := (s : gmap string Z) !! k; writable _ := True;
            holds v c := c = Some v |}; simpl; try done.
  - intros key v c _. by apply (write_key id).
  - intros key v c ->. by apply (read_expected (fun (s : gmap string Z) k => s !! k)).
Defined.

#[export] Instance dashmap_laws : BenchLaws (dashmap (MD := MD)).
Proof.
  refine {| cell (s : shared dashmap) k := dash_view s !! k; writable _ := True;
            holds v c := c = Some v |}; simpl; try done.
  - intros key v c _. apply write_key. intros s. apply dash_view_insert.
  - intros key v c ->. apply (read_expected (fun (s : MD) k => dash_view s !! k)); [|done].
    intros s <-. apply dash_view_get.
Defined.

#[export] Instance raw_scc_hashmap_laws : BenchLaws (raw_scc_hashmap (MS := MS)).
Proof.
  refine {| cell (s : shared raw_scc_hashmap) k := view s !! k; writable _ := True;
            holds v c := c = Some v |}; simpl; try done.
  - intros key v c _. apply write_key. intros s. apply view_upsert.
  - intros key v c ->. apply (read_expected (fun (s : MS) k => view s !! k)); [|done].
    intros s <-. apply view_read.
Defined.

(** *** The token store *)

Notation token_store := (store M N unit).
Definition token_cell (s : token_store) (key : string) : option (TokenState Z) := view (token_map s) !! key.

Definition token_free (c : option (TokenState Z)) : Prop := option_map is_updating c <> Some true.

Definition token_holds (v : Z) (c : option (TokenState Z)) : Prop :=
  exists id, c = Some (MkTokenState id (Ready v)).

(** An access that leaves the map alone. *)
Lemma aside_works {X : Type} key (Q : option (TokenState Z) -> X -> Prop) c (f : token_store -> token_store * X) :
  (forall s, token_map (f s).1 = token_map s) -> (forall s, token_cell s key = c -> Q c (f s).2) ->
  works token_cell key Q c (access f).
Proof. unfold token_cell. intros Hm HQ. apply works_access. intros s Hs. rewrite Hm. split; [done|]. rewrite Hs. auto. Qed.

Lemma set_finish_works key id p v t :
  works token_cell key
    (fun c r => c = Some (MkTokenState id (Ready v)) /\ r = Ok (new_unchecked (MkTokenState id (Ready v))))
    (Some t) (set_finish key id p (Ok v : Result Z E)).
Proof.
  apply (works_bind _ _ (fun c _ => c = Some (MkTokenState id (Ready v)))).
  - apply works_access. unfold token_cell. intros s Hs. simpl. rewrite view_update, lookup_alter_eq, Hs. split; [|done].
    intros key' Hne. by rewrite lookup_alter_ne.
  - intros c a ->. apply (works_bind _ _ (fun c _ => c = Some (MkTokenState id (Ready v)))); [by apply aside_works|].
    intros c a' ->. done.
Qed.

(** [set] on a key nobody else works on, with a future that is ready. *)
Lemma set_works key v c :
  token_free c ->
  works token_cell key
    (fun c r => token_holds v c /\ is_ok r = true)
    c (set key (Ret (Ok v : Result Z E))).
Proof.
  intros Hc. apply (works_bind _ _ (fun c' _ => c' = c)); [by apply aside_works|]. intros c1 p ->.
  apply (works_bind _ _ (fun c' _ => c' = c)).
  { apply (works_bind _ _ (fun c' _ => c' = c)); [by apply aside_works|by intros c2 id ->]. }
  intros c2 t ->. apply (works_bind _ _ (fun c' entry => c' = c /\ entry = c)).
  { apply aside_works; [done|]. intros s <-. split; [done|apply view_read]. }
  intros c3 entry [-> ->].
  assert (Hp : works token_cell key
    (fun c r => token_holds v c /\ is_ok r = true) c
    (do! _ := write_state (fun s => set_token_map (scc_upsert key t (token_map s)).1 s) in
     do! res := Ret (Ok v : Result Z E) in set_finish key (token_id t) p res)).
  { apply (works_bind _ _ (fun c' _ => c' = Some t)).
    - apply works_access. unfold token_cell. intros s _. simpl. rewrite (proj1 (view_upsert key t (token_map s))), lookup_insert_eq.
      split; [|done]. intros key' Hne. by rewrite lookup_insert_ne.
    - intros c4 a ->. eapply works_weaken; [apply set_finish_works|]. intros c5 r [-> ->]. split; [by eexists|done]. }
  destruct c as [t'|]; [|exact Hp]. destruct (is_updating t') eqn:Et; [|exact Hp]. unfold token_free in Hc. simpl in Hc. by rewrite Et in Hc.
Qed.

Lemma tokenstore_write_works key v c :
  token_free c -> works token_cell key (fun c' _ => token_holds v c') c (tokenstore_write_operation (E := E) key v).
Proof.
  intros Hc. eapply works_bind; [by apply set_works|]. intros c' r (Hh & Hr). by destruct r.
Qed.

Lemma tokenstore_read_works key v c :
  token_holds v c -> works token_cell key (fun c' _ => token_holds v c') c (tokenstore_read_operation (E := E) key v).
Proof.
  intros [id ->]. apply (works_bind _ _ (fun c' r => c' = Some (MkTokenState id (Ready v)) /\
    r = Ok (Some (new_unchecked (MkTokenState id (Ready v)))))).
  - apply (works_bind _ _ (fun c' r => c' = Some (MkTokenState id (Ready v)) /\ r = c')).
    + apply aside_works; [done|]. intros s <-. split; [done|apply view_read].
    + by intros c' r [-> ->].
  - intros c' r [-> ->]. simpl. unfold assert_eq. rewrite Z.eqb_refl. by exists id.
Qed.

#[export] Instance tokenstore_laws : BenchLaws (tokenstore counter (E := E) (N := N) (M := M)).
Proof.
  refine {| cell (s : shared (tokenstore counter)) key := token_cell s key;
            writable := token_free; holds := token_holds |}; simpl.
  - intros key. unfold token_cell. simpl. by rewrite view_new.
  - by intros v c [id ->].
  - apply tokenstore_write_works.
  - apply tokenstore_read_works.
Defined.

(** *** [HashIndex] *)

Definition index_cell (s : MI) (key : string) : option Z := index_view s !! key.

Lemma hashindex_write_works key v c :
  works index_cell key (fun c' _ => c' = Some v) c (raw_scc_hashindex_write_operation key v).
Proof.
  apply (works_bind _ _ (fun c' found => if found : bool then c' = Some v else c' = None)).
  - apply works_access. unfold index_cell. intros s Hs. rewrite index_view_get.
    destruct (index_view s !! key) as [w|] eqn:Hw; simpl; [|done].
    rewrite index_view_update, lookup_insert_eq by done. split; [|done].
    intros key' Hne. by rewrite lookup_insert_ne.
  - intros c' [|] ->; [done|].
    apply (works_bind _ _ (fun c' r => c' = Some v /\ r = Ok ())); [|by intros c'' r [-> ->]].
    apply works_access. unfold index_cell. intros s Hs. destruct (index_view_insert key v s Hs) as [-> ->].
    rewrite lookup_insert_eq. split; [|done]. intros key' Hne. by rewrite lookup_insert_ne.
Qed.

#[export] Instance raw_scc_hashindex_laws : BenchLaws (raw_scc_hashindex (MI := MI)).
Proof.
  refine {| cell (s : shared raw_scc_hashindex) k := index_cell s k; writable _ := True;
            holds v c := c = Some v |}; simpl; try done.
  - intros key v c _. apply hashindex_write_works.
  - intros key v c ->. apply (read_expected index_cell); [|done]. intros s <-. apply index_view_peek.
Defined.

(** ** All benchmarks *)

(** However often the closure of a benchmark is called and however its tasks
    are scheduled, it never panics; and after any number of calls the next one
    fills the store, its tasks come to an end, and all of them return. *)
Definition benchmark_ok (b : bench_store) (w : nat -> workload (shared b)) : Prop :=
  forall rounds,
    bench_function w rounds (new_store b) <> Some Panics /\
    forall s iters, bench_function w rounds (new_store b) = Some (Returns s) -> round_ends b (w iters) s iters.

Lemma benchmark_ok_intro (b : bench_store) (BL : BenchLaws b) k :
  benchmark_ok b (workload_of pointer_width k b).
Proof.
  assert (Hw : workload_ok pointer_width b (workload_of pointer_width k b)).
  { destruct k; [apply read_write_ok|apply read_benchmark_ok|apply write_benchmark_ok]. }
  intros rounds. pose proof (rounds_ok pointer_width b _ rounds (new_store b) Hw new_writable) as Hr. split.
  - intros Hp. destruct (Hr _ Hp) as (s & [=] & _).
  - intros s iters Hp. destruct (Hr _ Hp) as (s' & [= <-] & Hs). by apply (round_ok pointer_width b _).
Qed.

Notation stores := (store_of counter (E := E) (N := N) (M := M) (MD := MD) (MS := MS) (MI := MI)).

(** C16 (safety): none of the fifteen benchmarks can fail. Whatever the counts
    of iterations Criterion asks for, one after the other on the same store, and
    whatever the schedules: no task and no [unwrap] panics, no task waits for
    ever, and [join_all] gets every task's result. This holds for any [Notify],
    [DashMap], [HashMap] and [HashIndex] that behave as documented, and wherever
    the global token counter stands. *)
Theorem benchmarks_never_fail :
  Forall (fun b => benchmark_ok (stores (bench_on b)) (workload_of pointer_width (bench_workload b) _))
    criterion_benchmark.
Proof.
  apply Forall_forall. intros b _. destruct (bench_on b).
  - apply benchmark_ok_intro, tokenstore_laws.
  - apply benchmark_ok_intro, dashmap_laws.
  - apply benchmark_ok_intro, rwlock_laws.
  - apply benchmark_ok_intro, raw_scc_hashmap_laws.
  - apply benchmark_ok_intro, raw_scc_hashindex_laws.
Qed.
End stores.

(** ** Evaluation *)

Notation test_tokens := (gmap string (TokenState Z)).
Notation test_values := (gmap string Z).

Definition test_tokenstore : bench_store := tokenstore 1 (E := unit) (N := nat) (M := test_tokens).

(** Two calls of the second workload on the token store, of two tasks each, end
    well; so would a third of five. *)
Lemma benchmarks_never_fail_witness :
  exists s,
    bench_function (read_benchmark 64 test_tokenstore) [(2, [0; 1]); (2, [1; 0])]%nat (new_store test_tokenstore) =
      Some (Returns s) /\
    round_ends test_tokenstore (read_benchmark 64 test_tokenstore 5) s 5.
Proof.
  pose proof (benchmarks_never_fail 64 1 (E := unit) (N := nat) (Ticket := nat) (M := test_tokens)
    (MD := test_values) (MS := test_values) (MI := test_values)) as H.
  rewrite Forall_lookup in H. specialize (H 5%nat _ eq_refl [(2, [0; 1]); (2, [1; 0])]%nat) as [_ H].
  eexists. split; [vm_compute; reflexivity|]. apply H. vm_compute. reflexivity.
Defined.

(** It is the keys of their own that the tasks owe this to: of two writers of
    one key the second may find the token being updated, and dies. *)
Example shared_key_dies :
  exists c, pool_run [0; 0; 0; 0; 1; 1; 1; 0; 0]%nat
      ([write_fn test_tokenstore "key_0" 0; write_fn test_tokenstore "key_0" 0], new_store test_tokenstore) = Some c /\
    statuses c = [Returned (); Died].
Proof. eexists. split; [vm_compute; reflexivity|reflexivity]. Qed.
