(* ===== verification/Http.v ===== *)
(** * Building HTTP requests
      ([client/src/header_map_serializer.rs], [content_type.rs], [lib.rs])

    Header parameters are serialised field by field into a header map; a request
    is put together from a URL, a path, headers, a query and a body. The parsers
    of header names and values, the JSON, query and form writers and the URL type
    are libraries and parameters here. *)

From S2P Require Import Prelude Convert.

(** ** The header serialiser *)

Inductive HeaderSerDeError (JsonError : Type) : Type :=
| InvalidType
| InvalidJsonValue (e : JsonError)
| SerdeParsingError (msg : bytes)
| InvalidHeaderName
| InvalidHeaderValue.
Arguments InvalidType {JsonError}.
Arguments InvalidJsonValue {JsonError} e.
Arguments SerdeParsingError {JsonError} msg.
Arguments InvalidHeaderName {JsonError}.
Arguments InvalidHeaderValue {JsonError}.

(** The call that a value's [Serialize] implementation makes on the serialiser;
    [J] is a value inside it. *)
Inductive serialize_call (J : Type) : Type :=
| SerStruct (fields : list (bytes * J))
| SerMap
| SerBool (v : bool)
| SerI8 (v : Z) | SerI16 (v : Z) | SerI32 (v : Z) | SerI64 (v : Z)
| SerU8 (v : Z) | SerU16 (v : Z) | SerU32 (v : Z) | SerU64 (v : Z)
| SerF32 | SerF64
| SerChar (v : Z)
| SerStr (v : bytes)
| SerBytes (v : bytes)
| SerNone
| SerSome (v : J)
| SerUnit
| SerUnitStruct
| SerUnitVariant (variant : bytes)
| SerNewtypeStruct (v : J)
| SerNewtypeVariant (variant : bytes) (v : J)
| SerSeq
| SerTuple (len : nat)
| SerTupleStruct (len : nat)
| SerTupleVariant (variant : bytes) (len : nat)
| SerStructVariant (variant : bytes) (len : nat).
Arguments SerStruct {J} fields.
Arguments SerMap {J}.
Arguments SerBool {J} v.
Arguments SerI8 {J} v.
Arguments SerI16 {J} v.
Arguments SerI32 {J} v.
Arguments SerI64 {J} v.
Arguments SerU8 {J} v.
Arguments SerU16 {J} v.
Arguments SerU32 {J} v.
Arguments SerU64 {J} v.
Arguments SerF32 {J}.
Arguments SerF64 {J}.
Arguments SerChar {J} v.
Arguments SerStr {J} v.
Arguments SerBytes {J} v.
Arguments SerNone {J}.
Arguments SerSome {J} v.
Arguments SerUnit {J}.
Arguments SerUnitStruct {J}.
Arguments SerUnitVariant {J} variant.
Arguments SerNewtypeStruct {J} v.
Arguments SerNewtypeVariant {J} variant v.
Arguments SerSeq {J}.
Arguments SerTuple {J} len.
Arguments SerTupleStruct {J} len.
Arguments SerTupleVariant {J} variant len.
Arguments SerStructVariant {J} variant len.

(** [http] and [serde_json]: names are read case-insensitively, values must be
    visible; the map keeps one value per name under [insert]. *)
Class HeaderLib (J JsonError : Type) := {
  header_name_from_str : bytes -> option bytes;
  header_value_from_str : bytes -> option bytes;
  json_to_string : J -> Result bytes JsonError;
}.

Notation HeaderMap := (gmap bytes bytes).

Section headers.
Context {J JsonError : Type} `{HeaderLib J JsonError}.

(** [key.replace("_", "-")]. *)
Definition replace_underscore (key : bytes) : bytes := (fun b => if b =? 95 then 45 else b) <$> key.

(** The JSON text without the quotes around it, when it begins with one. *)
Definition unquote (header_value : bytes) : outcome bytes :=
  match header_value with
  | [] => Panics
  | b :: rest =>
      if b =? 34 then
        (* &header_value[1..header_value.len() - 1] *)
        match rest with
        | [] => Panics
        | _ => Returns (take (length rest - 1) rest)
        end
      else Returns header_value
  end.

(** [serialize_field]. *)
Definition serialize_field (key : bytes) (value : J) (map : HeaderMap) :
    outcome (Result HeaderMap (HeaderSerDeError JsonError)) :=
  match header_name_from_str (replace_underscore key) with
  | None => Returns (Err InvalidHeaderName)
  | Some key =>
      match json_to_string value with
      | Err e => Returns (Err (InvalidJsonValue e))
      | Ok header_value =>
          let! text := unquote header_value in
          Returns (match header_value_from_str text with
            | None => Err InvalidHeaderValue
            | Some value => Ok (<[key := value]> map)
            end)
      end
  end.

Fixpoint serialize_fields (fields : list (bytes * J)) (map : HeaderMap) :
    outcome (Result HeaderMap (HeaderSerDeError JsonError)) :=
  match fields with
  | [] => Returns (Ok map)
  | (key, value) :: fields =>
      let! r := serialize_field key value map in
      match r with
      | Ok map => serialize_fields fields map
      | Err e => Returns (Err e)
      end
  end.

(** The primitive methods of [impl Serializer]. *)
Definition serialize_primitive (c : serialize_call J) : Result HeaderMap (HeaderSerDeError JsonError) :=
  match c with
  | SerMap => Err InvalidType
  | SerBool _ => Err InvalidType
  | SerI8 _ => Err InvalidType
  | SerI16 _ => Err InvalidType
  | SerI32 _ => Err InvalidType
  | SerI64 _ => Err InvalidType
  | SerU8 _ => Err InvalidType
  | SerU16 _ => Err InvalidType
  | SerU32 _ => Err InvalidType
  | SerU64 _ => Err InvalidType
  | SerF32 => Err InvalidType
  | SerF64 => Err InvalidType
  | SerChar _ => Err InvalidType
  | SerStr _ => Err InvalidType
  | SerBytes _ => Err InvalidType
  | _ => Err InvalidType
  end.

(** Its methods on options, units, newtypes, sequences and variants. *)
Definition serialize_compound (c : serialize_call J) : Result HeaderMap (HeaderSerDeError JsonError) :=
  match c with
  | SerNone => Err InvalidType
  | SerSome _ => Err InvalidType
  | SerUnit => Err InvalidType
  | SerUnitStruct => Err InvalidType
  | SerUnitVariant _ => Err InvalidType
  | SerNewtypeStruct _ => Err InvalidType
  | SerNewtypeVariant _ _ => Err InvalidType
  | SerSeq => Err InvalidType
  | SerTuple _ => Err InvalidType
  | SerTupleStruct _ => Err InvalidType
  | SerTupleVariant _ _ => Err InvalidType
  | SerStructVariant _ _ => Err InvalidType
  | c => serialize_primitive c
  end.

Definition serialize (c : serialize_call J) (map : HeaderMap) :
    outcome (Result HeaderMap (HeaderSerDeError JsonError)) :=
  match c with
  | SerStruct fields => serialize_fields fields map
  | c => Returns (serialize_compound c)
  end.

(** [to_headers]. *)
Definition to_headers (c : serialize_call J) : outcome (Result HeaderMap (HeaderSerDeError JsonError)) :=
  serialize c ∅.
End headers.

(** ** Content types *)

Inductive ContentType : Type := AppJson | AppForm | AppPatchJson.

#[export] Instance ContentType_eq_dec : EqDecision ContentType.
Proof. solve_decision. Defined.

(** [mediatype::MediaType]: type, subtype and suffix. *)
Record MediaType : Type := MkMediaType { mt_type : string; mt_subtype : string; mt_suffix : option string }.

#[export] Instance MediaType_eq_dec : EqDecision MediaType.
Proof. solve_decision. Defined.

Definition APP_JSON : MediaType := MkMediaType "application" "json" None.
Definition APP_FORM : MediaType := MkMediaType "application" "x-www-form-urlencoded" None.
Definition APP_PATCH_JSON : MediaType := MkMediaType "application" "json-patch" (Some "json").

Definition to_str (c : ContentType) : string :=
  match c with
  | AppJson => "application/json"
  | AppForm => "application/x-www-form-urlencoded"
  | AppPatchJson => "application/json-patch+json"
  end.

Definition to_mediatype (c : ContentType) : MediaType :=
  match c with
  | AppJson => APP_JSON
  | AppForm => APP_FORM
  | AppPatchJson => APP_PATCH_JSON
  end.

Inductive ContentTypeParseError (E : Type) : Type :=
| InvalidContentType (s : string)
| MediaTypeError (e : E) (s : string).
Arguments InvalidContentType {E} s.
Arguments MediaTypeError {E} e s.

(** [FromStr]; [parse] is [MediaType::parse]. *)
Definition content_type_from_str {E : Type} (parse : string -> Result MediaType E) (s : string) :
    Result ContentType (ContentTypeParseError E) :=
  match map_err (fun e => MediaTypeError e s) (parse s) with
  | Err e => Err e
  | Ok m =>
      if decide (m = APP_JSON) then Ok AppJson
      else if decide (m = APP_FORM) then Ok AppForm
      else if decide (m = APP_PATCH_JSON) then Ok AppPatchJson
      else Err (InvalidContentType s)
  end.

(** ** Requests *)

(** [GenericClientError]; [E] is a library's own error. *)
Inductive GenericClientError (E Problem : Type) : Type :=
| ClientRequestError (e : E)
| ResponseParseError (e : E)
| InvalidResponse (status : Z) (problem : option Problem)
| GceHeaderSerDeError (e : HeaderSerDeError E)
| QuerySerDeError (e : E)
| UrlFormEncodedError (e : E)
| SerializationError (e : E)
| PathCreationError (e : E)
| BuilderError (e : E)
| UriBuilderError (e : E)
| TowerHttpError (e : E).
Arguments ClientRequestError {E Problem} e.
Arguments ResponseParseError {E Problem} e.
Arguments InvalidResponse {E Problem} status problem.
Arguments GceHeaderSerDeError {E Problem} e.
Arguments QuerySerDeError {E Problem} e.
Arguments UrlFormEncodedError {E Problem} e.
Arguments SerializationError {E Problem} e.
Arguments PathCreationError {E Problem} e.
Arguments BuilderError {E Problem} e.
Arguments UriBuilderError {E Problem} e.
Arguments TowerHttpError {E Problem} e.

Record Request (Url Method : Type) : Type := MkRequest {
  rq_method : Method;
  rq_url : Url;
  rq_headers : HeaderMap;
  rq_body : option bytes;
}.
Arguments MkRequest {Url Method} _ _ _ _.
Arguments rq_method {Url Method} _.
Arguments rq_url {Url Method} _.
Arguments rq_headers {Url Method} _.
Arguments rq_body {Url Method} _.

(** The URL type, the writers of queries, JSON and forms, and the builder's
    checks; [Val] is a value with a [Serialize] implementation. *)
Class HttpLib (Url Val E : Type) := {
  set_path : bytes -> Url -> Url;
  open_query : Url -> Url;
  append_query : Val -> Url -> Result Url E;
  url_parse : bytes -> Result Url E;
  url_join : bytes -> Url -> Result Url E;
  urlencoded_to_string : Val -> Result bytes E;
  set_query : bytes -> Url -> Url;
  build_uri : Url -> Result Url E;
  json_to_vec : Val -> Result bytes E;
  qs_to_writer : Val -> Result bytes E;
  header_fields : Val -> serialize_call Val;
}.

Section requests.
Context {Url Method Val E Problem : Type} `{HeaderLib Val E} `{!HttpLib Url Val E}.

Notation Error := (GenericClientError E Problem).

Definition remove_leading_slash (input : bytes) : bytes :=
  match input with
  | b :: rest => if b =? 47 then rest else input
  | [] => input
  end.

(** [serialize_body]; the third content type is a [todo!]. *)
Definition serialize_body (body : Val) (encoding_type : ContentType) : outcome (Result bytes Error) :=
  match encoding_type with
  | AppJson => Returns (map_err SerializationError (json_to_vec body))
  | AppForm => Returns (map_err UrlFormEncodedError (qs_to_writer body))
  | AppPatchJson => Panics
  end.

(** [header::CONTENT_TYPE] and the ASCII of the three values. *)
Definition CONTENT_TYPE : bytes :=
  [99; 111; 110; 116; 101; 110; 116; 45; 116; 121; 112; 101].

Fixpoint ascii_bytes (s : string) : bytes :=
  match s with
  | EmptyString => []
  | String c s => Z.of_nat (Ascii.nat_of_ascii c) :: ascii_bytes s
  end.

Definition to_header_value (c : ContentType) : bytes := ascii_bytes (to_str c).

(** [header.map(to_headers).transpose()?.map(|h| headers.extend(h))]. *)
Definition extend_headers (header : option Val) (headers : HeaderMap) : outcome (Result HeaderMap Error) :=
  match header with
  | None => Returns (Ok headers)
  | Some h =>
      let! r := to_headers (header_fields h) in
      Returns (result_map (fun new => new ∪ headers) (map_err GceHeaderSerDeError r))
  end.

(** [body.map(serialize_body).transpose()?]. *)
Definition optional_body (body : option Val) (encoding_type : ContentType) :
    outcome (Result (option bytes) Error) :=
  match body with
  | None => Returns (Ok None)
  | Some b => let! r := serialize_body b encoding_type in Returns (result_map Some r)
  end.

(** [prepare_request]. *)
Definition prepare_request (url : Url) (path : bytes) (method : Method) (header query body : option Val)
    (encoding_type : ContentType) : outcome (Result (Request Url Method) Error) :=
  let url := set_path (remove_leading_slash path) url in
  let url := open_query url in
  match (match query with
    | Some q => map_err QuerySerDeError (append_query q url)
    | None => Ok url
    end) with
  | Err e => Returns (Err e)
  | Ok url =>
      let! headers := extend_headers header ∅ in
      match headers with
      | Err e => Returns (Err e)
      | Ok headers =>
          let headers := <[CONTENT_TYPE := to_header_value encoding_type]> headers in
          let! body := optional_body body encoding_type in
          Returns (result_map (fun body => MkRequest method url headers body) body)
      end
  end.

(** [prepare_http_request]: what [url.join(path)?] returns is dropped. *)
Definition prepare_http_request (base_url path : bytes) (method : Method)
    (header query body : option Val) (encoding_type : ContentType) :
    outcome (Result (Request Url Method) Error) :=
  match map_err UriBuilderError (url_parse base_url) with
  | Err e => Returns (Err e)
  | Ok url =>
      match map_err UriBuilderError (url_join path url) with
      | Err e => Returns (Err e)
      | Ok _ =>
          match (match query with
            | Some q => result_map (fun q => set_query q url) (map_err QuerySerDeError (urlencoded_to_string q))
            | None => Ok url
            end) with
          | Err e => Returns (Err e)
          | Ok url =>
              let! body := optional_body body encoding_type in
              match body with
              | Err e => Returns (Err e)
              | Ok body =>
                  match map_err BuilderError (build_uri url) with
                  | Err e => Returns (Err e)
                  | Ok uri =>
                      let! headers := extend_headers header ∅ in
                      Returns (result_map (fun headers =>
                        MkRequest method uri
                          (<[CONTENT_TYPE := to_header_value encoding_type]> headers) body) headers)
                  end
              end
          end
      end
  end.
End requests.
