(* ===== verification/HttpProps.v ===== *)
(** * Requests: which headers they carry and where they go *)

From S2P Require Import Prelude Convert Network Http.

Section http_props.
Context {Url Method Val E Problem : Type} `{HL : HeaderLib Val E} `{XL : !HttpLib Url Val E}.
Implicit Types (fields : list (bytes * Val)) (pairs : list (bytes * bytes)) (header query body : option Val).

(** The header that a field becomes. *)
Definition field_header (field : bytes * Val) (p : bytes * bytes) : Prop :=
  header_name_from_str (replace_underscore field.1) = Some p.1 /\
  exists json text, json_to_string field.2 = Ok json /\ unquote json = Returns text /\
    header_value_from_str text = Some p.2.

(** The value of the last pair with a name. *)
Definition last_value (name : bytes) pairs : option bytes :=
  foldl (fun acc p => if decide (p.1 = name) then Some p.2 else acc) None pairs.

Lemma serialize_fields_pairs fields pairs map :
  Forall2 field_header fields pairs ->
  serialize_fields (JsonError := E) fields map = Returns (Ok (foldl (fun m p => <[p.1 := p.2]> m) map pairs)).
Proof.
  intros Hf. revert map.
  induction Hf as [|[key value] [name v] fields pairs (Hn & json & text & Hj & Hu & Hv) _ IH]; intros map;
    [done|].
  simpl in Hn, Hj, Hv. cbn [serialize_fields]. unfold serialize_field. rewrite Hn, Hj, Hu.
  cbn [outcome_bind]. rewrite Hv. apply IH.
Qed.

Lemma foldl_insert_lookup pairs (map : gmap bytes bytes) name :
  foldl (fun m p => <[p.1 := p.2]> m) map pairs !! name =
  foldl (fun acc p => if decide (p.1 = name) then Some p.2 else acc) (map !! name) pairs.
Proof.
  revert map. induction pairs as [|[k v] pairs IH]; intros map; simpl; [done|].
  rewrite IH. f_equal. case_decide; subst; [by rewrite lookup_insert_eq|by rewrite lookup_insert_ne].
Qed.

(** What is not a struct is refused. *)
Lemma to_headers_struct_only (c : serialize_call Val) :
  (forall fields, c <> SerStruct fields) -> to_headers (JsonError := E) c = Returns (Err InvalidType).
Proof. intros Hc. destruct c as [fields| | | | | | | | | | | | | | | | | | | | | | | | | | |]; try done. by destruct (Hc fields). Qed.

(** C35 (functional): a request built from a struct of header parameters
    carries one header per field, named with hyphens for underscores, without
    the quotes of its JSON text, the last of equal names winning; the content
    type is always the one asked for, whatever the fields say; method, URL and
    body are the ones prepared. Parameters that are not a struct are an error.
    [prepare_http_request] builds the same request for every path that can be
    joined to the URL: the path never reaches it. *)
Theorem request_headers (url : Url) path (method : Method) h query body enc :
  (forall fields pairs url' bs, header_fields h = SerStruct fields -> Forall2 field_header fields pairs ->
    match query with
    | Some q => append_query q (open_query (set_path (remove_leading_slash path) url)) = Ok url'
    | None => url' = open_query (set_path (remove_leading_slash path) url)
    end ->
    optional_body (Problem := Problem) body enc = Returns (Ok bs) ->
    exists headers, prepare_request (Problem := Problem) url path method (Some h) query body enc =
        Returns (Ok (MkRequest method url' headers bs)) /\
      headers !! CONTENT_TYPE = Some (to_header_value enc) /\
      forall name, name <> CONTENT_TYPE -> headers !! name = last_value name pairs) /\
  ((forall fields, header_fields h <> SerStruct fields) -> query = None ->
    prepare_request (Problem := Problem) url path method (Some h) query body enc =
      Returns (Err (GceHeaderSerDeError InvalidType))) /\
  (forall base base_url path', url_parse base = Ok base_url ->
    is_ok (url_join path base_url) = true -> is_ok (url_join path' base_url) = true ->
    prepare_http_request (Problem := Problem) base path method (Some h) query body enc =
      prepare_http_request base path' method (Some h) query body enc).
Proof.
  split_and!.
  - intros fields pairs url' bs Hh Hp Hq Hb. unfold prepare_request.
    assert (Hq' : match query with
      | Some q => map_err QuerySerDeError (append_query q (open_query (set_path (remove_leading_slash path) url)))
      | None => Ok (open_query (set_path (remove_leading_slash path) url))
      end = Ok url' :> Result Url (GenericClientError E Problem)).
    { destruct query as [q|]; [by rewrite Hq|by subst]. }
    rewrite Hq'. unfold extend_headers, to_headers. rewrite Hh. cbn [serialize].
    rewrite (serialize_fields_pairs fields pairs ∅ Hp). cbn [outcome_bind map_err result_map].
    rewrite Hb. cbn [outcome_bind result_map]. eexists. split; [done|].
    split; [by rewrite lookup_insert_eq|]. intros name Hn.
    rewrite lookup_insert_ne by done. by rewrite map_union_empty, foldl_insert_lookup, lookup_empty.
  - intros Hh ->. unfold prepare_request, extend_headers. by rewrite (to_headers_struct_only _ Hh).
  - intros base base_url path' Hu H1 H2. unfold prepare_http_request. rewrite Hu. cbn [map_err].
    revert H1 H2. destruct (url_join path base_url); [|done]. by destruct (url_join path' base_url).
Qed.
End http_props.

(** ** Two parameters with one name *)

Definition test_params : bytes := [97].

#[local] Instance params_headers : HeaderLib bytes Z := {
  header_name_from_str := Some;
  header_value_from_str := Some;
  json_to_string := Ok;
}.

(** The parameters are [a_b] twice and the content type. *)
#[local] Instance params_http : HttpLib bytes bytes Z := {
  set_path p u := u ++ [47] ++ p;
  open_query u := u;
  append_query q u := Ok (u ++ [63] ++ q);
  url_parse := Ok;
  url_join p u := Ok (u ++ p);
  urlencoded_to_string := Ok;
  set_query q u := u ++ [63] ++ q;
  build_uri := Ok;
  json_to_vec := Ok;
  qs_to_writer := Ok;
  header_fields _ := SerStruct [([97; 95; 98], [34; 49; 34]); (CONTENT_TYPE, [50]); ([97; 95; 98], [51])];
}.

Lemma request_headers_witness :
  exists headers, prepare_request (Problem := Z) ([104] : bytes) [47; 112] 0 (Some test_params) None None AppJson =
      Returns (Ok (MkRequest 0 [104; 47; 112] headers None)) /\
    headers !! CONTENT_TYPE = Some (to_header_value AppJson) /\ headers !! [97; 45; 98] = Some [51].
Proof.
  destruct (request_headers (Url := bytes) (Problem := Z) [104] [47; 112] 0 test_params None None AppJson) as [H _].
  destruct (H [([97; 95; 98], [34; 49; 34]); (CONTENT_TYPE, [50]); ([97; 95; 98], [51])]
    [([97; 45; 98], [49]); (CONTENT_TYPE, [50]); ([97; 45; 98], [51])] [104; 47; 112] None)
    as (headers & H1 & H2 & H3); [reflexivity| |reflexivity..|].
  - repeat constructor; eexists _, _; repeat split; reflexivity.
  - exists headers. split; [exact H1|]. split; [exact H2|]. rewrite H3; [reflexivity|discriminate].
Defined.
