(* ===== verification/Config.v ===== *)
(** * Configuration ([config/mod.rs], [context/app_context.rs], [builder/sbi/nrf.rs])

    The configuration file's data, its validation, the running configuration
    made from it, and the profile that is announced to the NRF. The models of
    the [oasbi] and [openapi_nrf] crates and the [versions] and [uuid] crates
    are parameters, with the fields this program fills in. *)

From stdpp Require Import pretty.
From S2P Require Import Prelude Convert Network NgapContext Http.

(** Types of the SBI crates that the program only passes on or compares. *)
Class SbiModels := {
  NfInstanceId : Type;
  nf_instance_id_eq_dec :: EqDecision NfInstanceId;
  default_nf_instance_id : NfInstanceId;
  UuidError : Type;
  nf_instance_id_from_str : bytes -> Result NfInstanceId UuidError;
  NfType : Type;
  NfTypeNrf : NfType;
  NfTypeAmf : NfType;
  ServiceName : Type;
  service_name_eq_dec :: EqDecision ServiceName;
  service_name_countable :: Countable ServiceName;
  service_name_to_string : ServiceName -> bytes;
  NamfComm : ServiceName;
  NamfEvts : ServiceName;
  NamfMt : ServiceName;
  NamfLoc : ServiceName;
  NnrfNfm : ServiceName;
  UriScheme : Type;
  uri_scheme_to_string : UriScheme -> bytes;
  SbiConversionError : Type;
  SemVer : Type;
  semver_major : SemVer -> Z;
  semver_to_string : SemVer -> bytes;
  ip_to_string : IpAddr -> bytes;
}.

(** A number in decimal, as [Display] writes it. *)
Definition decimal (n : Z) : bytes := ascii_bytes (pretty n).

Section config.
Context `{SbiModels}.

(** ** The configuration file *)

Record Info : Type := MkInfo { version : SemVer; description : bytes }.

(** [config::Configuration], the [configuration] section of the file. *)
Record OmniPathInnerConfig : Type := MkOmniPathInnerConfig {
  amf_name : bytes;
  ngap_ip_list : list IpAddr;
  ngap_port : Z;
  served_guami_list : SbiGuami * list SbiGuami;
  support_tai_list : list Tai;
  plmn_support_list : ConfigPlmnSupportItem * list ConfigPlmnSupportItem;
  support_dnn_list : list bytes;
  nrf_uri : bytes;
  sctp : SctpConfig;
}.

Record Tls : Type := MkTls { pem : bytes; key : bytes }.

Record Sbi : Type := MkSbi {
  scheme : UriScheme;
  register_ip : IpAddr;
  binding_ip : IpAddr;
  sbi_port : Z;
  tls : Tls;
  service_name_list : list ServiceName;
}.

(** [nf_base]'s sections of the file. *)
Inductive RuntimeType : Type := Single | Multi.
Record LoggingConfig : Type := MkLoggingConfig { enable : bool; level : bytes; report_caller : bool }.
Record RuntimeConfig : Type := MkRuntimeConfig { rt_type : RuntimeType }.

Record OmniPathConfig : Type := MkOmniPathConfig {
  info : Info;
  configuration : OmniPathInnerConfig;
  logger : LoggingConfig;
  runtime : RuntimeConfig;
  sbi : Sbi;
}.

(** [impl NfConfig for OmniPathConfig]. *)
Definition get_log_config (c : OmniPathConfig) : LoggingConfig := logger c.
Definition get_runtime_config (c : OmniPathConfig) : RuntimeConfig := runtime c.

Fixpoint join (sep : bytes) (l : list bytes) : bytes :=
  match l with
  | [] => []
  | [x] => x
  | x :: l => x ++ sep ++ join sep l
  end.

(** [get_ip_uri]: [{scheme}://{register_ip}:{port}]. *)
Definition get_ip_uri (s : Sbi) : bytes :=
  uri_scheme_to_string (scheme s) ++ ascii_bytes "://" ++ ip_to_string (register_ip s) ++
  ascii_bytes ":" ++ decimal (sbi_port s).

Definition display_slice (input : list ServiceName) : bytes :=
  join (ascii_bytes ", ") (service_name_to_string <$> input).

(** ** Validation *)

Inductive ValidationError : Type :=
| MinItems (field : string) (minimum : nat)
| Custom (field : string) (message : bytes).

(** [enum_list]. *)
Definition enum_list (enumerate val : list ServiceName) : Result unit bytes :=
  if forallb (fun item => bool_decide (item ∈ enumerate)) val then Ok ()
  else Err (ascii_bytes "Not all elements in " ++ display_slice val ++
    ascii_bytes " are present in " ++ display_slice enumerate ++ ascii_bytes ".").

Definition min_items {A : Type} (field : string) (minimum : nat) (l : list A) : list ValidationError :=
  if (minimum <=? length l)%nat then [] else [MinItems field minimum].

Definition amf_services : list ServiceName := [NamfComm; NamfEvts; NamfMt; NamfLoc].

(** The [#[validate]] attributes of [Configuration] and of [Sbi]. *)
Definition validate_configuration (c : OmniPathInnerConfig) : list ValidationError :=
  min_items "supportTaiList" 1 (support_tai_list c) ++
  min_items "supportDnnList" 1 (support_dnn_list c).

Definition validate_sbi (s : Sbi) : list ValidationError :=
  min_items "serviceNameList" 1 (service_name_list s) ++
  match enum_list amf_services (service_name_list s) with
  | Ok _ => []
  | Err message => [Custom "serviceNameList" message]
  end.

Definition validate (c : OmniPathConfig) : Result unit (list ValidationError) :=
  match validate_configuration (configuration c) ++ validate_sbi (sbi c) with
  | [] => Ok ()
  | errors => Err errors
  end.

(** [SerdeValidated], for the one type it is used at; its field is private to
    the module, so [SerdeValidated_new] is the only way to make one. *)
Record SerdeValidated : Type := MkSerdeValidated { inner : OmniPathConfig }.

Definition SerdeValidated_new (value : OmniPathConfig) : Result SerdeValidated (list ValidationError) :=
  match validate value with
  | Ok _ => Ok (MkSerdeValidated value)
  | Err e => Err e
  end.

(** ** The default configuration *)

(** [Default] of the library types. *)
Class SbiDefaults := {
  default_semver : SemVer;
  default_uri_scheme : UriScheme;
  default_guami : SbiGuami;
  default_sbi_plmn_id : SbiPlmnId;
  default_sbi_snssai : SbiSnssai;
  default_uri : bytes;
}.

Definition IPV4_LOCALHOST : IpAddr := V4 0x7F000001.

Definition default_plmn_support_item `{SbiDefaults} : ConfigPlmnSupportItem :=
  MkPlmnSupport default_sbi_plmn_id (default_sbi_snssai, []).

Definition default_inner_config `{SbiDefaults} : OmniPathInnerConfig :=
  MkOmniPathInnerConfig [] [] 0 (default_guami, []) [] (default_plmn_support_item, []) [] default_uri
    (MkSctpConfig 0 0 0 0).

Definition default_sbi `{SbiDefaults} : Sbi :=
  MkSbi default_uri_scheme IPV4_LOCALHOST IPV4_LOCALHOST 0 (MkTls [] []) [].

(** [OmniPathConfig::default()]. *)
Definition default_omnipath_config `{SbiDefaults} : OmniPathConfig :=
  MkOmniPathConfig (MkInfo default_semver []) default_inner_config (MkLoggingConfig false [] false)
    (MkRuntimeConfig Multi) default_sbi.

(** ** Addresses in the file *)

(** The parser of addresses and the resolver of the host. *)
Class NameService (E : Type) := {
  ip_from_str : bytes -> option IpAddr;
  to_socket_addrs : bytes -> Z -> Result (list SocketAddr) E;
}.

Inductive ResolveError (E : Type) : Type :=
| LookupError (e : E)
| CouldNotResolve (host : bytes).
Arguments LookupError {E} e.
Arguments CouldNotResolve {E} host.

Definition resolve_ip_or_hostname {E : Type} `{NameService E} (s : bytes) : Result IpAddr (ResolveError E) :=
  match ip_from_str s with
  | Some ip_addr => Ok ip_addr
  | None =>
      let? addresses := map_err LookupError (to_socket_addrs s 80) in
      match addresses with
      | socket_addr :: _ => Ok socket_addr.1
      | [] => Err (CouldNotResolve s)
      end
  end.

(** [deserialize_ip_addr]. *)
Definition deserialize_ip_addr {E : Type} `{NameService E} (string : bytes) : Result IpAddr (ResolveError E) :=
  resolve_ip_or_hostname string.

(** The loop of [deserialize_ip_list]. *)
Fixpoint deserialize_ip_list {E : Type} `{NameService E} (strings : list bytes) (ip_addrs : list IpAddr) :
    Result (list IpAddr) (ResolveError E) :=
  match strings with
  | [] => Ok ip_addrs
  | s :: strings =>
      let? ip_addr := resolve_ip_or_hostname s in
      deserialize_ip_list strings (ip_addrs ++ [ip_addr])
  end.

(** ** The running configuration ([app_context.rs]) *)

Inductive TransportProtocol : Type := Tcp.
Inductive NfServiceStatus : Type := ServiceRegistered.

Record IpEndPoint : Type := MkIpEndPoint {
  transport : option TransportProtocol;
  ipv4_address : option Z;
  ipv6_address : option Z;
}.

Record NfServiceVersion : Type := MkNfServiceVersion {
  api_full_version : bytes;
  api_version_in_uri : bytes;
}.

Record NfService1 : Type := MkNfService1 {
  api_prefix : option bytes;
  service_instance_id : bytes;
  service_name : ServiceName;
  versions : list NfServiceVersion;
  service_scheme : UriScheme;
  nf_service_status : NfServiceStatus;
  ip_end_points : list IpEndPoint;
}.

Record Configuration : Type := MkConfiguration {
  c_name : bytes;
  c_nf_id : NfInstanceId;
  c_ngap_ips : list IpAddr;
  c_ngap_port : Z;
  c_served_guami_list : SbiGuami * list SbiGuami;
  c_support_dnn_list : list bytes;
  c_support_tai_list : list Tai;
  c_plmn_support_list : ConfigPlmnSupportItem * list ConfigPlmnSupportItem;
  c_tnl_weight_factor : Z;
  c_nf_services : list NfService1;
}.

(** The address, in the field of its family. *)
Definition ip_endpoint (ip : IpAddr) : IpEndPoint :=
  match ip with
  | V4 v4 => MkIpEndPoint (Some Tcp) (Some v4) None
  | V6 v6 => MkIpEndPoint (Some Tcp) None (Some v6)
  end.

Definition build_nf_services (valid_config : SerdeValidated) : list NfService1 :=
  let config := inner valid_config in
  let api_prefix := Some (get_ip_uri (sbi config)) in
  let version_uri := ascii_bytes "v" ++ decimal (semver_major (version (info config))) in
  imap (fun i service_name =>
    MkNfService1 api_prefix (decimal (Z.of_nat i)) service_name
      [MkNfServiceVersion (semver_to_string (version (info config))) version_uri]
      (scheme (sbi config)) ServiceRegistered [ip_endpoint (register_ip (sbi config))])
    (service_name_list (sbi config)).

(** [Configuration::new]; [nf_id] is the fresh [Uuid::new_v4()]. *)
Definition Configuration_new (nf_id : NfInstanceId) (valid_config : SerdeValidated) : Configuration :=
  let c := configuration (inner valid_config) in
  MkConfiguration (amf_name c) nf_id (ngap_ip_list c) (ngap_port c) (served_guami_list c)
    (support_dnn_list c) (support_tai_list c) (plmn_support_list c) 0
    (build_nf_services valid_config).

(** [AppContextInner]: two [ArcSwap] cells, read and replaced as wholes. *)
Record AppContext : Type := MkAppContext { app_config : Configuration; app_sbi : Sbi }.

Definition AppContext_initialize (nf_id : NfInstanceId) (config : SerdeValidated) : AppContext :=
  MkAppContext (Configuration_new nf_id config) (sbi (inner config)).

(** [get_global_app_context] on the cell [APP_CONTEXT]. *)
Definition get_or_init_app_context `{SbiDefaults} (nf_id : NfInstanceId) (cell : option AppContext) :
    outcome AppContext :=
  match cell with
  | Some a => Returns a
  | None =>
      let! config := unwrap (SerdeValidated_new default_omnipath_config) in
      Returns (AppContext_initialize nf_id config)
  end.

Definition update_config (nf_id : NfInstanceId) (valid_config : SerdeValidated) (a : AppContext) : AppContext :=
  MkAppContext (Configuration_new nf_id valid_config) (sbi (inner valid_config)).

Definition get_config (a : AppContext) : Configuration := app_config a.
Definition get_sbi_config (a : AppContext) : Sbi := app_sbi a.
Definition get_nf_id (a : AppContext) : NfInstanceId := c_nf_id (get_config a).

(** [commit_config]: the update on the clone it works on, and the store. *)
Definition commit_config (update_fn : Configuration -> Configuration) (clone : Configuration)
    (a : AppContext) : AppContext :=
  MkAppContext (update_fn clone) (app_sbi a).

(** What the NGAP handlers read of it. *)
Definition amf_configuration (c : Configuration) : AmfConfiguration :=
  MkAmfConfiguration (c_name c) (c_served_guami_list c) (c_support_tai_list c) (c_plmn_support_list c).

(** ** The profile for the NRF ([builder/sbi/nrf.rs]) *)

Inductive NfStatus : Type := NfRegistered.

Record AmfInfo : Type := MkAmfInfo {
  ai_region_id : Z;
  ai_set_id : Z;
  ai_guami_list : list SbiGuami;
  ai_tai_list : list Tai;
}.

Record NfProfile1Unchecked : Type := MkNfProfile1Unchecked {
  np_nf_instance_id : NfInstanceId;
  np_nf_type : NfType;
  np_nf_status : NfStatus;
  np_amf_info : option AmfInfo;
  np_plmn_list : list SbiPlmnId;
  np_nf_services : list NfService1;
  np_ipv4_addresses : list Z;
  np_ipv6_addresses : list Z;
}.

(** The checked profile of the crate and its constructor. *)
Class ProfileModels := {
  NfProfile1 : Type;
  profile_try_from : NfProfile1Unchecked -> Result NfProfile1 SbiConversionError;
}.

Inductive ModelBuildError : Type := InvalidConversion (e : SbiConversionError).

Definition unchecked_profile (config : Configuration) (sbi : Sbi) : NfProfile1Unchecked :=
  let amf_id := guami_amf_id (c_served_guami_list config).1 in
  let amf_info :=
    MkAmfInfo (region_id amf_id) (set_id amf_id)
      ((c_served_guami_list config).1 :: (c_served_guami_list config).2) (c_support_tai_list config) in
  let plmn_list :=
    plmn_id <$> (c_plmn_support_list config).1 :: (c_plmn_support_list config).2 in
  let '(ipv4, ipv6) :=
    match register_ip sbi with V4 v4 => ([v4], []) | V6 v6 => ([], [v6]) end in
  MkNfProfile1Unchecked (c_nf_id config) NfTypeAmf NfRegistered (Some amf_info) plmn_list
    (c_nf_services config) ipv4 ipv6.

Definition build_nf_profile `{ProfileModels} (a : AppContext) : Result NfProfile1 ModelBuildError :=
  map_err InvalidConversion (profile_try_from (unchecked_profile (get_config a) (get_sbi_config a))).
End config.
