(* ===== verification/NrfClient.v ===== *)
(** * The NRF client ([client/src/nrf_client.rs])

    Discovery, registration, deregistration and access tokens, as bodies of
    [async fn]s over the token store. Besides the tokens the client keeps the
    [NfConfig] that a registration brings; the HTTP exchange and the response
    types of the [openapi_nrf] crate are parameters. *)

From S2P Require Import Prelude Async SccMap Convert TokenStore Http Network Config.

(** The operations whose method and path the [oasbi] crate knows. *)
Inductive NrfService : Type :=
| SearchNFInstances
| RegisterNFInstance
| DeregisterNFInstance
| AccessTokenRequest.

(** The error statuses that the responses of the NRF distinguish. *)
Inductive error_status : Type :=
| Status400 | Status401 | Status403 | Status404 | Status411
| Status415 | Status429 | Status500 | Status501 | Status503.

(** [serde_json::Value], as far as it is inspected. *)
Inductive Value : Type := Bool (b : bool) | OtherValue.

Inductive AccessTokenRspTokenType : Type := Bearer.

Record AccessTokenRsp : Type := MkAccessTokenRsp {
  access_token : bytes;
  token_type : AccessTokenRspTokenType;
}.

Section NrfClient.
Context `{SbiModels} `{!ProfileModels}.
(** Libraries: URLs, methods and serialisable values ([Http]); problem details
    and the bodies of the other responses; token scopes. *)
Context {Url Method Val E Problem SearchResult AccessTokenErr Scope : Type}
  `{HeaderLib Val E} `{!HttpLib Url Val E}.

Notation Error := (GenericClientError E Problem).
Notation Request := (Request Url Method).

(** Variants of the generated response enums: the ones named by the code, and
    the rest. *)
Inductive SearchNfInstancesResponse : Type :=
| Search200 (body : SearchResult)
| SearchStatus (s : error_status) (problem : Problem)
| SearchOther.

Inductive RegisterNfInstanceResponse : Type :=
| Register200 (body : NfProfile1)
| Register201 (body : NfProfile1) (location : bytes)
| RegisterStatus (s : error_status) (problem : Problem)
| RegisterOther.

Inductive DeregisterNfInstanceResponse : Type :=
| Deregister204
| DeregisterStatus (s : error_status) (problem : Problem)
| DeregisterOther.

Inductive AccessTokenRequestResponse : Type :=
| AccessToken200 (body : AccessTokenRsp)
| AccessToken400 (body : AccessTokenErr)
| AccessTokenStatus (s : error_status) (problem : Problem)
| AccessTokenOther.

(** The fields of [AccessTokenReq] that are set. *)
Record AccessTokenReq : Type := MkAccessTokenReq {
  tr_target_nf_type : option NfType;
  tr_nf_type : option NfType;
  tr_nf_instance_id : NfInstanceId;
  tr_scope : Scope;
}.

(** [oasbi], [openapi_nrf] and [formatx]. *)
Class NrfModels := {
  get_http_method : NrfService -> Method;
  get_path : NrfService -> bytes;
  formatx : bytes -> NfInstanceId -> Result bytes E;
  heart_beat_timer : NfProfile1 -> option Z;
  custom_info_get : string -> NfProfile1 -> option Value;
  scope_from_str : bytes -> Result Scope SbiConversionError;
  profile_val : NfProfile1 -> Val;
  token_req_val : AccessTokenReq -> Val;
}.

(** One [execute] of the HTTP client and the reading of its response; [Env] is
    the other side. *)
Class HttpClient (Env : Type) := {
  exchange_search : Request -> Env -> option (Env * Result (Z * SearchNfInstancesResponse) Error);
  exchange_register : Request -> Env -> option (Env * Result (Z * RegisterNfInstanceResponse) Error);
  exchange_deregister : Request -> Env -> option (Env * Result (Z * DeregisterNfInstanceResponse) Error);
  exchange_token : Request -> Env -> option (Env * Result (Z * AccessTokenRequestResponse) Error);
}.

Context `{!NrfModels} {Env : Type} `{!HttpClient Env}.

(** ** State and errors *)

Record NfConfig : Type := MkNfConfig {
  heartbeat_timer : Z;
  nf_instance_id : NfInstanceId;
  oauth_enabled : bool;
}.

(** [NfConfig::default()]. *)
Definition default_nf_config : NfConfig := MkNfConfig 0 default_nf_instance_id false.

Record InitConfig : Type := MkInitConfig { url : Url; source : NfType }.

(** What the client keeps besides its tokens, and the network. *)
Record client_state : Type := MkClientState { nf_config : NfConfig; env : Env }.

Inductive NrfDiscoveryError : Type := DiscoveryClientError (e : Error).

Inductive NrfAuthorizationError : Type :=
| InvalidRequestScope (e : SbiConversionError)
| AuthClientError (e : Error)
| AccessTokenError (e : AccessTokenErr)
| TokenStoreError (e : StoreError NrfAuthorizationError)
| TokenParsingError.

Inductive NrfManagementError : Type :=
| InvalidLocationSent (e : UuidError) (location : bytes)
| LocationParseError (location : bytes)
| ManagementClientError (e : Error)
| ManagementAuthorizationError (e : NrfAuthorizationError).

Context {M N Ticket : Type} `{NotifyOps N Ticket}
  `{SccHashMap (list ServiceName) (TokenState AccessTokenRsp) M}.

(** [nf_token_store] and the rest. *)
Notation client := (store M N client_state).

Definition on_outside (f : client_state -> client_state) (c : client) : client :=
  MkStore (token_map c) (token_counter c) (notifies c) (next_notify c) (f (outside c)).

(** [NrfClient::new]; the URL and the NF's type stay outside the state. *)
Definition NrfClient_new (e : Env) : client := store_new (MkClientState default_nf_config e).

Definition load_nf_config : prog client NfConfig := read_state (fun c => nf_config (outside c)).

Definition store_nf_config (cfg : NfConfig) : prog client unit :=
  write_state (on_outside (fun o => MkClientState cfg (env o))).

Definition get_nf_id_of_client : prog client NfInstanceId :=
  do! cfg := load_nf_config in Ret (nf_instance_id cfg).

(** [self.client.execute(request).await] and [deserialize(response).await]. *)
Definition exchange {X : Type} (f : Env -> option (Env * X)) : prog client X :=
  Act (fun c =>
    '(e, x) ← f (env (outside c));
    Some (on_outside (fun o => MkClientState (nf_config o) e) c, x)) Ret.

(** ** Discovery *)

Definition search_nf_instance (i : InitConfig) (query header : Val) :
    prog client (Result SearchResult NrfDiscoveryError) :=
  let method := get_http_method SearchNFInstances in
  let path := get_path SearchNFInstances in
  do! request := lift_outcome (prepare_request (url i) path method (Some header) (Some query) None AppJson) in
  match request with
  | Err e => Ret (Err (DiscoveryClientError e))
  | Ok request =>
      do! response := exchange (exchange_search request) in
      Ret (map_err DiscoveryClientError
        (let? (status, response) := response in
         match response with
         | Search200 body => Ok body
         | SearchStatus Status401 _ => Err (InvalidResponse status None)
         | SearchStatus _ problem => Err (InvalidResponse status (Some problem))
         | SearchOther => Err (InvalidResponse status None)
         end))
  end.

(** ** Registration *)

(** [location.rfind('/')], and what follows it. *)
Fixpoint after_last_slash (location : bytes) : option bytes :=
  match location with
  | [] => None
  | b :: rest =>
      match after_last_slash rest with
      | Some tail => Some tail
      | None => if b =? 47 then Some rest else None
      end
  end.

(** The [match] on the response, up to the update of the configuration. *)
Definition register_result (status : Z) (response : RegisterNfInstanceResponse) :
    Result (NfProfile1 * option NfInstanceId) NrfManagementError :=
  match response with
  | Register200 body => Ok (body, None)
  | Register201 body location =>
      match after_last_slash location with
      | Some id =>
          match nf_instance_id_from_str id with
          | Ok instance => Ok (body, Some instance)
          | Err e => Err (InvalidLocationSent e location)
          end
      | None => Err (LocationParseError location)
      end
  | RegisterStatus _ problem => Err (ManagementClientError (InvalidResponse status (Some problem)))
  | RegisterOther => Err (ManagementClientError (InvalidResponse status None))
  end.

(** The [NfConfig] of an answer to a registration as [id]. *)
Definition registered_config (id : NfInstanceId) (nf : NfProfile1) (assigned : option NfInstanceId) : NfConfig :=
  let heartbeat_timer := default 0 (heart_beat_timer nf) in
  let oauth_enabled :=
    match custom_info_get "oauth2" nf with Some (Bool true) => true | _ => false end in
  let nf_id := default id assigned in
  MkNfConfig heartbeat_timer nf_id oauth_enabled.

Definition register_nf_instance (i : InitConfig) (nf_instance_id : NfInstanceId) (header : Val)
    (body : NfProfile1) :
    prog client (Result (NfProfile1 * option NfInstanceId) NrfManagementError) :=
  let method := get_http_method RegisterNFInstance in
  match formatx (get_path RegisterNFInstance) nf_instance_id with
  | Err e => Ret (Err (ManagementClientError (PathCreationError e)))
  | Ok path =>
      do! request :=
        lift_outcome (prepare_request (url i) path method (Some header) None (Some (profile_val body)) AppJson) in
      match request with
      | Err e => Ret (Err (ManagementClientError e))
      | Ok request =>
          do! response := exchange (exchange_register request) in
          match response with
          | Err e => Ret (Err (ManagementClientError e))
          | Ok (status, response) =>
              match register_result status response with
              | Err e => Ret (Err e)
              | Ok (nf, id) =>
                  do! _ := store_nf_config (registered_config nf_instance_id nf id) in
                  Ret (Ok (nf, id))
              end
          end
      end
  end.

(** ** Access tokens *)

(** [impl From<&[ServiceName]> for Scope]: the names, separated by spaces. The
    request below spells the same out for the scope type of the models. *)
Definition scope_from_services (value : list ServiceName) : bytes :=
  join [32] (service_name_to_string <$> value).

(** [authenticaion_request], as it is spelt. *)
Definition authenticaion_request (i : InitConfig) (source_instance_id : NfInstanceId)
    (source_nf_type target_nf_type : NfType) (target_service_name : list ServiceName) :
    prog client (Result AccessTokenRsp NrfAuthorizationError) :=
  match scope_from_str (join [32] (service_name_to_string <$> target_service_name)) with
  | Err e => Ret (Err (InvalidRequestScope e))
  | Ok scope =>
      let token_req :=
        MkAccessTokenReq (Some target_nf_type) (Some source_nf_type) source_instance_id scope in
      let method := get_http_method AccessTokenRequest in
      let path := get_path AccessTokenRequest in
      do! request :=
        lift_outcome (prepare_request (url i) path method None None (Some (token_req_val token_req)) AppForm) in
      match request with
      | Err e => Ret (Err (AuthClientError e))
      | Ok request =>
          do! response := exchange (exchange_token request) in
          Ret (match response with
            | Err e => Err (AuthClientError e)
            | Ok (status, response) =>
                match response with
                | AccessToken200 body => Ok body
                | AccessToken400 body => Err (AccessTokenError body)
                | AccessTokenStatus (Status400 | Status415) _ =>
                    Err (AuthClientError (InvalidResponse status None))
                | AccessTokenStatus _ problem => Err (AuthClientError (InvalidResponse status (Some problem)))
                | AccessTokenOther => Err (AuthClientError (InvalidResponse status None))
                end
            end)
      end
  end.

(** [get_token]: the arguments of the token request are taken before [set] starts. *)
Definition get_token (i : InitConfig) (T : NfType) (target_service_name : list ServiceName) :
    prog client (Result (TokenEntry AccessTokenRsp) NrfAuthorizationError) :=
  do! token_entry := get target_service_name in
  match token_entry with
  | Err e => Ret (Err (TokenStoreError e))
  | Ok (Some entry) => Ret (Ok entry)
  | Ok None =>
      do! cfg := load_nf_config in
      do! resp := set target_service_name
        (authenticaion_request i (nf_instance_id cfg) (source i) T target_service_name) in
      Ret (map_err TokenStoreError resp)
  end.

(** [header::AUTHORIZATION]. *)
Definition AUTHORIZATION : bytes := ascii_bytes "authorization".

(** The function [set_auth_token]: the header of a token. *)
Definition authorize (req : Request) (token_entry : TokenEntry AccessTokenRsp) :
    outcome (Result Request NrfAuthorizationError) :=
  let! rsp := entry_get token_entry in
  let token :=
    match token_type rsp with Bearer => ascii_bytes "Bearer " ++ access_token rsp end in
  Returns (match header_value_from_str token with
    | None => Err TokenParsingError
    | Some value =>
        Ok (MkRequest (rq_method req) (rq_url req) (<[AUTHORIZATION := value]> (rq_headers req)) (rq_body req))
    end).

(** The method [set_auth_token]; the [&mut Request] is returned. *)
Definition set_auth_token (i : InitConfig) (T : NfType) (req : Request) (service_name : list ServiceName) :
    prog client (Result Request NrfAuthorizationError) :=
  do! cfg := load_nf_config in
  if oauth_enabled cfg then
    do! token_entry := get_token i T service_name in
    match token_entry with
    | Err e => Ret (Err e)
    | Ok token_entry => lift_outcome (authorize req token_entry)
    end
  else Ret (Ok req).

(** ** Deregistration *)

Definition deregister_nf_instance (i : InitConfig) : prog client (Result unit NrfManagementError) :=
  let method := get_http_method DeregisterNFInstance in
  do! nf_instance_id := get_nf_id_of_client in
  match formatx (get_path DeregisterNFInstance) nf_instance_id with
  | Err e => Ret (Err (ManagementClientError (PathCreationError e)))
  | Ok path =>
      do! request := lift_outcome (prepare_request (url i) path method None None None AppJson) in
      match request with
      | Err e => Ret (Err (ManagementClientError e))
      | Ok request =>
          do! authorized := set_auth_token i NfTypeNrf request [NnrfNfm] in
          match authorized with
          | Err e => Ret (Err (ManagementAuthorizationError e))
          | Ok request =>
              do! response := exchange (exchange_deregister request) in
              Ret (map_err ManagementClientError
                (let? (status, response) := response in
                 match response with
                 | Deregister204 => Ok ()
                 | DeregisterStatus Status415 _ => Err (InvalidResponse status None)
                 | DeregisterStatus _ problem => Err (InvalidResponse status (Some problem))
                 | DeregisterOther => Err (InvalidResponse status None)
                 end))
          end
      end
  end.
End NrfClient.
