(* ===== verification/NfClients.v ===== *)
(** * Clients of other network functions ([client/src/nf_clients/mod.rs])

    A client is made by discovering a peer at the NRF and choosing a profile;
    requests then go through a [tower] service around an HTTP client. The traits
    are classes; building the HTTP client, sending and parsing are library code. *)

From S2P Require Import Prelude Async SccMap Convert TokenStore Http Network Config NrfClient.

(** [trait ApiBaseUrl]. *)
Class ApiBaseUrl (T Url : Type) := base_url : T -> Url.

(** [trait NfClientController]: the type of the peers, the choice among the
    profiles the NRF found, and the query (as it is serialised). *)
Class NfClientController (T NfType SearchResult NfProfile Val : Type) := {
  CLIENT_TYPE : NfType;
  profile_selection : T -> SearchResult -> NfProfile;
  get_search_params : T -> NfType -> Val;
}.

(** The default body of [get_search_params]; [search_params requester target] is
    [SearchNfInstancesQueryParams] with the other fields at their default. *)
Definition default_search_params {NfType Val : Type} (search_params : NfType -> NfType -> Val)
    (client_type requester : NfType) : Val := search_params requester client_type.

(** [reqwest] and [tower] for this client: [ClientBuilder::build] under the two
    layers, a service that becomes ready, one call of it, and the parser of the
    response type. *)
Class HttpService (Service Request Response Resp Env E ReqError : Type) := {
  build_service : Result Service E;
  service_ready : Service -> Env -> option (Env * Result Service E);
  service_call : Service -> Request -> Env -> option (Env * Result Response E);
  resp_deserialize : Response -> Result (Z * Resp) ReqError;
}.

Section NfClients.
Context `{SM : SbiModels} `{PM : !ProfileModels}.
Context {Url Method Val E Problem SearchResult AccessTokenErr Scope : Type}
  `{HL : HeaderLib Val E} `{XL : !HttpLib Url Val E}.
Context `{RM : !NrfModels (Method := Method) (Val := Val) (E := E) (Scope := Scope)} {Env : Type}
  `{HC : !HttpClient (Url := Url) (Method := Method) (E := E) (Problem := Problem)
      (SearchResult := SearchResult) (AccessTokenErr := AccessTokenErr) Env}.
Context {M N Ticket : Type} `{NO : NotifyOps N Ticket}
  `{TM : SccHashMap (list ServiceName) (TokenState AccessTokenRsp) M}.
Context {T NfProfile HttpRequest Response Resp Service : Type}
  `{CT : !NfClientController T NfType SearchResult NfProfile Val} `{AB : !ApiBaseUrl T Url}
  `{HS : !HttpService Service HttpRequest Response Resp Env E E}.

Notation client := (store M N (client_state (Env := Env))).

Inductive NfClientError : Type :=
| ClientCreationError (e : E)
| NfNrfDiscoveryError (e : NrfDiscoveryError (E := E) (Problem := Problem)).

(** The [Arc<NrfClient>] is the store and the [InitConfig] beside it. *)
Record NFClient : Type := MkNFClient {
  nrf_client : InitConfig (Url := Url);
  controller : T;
  nf_profile : NfProfile;
  req_client : Service;
}.

(** [NFClient::<T, APP_TYPE>::new]; [header_params] is the default
    [SearchNfInstancesHeaderParams]. *)
Definition NFClient_new (APP_TYPE : NfType) (header_params : Val) (nrf : InitConfig (Url := Url))
    (controller : T) : prog client (Result NFClient NfClientError) :=
  let search_params := get_search_params controller APP_TYPE in
  do! search_result := search_nf_instance nrf search_params header_params in
  match map_err NfNrfDiscoveryError search_result with
  | Err e => Ret (Err e)
  | Ok search_result =>
      let nf_profile := profile_selection controller search_result in
      match map_err ClientCreationError build_service with
      | Err e => Ret (Err e)
      | Ok service => Ret (Ok (MkNFClient nrf controller nf_profile service))
      end
  end.

(** [NFClient::request], on a clone of the service. *)
Definition nf_request (self : NFClient) (req : HttpRequest) :
    prog client (Result (Z * Resp) (GenericClientError E Problem)) :=
  do! service := exchange (service_ready (req_client self)) in
  match map_err TowerHttpError service with
  | Err e => Ret (Err e)
  | Ok service =>
      do! resp := exchange (service_call service req) in
      match map_err TowerHttpError resp with
      | Err e => Ret (Err e)
      | Ok resp => Ret (map_err ResponseParseError (resp_deserialize resp))
      end
  end.
End NfClients.
