(* ===== verification/App.v ===== *)
(** * The AMF application and its runner
      ([nf-base/src/lib.rs], [omnipath/app/src/lib.rs], [lightning-cli/src/])

    [NfInstance] is the interface between a network function and the command
    line that runs it; [OmniPathApp] implements it with the NRF client, the
    application context and the NGAP context. *)

From S2P Require Import Prelude Async Counter SccMap Convert TokenStore Http Network Config.
From S2P Require Import NgapMessages NgapContext NgapEngine NrfClient.

(** ** The interface of a network function ([nf-base]) *)

(** [NfInstance], over a state [S] that the instance shares with its tasks. *)
Class NfInstance (Cfg App Er S : Type) := {
  initialize : Cfg -> prog S (Result App Er);
  start : App -> prog S (Result unit Er);
  register_nf : App -> prog S (Result unit Er);
  deregister_nf : App -> prog S (Result unit Er);
}.

(** A synchronous body that may panic, as one access. *)
Definition atomically {S A : Type} (f : S -> outcome (S * A)) : prog S A :=
  Act (fun s => Some (match f s with Returns (s', a) => (s', Some a) | Panics => (s, None) end))
    (fun a => match a with Some a => Ret a | None => Panic end).

(** ** Running it ([nf_type.rs]) *)

Inductive NfError (Er : Type) : Type :=
| InitializationFailedError (e : Er)
| RuntimeError (e : Er)
| ShutdownDeregistrationFailedError (e : Er)
| RuntimeWithDeregistrationError (e dereg : Er).
Arguments InitializationFailedError {Er} e.
Arguments RuntimeError {Er} e.
Arguments ShutdownDeregistrationFailedError {Er} e.
Arguments RuntimeWithDeregistrationError {Er} e dereg.

Section NfApp.
Context {Cfg App Er S : Type} `{!NfInstance Cfg App Er S}.

(** The [async] block of [run]: [start] only after a registration. *)
Definition main_branch (nf_app : App) : prog S (Result unit Er) :=
  do! registered := register_nf nf_app in
  match registered with
  | Err e => Ret (Err e)
  | Ok _ => start nf_app
  end.

(** At most [n] accesses of a branch of a [select!]; a branch that has not
    finished is dropped, or goes on with [m]. *)
Fixpoint first_accesses {A : Type} (n : nat) (branch : prog S A) : prog S (prog S A) :=
  match n, branch with
  | Datatypes.S n, Act f k => Act f (fun x => first_accesses n (k x))
  | _, branch => Ret branch
  end.

(** When a signal comes: its task cancels the token after [before] accesses of
    the other branch, and the [select!] notices after [after] more. *)
Record signal : Type := MkSignal { before : nat; after : nat }.

(** The [select!]: [None] when the signal's branch is taken. *)
Definition select_signal {A : Type} (sig : option signal) (cancel : S -> S) (branch : prog S A) :
    prog S (option A) :=
  match sig with
  | None => do! a := branch in Ret (Some a)
  | Some sig =>
      do! branch := first_accesses (before sig) branch in
      match branch with
      | Ret a => Ret (Some a)
      | branch =>
          do! _ := write_state cancel in
          do! branch := first_accesses (after sig) branch in
          match branch with
          | Ret a => Ret (Some a)
          | Panic => Panic
          | _ => Ret None
          end
      end
  end.

(** The [if]s after the deregistration. *)
Definition run_verdict (res dreg_res : Result unit Er) : Result unit (NfError Er) :=
  if is_ok res && negb (is_ok dreg_res) then map_err ShutdownDeregistrationFailedError dreg_res
  else if is_ok dreg_res && negb (is_ok res) then map_err RuntimeError res
  else match dreg_res with
  | Err dreg_err => map_err (fun e => RuntimeWithDeregistrationError e dreg_err) res
  | Ok _ => Ok ()
  end.

(** [NfApp::run]. *)
Definition nf_app_run (sig : option signal) (cancel : S -> S) (config : Cfg) :
    prog S (Result unit (NfError Er)) :=
  do! nf_app := initialize config in
  match map_err InitializationFailedError nf_app with
  | Err e => Ret (Err e)
  | Ok nf_app =>
      do! res := select_signal sig cancel (main_branch nf_app) in
      match res with
      | None =>
          do! d := deregister_nf nf_app in
          Ret (map_err ShutdownDeregistrationFailedError d)
      | Some res =>
          do! dreg_res := deregister_nf nf_app in
          Ret (run_verdict res dreg_res)
      end
  end.
End NfApp.

(** ** The command line ([nf_type.rs], [app.rs]) *)

Definition DATAWARP_STR : string := "datawarp".
Definition INFINISYNC_STR : string := "infinisync".
Definition OMNIPATH_STR : string := "omnipath".

Inductive AppConfigError (E : Type) : Type := AppIoError (e : E) | YamlParsingError (e : E).
Arguments AppIoError {E} e.
Arguments YamlParsingError {E} e.

Inductive AppSetupError (E : Type) : Type :=
| ConfigError (e : AppConfigError E)
| RuntimeBuildError (e : E)
| LoggingError (e : E).
Arguments ConfigError {E} e.
Arguments RuntimeBuildError {E} e.
Arguments LoggingError {E} e.

(** [color_eyre::Report]: either error. *)
Inductive Report (E Er : Type) : Type :=
| SetupReport (e : AppSetupError E)
| NfReport (e : NfError Er).
Arguments SetupReport {E Er} e.
Arguments NfReport {E Er} e.

(** The files, the YAML parser and the runtime builder. *)
Class Host (Cfg File E : Type) := {
  file_open : bytes -> Result File E;
  read_to_string : File -> Result bytes E;
  yaml_from_str : bytes -> Result Cfg E;
  runtime_build : RuntimeType -> Result unit E;
}.

Section cli.
Context {Cfg File E App Er S : Type} `{!Host Cfg File E} `{!NfInstance Cfg App Er S}.
Context (cfg_log : Cfg -> LoggingConfig) (cfg_runtime : Cfg -> RuntimeConfig).

(** [NfApp::new]: a file that does not open is a panic. *)
Definition NfApp_new (config_path : bytes) : outcome (Result Cfg (AppSetupError E)) :=
  let! file := unwrap (file_open config_path) in
  Returns
    (let? contents := map_err (fun e => ConfigError (AppIoError e)) (read_to_string file) in
     let? config := map_err (fun e => ConfigError (YamlParsingError e)) (yaml_from_str contents) in
     Ok config).

Definition setup_logging (config : LoggingConfig) : Result unit (AppSetupError E) := Ok ().

Definition setup_runtime (config : RuntimeConfig) : Result unit (AppSetupError E) :=
  map_err RuntimeBuildError
    (match rt_type config with Multi => runtime_build Multi | Single => runtime_build Single end).

(** [App::run]. *)
Definition app_run (sig : option signal) (cancel : S -> S) (config_path : bytes) :
    prog S (Result unit (Report E Er)) :=
  do! config := lift_outcome (NfApp_new config_path) in
  match config with
  | Err e => Ret (Err (SetupReport e))
  | Ok config =>
      match setup_logging (cfg_log config) with
      | Err e => Ret (Err (SetupReport e))
      | Ok _ =>
          match setup_runtime (cfg_runtime config) with
          | Err e => Ret (Err (SetupReport e))
          | Ok _ => do! r := nf_app_run sig cancel config in Ret (map_err NfReport r)
          end
      end
  end.

(** [App::start_app]. *)
Definition start_app (sig : option signal) (cancel : S -> S) (app_name : string) (config_path : bytes) :
    prog S (Result unit (Report E Er)) :=
  if decide (app_name = OMNIPATH_STR) then app_run sig cancel config_path else Panic.
End cli.

(** ** Omnipath ([omnipath/app/src/lib.rs]) *)

Section omnipath.
Context `{NM : NgapModels} `{SM : SbiModels} `{PM : !ProfileModels}.
Context {Url Method Val E Problem SearchResult AccessTokenErr Scope : Type}
  `{HL : HeaderLib Val E} `{XL : !HttpLib Url Val E}.
Context `{RM : !NrfModels (Method := Method) (Val := Val) (E := E) (Scope := Scope)} {Env : Type}
  `{HC : !HttpClient (Url := Url) (Method := Method) (E := E) (Problem := Problem)
      (SearchResult := SearchResult) (AccessTokenErr := AccessTokenErr) Env}.
Context {M N Ticket : Type} `{NO : NotifyOps N Ticket}
  `{TM : SccHashMap (list ServiceName) (TokenState AccessTokenRsp) M}.
Context {Stream MG MU Socket Listener : Type} `{SP : Sctp Stream} `{SS : SctpSockets Socket Listener}
  `{GM : SccHashMap GlobalRanNodeId GnbContext MG} `{UM : SccHashMap Z nat MU}.

(** The constructor of the HTTP client, the fresh [Uuid::new_v4()], the
    connections a listener will hand out, the default header parameters. *)
Class OmniPathLibs := {
  build_client : Result Env E;
  new_v4 : nat -> NfInstanceId;
  incoming_of : Listener -> list (Result Stream IoError);
  default_register_header : Val;
}.

Context `{OL : !OmniPathLibs}.

Notation client := (store M N (client_state (Env := Env))).
Notation world := (world Stream MG MU).

Definition SOURCE_TYPE : NfType := NfTypeAmf.

Inductive OmniPathConfigError : Type :=
| InvalidNrfUriError (e : E) (uri : bytes)
| InvalidConfig (e : list ValidationError)
| ClientBuildError (e : E).

Inductive NrfError : Type :=
| NrfModelBuildError (e : ModelBuildError)
| NrfNrfManagementError (e : NrfManagementError (E := E) (Problem := Problem) (AccessTokenErr := AccessTokenErr)).

Inductive OmniPathError : Type :=
| OmniPathConfigErr (e : OmniPathConfigError)
| OmniPathNrfError (e : NrfError)
| NgapNetworkError (e : NetworkError)
| GlobalAppContextSetError (app_context : nat).

(** The state of the process: the [AppContextInner]s behind their [Arc]s, by
    pointer; the static [APP_CONTEXT], one of these pointers once it is set; the
    NRF client's cells; and the NGAP world. *)
Record process : Type := MkProcess {
  p_contexts : gmap nat AppContext;
  p_next_context : nat;
  p_global : option nat;
  p_client : client;
  p_world : world;
  p_uuids : nat;
}.

Definition set_client (c : client) (p : process) : process :=
  MkProcess (p_contexts p) (p_next_context p) (p_global p) c (p_world p) (p_uuids p).

Definition set_world (w : world) (p : process) : process :=
  MkProcess (p_contexts p) (p_next_context p) (p_global p) (p_client p) w (p_uuids p).

Definition set_global (c : option nat) (p : process) : process :=
  MkProcess (p_contexts p) (p_next_context p) c (p_client p) (p_world p) (p_uuids p).

Definition set_contexts (m : gmap nat AppContext) (p : process) : process :=
  MkProcess m (p_next_context p) (p_global p) (p_client p) (p_world p) (p_uuids p).

(** [AppContext::initialize]: a new [Arc] around a context with a fresh id. *)
Definition new_app_context (config : SerdeValidated) (p : process) : process * nat :=
  let app_context := AppContext_initialize (new_v4 (p_uuids p)) config in
  (MkProcess (<[p_next_context p := app_context]> (p_contexts p)) (S (p_next_context p)) (p_global p)
    (p_client p) (p_world p) (S (p_uuids p)), p_next_context p).

(** The context behind an [Arc], which is there as long as somebody has it. *)
Definition deref (c : nat) (p : process) : outcome AppContext := unwrap_option (p_contexts p !! c).

(** [OmniPathApp], with its own clone of the [Arc]; the NGAP context is the
    world of the process. *)
Record OmniPathApp : Type := MkOmniPathApp {
  nrf_init : InitConfig (Url := Url);
  valid_config : SerdeValidated;
  app_context : nat;
}.

Definition create_nrf_client (url : Url) : Result (InitConfig (Url := Url) * client) OmniPathConfigError :=
  let? e := map_err ClientBuildError build_client in
  Ok (MkInitConfig url SOURCE_TYPE, NrfClient_new e).

(** What the NGAP handlers get from [get_global_app_context]: the configuration
    in the context of the static. *)
Definition global_configuration (p : process) : option AmfConfiguration :=
  c ← p_global p; a ← p_contexts p !! c; Some (amf_configuration (get_config a)).

Definition set_configuration (cfg : option AmfConfiguration) (w : world) : world :=
  MkWorld (w_incoming w) (w_cancelled w) (w_network w) (w_gnb_contexts w) (w_shared w) (w_next_shared w)
    cfg (w_spawned w).

(** [NgapContext::new] around a network, in the same process. *)
Definition NgapContext_new (listener : Listener) (network : Associations Stream) (cfg : option AmfConfiguration)
    (w : world) : world :=
  MkWorld (incoming_of listener) (w_cancelled w) (network, (w_network w).2) scc_new (w_shared w)
    (w_next_shared w) cfg (w_spawned w).

(** [OmniPathApp::initialize]. *)
Definition omnipath_initialize (config : OmniPathConfig) (p : process) :
    outcome (process * Result OmniPathApp OmniPathError) :=
  let nrf_uri := nrf_uri (configuration config) in
  match map_err (fun e => InvalidNrfUriError e nrf_uri) (url_parse nrf_uri) with
  | Err e => Returns (p, Err (OmniPathConfigErr e))
  | Ok nrf_url =>
      match create_nrf_client nrf_url with
      | Err e => Returns (p, Err (OmniPathConfigErr e))
      | Ok (nrf_client, cells) =>
          match map_err InvalidConfig (SerdeValidated_new config) with
          | Err e => Returns (p, Err (OmniPathConfigErr e))
          | Ok valid_config =>
              let (p, app_context) := new_app_context valid_config p in
              let! context := deref app_context p in
              let! ngap_ip := index (c_ngap_ips (get_config context)) 0 in
              match Network_new (Stream := Stream) ngap_ip (c_ngap_port (get_config context))
                (sctp (configuration (inner valid_config))) with
              | Err e => Returns (p, Err (NgapNetworkError e))
              | Ok (listener, ngap_network) =>
                  match p_global p with
                  | Some _ => Returns (p, Err (GlobalAppContextSetError app_context))
                  | None =>
                      let p := set_global (Some app_context) p in
                      let w := NgapContext_new listener ngap_network (global_configuration p) (p_world p) in
                      Returns (set_world w (set_client cells p),
                        Ok (MkOmniPathApp nrf_client valid_config app_context))
                  end
              end
          end
      end
  end.

Definition on_client {A : Type} (m : prog client A) : prog process A := zoom p_client set_client m.

Definition on_world {A : Type} (m : prog world A) : prog process A := zoom p_world set_world m.

(** [self.app_context.get_config()] and the like. *)
Definition own_context (self : OmniPathApp) : prog process AppContext :=
  do! a := read_state (deref (app_context self)) in lift_outcome a.

(** [commit_config]: the clone, the update and the store into the context that
    the application has; the NGAP handlers read that of the static. *)
Definition app_commit_config (self : OmniPathApp) (update_fn : Configuration -> Configuration) : prog process unit :=
  do! a := own_context self in
  let new_config := get_config a in
  write_state (fun p =>
    let p := set_contexts (alter (commit_config update_fn new_config) (app_context self) (p_contexts p)) p in
    set_world (set_configuration (global_configuration p) (p_world p)) p).

(** [config.nf_id = nf_id]. *)
Definition set_nf_id (nf_id : NfInstanceId) (c : Configuration) : Configuration :=
  MkConfiguration (c_name c) nf_id (c_ngap_ips c) (c_ngap_port c) (c_served_guami_list c)
    (c_support_dnn_list c) (c_support_tai_list c) (c_plmn_support_list c) (c_tnl_weight_factor c)
    (c_nf_services c).

(** [OmniPathApp::register_nf]; the diff of the profiles is only logged. *)
Definition omnipath_register_nf (self : OmniPathApp) : prog process (Result unit OmniPathError) :=
  do! a := own_context self in
  match map_err NrfModelBuildError (build_nf_profile a) with
  | Err e => Ret (Err (OmniPathNrfError e))
  | Ok nf_profile =>
      do! a := own_context self in
      let nf_instance_id := get_nf_id a in
      do! r := on_client
        (register_nf_instance (nrf_init self) nf_instance_id default_register_header nf_profile) in
      match map_err NrfNrfManagementError r with
      | Err e => Ret (Err (OmniPathNrfError e))
      | Ok (nf_profile_resp, instance_id) =>
          match instance_id with
          | Some nf_id =>
              do! a := own_context self in
              if decide (nf_id = get_nf_id a) then
                do! _ := app_commit_config self (set_nf_id nf_id) in Ret (Ok ())
              else Ret (Ok ())
          | None => Ret (Ok ())
          end
      end
  end.

(** [OmniPathApp::deregister_nf]. *)
Definition omnipath_deregister_nf (self : OmniPathApp) : prog process (Result unit OmniPathError) :=
  do! r := on_client (deregister_nf_instance (nrf_init self)) in
  Ret (map_err (fun e => OmniPathNrfError (NrfNrfManagementError e)) r).

(** [NgapContext::run], for [n] turns of its loop; the loop parks after them. *)
Fixpoint ngap_run (n : nat) : prog world (Result unit NetworkError) :=
  match n with
  | O => wait_for (fun _ => None)
  | S n =>
      do! more := run_accept in
      if more : bool then ngap_run n else Ret graceful_shutdown
  end.

(** [OmniPathApp::start]. *)
Definition omnipath_start (turns : nat) (self : OmniPathApp) : prog process (Result unit OmniPathError) :=
  do! r := on_world (ngap_run turns) in
  Ret (map_err NgapNetworkError r).

(** [impl NfInstance for OmniPathApp]. *)
Definition omnipath_instance (turns : nat) : NfInstance OmniPathConfig OmniPathApp OmniPathError process := {|
  initialize config := atomically (omnipath_initialize config);
  start := omnipath_start turns;
  register_nf := omnipath_register_nf;
  deregister_nf := omnipath_deregister_nf;
|}.
End omnipath.
