(* ===== verification/Cli.v ===== *)
(** * The command line ([lightning-cli/src/app.rs], [main.rs])

    The command that is handed to [clap], and what [main] does with its
    answer. [clap] itself is a library: parsing an argument vector and the
    documented promises about the matches are two type classes. *)

From S2P Require Import Prelude Async Convert Config App.

(** ** What is built ([app.rs]) *)

Record Arg : Type := MkArg {
  arg_name : string;
  arg_help : string;
  arg_required : bool;
  arg_value_name : string;
  arg_long : string;
  arg_short : string;
}.

(** A subcommand has no subcommands of its own. *)
Record Subcommand : Type := MkSubcommand {
  sub_name : string;
  sub_about : string;
  sub_args : list Arg;
}.

Record Command : Type := MkCommand {
  cmd_name : string;
  cmd_version : string;
  cmd_author : string;
  cmd_about : string;
  subcommand_required : bool;
  arg_required_else_help : bool;
  allow_external_subcommands : bool;
  cmd_subcommands : list Subcommand;
}.

Definition get_nf_subcommand (nf_name : string) : Subcommand :=
  let nf_about := ("Runs " ++ nf_name ++ " network function")%string in
  MkSubcommand nf_name nf_about
    [MkArg "config" "Configuration file to use" true "CONFIG_FILE" "config" "c"].

Definition get_clap_app (name about author version : string) : Command :=
  MkCommand name version author about true true true
    [get_nf_subcommand DATAWARP_STR; get_nf_subcommand INFINISYNC_STR; get_nf_subcommand OMNIPATH_STR].

(** ** [clap] *)

(** [get_matches] on an argument vector, [None] when it prints a message and
    ends the process; the subcommand of the matches; the value of an argument. *)
Class Clap (ArgMatches : Type) := {
  get_matches : Command -> list bytes -> option ArgMatches;
  subcommand : ArgMatches -> option (string * ArgMatches);
  get_one : ArgMatches -> string -> outcome (option bytes);
}.

(** A required subcommand is there. It is one of the command's, with its
    required arguments, or, if those are allowed, an external one, which may
    have any name, that of a declared subcommand included (one that follows
    the escape [--]). In the matches of an external subcommand no argument is
    defined: asking for one panics with debug assertions and finds no value
    without them. *)
Class ClapLaws (ArgMatches : Type) `{Clap ArgMatches} := {
  clap_subcommand : forall c argv m, get_matches c argv = Some m -> subcommand_required c = true ->
    is_Some (subcommand m);
  clap_known : forall c argv m n sub, get_matches c argv = Some m -> subcommand m = Some (n, sub) ->
    (exists s, s ∈ cmd_subcommands c /\ sub_name s = n /\
      forall a, a ∈ sub_args s -> arg_required a = true ->
        exists v, get_one sub (arg_name a) = Returns (Some v)) \/
    (allow_external_subcommands c = true /\
      forall id, id <> EmptyString -> get_one sub id = Panics \/ get_one sub id = Returns None);
}.

(** ** [main] *)

Inductive MainError (E Er : Type) : Type :=
| InstallReport (e : E)
| AppReport (r : Report E Er).
Arguments InstallReport {E Er} e.
Arguments AppReport {E Er} r.

Section main.
Context {ArgMatches : Type} `{CL : !Clap ArgMatches}.
Context {Cfg File E App Er S : Type} `{HO : !Host Cfg File E} `{NI : !NfInstance Cfg App Er S}.
Context (cfg_log : Cfg -> LoggingConfig) (cfg_runtime : Cfg -> RuntimeConfig).
(** [crate_name!()] and the like. *)
Context (crate_name crate_description crate_authors crate_version : string).

Definition command : Command := get_clap_app crate_name crate_description crate_authors crate_version.

(** [main]; [install] is what [color_eyre::install()] returns, [None] is a
    process that [clap] has ended. *)
Definition main (install : Result unit E) (argv : list bytes) (sig : option signal) (cancel : S -> S) :
    prog S (option (Result unit (MainError E Er))) :=
  match map_err InstallReport install with
  | Err e => Ret (Some (Err e))
  | Ok _ =>
      match get_matches command argv with
      | None => Ret None
      | Some matches =>
          do! found := lift_outcome (unwrap_option (subcommand matches)) in
          let '(nf_type, matches) := found in
          do! config_path := lift_outcome (let! c := get_one matches "config" in unwrap_option c) in
          do! r := start_app cfg_log cfg_runtime sig cancel nf_type config_path in
          Ret (Some (map_err AppReport r))
      end
  end.

(** C15 (error): what becomes of a command line. If [clap] accepts it there is a
    subcommand, so that the first [expect] cannot fire. Either the subcommand
    is one of the three that the help text offers and comes with a
    configuration path: the AMF is run on it for [omnipath], and [datawarp]
    and [infinisync] panic when the application is started. Or it is an
    external subcommand: whatever its name, [omnipath] included, it has no
    [config], and asking for it ends [main] in a panic. *)
Theorem command_line_outcomes `{!ClapLaws ArgMatches} argv sig cancel :
  (get_matches command argv = None -> main (Ok ()) argv sig cancel = Ret None) /\
  (forall m, get_matches command argv = Some m ->
    exists n sub, subcommand m = Some (n, sub) /\
      ((n ∈ [DATAWARP_STR; INFINISYNC_STR; OMNIPATH_STR] /\
          exists path, get_one sub "config" = Returns (Some path) /\
            main (Ok ()) argv sig cancel =
              if decide (n = OMNIPATH_STR)
              then do! r := app_run cfg_log cfg_runtime sig cancel path in Ret (Some (map_err AppReport r))
              else Panic) \/
       ((forall path, get_one sub "config" <> Returns (Some path)) /\ main (Ok ()) argv sig cancel = Panic))).
Proof.
  unfold main. cbn [map_err]. split; [by intros ->|]. intros m Hm. rewrite Hm.
  destruct (clap_subcommand _ _ _ Hm eq_refl) as [[n sub] Hs]. rewrite Hs. exists n, sub. split; [done|].
  cbn [unwrap_option lift_outcome prog_bind].
  destruct (clap_known _ _ _ _ _ Hm Hs) as [(s & Hin & Hn & Hargs)|(_ & Hargs)].
  - left.
    assert (Hknown : n ∈ [DATAWARP_STR; INFINISYNC_STR; OMNIPATH_STR] /\
      exists a, a ∈ sub_args s /\ arg_required a = true /\ arg_name a = "config"%string).
    { cbn in Hin. rewrite !elem_of_cons, elem_of_nil in Hin. destruct Hin as [->|[->|[->|[]]]];
        subst n; (split; [set_solver|]); eexists; (split; [apply list_elem_of_here|done]). }
    destruct Hknown as [Hk (a & Ha & Hr & Hc)]. destruct (Hargs a Ha Hr) as [v Hv]. rewrite Hc in Hv.
    split; [done|]. exists v. split; [done|].
    rewrite Hv. cbn [outcome_bind unwrap_option lift_outcome prog_bind]. unfold start_app.
    by destruct (decide (n = OMNIPATH_STR)).
  - right. destruct (Hargs "config"%string) as [Hv|Hv]; [done|rewrite Hv; by split..].
Qed.
End main.

(** ** A parser of [subcommand path] and [-- subcommand] *)

Definition text (s : string) : bytes := (fun a => Z.of_N (Ascii.N_of_ascii a)) <$> String.list_ascii_of_string s.
Definition untext (b : bytes) : string :=
  String.string_of_list_ascii ((fun z => Ascii.ascii_of_N (Z.to_N z)) <$> b).

Inductive pair_matches : Type :=
| TopMatches (name : string) (value : option bytes)
| SubMatches (value : option bytes).

#[local] Instance pair_clap : Clap pair_matches := {
  get_matches c argv :=
    match argv with
    | [first; name] =>
        if decide (untext first = "--"%string)
        then if allow_external_subcommands c then Some (TopMatches (untext name) None) else None
        else let '(name, path) := (first, name) in
        if decide (untext name ∈ sub_name <$> cmd_subcommands c) then Some (TopMatches (untext name) (Some path))
        else if allow_external_subcommands c then Some (TopMatches (untext name) None)
        else None
    | _ => None
    end;
  subcommand m := match m with TopMatches n v => Some (n, SubMatches v) | SubMatches _ => None end;
  get_one m _ :=
    match m with SubMatches (Some v) => Returns (Some v) | SubMatches None => Panics | _ => Returns None end;
}.

#[local] Instance pair_laws : ClapLaws pair_matches.
Proof.
  split.
  - intros c [|name [|path []]] m; simpl; try done. repeat case_match; try done; intros [= <-]; by eexists.
  - intros c [|name [|path []]] m n sub; simpl; try done.
    destruct (decide (_ = _)) as [_|_].
    { destruct (allow_external_subcommands c); [|done]. intros [= <-] [= <- <-]. right. split; [done|by left]. }
    destruct (decide _) as [Hin|Hout]; [intros [= <-] [= <- <-]; left|].
    + apply list_elem_of_fmap in Hin as (s & Hs & Hin). exists s. split_and!; [done|done|]. by exists path.
    + destruct (allow_external_subcommands c); [|done]. intros [= <-] [= <- <-]. right. split; [done|by left].
Defined.

#[local] Instance any_file : Host unit unit unit := {
  file_open _ := Ok tt;
  read_to_string _ := Ok [];
  yaml_from_str _ := Ok tt;
  runtime_build _ := Ok tt;
}.

#[local] Instance idle_nf : NfInstance unit unit unit nat := {
  initialize _ := Ret (Ok tt);
  start _ := Ret (Ok tt);
  register_nf _ := Ret (Ok tt);
  deregister_nf _ := Ret (Ok tt);
}.

Definition test_main (argv : list string) : prog nat (option (Result unit (MainError unit unit))) :=
  main (fun _ : unit => MkLoggingConfig true [] true) (fun _ => MkRuntimeConfig Multi) "lightning-cli" "5G core"
    "UnifyAir" "0.1.0" (Ok tt) (text <$> argv) None S.

Lemma command_line_outcomes_witness :
  run (test_main ["omnipath"; "omnipath.yaml"]%string) 0%nat = Finished 0%nat (Some (Ok tt)) /\
  test_main ["datawarp"; "omnipath.yaml"]%string = Panic /\ test_main ["--"; "omnipath"]%string = Panic.
Proof.
  assert (H := fun argv => proj2 (command_line_outcomes (fun _ : unit => MkLoggingConfig true [] true)
    (fun _ => MkRuntimeConfig Multi) "lightning-cli" "5G core" "UnifyAir" "0.1.0" (text <$> argv) None S)).
  split_and!.
  - destruct (H ["omnipath"; "omnipath.yaml"]%string _ eq_refl)
      as (n & sub & Hs & [(_ & path & _ & Hm)|(Hn & _)]); injection Hs as <- <-.
    + unfold test_main. rewrite Hm. reflexivity.
    + by destruct (Hn (text "omnipath.yaml")).
  - destruct (H ["datawarp"; "omnipath.yaml"]%string _ eq_refl) as (n & sub & Hs & [(_ & path & _ & Hm)|(_ & Hm)]);
      injection Hs as <- <-; exact Hm.
  - destruct (H ["--"; "omnipath"]%string _ eq_refl) as (n & sub & Hs & [(_ & path & Hp & _)|(_ & Hm)]);
      injection Hs as <- <-; [discriminate Hp|exact Hm].
Defined.
