(* ===== verification/Nas.v ===== *)
(** * The NAS layer ([nas/])

    The GMM state machine of a UE, with the handler of the registration request.
    The messages are those of the [nas_models] crate and the machine is driven
    by [statig]: a state's handler answers an event, or passes it to its
    superstate. The engine does not call the machine yet: [handle_nas]
    ([NgapEngine]) ignores the NAS PDU. *)

From S2P Require Import Prelude Convert ContextManager NgapMessages NgapContext.

(** The parts of [nas_models] that are only passed on or printed. *)
Class NasModels := {
  UeSecurityCapability : Type;
  NasAuthenticationRequest : Type;
  NasAuthenticationResponse : Type;
  NasOtherMessage : Type;
  FiveGmmCause : Type;
  protocol_error_unspecified : FiveGmmCause;
  Suci_ : Type;
  suci_to_string : Suci_ -> bytes;
  Guti_ : Type;
  get_guti_string : Guti_ -> bytes;
  Imei_ : Type;
  imei_to_string : Imei_ -> bytes;
  Tmsi_ : Type;
  get_5g_tmsi : Tmsi_ -> Z;
  MacAddress_ : Type;
  mac_to_string : MacAddress_ -> bytes;
}.

Section nas.
Context `{NgapModels} `{NasModels}.

Inductive MobileIdentity : Type :=
| NoIdentity
| Suci (suci : Suci_)
| FiveGGuti (five_gguti : Guti_)
| Imei (imei : Imei_)
| FiveGSTmsi (five_gtmsi : Tmsi_)
| Imeisv (imeisv : Imei_)
| MacAddress (mac_address : MacAddress_)
| Eui64.

Inductive RegistrationType : Type :=
| InitialRegistration
| MobilityRegistrationUpdating
| PeriodicRegistrationUpdating
| EmergencyRegistration
| SnpnOnboardingRegistration
| DisasterRoamingMobilityRegistrationUpdating
| DisasterRoamingInitialRegistration.

Record NasRegistrationRequest : Type := MkRegistrationRequest {
  rr_registration_type : RegistrationType;
  rr_mobile_identity : MobileIdentity;
  rr_ue_security_capability : option UeSecurityCapability;
}.

Inductive GmmMessage : Type :=
| MsgGmmStatus
| MsgRegistrationRequest (inner : NasRegistrationRequest)
| MsgAuthenticationRequest (inner : NasAuthenticationRequest)
| MsgOtherGmm (m : NasOtherMessage).

Inductive NasHandlerError : Type :=
| InvalidNasPdu
| UnableToParseNasMessage
| UnknownNasMessageType
| UnknownError
| FiveGmmCauseError (c : FiveGmmCause).

Record NasContext : Type := MkNasContext {
  registration_request : option NasRegistrationRequest;
  ue_security_capability : option UeSecurityCapability;
}.

(** [NasContext::new]. *)
Definition NasContext_new : NasContext := MkNasContext None None.

(** [NonEmptyString::new(s).ok()] and [NonZeroU32::new]. *)
Definition non_empty_string (s : bytes) : option bytes :=
  match s with [] => None | _ => Some s end.

Definition non_zero_u32 (n : Z) : option Z := if n =? 0 then None else Some n.

(** [&mut NasContext] and [&mut UeContext]: a body works on both. *)
Notation contexts := (NasContext * UeContext)%type.

Definition set_identity (tmsi : option Z) (guti suci pei mac_addr : option bytes) (ue : UeContext) : UeContext :=
  MkUeContext (ran_ue_ngap_id ue) (amf_ue_ngap_id ue) (rrc_establishment_cause ue) (ue_gnb ue)
    (ue_five_g_s_tmsi ue) (ue_gmm ue) tmsi guti suci pei mac_addr (ue_plmn_id ue).

(** The [match] on the mobile identity; [Eui64] is a [todo!]. *)
Definition record_identity (id : MobileIdentity) (ue : UeContext) : outcome UeContext :=
  match id with
  | NoIdentity => Returns ue
  | Suci suci =>
      Returns (set_identity (ue_tmsi ue) (ue_guti ue) (non_empty_string (suci_to_string suci))
        (ue_pei ue) (ue_mac_addr ue) ue)
  | FiveGGuti five_gguti =>
      Returns (set_identity (ue_tmsi ue) (non_empty_string (get_guti_string five_gguti)) (ue_suci ue)
        (ue_pei ue) (ue_mac_addr ue) ue)
  | Imei imei | Imeisv imei =>
      Returns (set_identity (ue_tmsi ue) (ue_guti ue) (ue_suci ue)
        (non_empty_string (imei_to_string imei)) (ue_mac_addr ue) ue)
  | FiveGSTmsi five_gtmsi =>
      Returns (set_identity (non_zero_u32 (get_5g_tmsi five_gtmsi)) (ue_guti ue) (ue_suci ue)
        (ue_pei ue) (ue_mac_addr ue) ue)
  | MacAddress mac_address =>
      Returns (set_identity (ue_tmsi ue) (ue_guti ue) (ue_suci ue) (ue_pei ue)
        (non_empty_string (mac_to_string mac_address)) ue)
  | Eui64 => Panics
  end.

(** [initial_registration_handler]. *)
Definition initial_registration_handler (request : NasRegistrationRequest) (c : contexts) :
    outcome (contexts * Result unit NasHandlerError) :=
  let (nas_context, ue_context) := c in
  let nas_context := MkNasContext (Some request) (ue_security_capability nas_context) in
  let! ue_context := record_identity (rr_mobile_identity request) ue_context in
  match rr_ue_security_capability request with
  | Some capability =>
      let nas_context := MkNasContext (registration_request nas_context) (Some capability) in
      Returns ((nas_context, ue_context), Ok ())
  | None =>
      Returns ((nas_context, ue_context), Err (FiveGmmCauseError protocol_error_unspecified))
  end.

(** ** Handlers and builders ([nas/mod.rs]) *)

Class NasHandler (T : Type) :=
  nas_handle : T -> contexts -> outcome (contexts * Result unit NasHandlerError).

Class NasBuilder (T : Type) := nas_build : contexts -> outcome (Result T NasHandlerError).

(** [impl NasHandler for NasRegistrationRequest]: one type is implemented. *)
#[global] Instance handle_registration_request : NasHandler NasRegistrationRequest := fun request c =>
  match rr_registration_type request with
  | InitialRegistration => initial_registration_handler request c
  | MobilityRegistrationUpdating => Panics
  | PeriodicRegistrationUpdating => Panics
  | EmergencyRegistration => Panics
  | SnpnOnboardingRegistration => Panics
  | DisasterRoamingMobilityRegistrationUpdating => Panics
  | DisasterRoamingInitialRegistration => Panics
  end.

(** [todo!()] in both. *)
#[global] Instance handle_authentication_response : NasHandler NasAuthenticationResponse := fun _ _ => Panics.
#[global] Instance build_authentication_request : NasBuilder NasAuthenticationRequest := fun _ => Panics.

(** ** The state machine ([gmm.rs]) *)

Inductive Response : Type := Handled | Super | Transition (s : GmmState).

Definition registration_initiated (event : GmmMessage) : Response :=
  match event with
  | MsgGmmStatus => Handled
  | _ => Super
  end.

Definition unauthenticated (event : GmmMessage) : Response :=
  match event with
  | MsgAuthenticationRequest _ => Transition Unauthenticated
  | _ => Super
  end.

Definition authenticated (event : GmmMessage) : outcome Response := Panics.

(** The builder is a parameter, [nas_build] in the program. *)
Definition deregistered (build : NasBuilder NasAuthenticationRequest) (event : GmmMessage) (c : contexts) :
    outcome (contexts * Response) :=
  match event with
  | MsgGmmStatus => Returns (c, Handled)
  | MsgRegistrationRequest inner =>
      let! (c, r) := nas_handle inner c in
      match r with
      | Ok _ =>
          let! built := build c in
          match built with
          | Ok authentication_request =>
              Returns (c, unauthenticated (MsgAuthenticationRequest authentication_request))
          | Err _ => Returns (c, Handled)
          end
      | Err _ => Returns (c, Handled)
      end
  | _ => Returns (c, Handled)
  end.

(** [statig]'s dispatch: the state's handler, then its superstate's; a
    transition changes the state. *)
Definition next_state (s : GmmState) (event : GmmMessage) (r : Response) (superstate : bool) : GmmState :=
  match r with
  | Handled => s
  | Transition s' => s'
  | Super =>
      if superstate then
        match registration_initiated event with Transition s' => s' | _ => s end
      else s
  end.

(** [handle_with_context]. *)
Definition gmm_handle (build : NasBuilder NasAuthenticationRequest) (s : GmmState) (event : GmmMessage)
    (c : contexts) : outcome (contexts * GmmState) :=
  match s with
  | Deregistered =>
      let! (c, r) := deregistered build event c in
      Returns (c, next_state s event r false)
  | Unauthenticated => Returns (c, next_state s event (unauthenticated event) true)
  | Authenticated =>
      let! r := authenticated event in
      Returns (c, next_state s event r true)
  end.

(** A sequence of events from the initial state, [deregistered]. *)
Fixpoint gmm_run (build : NasBuilder NasAuthenticationRequest) (events : list GmmMessage)
    (s : GmmState) (c : contexts) : outcome (contexts * GmmState) :=
  match events with
  | [] => Returns (c, s)
  | event :: events =>
      let! (c, s) := gmm_handle build s event c in
      gmm_run build events s c
  end.
End nas.
