(* ===== verification/SbiExample.v ===== *)
(** * Concrete SBI libraries and a scripted NRF, for the witnesses *)

From S2P Require Import Prelude Async SccMap Convert TokenStore Http Network Config NgapMessages.
From S2P Require Import NgapContext NgapEngine NgapExample NrfClient App.

(** Instance ids and services are numbers; a location ends in one decimal digit. *)
#[export] Instance test_sbi : SbiModels := {|
  NfInstanceId := Z;
  default_nf_instance_id := 0;
  UuidError := unit;
  nf_instance_id_from_str s := match s with [d] => Ok (d - 48) | _ => Err () end;
  NfType := Z;
  NfTypeNrf := 1;
  NfTypeAmf := 2;
  ServiceName := Z;
  service_name_to_string s := decimal s;
  NamfComm := 11;
  NamfEvts := 12;
  NamfMt := 13;
  NamfLoc := 14;
  NnrfNfm := 21;
  UriScheme := unit;
  uri_scheme_to_string _ := ascii_bytes "http";
  SbiConversionError := unit;
  SemVer := Z;
  semver_major v := v;
  semver_to_string v := decimal v;
  ip_to_string _ := ascii_bytes "ip";
|}.

#[export] Instance test_profiles : ProfileModels := {|
  NfProfile1 := NfProfile1Unchecked;
  profile_try_from p := Ok p;
|}.

#[export] Instance test_defaults : SbiDefaults := {|
  default_semver := (0 : SemVer);
  default_uri_scheme := tt;
  default_guami := test_guami;
  default_sbi_plmn_id := MkSbiPlmnId [] [];
  default_sbi_snssai := MkSbiSnssai 0 None;
  default_uri := [];
|}.

(** URLs, bodies and headers are kept as they are written. *)
#[export] Instance test_headers : HeaderLib bytes Z := {
  header_name_from_str := Some;
  header_value_from_str := Some;
  json_to_string := Ok;
}.

#[export] Instance test_http : HttpLib bytes bytes Z := {
  set_path p u := u ++ [47] ++ p;
  open_query u := u;
  append_query q u := Ok (u ++ [63] ++ q);
  url_parse := Ok;
  url_join p u := Ok (u ++ p);
  urlencoded_to_string := Ok;
  set_query q u := u ++ [63] ++ q;
  build_uri := Ok;
  json_to_vec := Ok;
  qs_to_writer := Ok;
  header_fields v := SerStruct [(ascii_bytes "x_test", v)];
}.

#[export] Instance test_nrf : NrfModels (Method := Z) (Val := bytes) (E := Z) (Scope := bytes) := {|
  get_http_method _ := 0;
  get_path _ := [47; 112];
  formatx path id := Ok (path ++ [48 + id : Z]);
  heart_beat_timer _ := Some 30;
  custom_info_get _ _ := Some (Bool true);
  scope_from_str := Ok;
  profile_val _ := [1];
  token_req_val r := tr_scope r;
|}.

(** An NRF that counts what it is sent, registers under [assigned] and answers
    token requests with [tokens]. *)
Record TestNrf : Type := MkTestNrf {
  requests : nat;
  assigned : bytes;
  tokens : AccessTokenRequestResponse (Problem := Z) (AccessTokenErr := Z);
}.

Definition heard (e : TestNrf) : TestNrf := MkTestNrf (S (requests e)) (assigned e) (tokens e).

Definition test_profile : NfProfile1Unchecked :=
  MkNfProfile1Unchecked (0 : NfInstanceId) (2 : NfType) NfRegistered None [] [] [] [].

#[export] Instance test_client : HttpClient (Url := bytes) (Method := Z) (E := Z) (Problem := Z)
    (SearchResult := Z) (AccessTokenErr := Z) TestNrf := {|
  exchange_search _ e := Some (heard e, Ok (200, Search200 0));
  exchange_register _ e := Some (heard e, Ok (201, Register201 (test_profile : NfProfile1) (assigned e)));
  exchange_deregister _ e := Some (heard e, Ok (204, Deregister204));
  exchange_token _ e := Some (heard e, Ok (200, tokens e));
|}.

(** A listener is the connections that will come. *)
Definition TestListener : Type := list (Result ScriptedStream IoError).

#[export] Instance test_sockets : SctpSockets unit TestListener := {
  socket_new _ := Ok ();
  set_sctp_initmsg _ s := Ok s;
  set_nodelay _ s := Ok s;
  bind_from _ _ := Ok [Ok (ran_socket 1 [])];
}.

#[export] Instance test_libs : OmniPathLibs (Val := bytes) (E := Z) (Env := TestNrf)
    (Stream := ScriptedStream) (Listener := TestListener) := {|
  build_client := Ok (MkTestNrf 0 [104; 47; 55] (AccessToken200 (MkAccessTokenRsp [116] Bearer)));
  new_v4 n := (Z.of_nat n + 1 : NfInstanceId);
  incoming_of l := l;
  default_register_header := [97];
|}.

Notation test_tokens := (gmap (list (ServiceName (SbiModels := test_sbi))) (TokenState AccessTokenRsp)).
Notation test_client_store := (store test_tokens nat (client_state (Env := TestNrf))).
Notation test_process := (process (Env := TestNrf) (M := test_tokens) (N := nat) (Stream := ScriptedStream)
  (MG := gmap GlobalRanNodeId GnbContext) (MU := gmap Z nat)).

(** The client of an AMF. *)
Definition test_init : InitConfig (Url := bytes) (H := test_sbi) := MkInitConfig [104] NfTypeAmf.

(** A configuration with the given NGAP addresses. *)
Definition test_omnipath (ips : list IpAddr) : OmniPathConfig :=
  MkOmniPathConfig (MkInfo (1 : SemVer) [])
    (MkOmniPathInnerConfig [65; 77; 70] ips 38412 (test_guami, [])
      (cfg_support_tai_list (test_config tac_lower)) (cfg_plmn_support_list (test_config tac_lower))
      [[105]] [110] (MkSctpConfig 2 2 2 2))
    (MkLoggingConfig true [] false) (MkRuntimeConfig Multi)
    (MkSbi () (V4 0x7F000001) (V4 0x7F000001) 8000 (MkTls [] []) [11 : ServiceName]).

(** Before [initialize]. *)
Definition fresh_process : test_process :=
  MkProcess ∅ 0 None (NrfClient_new (MkTestNrf 0 [] (AccessToken400 0)))
    (MkWorld [] false (Associations_new, 1) scc_new ∅ 0 None []) 0.
