(* ===== verification/ClientProps.v ===== *)
(** * The NRF client: what a registration changes, and what a failed token request leaves behind *)

From S2P Require Import Prelude Async SccMap Convert Network TokenStore TokenStoreProps Http Config.
From S2P Require Import NgapMessages NgapContext NgapEngine NgapExample NrfClient App SbiExample.

Section client_props.
Context `{SM : SbiModels} `{PM : !ProfileModels}.
Context {Url Method Val E Problem SearchResult AccessTokenErr Scope : Type}
  `{HL : HeaderLib Val E} `{XL : !HttpLib Url Val E}.
Context `{RM : !NrfModels (Method := Method) (Val := Val) (E := E) (Scope := Scope)} {Env : Type}
  `{HC : !HttpClient (Url := Url) (Method := Method) (E := E) (Problem := Problem)
      (SearchResult := SearchResult) (AccessTokenErr := AccessTokenErr) Env}.
Context {M N Ticket : Type} `{NO : NotifyOps N Ticket}
  `{TM : !SccHashMap (list ServiceName) (TokenState AccessTokenRsp) M}
  `{TL : !SccLaws (list ServiceName) (TokenState AccessTokenRsp) M}.
Notation AuthError := (NrfAuthorizationError (E := E) (Problem := Problem) (AccessTokenErr := AccessTokenErr)).
Implicit Types (c : store M N (client_state (Env := Env))) (i : InitConfig (Url := Url)) (T : NfType)
  (names : list ServiceName).

Lemma run_exchange {X : Type} (f : Env -> option (Env * X)) c :
  run (exchange f) c =
  match f (env (outside c)) with
  | Some (e, x) => Finished (on_outside (fun o => MkClientState (nf_config o) e) c) x
  | None => Parked c
  end.
Proof. unfold exchange. cbn [run]. by destruct (f _) as [[e x]|]. Qed.

Lemma run_load c : run load_nf_config c = Finished c (nf_config (outside c)).
Proof. done. Qed.

(** A token request leaves the tokens alone. *)
Lemma run_authenticate i id source target names c c' r :
  run (authenticaion_request i id source target names) c = Finished c' r ->
  token_map c' = token_map c /\ notifies c' = notifies c.
Proof.
  unfold authenticaion_request. destruct (scope_from_str _); [|by intros [= <- <-]].
  destruct (prepare_request _ _ _ _ _ _ _) as [[req|e]|]; cbn [lift_outcome prog_bind];
    [|by intros [= <- <-]|done].
  rewrite run_bind, run_exchange. destruct (exchange_token _ _) as [[e x]|]; [|done]. by intros [= <- <-].
Qed.

(** A failed token answers every request for it at once. *)
Lemma run_get_token_failed i T names c id :
  token_at c names = Some (MkTokenState id Failed) ->
  run (get_token i T names) c = Finished c (Err (TokenStoreError (ReadError id))).
Proof. intros Ht. unfold get_token, get. rewrite run_bind, (run_get_failed c names id 8 Ht). done. Qed.

(** A request for a token that is not there either succeeds or leaves a failed one. *)
Lemma run_get_token_missing i T names c c' e :
  token_at c names = None -> run (get_token i T names) c = Finished c' (Err e) ->
  exists id, token_at c' names = Some (MkTokenState id Failed) /\
    exists err, e = TokenStoreError (InnerFutureError err).
Proof.
  intros Ht. unfold get_token, get. rewrite run_bind.
  assert (Hg : run (get_loop (E := AuthError) 9 names) c = Finished c (Ok None)).
  { cbn [get_loop]. autorewrite with run. rewrite view_read. unfold token_at in Ht. by rewrite Ht. }
  rewrite Hg, run_bind, run_load, run_bind.
  destruct (run_set_started c names
    (authenticaion_request i (nf_instance_id (nf_config (outside c))) (source i) T names))
    as (c1 & _ & Hv1 & Er); [by unfold updating_at; rewrite Ht|].
  rewrite Er, run_bind. destruct (run (authenticaion_request _ _ _ _ _) c1) as [c2 res| |] eqn:Ea; [|done..].
  apply run_authenticate in Ea as [Em _].
  assert (Ht2 : token_at c2 names = Some (MkTokenState (token_counter c) (Updating (next_notify c)))).
  { unfold token_at. by rewrite Em, Hv1, lookup_insert_eq. }
  destruct (run_set_finish c2 names (token_counter c) (next_notify c) res _ Ht2) as (c3 & -> & Hv3 & _).
  intros [= <- Eo]. destruct res as [v|err]; [done|]. exists (token_counter c). split.
  - unfold token_at. by rewrite Hv3, lookup_insert_eq.
  - exists err. by injection Eo as <-.
Qed.

(** C17 (safety): a token request that fails once is never repeated. It leaves
    a failed token under its services, from then on every [get_token] for them
    fails with the token's id and without asking the NRF again; and with OAuth
    enabled a failed NF-management token keeps [deregister_nf_instance] from
    ever sending its request. *)
Theorem failed_token_is_final i T names c :
  (forall c' e, token_at c names = None -> run (get_token i T names) c = Finished c' (Err e) ->
    exists id, token_at c' names = Some (MkTokenState id Failed) /\
      forall T', run (get_token i T' names) c' = Finished c' (Err (TokenStoreError (ReadError id)))) /\
  (forall id path req, token_at c [NnrfNfm] = Some (MkTokenState id Failed) ->
    oauth_enabled (nf_config (outside c)) = true ->
    formatx (get_path DeregisterNFInstance) (nf_instance_id (nf_config (outside c))) = Ok path ->
    prepare_request (Problem := Problem) (url i) path (get_http_method DeregisterNFInstance) None None None
      AppJson = Returns (Ok req) ->
    run (deregister_nf_instance i) c =
      Finished c (Err (ManagementAuthorizationError (TokenStoreError (ReadError id))))).
Proof.
  split.
  - intros c' e Ht Hr. destruct (run_get_token_missing i T names c c' e Ht Hr) as (id & Hf & _).
    exists id. split; [done|]. intros T'. by apply run_get_token_failed.
  - intros id path req Ht Ho Hp Hq. unfold deregister_nf_instance, get_nf_id_of_client.
    rewrite !run_bind, run_load. cbn [run]. rewrite Hp, Hq. cbn [lift_outcome prog_bind].
    unfold set_auth_token. rewrite !run_bind, run_load, Ho, run_bind, (run_get_token_failed _ _ _ _ _ Ht).
    done.
Qed.

(** How a registration runs once its request is ready. *)
Lemma run_register i id header body c path req :
  formatx (get_path RegisterNFInstance) id = Ok path ->
  prepare_request (Problem := Problem) (url i) path (get_http_method RegisterNFInstance) (Some header) None
    (Some (profile_val body)) AppJson = Returns (Ok req) ->
  run (register_nf_instance i id header body) c =
  match exchange_register req (env (outside c)) with
  | None => Parked c
  | Some (e, Err err) =>
      Finished (on_outside (fun o => MkClientState (nf_config o) e) c) (Err (ManagementClientError err))
  | Some (e, Ok (status, response)) =>
      match register_result status response with
      | Err err => Finished (on_outside (fun o => MkClientState (nf_config o) e) c) (Err err)
      | Ok (nf, id') => Finished (on_outside (fun _ => MkClientState (registered_config id nf id') e) c) (Ok (nf, id'))
      end
  end.
Proof.
  intros Hp Hq. unfold register_nf_instance. rewrite Hp, Hq. cbn [lift_outcome prog_bind].
  rewrite run_bind, run_exchange. destruct (exchange_register _ _) as [[e [[status response]|err]]|]; [|done..].
  by destruct (register_result status response) as [[nf id']|err].
Qed.
End client_props.

(** A client whose token request for service 21 the NRF has refused. *)
Definition refused : test_client_store :=
  match run (get_token test_init NfTypeNrf [NnrfNfm])
      (on_outside (fun o => MkClientState (MkNfConfig 30 (7 : NfInstanceId) true) (env o))
        (NrfClient_new (MkTestNrf 0 [] (AccessToken400 (-1))))) with
  | Finished c _ => c
  | Panicked c | Parked c => c
  end.

Lemma failed_token_is_final_witness :
  run (deregister_nf_instance test_init) refused =
    Finished refused (Err (ManagementAuthorizationError (TokenStoreError (ReadError 1)))) /\
  requests (env (outside refused)) = 1%nat.
Proof.
  destruct (failed_token_is_final test_init NfTypeNrf [] refused) as [_ H].
  split; [eapply H|]; reflexivity.
Defined.
