(* ===== verification/NfClientsProps.v ===== *)
(** * Clients of other network functions: how one is made, and how it is used *)

From S2P Require Import Prelude Async SccMap Convert Network TokenStore Http Config.
From S2P Require Import NgapMessages NgapContext NgapEngine NgapExample NrfClient NfClients App.
From S2P Require Import SbiExample ClientProps.

Section nf_client_props.
Context `{SM : SbiModels} `{PM : !ProfileModels}.
Context {Url Method Val E Problem SearchResult AccessTokenErr Scope : Type}
  `{HL : HeaderLib Val E} `{XL : !HttpLib Url Val E}.
Context `{RM : !NrfModels (Method := Method) (Val := Val) (E := E) (Scope := Scope)} {Env : Type}
  `{HC : !HttpClient (Url := Url) (Method := Method) (E := E) (Problem := Problem)
      (SearchResult := SearchResult) (AccessTokenErr := AccessTokenErr) Env}.
Context {M N Ticket : Type} `{NO : NotifyOps N Ticket}
  `{TM : !SccHashMap (list ServiceName) (TokenState AccessTokenRsp) M}.
Context {T NfProfile HttpRequest Response Resp Service : Type}
  `{CT : !NfClientController T NfType SearchResult NfProfile Val}
  `{HS : !HttpService Service HttpRequest Response Resp Env E E}.

Notation client := (store M N (client_state (Env := Env))).
Implicit Types (c : client).

(** A client with its environment moved on: tokens, notifiers and the
    configuration stay. *)
Definition heard_from (e : Env) c : client := on_outside (fun o => MkClientState (nf_config o) e) c.

(** The verdict on the answer to a search. *)
Definition search_verdict (answer : Result (Z * SearchNfInstancesResponse) (GenericClientError E Problem)) :
    Result SearchResult (NrfDiscoveryError (E := E) (Problem := Problem)) :=
  match answer with
  | Ok (_, Search200 found) => Ok found
  | Ok (status, SearchStatus s problem) =>
      Err (DiscoveryClientError (InvalidResponse status
        (match s with Status401 => None | _ => Some problem end)))
  | Ok (status, SearchOther) => Err (DiscoveryClientError (InvalidResponse status None))
  | Err e => Err (DiscoveryClientError e)
  end.

Lemma run_search nrf query header req c :
  prepare_request (Problem := Problem) (url nrf) (get_path SearchNFInstances) (get_http_method SearchNFInstances)
    (Some header) (Some query) None AppJson = Returns (Ok req) ->
  run (search_nf_instance nrf query header : prog client _) c =
  match exchange_search req (env (outside c)) with
  | Some (e, answer) => Finished (heard_from e c) (search_verdict answer)
  | None => Parked c
  end.
Proof.
  intros Hq. unfold search_nf_instance. rewrite Hq. cbn [lift_outcome prog_bind].
  rewrite run_bind, run_exchange. destruct (exchange_search req _) as [[e answer]|]; [|done].
  cbn [run]. f_equal. by destruct answer as [[status [found|[] problem|]]|err].
Qed.

(** C18 (functional): a client is made from exactly one exchange with the NRF,
    whose query is the controller's for this application, and from the HTTP
    client; the profile kept is the controller's choice among what was found.
    Neither a failed discovery nor a failed build leaves anything behind: the
    tokens and the configuration of the NRF client are never touched. A request
    made through it reaches the peer only when the service is ready, and every
    failure is passed on with the step it came from. *)
Theorem nf_client_outcomes APP_TYPE header nrf (ctl : T)
    (self : NFClient (Url := Url) (T := T) (NfProfile := NfProfile) (Service := Service)) (r : HttpRequest) c :
  (forall req, prepare_request (Problem := Problem) (url nrf) (get_path SearchNFInstances)
      (get_http_method SearchNFInstances) (Some header) (Some (get_search_params ctl APP_TYPE)) None
      AppJson = Returns (Ok req) ->
    run (NFClient_new APP_TYPE header nrf ctl : prog client _) c =
    match exchange_search req (env (outside c)) with
    | None => Parked c
    | Some (e, answer) => Finished (heard_from e c)
        (match search_verdict answer, build_service with
         | Err err, _ => Err (NfNrfDiscoveryError err)
         | Ok _, Err err => Err (ClientCreationError err)
         | Ok found, Ok service => Ok (MkNFClient nrf ctl (profile_selection ctl found) service)
         end)
    end) /\
  run (nf_request self r : prog client (Result (Z * Resp) (GenericClientError E Problem))) c =
    match service_ready (req_client self) (env (outside c)) with
    | None => Parked c
    | Some (e, Err err) => Finished (heard_from e c) (Err (TowerHttpError err))
    | Some (e, Ok service) =>
        match service_call service r e with
        | None => Parked (heard_from e c)
        | Some (e', answer) => Finished (heard_from e' (heard_from e c))
            (match answer with
             | Err err => Err (TowerHttpError err)
             | Ok response => map_err ResponseParseError (resp_deserialize response)
             end)
        end
    end.
Proof.
  split.
  - intros req Hq. unfold NFClient_new. rewrite run_bind, (run_search _ _ _ req c Hq).
    destruct (exchange_search req _) as [[e answer]|]; [|done].
    destruct (search_verdict answer) as [found|err]; [|done]. cbn [map_err].
    by destruct build_service.
  - unfold nf_request. rewrite run_bind, run_exchange.
    destruct (service_ready _ _) as [[e [service|err]]|]; [|done..]. cbn [map_err].
    rewrite run_bind, run_exchange. cbn [heard_from on_outside outside env].
    by destruct (service_call _ _ _) as [[e' [response|err]]|].
Qed.
End nf_client_props.

(** An AMF that looks for AUSFs (type 3) and takes the first it is told of; its
    requests are octet strings, answered with their length. *)
#[local] Instance ausf_controller : NfClientController unit NfType Z Z bytes := {|
  CLIENT_TYPE := (3 : NfType);
  profile_selection _ found := found;
  get_search_params _ := default_search_params (fun requester target => [requester; target]) (3 : NfType);
|}.

#[local] Instance test_service : HttpService unit bytes Z Z TestNrf Z Z := {|
  build_service := Ok ();
  service_ready _ e := Some (e, Ok ());
  service_call _ req e := Some (heard e, Ok (Z.of_nat (length req)));
  resp_deserialize len := Ok (200, len);
|}.

Lemma nf_client_outcomes_witness :
  run (NFClient_new NfTypeAmf [98] test_init () : prog test_client_store _) refused =
    Finished (heard_from (heard (env (outside refused))) refused)
      (Ok (MkNFClient test_init () 0 ())) /\
  run (nf_request (MkNFClient test_init () (0 : Z) ()) [1; 2] : prog test_client_store (Result (Z * Z) (GenericClientError Z Z))) refused =
    Finished (heard_from (heard (env (outside refused))) (heard_from (env (outside refused)) refused))
      (Ok (200, 2)).
Proof.
  destruct (nf_client_outcomes (Service := unit) (HttpRequest := bytes) (Response := Z) (Resp := Z)
    NfTypeAmf [98] test_init () (MkNFClient test_init () 0 ()) [1; 2] refused) as [H1 H2].
  split; [|exact H2]. rewrite (H1 (MkRequest 0 _ _ None) eq_refl). reflexivity.
Defined.
