(* ===== verification/NasProps.v ===== *)
(** * The GMM machine: what a registration records, and where it stops *)

From S2P Require Import Prelude Convert Network ContextManager NgapMessages NgapContext NgapEngine.
From S2P Require Import NgapExample Nas.

Section nas_props.
Context `{NM : NgapModels} `{AM : NasModels}.
Implicit Types (r : NasRegistrationRequest) (event : GmmMessage) (c : NasContext * UeContext).

(** A request that the handler goes through: an initial registration with a
    security capability and an identity other than an EUI-64. *)
Definition registrable r : bool :=
  match rr_registration_type r, rr_mobile_identity r, rr_ue_security_capability r with
  | InitialRegistration, Eui64, _ => false
  | InitialRegistration, _, Some _ => true
  | _, _, _ => false
  end.

Definition starts_registration event : bool :=
  match event with MsgRegistrationRequest r => registrable r | _ => false end.

Lemma record_identity_returns id ue : id <> Eui64 -> exists ue', record_identity id ue = Returns ue'.
Proof. intros Hid. destruct id; simpl; [by eexists..|done]. Qed.

(** The handler on such a request. *)
Lemma handle_registrable r nas ue :
  registrable r = true ->
  exists ue', record_identity (rr_mobile_identity r) ue = Returns ue' /\
    nas_handle r (nas, ue) =
      Returns ((MkNasContext (Some r) (rr_ue_security_capability r), ue'), Ok ()).
Proof.
  unfold registrable. intros Hr. destruct r as [ty id cap]. cbn [rr_registration_type rr_mobile_identity
    rr_ue_security_capability] in *.
  destruct ty; try done.
  destruct (record_identity_returns id ue) as [ue' Hi]; [by intros ->|].
  exists ue'. split; [done|]. unfold nas_handle, handle_registration_request, initial_registration_handler.
  cbn [rr_registration_type rr_mobile_identity rr_ue_security_capability]. rewrite Hi. cbn [outcome_bind].
  destruct cap as [cap|]; [done|]. by destruct id.
Qed.

(** One event in the initial state, with the builder of the program. *)
Lemma deregistered_stays event c c' s :
  gmm_handle build_authentication_request Deregistered event c = Returns (c', s) ->
  s = Deregistered /\ starts_registration event = false.
Proof.
  destruct event as [|r| |]; cbn [gmm_handle deregistered outcome_bind next_state starts_registration];
    [by intros [= <- <-]| |by intros [= <- <-]..].
  destruct c as [nas ue]. destruct (registrable r) eqn:Er.
  - destruct (handle_registrable r nas ue Er) as (ue' & _ & ->). done.
  - destruct (nas_handle r (nas, ue)) as [[c1 [u|e]]|]; cbn [outcome_bind]; [done| |done].
    by intros [= <- <-].
Qed.

(** C28 (safety): no UE can start to register. From the initial state, events
    that the machine survives leave it deregistered, and none of them is an
    initial registration with a security capability and a supported identity:
    those reach the [todo!()] of the authentication request's builder. With any
    builder that returns, such a request records the request, the capability
    and the identity, and moves the machine to [unauthenticated]. *)
Theorem registration_stops_at_builder :
  (forall events c c' s,
    gmm_run build_authentication_request events Deregistered c = Returns (c', s) ->
    s = Deregistered /\ Forall (fun e => starts_registration e = false) events) /\
  (forall build r nas ue a, registrable r = true -> (forall c, build c = Returns (Ok a)) ->
    exists ue', record_identity (rr_mobile_identity r) ue = Returns ue' /\
      gmm_handle build Deregistered (MsgRegistrationRequest r) (nas, ue) =
        Returns ((MkNasContext (Some r) (rr_ue_security_capability r), ue'), Unauthenticated)).
Proof.
  split.
  - induction events as [|event events IH]; intros c c' s; cbn [gmm_run]; [by intros [= <- <-]|].
    destruct (gmm_handle build_authentication_request Deregistered event c) as [[c1 s1]|] eqn:E;
      cbn [outcome_bind]; [|done].
    destruct (deregistered_stays event c c1 s1 E) as [-> He]. intros Hr.
    destruct (IH c1 c' s Hr) as [-> Hes]. by split; [|constructor].
  - intros build r nas ue a Hr Hb. destruct (handle_registrable r nas ue Hr) as (ue' & Hi & Hh).
    exists ue'. split; [done|]. cbn [gmm_handle deregistered]. rewrite Hh. cbn [outcome_bind].
    rewrite Hb. done.
Qed.
End nas_props.

(** ** A UE that registers with a SUCI *)

#[export] Instance test_nas : NasModels := {|
  UeSecurityCapability := Z;
  NasAuthenticationRequest := Z;
  NasAuthenticationResponse := Z;
  NasOtherMessage := Z;
  FiveGmmCause := Z;
  protocol_error_unspecified := 111;
  Suci_ := bytes;
  suci_to_string s := s;
  Guti_ := bytes;
  get_guti_string s := s;
  Imei_ := bytes;
  imei_to_string s := s;
  Tmsi_ := Z;
  get_5g_tmsi n := n;
  MacAddress_ := bytes;
  mac_to_string s := s;
|}.

Definition suci_request : NasRegistrationRequest :=
  MkRegistrationRequest InitialRegistration (Suci ([50; 48; 56] : Suci_)) (Some (3 : UeSecurityCapability)).

(** A builder that returns. *)
Definition test_build : NasBuilder (NasAuthenticationRequest (NasModels := test_nas)) := fun _ => Returns (Ok 9).

Definition test_ue : UeContext :=
  UeContext_new 7 1 (3 : RrcEstablishmentCause)
    (MkGnbContext 1 default_ran_id [] default_paging_drx 0) None Deregistered.

Lemma registration_stops_at_builder_witness :
  exists ue', record_identity (rr_mobile_identity suci_request) test_ue = Returns ue' /\
    ue_suci ue' = Some [50; 48; 56] /\
    gmm_handle test_build Deregistered
      (MsgRegistrationRequest suci_request) (NasContext_new, test_ue) =
    Returns ((MkNasContext (Some suci_request) (rr_ue_security_capability suci_request), ue'), Unauthenticated).
Proof.
  destruct (registration_stops_at_builder (NM := test_models) (AM := test_nas)) as [_ H].
  destruct (H test_build suci_request NasContext_new test_ue 9 eq_refl (fun _ => eq_refl)) as (ue' & H1 & H2).
  exists ue'. split; [exact H1|]. split; [|exact H2]. injection H1 as <-. reflexivity.
Defined.
