(* ===== verification/AppProps.v ===== *)
(** * The application: start-up, registration, and how a run ends *)

From S2P Require Import Prelude Async Counter SccMap Convert ConvertProps ContextManager Network.
From S2P Require Import NetworkProps TokenStore TokenStoreProps Http Config NgapMessages.
From S2P Require Import NgapContext NgapEngine NgapExample EngineProps NrfClient App SbiExample.
From S2P Require Import ClientProps.

Lemma run_atomically {S A : Type} (f : S -> outcome (S * A)) s :
  run (atomically f) s =
  match f s with Returns (s', a) => Finished s' a | Panics => Panicked s end.
Proof. unfold atomically. simpl. by destruct (f s) as [[s' a]|]. Qed.

(** ** Any network function under [NfApp] *)

Section nf_app_props.
Context {Cfg App Er S : Type} `{NI : !NfInstance Cfg App Er S}.
Implicit Types (s : S) (app : App) (res d : Result unit Er) (cancel : S -> S).

(** What the end of a run says about its two parts. *)
Definition verdict res d : Result unit (NfError Er) :=
  match res, d with
  | Ok _, Ok _ => Ok ()
  | Ok _, Err d => Err (ShutdownDeregistrationFailedError d)
  | Err e, Ok _ => Err (RuntimeError e)
  | Err e, Err d => Err (RuntimeWithDeregistrationError e d)
  end.

Lemma run_verdict_table res d : run_verdict res d = verdict res d.
Proof. by destruct res as [[]|e], d as [[]|d]. Qed.

Lemma run_main_branch app s :
  run (main_branch app) s =
  match run (register_nf app) s with
  | Finished s (Ok _) => run (start app) s
  | Finished s (Err e) => Finished s (Err e)
  | Panicked s => Panicked s
  | Parked s => Parked s
  end.
Proof. unfold main_branch. rewrite run_bind. by destruct (run _ s) as [s' [[]|e]| |]. Qed.

(** A run without a signal, from its parts. *)
Lemma run_unsignalled cancel cfg app s s1 s2 res :
  run (initialize cfg) s = Finished s1 (Ok app) -> run (main_branch app) s1 = Finished s2 res ->
  run (nf_app_run None cancel cfg) s =
  match run (deregister_nf app) s2 with
  | Finished s3 d => Finished s3 (verdict res d)
  | Panicked s3 => Panicked s3
  | Parked s3 => Parked s3
  end.
Proof.
  intros Hi Hm. unfold nf_app_run. rewrite run_bind, Hi. cbn [map_err]. rewrite run_bind.
  cbn [select_signal]. rewrite run_bind, Hm. cbn [run]. rewrite run_bind.
  destruct (run (deregister_nf app) s2) as [s3 d| |]; [|done..]. cbn [run]. by rewrite run_verdict_table.
Qed.

(** C14 (functional): a run deregisters as its last act, whatever happened
    before. Without a signal its result tells the four combinations of main
    part and deregistration apart, and a registration that fails skips [start]
    but not the deregistration. Whenever a signal comes, a run that ends after
    a successful [initialize] ended with a deregistration. *)
Theorem run_deregisters_last cancel cfg app s s1 :
  run (initialize cfg) s = Finished s1 (Ok app) ->
  (forall s2 e, run (register_nf app) s1 = Finished s2 (Err e) ->
    run (nf_app_run None cancel cfg) s =
    match run (deregister_nf app) s2 with
    | Finished s3 (Ok _) => Finished s3 (Err (RuntimeError e))
    | Finished s3 (Err d) => Finished s3 (Err (RuntimeWithDeregistrationError e d))
    | Panicked s3 => Panicked s3
    | Parked s3 => Parked s3
    end) /\
  (forall s2 s3 res, run (register_nf app) s1 = Finished s2 (Ok ()) -> run (start app) s2 = Finished s3 res ->
    run (nf_app_run None cancel cfg) s =
    match run (deregister_nf app) s3 with
    | Finished s4 d => Finished s4 (verdict res d)
    | Panicked s4 => Panicked s4
    | Parked s4 => Parked s4
    end) /\
  (forall sig s' r, run (nf_app_run sig cancel cfg) s = Finished s' r ->
    exists s2 d, run (deregister_nf app) s2 = Finished s' d /\
      (r = map_err ShutdownDeregistrationFailedError d \/ exists res, r = verdict res d)).
Proof.
  intros Hi. split_and!.
  - intros s2 e Hr. rewrite (run_unsignalled cancel cfg app s s1 s2 (Err e) Hi);
      [|by rewrite run_main_branch, Hr].
    by destruct (run (deregister_nf app) s2) as [s3 [[]|d]| |].
  - intros s2 s3 res Hr Hs. rewrite (run_unsignalled cancel cfg app s s1 s3 res Hi); [done|].
    by rewrite run_main_branch, Hr.
  - intros sig s' r. unfold nf_app_run. rewrite run_bind, Hi. cbn [map_err]. rewrite run_bind.
    destruct (run (select_signal _ _ _) s1) as [s2 [res|]| |]; [..|done|done];
      rewrite run_bind; destruct (run (deregister_nf app) s2) as [s3 d| |] eqn:Ed; try done;
      intros [= <- <-]; exists s2, d; (split; [done|]); [|by left].
    right. exists res. apply run_verdict_table.
Qed.
End nf_app_props.

(** ** Omnipath *)

Section omnipath_props.
Context `{NM : NgapModels} `{SM : SbiModels} `{PM : !ProfileModels}.
Context {Url Method Val E Problem SearchResult AccessTokenErr Scope : Type}
  `{HL : HeaderLib Val E} `{XL : !HttpLib Url Val E}.
Context `{RM : !NrfModels (Method := Method) (Val := Val) (E := E) (Scope := Scope)} {Env : Type}
  `{HC : !HttpClient (Url := Url) (Method := Method) (E := E) (Problem := Problem)
      (SearchResult := SearchResult) (AccessTokenErr := AccessTokenErr) Env}.
Context {M N Ticket : Type} `{NO : NotifyOps N Ticket}
  `{TM : SccHashMap (list ServiceName) (TokenState AccessTokenRsp) M}.
Context {Stream MG MU Socket Listener : Type} `{SP : Sctp Stream} `{SS : SctpSockets Socket Listener}
  `{GM : !SccHashMap GlobalRanNodeId GnbContext MG} `{GL : !SccLaws GlobalRanNodeId GnbContext MG}
  `{UM : SccHashMap Z nat MU}.
Context `{OL : !OmniPathLibs (Val := Val) (E := E) (Env := Env) (Stream := Stream) (Listener := Listener)}.
Implicit Types (p : process (Env := Env) (M := M) (N := N) (Stream := Stream) (MG := MG) (MU := MU))
  (self : OmniPathApp (Url := Url)) (a : AppContext) (app : OmniPathApp (Url := Url)) (config : OmniPathConfig).

Lemma run_on_client {A : Type} (m : prog (store M N (client_state (Env := Env))) A) p :
  run (on_client m) p =
  match run m (p_client p) with
  | Finished c x => Finished (set_client c p) x
  | Panicked c => Panicked (set_client c p)
  | Parked c => Parked (set_client c p)
  end.
Proof. unfold on_client. apply run_zoom; [done..|]. by destruct p. Qed.

Lemma run_own_context self a p :
  p_contexts p !! app_context self = Some a -> run (own_context self) p = Finished p a.
Proof. intros Ha. unfold own_context, deref. rewrite run_bind, run_read, Ha. done. Qed.

(** A commit changes the context behind the application's [Arc], and what the
    NGAP handlers read if the static has the same. *)
Lemma run_commit self f a p :
  p_contexts p !! app_context self = Some a ->
  let a' := commit_config f (get_config a) a in
  exists p', run (app_commit_config self f) p = Finished p' () /\
    p_contexts p' = <[app_context self := a']> (p_contexts p) /\ p_global p' = p_global p /\
    p_client p' = p_client p /\ w_config (p_world p') = global_configuration p' /\
    (p_global p = Some (app_context self) -> w_config (p_world p') = Some (amf_configuration (get_config a'))).
Proof.
  intros Ha a'. unfold app_commit_config. rewrite run_bind, (run_own_context self a p Ha), run_write.
  eexists. split; [done|]. split_and!; [|done..|].
  - simpl. apply map_eq. intros c. destruct (decide (c = app_context self)) as [->|Hne].
    + by rewrite lookup_alter_eq, lookup_insert_eq, Ha.
    + by rewrite lookup_alter_ne, lookup_insert_ne.
  - intros Hg. unfold global_configuration. simpl. rewrite Hg. simpl. by rewrite lookup_alter_eq, Ha.
Qed.

(** Committing the id that is there already. *)
Lemma commit_same a : commit_config (set_nf_id (get_nf_id a)) (get_config a) a = a.
Proof. by destruct a as [[] s]. Qed.

(** C27 (safety): the application never takes the id the NRF assigns to it.
    [register_nf] leaves every application context as it was: an assigned id is
    committed only when it is the id already there. With any other id the NRF
    client goes on (and deregisters) under the assigned id while the
    application keeps the one it made up. *)
Theorem register_keeps_own_id self a p :
  p_contexts p !! app_context self = Some a ->
  (forall p' r, run (omnipath_register_nf self) p = Finished p' r ->
    p_contexts p' = p_contexts p /\ p_global p' = p_global p) /\
  (forall profile path req e status nf id location,
    build_nf_profile a = Ok profile ->
    formatx (get_path RegisterNFInstance) (get_nf_id a) = Ok path ->
    prepare_request (Problem := Problem) (url (nrf_init self)) path (get_http_method RegisterNFInstance)
      (Some default_register_header) None (Some (profile_val profile)) AppJson = Returns (Ok req) ->
    exchange_register req (env (outside (p_client p))) = Some (e, Ok (status, Register201 nf location)) ->
    after_last_slash location <> None ->
    nf_instance_id_from_str (default [] (after_last_slash location)) = Ok id -> id <> get_nf_id a ->
    exists p', run (omnipath_register_nf self) p = Finished p' (Ok ()) /\
      p_contexts p' !! app_context self = Some a /\ nf_instance_id (nf_config (outside (p_client p'))) = id).
Proof.
  intros Ha. split.
  - intros p' r. unfold omnipath_register_nf. rewrite run_bind, (run_own_context self a p Ha).
    destruct (build_nf_profile a) as [profile|e]; cbn [map_err]; [|by intros [= <- <-]].
    rewrite run_bind, (run_own_context self a p Ha), run_bind, run_on_client.
    destruct (run (register_nf_instance _ _ _ _) _) as [c [[nf [id|]]|e]| |]; cbn [map_err];
      [|by intros [= <- <-]..|done|done].
    set (p1 := set_client c p). assert (Ha1 : p_contexts p1 !! app_context self = Some a) by done.
    rewrite run_bind, (run_own_context self a p1 Ha1).
    destruct (decide (id = get_nf_id a)) as [->|]; [|by intros [= <- <-]].
    destruct (run_commit self (set_nf_id (get_nf_id a)) a p1 Ha1) as (p2 & Hr & Hc & Hg & _).
    rewrite run_bind, Hr. intros [= <- <-]. rewrite Hc, commit_same. by rewrite insert_id.
  - intros profile path req e status nf id location Hb Hp Hq He Hl Hid Hne.
    unfold omnipath_register_nf. rewrite run_bind, (run_own_context self a p Ha), Hb. cbn [map_err].
    rewrite run_bind, (run_own_context self a p Ha), run_bind, run_on_client.
    rewrite (run_register _ _ _ _ _ path req Hp Hq), He. cbn [register_result].
    destruct (after_last_slash location) as [tail|]; [|done]. simpl in Hid. rewrite Hid.
    cbn [map_err]. set (p1 := set_client _ p). rewrite run_bind, (run_own_context self a p1 Ha).
    rewrite decide_False by done. exists p1. done.
Qed.

(** ** Start-up *)

Lemma validate_ok config :
  validate config = Ok () ->
  support_tai_list (configuration config) <> [] /\ support_dnn_list (configuration config) <> [] /\
  service_name_list (sbi config) <> [] /\ Forall (fun n => n ∈ amf_services) (service_name_list (sbi config)).
Proof.
  unfold validate, validate_configuration, validate_sbi, min_items, enum_list.
  destruct (support_tai_list _) as [|t ts], (support_dnn_list _) as [|n ns]; try done.
  destruct (forallb _ (service_name_list _)) eqn:Ef; [|by destruct (service_name_list _)].
  intros Hs. split_and!; try done; [by intros E0; rewrite E0 in Hs|].
  apply Forall_forall. intros y Hy%list_elem_of_In.
  rewrite forallb_forall in Ef. specialize (Ef y Hy). by apply bool_decide_eq_true in Ef.
Qed.

(** What [initialize] leaves when it returns an application. *)
Lemma up_and_running (l : Listener) net app a p p' :
  p_contexts p' !! app_context app = Some a -> p_global p' = Some (app_context app) ->
  p_world p' = NgapContext_new l net (Some (amf_configuration (get_config a))) (p_world p) ->
  net = Associations_new ->
  (forall f, exists p2 a2, run (app_commit_config app f) p' = Finished p2 () /\
    p_contexts p2 !! app_context app = Some a2 /\ get_config a2 = f (get_config a) /\
    w_config (p_world p2) = Some (amf_configuration (get_config a2))) /\
  (1 <= (w_network (p_world p)).2 ->
    (w_network (p_world p)).2 + Z.of_nat (length (w_incoming (p_world p'))) < 2 ^ 64 ->
    amf_ok (Some (amf_configuration (get_config a))) 0 (p_world p')).
Proof.
  intros Ha Hg -> ->. split.
  - intros f. destruct (run_commit app f a p' Ha) as (p2 & Hr & Hc & _ & _ & _ & Hw).
    exists p2, (commit_config f (get_config a) a). rewrite Hc, lookup_insert_eq. split_and!; [done..|by apply Hw].
  - intros Hlo Hhi. split; simpl; try done.
    + intros k g. by rewrite view_new.
    + apply associations_ok_new.
    + by intros j [t Ht].
    + by rewrite Nat.add_0_r.
Qed.

Lemma initialize_cases config p :
  (omnipath_initialize (Problem := Problem) (AccessTokenErr := AccessTokenErr) config p = Panics <->
    is_ok (url_parse (nrf_uri (configuration config))) = true /\ is_ok build_client = true /\
    validate config = Ok () /\ ngap_ip_list (configuration config) = []) /\
  (forall p' app, omnipath_initialize (Problem := Problem) (AccessTokenErr := AccessTokenErr) config p =
    Returns (p', Ok app) ->
    p_global p = None /\ inner (valid_config app) = config /\
    support_tai_list (configuration config) <> [] /\ support_dnn_list (configuration config) <> [] /\
    service_name_list (sbi config) <> [] /\
    Forall (fun n => n ∈ amf_services) (service_name_list (sbi config)) /\
    exists a, p_contexts p' !! app_context app = Some a /\ p_global p' = Some (app_context app) /\
      get_sbi_config a = sbi config /\ w_config (p_world p') = Some (amf_configuration (get_config a)) /\
      (forall f, exists p2 a2, run (app_commit_config app f) p' = Finished p2 () /\
        p_contexts p2 !! app_context app = Some a2 /\ get_config a2 = f (get_config a) /\
        w_config (p_world p2) = Some (amf_configuration (get_config a2))) /\
      (1 <= (w_network (p_world p)).2 ->
       (w_network (p_world p)).2 + Z.of_nat (length (w_incoming (p_world p'))) < 2 ^ 64 ->
       amf_ok (Some (amf_configuration (get_config a))) 0 (p_world p'))).
Proof.
  unfold omnipath_initialize, create_nrf_client, SerdeValidated_new.
  destruct (url_parse _) as [u|e]; cbn [map_err is_ok]; [|split; [split; [done|by intros [? _]]|done]].
  destruct build_client as [env0|e]; cbn [map_err is_ok]; [|split; [split; [done|by intros (_ & ? & _)]|done]].
  destruct (validate config) as [[]|e] eqn:Hv; cbn [map_err]; [|split; [split; [done|by intros (_ & _ & ? & _)]|done]].
  unfold new_app_context, deref. cbn [fst snd p_contexts]. rewrite lookup_insert_eq.
  cbn [unwrap_option outcome_bind AppContext_initialize get_config app_config Configuration_new c_ngap_ips c_ngap_port
    inner p_global].
  destruct (ngap_ip_list (configuration config)) as [|ip ips]; [by split; [split|]|].
  cbn [index lookup list_lookup unwrap_option outcome_bind].
  destruct (Network_new ip _ _) as [[l net]|e] eqn:En; [|split; [split; [done|by intros (_ & _ & _ & ?)]|done]].
  destruct (p_global p) as [c|] eqn:Ha; [split; [split; [done|by intros (_ & _ & _ & ?)]|done]|].
  split; [split; [done|by intros (_ & _ & _ & ?)]|].
  intros p' app [= <- <-]. destruct (validate_ok config Hv) as (H1 & H2 & H3 & H4).
  split_and!; try done. eexists. split; [by simpl; rewrite lookup_insert_eq|]. split; [done|]. split; [done|].
  split; [unfold global_configuration; simpl; by rewrite lookup_insert_eq|].
  apply (up_and_running l net); [by simpl; rewrite lookup_insert_eq|done|..].
  - unfold global_configuration. simpl. by rewrite lookup_insert_eq.
  - unfold Network_new in En. by repeat case_match; simplify_eq.
Qed.

(** The default configuration has no TAI, no DNN and no service. *)
Lemma default_refused `{SbiDefaults} nf_id cell :
  get_or_init_app_context nf_id cell = match cell with Some a => Returns a | None => Panics end.
Proof. by destruct cell. Qed.

(** C13 (functional): start-up. [initialize] panics exactly when everything
    before the network is in order and the list of NGAP addresses is empty,
    which validation lets through. It returns an application only in a process
    without one, and then the configuration is valid (there are TAIs, DNNs and
    services, and the services are the AMF's), the global context is the
    application's, the NGAP handlers see its configuration and whatever is
    committed through the application from then on, and the NGAP state satisfies
    the invariant of the engine. Nobody may ask for the global context
    before: it would be made from the default configuration, which validation
    refuses, and the refusal is unwrapped. *)
Theorem initialize_outcomes `{SD : SbiDefaults} config p :
  ((omnipath_initialize (Problem := Problem) (AccessTokenErr := AccessTokenErr) config p = Panics <->
      is_ok (url_parse (nrf_uri (configuration config))) = true /\ is_ok build_client = true /\
      validate config = Ok () /\ ngap_ip_list (configuration config) = []) /\
    (forall p' app, omnipath_initialize (Problem := Problem) (AccessTokenErr := AccessTokenErr) config p =
      Returns (p', Ok app) ->
      p_global p = None /\ inner (valid_config app) = config /\
      support_tai_list (configuration config) <> [] /\ support_dnn_list (configuration config) <> [] /\
      service_name_list (sbi config) <> [] /\
      Forall (fun n => n ∈ amf_services) (service_name_list (sbi config)) /\
      exists a, p_contexts p' !! app_context app = Some a /\ p_global p' = Some (app_context app) /\
        get_sbi_config a = sbi config /\ w_config (p_world p') = Some (amf_configuration (get_config a)) /\
        (forall f, exists p2 a2, run (app_commit_config app f) p' = Finished p2 () /\
          p_contexts p2 !! app_context app = Some a2 /\ get_config a2 = f (get_config a) /\
          w_config (p_world p2) = Some (amf_configuration (get_config a2))) /\
        (1 <= (w_network (p_world p)).2 ->
         (w_network (p_world p)).2 + Z.of_nat (length (w_incoming (p_world p'))) < 2 ^ 64 ->
         amf_ok (Some (amf_configuration (get_config a))) 0 (p_world p')))) /\
  (forall nf_id cell,
    get_or_init_app_context nf_id cell = match cell with Some a => Returns a | None => Panics end).
Proof. split; [apply initialize_cases|apply default_refused]. Qed.
End omnipath_props.

(** ** A start-up against the scripted NRF *)

Definition test_initialize (ips : list IpAddr) : outcome (test_process * _) :=
  omnipath_initialize (Problem := Z) (AccessTokenErr := Z) (test_omnipath ips) fresh_process.

(** The process once it is up; the NRF will assign id 7. *)
Definition started : test_process :=
  match test_initialize [V4 0x7F000001] with Returns (p, _) => p | Panics => fresh_process end.

Definition test_app : OmniPathApp :=
  MkOmniPathApp (MkInitConfig [110] NfTypeAmf) (MkSerdeValidated (test_omnipath [V4 0x7F000001])) 0.

(** A network function that fails to register and to deregister, and counts
    the calls. *)
#[local] Instance refused_instance : NfInstance unit unit nat nat := {
  initialize _ := access (fun calls => (calls + 1, Ok ()))%nat;
  register_nf _ := access (fun calls => (calls + 1, Err calls))%nat;
  start _ := access (fun calls => (calls + 1, Ok ()))%nat;
  deregister_nf _ := access (fun calls => (calls + 1, Err calls))%nat;
}.

Lemma run_deregisters_last_witness :
  run (nf_app_run (NfInstance0 := refused_instance) None id ()) 0%nat = Finished 3%nat (Err (RuntimeWithDeregistrationError 1 2)%nat).
Proof.
  destruct (run_deregisters_last (NI := refused_instance) id () () 0%nat 1%nat eq_refl) as (H & _).
  rewrite (H 2%nat 1%nat); reflexivity.
Defined.

Lemma register_keeps_own_id_witness :
  exists a p, p_contexts started !! 0%nat = Some a /\ get_nf_id a = (1 : NfInstanceId) /\
    run (omnipath_register_nf (Problem := Z) (SearchResult := Z) (AccessTokenErr := Z) test_app) started =
      Finished p (Ok ()) /\
    p_contexts p !! 0%nat = Some a /\ nf_instance_id (nf_config (outside (p_client p))) = (7 : NfInstanceId).
Proof.
  eexists. destruct (register_keeps_own_id (Problem := Z) (SearchResult := Z) (AccessTokenErr := Z)
    test_app _ started eq_refl) as [_ H].
  edestruct H as (p & H1 & H2 & H3); [reflexivity..|discriminate|reflexivity|discriminate|].
  exists p. split; [reflexivity|]. split; [reflexivity|]. split; [exact H1|]. split; [exact H2|exact H3].
Defined.

Lemma initialize_outcomes_witness :
  test_initialize [] = Panics /\ exists a, p_contexts started !! 0%nat = Some a /\ p_global started = Some 0%nat /\
    w_config (p_world started) = Some (amf_configuration (get_config a)) /\
    amf_ok (Some (amf_configuration (get_config a))) 0 (p_world started).
Proof.
  split.
  - destruct (initialize_outcomes (Problem := Z) (AccessTokenErr := Z) (test_omnipath []) fresh_process)
      as [[[_ H] _] _].
    apply H. split; [reflexivity|]. split; [reflexivity|]. split; reflexivity.
  - destruct (initialize_outcomes (Problem := Z) (AccessTokenErr := Z) (test_omnipath [V4 0x7F000001])
      fresh_process) as [[_ H] _].
    assert (Hi : test_initialize [V4 0x7F000001] = Returns (started, Ok test_app)) by (vm_compute; reflexivity).
    destruct (H started test_app Hi) as (_ & _ & _ & _ & _ & _ & a & H1 & H2 & _ & H3 & _ & H4).
    exists a. split; [exact H1|]. split; [exact H2|]. split; [exact H3|]. apply H4; vm_compute; done.
Defined.
