(* ===== verification/PacketAnalysis.v ===== *)
(** * The integration tests ([tests/integration/src/main.rs], [tester.rs])

    The harness runs the services in containers, captures the traffic on their
    bridge and counts the packets between network functions. Capturing is a
    library; its results are a list, one for each call of [next_packet] that the
    loop makes before its time is over. What is printed is kept as data; the
    percentage, a float, is left out. *)

From stdpp Require Import pretty.
From S2P Require Import Prelude Convert.

(** ** Addresses of the network functions *)

Definition AMF_IP : string := "10.0.0.2".
Definition SMF_IP : string := "10.0.0.3".
Definition UPF_IP : string := "10.0.0.4".
Definition NRF_IP : string := "10.0.0.5".
Definition AUSF_IP : string := "10.0.0.6".
Definition PCF_IP : string := "10.0.0.7".
Definition NSSF_IP : string := "10.0.0.8".
Definition UDM_IP : string := "10.0.0.9".
Definition UDR_IP : string := "10.0.0.10".
Definition BSF_IP : string := "10.0.0.11".
Definition CHF_IP : string := "10.0.0.12".
Definition SMSF_IP : string := "10.0.0.13".
Definition N3IWF_IP : string := "10.0.0.14".
Definition SEPP_IP : string := "10.0.0.15".
Definition NWDAF_IP : string := "10.0.0.16".
Definition GMLC_IP : string := "10.0.0.17".
Definition SCEF_IP : string := "10.0.0.18".
Definition EIR_IP : string := "10.0.0.19".
Definition UDSF_IP : string := "10.0.0.20".
Definition LMF_IP : string := "10.0.0.21".
Definition MBSF_IP : string := "10.0.0.22".
Definition NAF_IP : string := "10.0.0.23".
Definition NEF_IP : string := "10.0.0.24".
Definition SCP_IP : string := "10.0.0.25".
Definition SPP_IP : string := "10.0.0.26".
Definition HSS_IP : string := "10.0.0.27".
Definition CBC_IP : string := "10.0.0.28".
Definition IWF_IP : string := "10.0.0.29".
Definition DCCF_IP : string := "10.0.0.30".
Definition RAN1_IP : string := "10.0.1.0".
Definition RAN2_IP : string := "10.0.1.1".
Definition RAN3_IP : string := "10.0.1.2".
Definition MONGO_IP : string := "10.0.100.0".

(** [std::net::Ipv4Addr] and its [Display]. *)
Record Ipv4Addr : Type := MkIpv4 { ip_a : Z; ip_b : Z; ip_c : Z; ip_d : Z }.

Definition octet_str (z : Z) : string := pretty (Z.to_N z).

Definition ipv4_to_string (a : Ipv4Addr) : string :=
  (octet_str (ip_a a) ++ "." ++ octet_str (ip_b a) ++ "." ++ octet_str (ip_c a) ++ "." ++ octet_str (ip_d a))%string.

Definition get_nf_name_by_ip (ip : string) : string :=
  if decide (ip = AMF_IP) then "AMF" else
  if decide (ip = SMF_IP) then "SMF" else
  if decide (ip = UPF_IP) then "UPF" else
  if decide (ip = NRF_IP) then "NRF" else
  if decide (ip = AUSF_IP) then "AUSF" else
  if decide (ip = PCF_IP) then "PCF" else
  if decide (ip = NSSF_IP) then "NSSF" else
  if decide (ip = UDM_IP) then "UDM" else
  if decide (ip = UDR_IP) then "UDR" else
  if decide (ip = BSF_IP) then "BSF" else
  if decide (ip = CHF_IP) then "CHF" else
  if decide (ip = SMSF_IP) then "SMSF" else
  if decide (ip = N3IWF_IP) then "N3IWF" else
  if decide (ip = SEPP_IP) then "SEPP" else
  if decide (ip = NWDAF_IP) then "NWDAF" else
  if decide (ip = GMLC_IP) then "GMLC" else
  if decide (ip = SCEF_IP) then "SCEF" else
  if decide (ip = EIR_IP) then "EIR" else
  if decide (ip = UDSF_IP) then "UDSF" else
  if decide (ip = LMF_IP) then "LMF" else
  if decide (ip = MBSF_IP) then "MBSF" else
  if decide (ip = NAF_IP) then "NAF" else
  if decide (ip = NEF_IP) then "NEF" else
  if decide (ip = SCP_IP) then "SCP" else
  if decide (ip = SPP_IP) then "SPP" else
  if decide (ip = HSS_IP) then "HSS" else
  if decide (ip = CBC_IP) then "CBC" else
  if decide (ip = IWF_IP) then "IWF" else
  if decide (ip = DCCF_IP) then "DCCF" else
  if decide (ip = RAN1_IP) then "RAN1" else
  if decide (ip = RAN2_IP) then "RAN2" else
  if decide (ip = RAN3_IP) then "RAN3" else
  "UNKNOWN".

Definition is_known_nf_ip (ip : string) : bool :=
  bool_decide (ip ∈ [
    AMF_IP; SMF_IP; UPF_IP; NRF_IP; AUSF_IP; PCF_IP; NSSF_IP; UDM_IP;
    UDR_IP; BSF_IP; CHF_IP; SMSF_IP; N3IWF_IP; SEPP_IP; NWDAF_IP; GMLC_IP;
    SCEF_IP; EIR_IP; UDSF_IP; LMF_IP; MBSF_IP; NAF_IP; NEF_IP; SCP_IP;
    SPP_IP; HSS_IP; CBC_IP; IWF_IP; DCCF_IP; RAN1_IP; RAN2_IP; RAN3_IP
  ]).

Definition get_protocol_name (protocol : Z) : string :=
  if protocol =? 1 then "ICMP" else
  if protocol =? 6 then "TCP" else
  if protocol =? 17 then "UDP" else
  if protocol =? 89 then "OSPF" else
  if protocol =? 132 then "SCTP" else
  "UNKNOWN".

(** ** Headers *)

Record IpHeader : Type := MkIpHeader {
  ih_version : Z;
  ih_header_length : Z;
  ih_total_length : Z;
  ih_identification : Z;
  ih_flags : Z;
  ih_fragment_offset : Z;
  ih_ttl : Z;
  ih_protocol : Z;
  ih_checksum : Z;
  ih_source_ip : Ipv4Addr;
  ih_destination_ip : Ipv4Addr;
}.

(** [u16::from_be_bytes]. *)
Definition be16 (hi lo : Z) : Z := Z.lor (Z.shiftl hi 8) lo.

Section analysis.
(** [anyhow::Error]. *)
Context {E : Type}.
(** The build profile: overflow checks. *)
Context (debug : bool).

(** Indexing is checked: reading past the end would panic. *)
Definition parse_ip_header (packet_data : bytes) : outcome (Result (option IpHeader) E) :=
  if Z.of_nat (length packet_data) <? 20 then Returns (Ok None)
  else
    let! version_and_ihl := index packet_data 0 in
    let version := Z.land (Z.shiftr version_and_ihl 4) 0x0F in
    let header_length := Z.land version_and_ihl 0x0F * 4 in
    if negb (version =? 4) then Returns (Ok None)
    else if Z.of_nat (length packet_data) <? header_length then Returns (Ok None)
    else
      let! b2 := index packet_data 2 in
      let! b3 := index packet_data 3 in
      let total_length := be16 b2 b3 in
      let! b4 := index packet_data 4 in
      let! b5 := index packet_data 5 in
      let identification := be16 b4 b5 in
      let! b6 := index packet_data 6 in
      let! b7 := index packet_data 7 in
      let flags_and_offset := be16 b6 b7 in
      let flags := Z.land (Z.shiftr flags_and_offset 13) 0x07 in
      let fragment_offset := Z.land flags_and_offset 0x1FFF in
      let! ttl := index packet_data 8 in
      let! protocol := index packet_data 9 in
      let! b10 := index packet_data 10 in
      let! b11 := index packet_data 11 in
      let checksum := be16 b10 b11 in
      let! b12 := index packet_data 12 in
      let! b13 := index packet_data 13 in
      let! b14 := index packet_data 14 in
      let! b15 := index packet_data 15 in
      let source_ip := MkIpv4 b12 b13 b14 b15 in
      let! b16 := index packet_data 16 in
      let! b17 := index packet_data 17 in
      let! b18 := index packet_data 18 in
      let! b19 := index packet_data 19 in
      let destination_ip := MkIpv4 b16 b17 b18 b19 in
      Returns (Ok (Some (MkIpHeader version header_length total_length identification flags
        fragment_offset ttl protocol checksum source_ip destination_ip))).

(** ** Flows *)

Record PacketFlow : Type := MkPacketFlow {
  pf_source_ip : string;
  pf_destination_ip : string;
  pf_source_name : string;
  pf_destination_name : string;
  pf_protocol : Z;
  pf_length : Z;
  pf_timestamp : Z;
}.

(** [pcap::Packet]: the captured bytes and the [timeval] of the header, two
    signed 64-bit numbers. *)
Record Packet : Type := MkPacket { pkt_data : bytes; tv_sec : Z; tv_usec : Z }.

(** The result of an operation on [u64]. *)
Definition u64_checked (z : Z) : outcome Z :=
  if decide (fits 64 z) then Returns z else if debug then Panics else Returns (wrap 64 z).

Definition analyze_packet (packet : Packet) : outcome (Result (option PacketFlow) E) :=
  let! parsed := parse_ip_header (pkt_data packet) in
  match parsed with
  | Err e => Returns (Err e)
  | Ok None => Returns (Ok None)
  | Ok (Some ip_header) =>
      let source_ip := ipv4_to_string (ih_source_ip ip_header) in
      let destination_ip := ipv4_to_string (ih_destination_ip ip_header) in
      if is_known_nf_ip source_ip || is_known_nf_ip destination_ip then
        let source_name := get_nf_name_by_ip source_ip in
        let destination_name := get_nf_name_by_ip destination_ip in
        let! usec := u64_checked (wrap 64 (tv_sec packet) * 1000000) in
        let! timestamp := u64_checked (usec + wrap 64 (tv_usec packet)) in
        Returns (Ok (Some (MkPacketFlow source_ip destination_ip source_name destination_name
          (ih_protocol ip_header) (Z.of_nat (length (pkt_data packet))) timestamp)))
      else Returns (Ok None)
  end.

(** The values that [print_packet_flow] prints. *)
Definition print_packet_flow (flow : PacketFlow) (packet_number : Z) :
    Z * PacketFlow * string * Z * Z :=
  (packet_number, flow, get_protocol_name (pf_protocol flow),
    pf_timestamp flow / 1000000, pf_timestamp flow mod 1000000).

(** ** The loops *)

(** [pcap::Error]. *)
Inductive PcapError : Type := TimeoutExpired | OtherPcapError (code : Z).

(** The variables of a loop, and the lines it has printed. *)
Record loop_state : Type := MkLoopState {
  packet_count : Z;
  filtered_count : Z;
  flow_stats : gmap string Z;
  printed : list (Z * PacketFlow * string * Z * Z);
}.

Definition loop_start : loop_state := MkLoopState 0 0 ∅ [].

(** [packet_count += 1], an [i32] as nothing says otherwise. *)
Definition i32_increment (n : Z) : outcome Z :=
  if n + 1 <? 2 ^ 31 then Returns (n + 1) else if debug then Panics else Returns (- 2 ^ 31).

(** The common part: count the packet, analyse it, and treat the flow as [body]
    does. *)
Fixpoint capture_loop (body : PacketFlow -> loop_state -> loop_state)
    (results : list (Result Packet PcapError)) (s : loop_state) : outcome (Result loop_state E) :=
  match results with
  | [] => Returns (Ok s)
  | Ok packet :: results =>
      let! n := i32_increment (packet_count s) in
      let s := MkLoopState n (filtered_count s) (flow_stats s) (printed s) in
      let! flow := analyze_packet packet in
      match flow with
      | Err e => Returns (Err e)
      | Ok None => capture_loop body results s
      | Ok (Some flow) => capture_loop body results (body flow s)
      end
  | Err TimeoutExpired :: results => capture_loop body results s
  | Err (OtherPcapError _) :: _ => Returns (Ok s)
  end.

(** [filtered_count += 1] and the line. *)
Definition count_flow (flow : PacketFlow) (s : loop_state) : loop_state :=
  let n := filtered_count s + 1 in
  MkLoopState (packet_count s) n (flow_stats s) (printed s ++ [print_packet_flow flow n]).

Definition flow_key (flow : PacketFlow) : string :=
  (pf_source_name flow ++ " → " ++ pf_destination_name flow)%string.

(** [*entry(key).or_insert(0) += 1]. *)
Definition track_flow (flow : PacketFlow) (s : loop_state) : loop_state :=
  let key := flow_key flow in
  MkLoopState (packet_count s) (filtered_count s)
    (<[key := default 0 (flow_stats s !! key) + 1]> (flow_stats s)) (printed s).

(** [sort_by(|a, b| b.1.cmp(a.1))], a stable sort. *)
Fixpoint insert_flow (x : string * Z) (l : list (string * Z)) : list (string * Z) :=
  match l with
  | [] => [x]
  | y :: l => if y.2 <=? x.2 then x :: y :: l else y :: insert_flow x l
  end.

Definition sort_flows (l : list (string * Z)) : list (string * Z) := foldr insert_flow [] l.

(** The order in which the [HashMap] is iterated. *)
Context (iter : gmap string Z -> list (string * Z)).

Definition process_filtered_packets (results : list (Result Packet PcapError)) :
    outcome (Result (loop_state * list (string * Z)) E) :=
  let! s := capture_loop (fun flow s => track_flow flow (count_flow flow s)) results loop_start in
  match s with
  | Err e => Returns (Err e)
  | Ok s => Returns (Ok (s, take 10 (sort_flows (iter (flow_stats s)))))
  end.

Definition filter_packets_by_ips (source_ip destination_ip : option string)
    (results : list (Result Packet PcapError)) : outcome (Result loop_state E) :=
  capture_loop (fun flow s =>
    let matches_source := match source_ip with Some src => bool_decide (pf_source_ip flow = src) | None => true end in
    let matches_destination :=
      match destination_ip with Some dst => bool_decide (pf_destination_ip flow = dst) | None => true end in
    if matches_source && matches_destination then count_flow flow s else s) results loop_start.

Definition example_filter_amf_to_smf (results : list (Result Packet PcapError)) : outcome (Result loop_state E) :=
  filter_packets_by_ips (Some AMF_IP) (Some SMF_IP) results.

Definition is_ran (ip : string) : bool := bool_decide (ip ∈ [RAN1_IP; RAN2_IP; RAN3_IP]).

Definition example_filter_ran_traffic (results : list (Result Packet PcapError)) : outcome (Result loop_state E) :=
  capture_loop (fun flow s =>
    if is_ran (pf_source_ip flow) || is_ran (pf_destination_ip flow) then count_flow flow s else s)
    results loop_start.
End analysis.

(** ** The harness ([main.rs]) *)

(** [str::contains]. *)
Fixpoint contains (pattern s : string) : bool :=
  String.prefix pattern s || match s with String _ s => contains pattern s | EmptyString => false end.

(** [str::lines]: what line feeds end or separate, without a carriage return
    before a feed. [line] is the line so far, reversed. *)
Fixpoint lines_from (line : list Ascii.ascii) (s : list Ascii.ascii) : list string :=
  match s with
  | [] => match line with [] => [] | _ => [String.string_of_list_ascii (rev line)] end
  | c :: s =>
      if decide (c = Ascii.ascii_of_nat 10) then
        String.string_of_list_ascii
          (rev match line with r :: l => if decide (r = Ascii.ascii_of_nat 13) then l else line | [] => [] end) ::
        lines_from [] s
      else lines_from (c :: line) s
  end.

Definition lines (s : string) : list string := lines_from [] (String.list_ascii_of_string s).

(** A program and its arguments. *)
Notation shell_command := (string * list string)%type.

(** [cleanup_docker_resources]: the commands that are run, given the output of
    [docker network ls], if it can be run. Their results are ignored. *)
Definition cleanup_docker_resources (network_ls : option string) : list shell_command :=
  [("docker-compose", ["down"; "--remove-orphans"]);
   ("docker", ["network"; "rm"; "omnipath_nf-network"]);
   ("docker", ["network"; "prune"; "-f"]);
   ("docker", ["network"; "ls"; "--format"; "{{.Name}}"])]%string ++
  match network_ls with
  | Some networks =>
      (fun network => ("docker", ["network"; "rm"; network]))%string <$>
        filter (fun network => contains "bridge" network || contains "nf-network" network) (lines networks)
  | None => []
  end.

(** What is reported with [context] and [bail!]. *)
Inductive HarnessError (E : Type) : Type :=
| ComposeFileNotFound
| DeviceListFailed (e : E)
| CaptureCreationFailed (e : E)
| CaptureOpenFailed (e : E)
| FilterFailed (e : E)
| BridgeNotFound (attempts : nat)
| ComposeExecutionFailed (e : E)
| ComposeCommandFailed.
Arguments ComposeFileNotFound {E}.
Arguments DeviceListFailed {E} e.
Arguments CaptureCreationFailed {E} e.
Arguments CaptureOpenFailed {E} e.
Arguments FilterFailed {E} e.
Arguments BridgeNotFound {E} attempts.
Arguments ComposeExecutionFailed {E} e.
Arguments ComposeCommandFailed {E}.

(** [start_docker_compose], given whether the command could be run and whether
    it succeeded. *)
Definition start_docker_compose {E : Type} (output : Result bool E) : Result unit (HarnessError E) :=
  let? success := map_err ComposeExecutionFailed output in
  if success : bool then Ok () else Err ComposeCommandFailed.

(** [start_docker_compose_background]: the command is left to a task, whatever
    becomes of it. *)
Definition start_docker_compose_background : list shell_command :=
  [("docker-compose", ["up"; "--build"])%string].

(** [pcap]: the devices at each moment, and the steps to a running capture. *)
Class Pcap (Inactive Active E : Type) := {
  device_list : nat -> Result (list string) E;
  from_device : string -> Result Inactive E;
  open_capture : bool -> Z -> Z -> Inactive -> Result Active E;
  set_filter : string -> Active -> Result Active E;
}.

Section harness.
Context {Inactive Active E : Type} `{PC : !Pcap Inactive Active E}.

Definition max_attempts : nat := 30.

(** One turn of the [while] loop; [None] is another one. *)
Definition try_bridge (attempts : nat) : option (Result Active (HarnessError E)) :=
  match map_err DeviceListFailed (device_list attempts) with
  | Err e => Some (Err e)
  | Ok devices =>
      match list_find (fun name => String.prefix "br-" name = true) devices with
      | Some (_, device) =>
          Some (
            let? inactive := map_err CaptureCreationFailed (from_device device) in
            let? capture := map_err CaptureOpenFailed (open_capture true 65535 1000 inactive) in
            let? capture := map_err FilterFailed (set_filter EmptyString capture) in
            Ok capture)
      | None => None
      end
  end.

(** [remaining] turns from [attempts] on. *)
Fixpoint start_packet_capture_from (remaining attempts : nat) : Result Active (HarnessError E) :=
  match remaining with
  | O => Err (BridgeNotFound max_attempts)
  | S remaining =>
      match try_bridge attempts with
      | Some r => r
      | None => start_packet_capture_from remaining (S attempts)
      end
  end.

Definition start_packet_capture : Result Active (HarnessError E) :=
  start_packet_capture_from max_attempts 0.

(** [main], with what it analyses in the end: the commands and the results of
    the thirty seconds. *)
Definition harness_main {A : Type} (compose_file_exists : bool) (network_ls : option string)
    (analyse : Active -> outcome (Result A E)) :
    list shell_command * outcome (Result A (E + HarnessError E)) :=
  if negb compose_file_exists then ([], Returns (Err (inr ComposeFileNotFound)))
  else
    let commands := cleanup_docker_resources network_ls ++ start_docker_compose_background in
    (commands,
      match map_err inr start_packet_capture with
      | Err e => Returns (Err e)
      | Ok capture => let! r := analyse capture in Returns (map_err inl r)
      end).
End harness.
