(* ===== verification/PacketProps.v ===== *)
(** * What the packet analysis sees and counts *)

From stdpp Require Import pretty sorting.
From S2P Require Import Prelude Convert PacketAnalysis.

(** ** Addresses *)

Definition octet_ok (z : Z) : Prop := 0 <= z < 256.

Definition ipv4_ok (a : Ipv4Addr) : Prop :=
  octet_ok (ip_a a) /\ octet_ok (ip_b a) /\ octet_ok (ip_c a) /\ octet_ok (ip_d a).

(** Up to the first dot. *)
Fixpoint before_dot (s : string) : string :=
  match s with
  | String c s => if decide (c = Ascii.ascii_of_nat 46) then EmptyString else String c (before_dot s)
  | EmptyString => EmptyString
  end.

Fixpoint after_dot (s : string) : string :=
  match s with
  | String c s => if decide (c = Ascii.ascii_of_nat 46) then s else after_dot s
  | EmptyString => EmptyString
  end.

Definition no_dot (s : string) : bool := bool_decide (Ascii.ascii_of_nat 46 ∉ String.list_ascii_of_string s).

Lemma split_dot s t :
  no_dot s = true -> before_dot (s ++ "." ++ t)%string = s /\ after_dot (s ++ "." ++ t)%string = t.
Proof.
  unfold no_dot. intros Hs%bool_decide_eq_true. induction s as [|c s IH]; [done|].
  cbn in Hs. apply not_elem_of_cons in Hs as [Hc Hs]. destruct (IH Hs) as [H1 H2].
  change ((String c s ++ "." ++ t)%string) with (String c (s ++ "." ++ t)). cbn [before_dot after_dot].
  destruct (decide _) as [Ec|_]; [by destruct Hc|]. by rewrite H1, H2.
Qed.

Lemma octet_no_dot z : octet_ok z -> no_dot (octet_str z) = true.
Proof.
  assert (check_below 256 (fun z => no_dot (octet_str z)) = true) as H by (vm_compute; reflexivity).
  by apply (check_below_spec _ _ H).
Qed.

(** Printing an octet can be undone. *)
Definition octet_of (s : string) : Z :=
  foldl (fun n c => 10 * n + Z.of_nat (Ascii.nat_of_ascii c) - 48) 0 (String.list_ascii_of_string s).

Lemma octet_of_str z : octet_ok z -> octet_of (octet_str z) = z.
Proof.
  assert (check_below 256 (fun z => octet_of (octet_str z) =? z) = true) as H by (vm_compute; reflexivity).
  intros Hz. by apply Z.eqb_eq, (check_below_spec _ _ H).
Qed.

Definition ipv4_of_string (s : string) : Ipv4Addr :=
  let t := after_dot s in
  let u := after_dot t in
  MkIpv4 (octet_of (before_dot s)) (octet_of (before_dot t)) (octet_of (before_dot u)) (octet_of (after_dot u)).

Lemma ipv4_of_to_string a : ipv4_ok a -> ipv4_of_string (ipv4_to_string a) = a.
Proof.
  destruct a as [a b c d]. intros (Ha & Hb & Hc & Hd). unfold ipv4_of_string, ipv4_to_string. cbn in *.
  destruct (split_dot (octet_str a) (octet_str b ++ "." ++ octet_str c ++ "." ++ octet_str d)
    (octet_no_dot a Ha)) as [-> ->].
  destruct (split_dot (octet_str b) (octet_str c ++ "." ++ octet_str d) (octet_no_dot b Hb)) as [-> ->].
  destruct (split_dot (octet_str c) (octet_str d) (octet_no_dot c Hc)) as [-> ->].
  by rewrite !octet_of_str.
Qed.

(** The containers of the compose file that are looked for. *)
Definition known_addresses : list Ipv4Addr :=
  ((fun d => MkIpv4 10 0 0 d) <$> seqZ 2 29) ++ ((fun d => MkIpv4 10 0 1 d) <$> seqZ 0 3).

#[export] Instance Ipv4Addr_eq_dec : EqDecision Ipv4Addr.
Proof. solve_decision. Defined.

Lemma known_address ip : is_known_nf_ip ip = true <-> exists a, a ∈ known_addresses /\ ip = ipv4_to_string a.
Proof.
  unfold is_known_nf_ip. rewrite bool_decide_eq_true.
  match goal with |- _ ∈ ?l <-> _ => replace l with (ipv4_to_string <$> known_addresses)
    by (vm_compute; reflexivity) end.
  rewrite list_elem_of_fmap. naive_solver.
Qed.

Lemma known_iff a : ipv4_ok a -> is_known_nf_ip (ipv4_to_string a) = true <-> a ∈ known_addresses.
Proof.
  intros Ha. split.
  - intros (b & Hin & Hb)%known_address. assert (Hok : ipv4_ok b).
    { unfold known_addresses in Hin. apply elem_of_app in Hin as [Hin|Hin];
        apply list_elem_of_fmap in Hin as (d & -> & Hd%elem_of_seqZ); unfold ipv4_ok, octet_ok; simpl; lia. }
    by rewrite <-(ipv4_of_to_string a Ha), Hb, (ipv4_of_to_string b Hok).
  - intros Hin. apply known_address. by exists a.
Qed.

(** An address has a name exactly when it is known. *)
Lemma named_iff_known ip : get_nf_name_by_ip ip <> "UNKNOWN"%string <-> is_known_nf_ip ip = true.
Proof.
  unfold get_nf_name_by_ip.
  repeat (case_decide; [subst; split; [intros _; reflexivity|intros _; discriminate]|]).
  split; [done|]. unfold is_known_nf_ip. rewrite bool_decide_eq_true, !elem_of_cons, elem_of_nil. tauto.
Qed.

(** ** Headers *)

Lemma be16_spec hi lo : octet_ok lo -> be16 hi lo = 256 * hi + lo.
Proof.
  intros Hlo. unfold be16, octet_ok in *. rewrite <-Z.lxor_lor, <-Z.add_nocarry_lxor.
  1: rewrite Z.shiftl_mul_pow2; lia.
  all: apply Z.bits_inj'; intros n Hn; rewrite Z.land_spec, Z.shiftl_spec, Z.bits_0 by done.
  all: destruct (decide (n < 8)) as [Hlt|Hge]; [by rewrite Z.testbit_neg_r by lia|].
  all: replace lo with (lo mod 2 ^ 8) by (apply Z.mod_small; lia).
  all: rewrite Z.mod_pow2_bits_high by lia; apply andb_false_r.
Qed.

Lemma be16_octets z : fits 16 z -> be16 (z / 256) (z mod 256) = z.
Proof.
  intros Hz. rewrite be16_spec by (apply Z.mod_pos_bound; lia).
  symmetry. apply Z.div_mod. lia.
Qed.

(** The header that twenty octets stand for. *)
Definition header_of (b : nat -> Z) : IpHeader :=
  let flags_and_offset := be16 (b 6%nat) (b 7%nat) in
  MkIpHeader (b 0%nat / 16 mod 16) (b 0%nat mod 16 * 4) (be16 (b 2%nat) (b 3%nat)) (be16 (b 4%nat) (b 5%nat))
    (flags_and_offset / 8192 mod 8) (flags_and_offset mod 8192) (b 8%nat) (b 9%nat)
    (be16 (b 10%nat) (b 11%nat)) (MkIpv4 (b 12%nat) (b 13%nat) (b 14%nat) (b 15%nat))
    (MkIpv4 (b 16%nat) (b 17%nat) (b 18%nat) (b 19%nat)).

Definition recognised (bs : bytes) : bool :=
  let h := header_of (fun i => nth i bs 0) in
  (20 <=? Z.of_nat (length bs)) && (ih_version h =? 4) && (ih_header_length h <=? Z.of_nat (length bs)).

(** Parsing never reads past the end and never fails. *)
Lemma parse_spec {E : Type} bs :
  parse_ip_header (E := E) bs =
    Returns (Ok (if recognised bs then Some (header_of (fun i => nth i bs 0)) else None)).
Proof.
  unfold parse_ip_header, recognised. destruct (Z.ltb_spec (Z.of_nat (length bs)) 20) as [Hlt|Hge].
  { rewrite (proj2 (Z.leb_gt _ _)) by lia. done. }
  rewrite (proj2 (Z.leb_le _ _)) by lia.
  do 20 (destruct bs as [|? bs]; [simpl in Hge; lia|]). cbn [index lookup list_lookup unwrap_option outcome_bind].
  rewrite !nibble_low, !nibble_high.
  rewrite (Z.land_ones _ 13 ltac:(lia) : Z.land _ 0x1FFF = _).
  rewrite (Z.land_ones _ 3 ltac:(lia) : Z.land _ 0x07 = _), (Z.shiftr_div_pow2 _ 13) by lia.
  unfold header_of. cbn [nth ih_version ih_header_length]. rewrite Z.ltb_antisym.
  destruct (_ =? 4); [|done]. cbn [negb andb]. by destruct (_ <=? _).
Qed.

(** The octets of a header (RFC 791), its options included. *)
Definition encode_header (h : IpHeader) (tos : Z) (options : bytes) : bytes :=
  let flags_and_offset := ih_flags h * 8192 + ih_fragment_offset h in
  [ih_version h * 16 + ih_header_length h / 4; tos;
   ih_total_length h / 256; ih_total_length h mod 256;
   ih_identification h / 256; ih_identification h mod 256;
   flags_and_offset / 256; flags_and_offset mod 256;
   ih_ttl h; ih_protocol h;
   ih_checksum h / 256; ih_checksum h mod 256;
   ip_a (ih_source_ip h); ip_b (ih_source_ip h); ip_c (ih_source_ip h); ip_d (ih_source_ip h);
   ip_a (ih_destination_ip h); ip_b (ih_destination_ip h); ip_c (ih_destination_ip h);
   ip_d (ih_destination_ip h)] ++ options.

(** Each field in its range, and the length that of the octets. *)
Definition header_ok (h : IpHeader) (options : bytes) : Prop :=
  ih_version h = 4 /\ ih_header_length h = 20 + Z.of_nat (length options) /\
  (4 | ih_header_length h) /\ ih_header_length h < 64 /\
  fits 16 (ih_total_length h) /\ fits 16 (ih_identification h) /\ fits 3 (ih_flags h) /\
  fits 13 (ih_fragment_offset h) /\ fits 16 (ih_checksum h).

(** C39 (roundtrip): a well-formed IPv4 header, with options and followed by any
    payload, is read back field by field. On any bytes at all parsing neither
    panics nor fails; it gives a header exactly when there are twenty octets,
    the version is 4 and the announced length is there, even an announced
    length of less than twenty. *)
Theorem ip_header_roundtrip {E : Type} :
  (forall h tos options payload, header_ok h options ->
    parse_ip_header (E := E) (encode_header h tos options ++ payload) = Returns (Ok (Some h))) /\
  (forall bs, exists r, parse_ip_header (E := E) bs = Returns (Ok r) /\
    (is_Some r <-> 20 <= Z.of_nat (length bs) /\ nth 0 bs 0 / 16 mod 16 = 4 /\
      nth 0 bs 0 mod 16 * 4 <= Z.of_nat (length bs))).
Proof.
  split.
  - intros h tos options payload (Hv & Hl & [q Hq] & Hmax & Ht & Hi & Hf & Ho & Hc).
    assert (Hfo : fits 16 (ih_flags h * 8192 + ih_fragment_offset h)) by (unfold fits in *; lia).
    assert (Hdiv : ih_header_length h / 4 = q) by (rewrite Hq; apply Z.div_mul; lia).
    assert (Hhead : header_of (fun i => nth i (encode_header h tos options ++ payload) 0) = h).
    { unfold header_of, encode_header. cbn [app nth]. rewrite !be16_octets by done. rewrite Hv, Hdiv.
      rewrite (Z.add_comm (ih_flags h * 8192)), !Z.div_add, Z.mod_add by lia. unfold fits in *.
      rewrite (Z.div_small (ih_fragment_offset h)), (Z.mod_small (ih_fragment_offset h)) by lia.
      rewrite (Z.mod_small (0 + ih_flags h)) by lia.
      replace ((4 * 16 + q) / 16 mod 16) with 4 by (rewrite Z.div_add_l, Z.div_small by lia; reflexivity).
      replace ((4 * 16 + q) mod 16 * 4) with (ih_header_length h)
        by (rewrite Z.add_comm, Z.mod_add, Z.mod_small; lia).
      rewrite <-Hv. destruct h as [? ? ? ? ? ? ? ? ? [] []]. simpl. by rewrite Z.add_0_l. }
    rewrite parse_spec. unfold recognised. rewrite Hhead, Hv. unfold encode_header.
    cbn [app length]. rewrite !length_app.
    rewrite !(proj2 (Z.leb_le _ _)) by lia. done.
  - intros bs. rewrite parse_spec. eexists. split; [done|]. unfold recognised, header_of.
    cbn [ih_version ih_header_length]. destruct (_ && _ && _) eqn:E1.
    + rewrite !andb_true_iff, !Z.leb_le, Z.eqb_eq in E1. split; [tauto|by eexists].
    + split; [by intros []|]. intros (H1 & H2 & H3).
      rewrite (proj2 (Z.leb_le _ _) H1), (proj2 (Z.leb_le _ _) H3), H2 in E1. done.
Qed.

(** ** Counting *)

(** The packets a loop gets to see: up to the first error that is not a timeout. *)
Fixpoint seen (results : list (Result Packet PcapError)) : list Packet :=
  match results with
  | [] => []
  | Ok packet :: results => packet :: seen results
  | Err TimeoutExpired :: results => seen results
  | Err (OtherPcapError _) :: _ => []
  end.

(** A time stamp whose microseconds fit an [u64]. *)
Definition sane (packet : Packet) : Prop :=
  0 <= tv_sec packet /\ 0 <= tv_usec packet /\ tv_sec packet * 1000000 + tv_usec packet < 2 ^ 64.

(** The octets read as an IP header. *)
Definition packet_header (packet : Packet) : IpHeader := header_of (fun i => nth i (pkt_data packet) 0).

(** The flow of a packet of which an address is known. *)
Definition flow_of (packet : Packet) : option PacketFlow :=
  if recognised (pkt_data packet) then
    let h := packet_header packet in
    let src := ipv4_to_string (ih_source_ip h) in
    let dst := ipv4_to_string (ih_destination_ip h) in
    if is_known_nf_ip src || is_known_nf_ip dst then
      Some (MkPacketFlow src dst (get_nf_name_by_ip src) (get_nf_name_by_ip dst) (ih_protocol h)
        (Z.of_nat (length (pkt_data packet))) (tv_sec packet * 1000000 + tv_usec packet))
    else None
  else None.

Lemma analyze_sane {E : Type} debug packet :
  sane packet -> analyze_packet (E := E) debug packet = Returns (Ok (flow_of packet)).
Proof.
  intros (H1 & H2 & H3). unfold analyze_packet, flow_of, packet_header. rewrite parse_spec. cbn [outcome_bind].
  destruct (recognised _); [|done]. case_match; [|done].
  rewrite !wrap_small by (unfold fits; lia). unfold u64_checked.
  rewrite !decide_True by (unfold fits; lia). cbn [outcome_bind]. by rewrite decide_True by (unfold fits; lia).
Qed.

Definition with_count (n : Z) (s : loop_state) : loop_state :=
  MkLoopState n (filtered_count s) (flow_stats s) (printed s).

(** A loop whose body leaves the number of packets alone folds it over the flows
    it sees. *)
Lemma capture_loop_spec {E : Type} debug (body : PacketFlow -> loop_state -> loop_state) results s :
  (forall f s n, body f (with_count n s) = with_count n (body f s)) ->
  Forall sane (seen results) -> packet_count s + Z.of_nat (length results) < 2 ^ 31 ->
  capture_loop (E := E) debug body results s =
    Returns (Ok (with_count (packet_count s + Z.of_nat (length (seen results)))
      (foldl (fun s f => body f s) s (omap flow_of (seen results))))).
Proof.
  intros Hbody. revert s. induction results as [|[p|[|c]] results IH]; intros s Hs Hn; cbn [capture_loop seen].
  - simpl. rewrite Z.add_0_r. by destruct s.
  - cbn [seen] in Hs. apply Forall_cons in Hs as [Hp Hs]. cbn [length] in *.
    unfold i32_increment. rewrite (proj2 (Z.ltb_lt _ _)) by lia. cbn [outcome_bind].
    rewrite (analyze_sane debug p Hp). cbn [outcome_bind omap list_omap].
    change (MkLoopState _ _ _ _) with (with_count (packet_count s + 1) s).
    replace (packet_count s + Z.of_nat (S (length (seen results)))) with
      (packet_count s + 1 + Z.of_nat (length (seen results))) by lia.
    assert (Hfold : forall fs s n m, with_count m (foldl (fun s f => body f s) (with_count n s) fs) =
      with_count m (foldl (fun s f => body f s) s fs)).
    { induction fs as [|f fs IHf]; intros s0 n m; simpl; [done|]. by rewrite Hbody, IHf. }
    destruct (flow_of p) as [f|]; cbn [foldl].
    + rewrite Hbody, IH; [|done|simpl; lia]. cbn [packet_count with_count]. by rewrite Hfold.
    + rewrite IH; [|done|simpl; lia]. cbn [packet_count with_count]. by rewrite Hfold.
  - cbn [length] in Hn. apply IH; [done|lia].
  - simpl. rewrite Z.add_0_r. by destruct s.
Qed.

(** *** The statistics *)

Definition count_key (key : string) (flows : list PacketFlow) : nat :=
  length (filter (fun f => flow_key f = key) flows).

Definition sum_stats (m : gmap string Z) : Z := map_fold (fun _ n acc => n + acc) 0 m.

Lemma sum_stats_track m key :
  sum_stats (<[key := default 0 (m !! key) + 1]> m) = sum_stats m + 1.
Proof.
  unfold sum_stats. rewrite <-insert_delete_eq, map_fold_insert_L;
    [|intros; lia|apply lookup_delete_eq].
  destruct (m !! key) as [n|] eqn:E; simpl.
  - rewrite (map_fold_delete_L _ _ key n m); [lia|intros; lia|done].
  - rewrite delete_id by done. lia.
Qed.

Lemma count_key_cons key f flows :
  count_key key (f :: flows) = ((if decide (flow_key f = key) then 1 else 0) + count_key key flows)%nat.
Proof. unfold count_key. rewrite filter_cons. by destruct (decide (flow_key f = key)). Qed.

(** What counting and tracking do to a state, flow by flow. *)
Lemma fold_flows flows s :
  let s' := foldl (fun s f => track_flow f (count_flow f s)) s flows in
  filtered_count s' = filtered_count s + Z.of_nat (length flows) /\
  printed s' = printed s ++ imap (fun i f => print_packet_flow f (filtered_count s + Z.of_nat i + 1)) flows /\
  (forall key, default 0 (flow_stats s' !! key) = default 0 (flow_stats s !! key) + Z.of_nat (count_key key flows)) /\
  (forall key, is_Some (flow_stats s' !! key) <-> is_Some (flow_stats s !! key) \/ count_key key flows <> 0%nat) /\
  sum_stats (flow_stats s') = sum_stats (flow_stats s) + Z.of_nat (length flows).
Proof.
  revert s. induction flows as [|f flows IH]; intros s; cbn [foldl].
  - unfold count_key. simpl. rewrite app_nil_r, !Z.add_0_r. split_and!; try done.
    + intros key. by rewrite Z.add_0_r.
    + intros key. split; [by left|by intros [?|?]].
  - destruct (IH (track_flow f (count_flow f s))) as (H1 & H2 & H3 & H4 & H5). cbn in H1, H2, H3, H4, H5.
    rewrite sum_stats_track in H5. split_and!; [rewrite H1; simpl; lia| | | |rewrite H5; simpl; lia].
    + rewrite H2. cbn [imap]. rewrite Z.add_0_r, <-app_assoc. f_equal. simpl. f_equal. apply imap_ext.
      intros i x _. cbn [compose]. replace (filtered_count s + Z.of_nat (S i) + 1) with
        (filtered_count s + 1 + Z.of_nat i + 1) by lia. done.
    + intros key. rewrite H3, count_key_cons. destruct (decide (flow_key f = key)) as [<-|Hne].
      * rewrite lookup_insert_eq. simpl. lia.
      * rewrite lookup_insert_ne by done. lia.
    + intros key. rewrite H4, count_key_cons. destruct (decide (flow_key f = key)) as [<-|Hne].
      * rewrite lookup_insert_eq. split; [by right|left; by eexists].
      * by rewrite lookup_insert_ne by done.
Qed.

(** *** The table of the busiest flows *)

Definition busier (x y : string * Z) : Prop := y.2 <= x.2.

Lemma insert_flow_perm x l : insert_flow x l ≡ₚ x :: l.
Proof.
  induction l as [|y l IH]; simpl; [done|]. destruct (_ <=? _); [done|]. by rewrite IH, Permutation_swap.
Qed.

Lemma insert_flow_sorted x l : StronglySorted busier l -> StronglySorted busier (insert_flow x l).
Proof.
  induction 1 as [|y l Hs IH Hy]; simpl; [by repeat constructor|].
  destruct (Z.leb_spec (snd y) (snd x)) as [Hle|Hgt].
  - constructor; [by constructor|]. constructor; [done|]. eapply Forall_impl; [exact Hy|].
    unfold busier. intros z Hz. lia.
  - constructor; [done|]. rewrite insert_flow_perm. constructor; [unfold busier; lia|done].
Qed.

Lemma sort_flows_spec l : sort_flows l ≡ₚ l /\ StronglySorted busier (sort_flows l).
Proof.
  induction l as [|x l [IH1 IH2]]; simpl; [by repeat constructor|].
  split; [by rewrite insert_flow_perm, IH1|by apply insert_flow_sorted].
Qed.

(** A frame of the bridge: two MAC addresses and the type come before the
    packet. Those of containers begin with 02:42. *)
Definition ethernet_frame (dst src ethertype packet : bytes) : bytes := dst ++ src ++ ethertype ++ packet.

Lemma frame_unrecognised d dst src ethertype packet :
  d / 16 mod 16 <> 4 -> recognised (ethernet_frame (d :: dst) src ethertype packet) = false.
Proof.
  intros Hd. unfold recognised, header_of, ethernet_frame. cbn [app nth ih_version].
  rewrite (proj2 (Z.eqb_neq _ _) Hd). by rewrite andb_false_r.
Qed.

(** Which packets are filtered. *)
Lemma flow_of_known p :
  is_Some (flow_of p) <-> recognised (pkt_data p) = true /\ exists a, a ∈ known_addresses /\
    (ipv4_to_string (ih_source_ip (packet_header p)) = ipv4_to_string a \/
     ipv4_to_string (ih_destination_ip (packet_header p)) = ipv4_to_string a).
Proof.
  unfold flow_of. destruct (recognised _); [|split; [by intros []|by intros []]].
  destruct (_ || _) eqn:Ek.
  - split; [intros _; split; [done|]|by eexists].
    apply orb_true_iff in Ek as [(a & Ha & Ea)%known_address|(a & Ha & Ea)%known_address];
      exists a; split; [done|by left|done|by right].
  - split; [by intros []|]. intros (_ & a & Ha & Ea). apply orb_false_iff in Ek as [E1 E2].
    destruct Ea as [Ea|Ea]; [rewrite (proj2 (known_address _)) in E1|rewrite (proj2 (known_address _)) in E2];
      try done; by exists a.
Qed.

(** C40 (functional): the report on the captured packets, up to the first error
    other than a timeout, on a capture of fewer than 2^31 results with sane time
    stamps. All of them are counted; the filtered ones are those
    with an IPv4 header between two addresses of which at least one is a network
    function's (10.0.0.2 to 30) or a gNB's (10.0.1.0 to 2); each is printed once,
    numbered from 1; the statistics have for each pair of names the number of its
    flows and add up to the filtered packets; and the flows listed are the ten
    busiest in order. But a frame of the bridge begins with a MAC address, which
    is read as the IP header: when no address begins with the digit 4, as those
    of containers do not, nothing is ever counted. *)
Theorem packet_statistics {E : Type} debug (iter : gmap string Z -> list (string * Z)) results :
  (forall m, iter m ≡ₚ map_to_list m) ->
  Forall sane (seen results) -> Z.of_nat (length results) < 2 ^ 31 ->
  let flows := omap flow_of (seen results) in
  exists s sorted,
    process_filtered_packets (E := E) debug iter results = Returns (Ok (s, take 10 sorted)) /\
    packet_count s = Z.of_nat (length (seen results)) /\
    filtered_count s = Z.of_nat (length flows) /\
    printed s = imap (fun i f => print_packet_flow f (Z.of_nat i + 1)) flows /\
    (forall key, default 0 (flow_stats s !! key) = Z.of_nat (count_key key flows)) /\
    sum_stats (flow_stats s) = filtered_count s /\
    sorted ≡ₚ map_to_list (flow_stats s) /\ StronglySorted busier sorted /\
    Forall (fun f => exists a, a ∈ known_addresses /\
      (pf_source_ip f = ipv4_to_string a \/ pf_destination_ip f = ipv4_to_string a)) flows /\
    Forall (fun p => is_Some (flow_of p) <-> recognised (pkt_data p) = true /\ exists a, a ∈ known_addresses /\
      (ipv4_to_string (ih_source_ip (packet_header p)) = ipv4_to_string a \/
       ipv4_to_string (ih_destination_ip (packet_header p)) = ipv4_to_string a)) (seen results) /\
    (Forall (fun p => exists d dst src ethertype packet, d / 16 mod 16 <> 4 /\
        pkt_data p = ethernet_frame (d :: dst) src ethertype packet) (seen results) -> filtered_count s = 0).
Proof.
  intros Hiter Hsane Hlen flows. unfold process_filtered_packets.
  rewrite (capture_loop_spec debug _ results loop_start); [|done|done|simpl; lia]. cbn [outcome_bind].
  fold flows. destruct (fold_flows flows loop_start) as (H1 & H2 & H3 & H4 & H5).
  set (s := foldl _ _ _) in *. eexists _, (sort_flows (iter (flow_stats s))). split; [done|].
  destruct (sort_flows_spec (iter (flow_stats s))) as [Hp Hs].
  cbn [with_count packet_count filtered_count flow_stats printed]. split_and!.
  - done.
  - done.
  - done.
  - intros key. by rewrite H3.
  - by rewrite H5, H1.
  - by rewrite Hp, Hiter.
  - done.
  - apply Forall_forall. intros f Hf. apply list_elem_of_omap in Hf as (p & _ & Hp').
    unfold flow_of in Hp'. destruct (recognised _); [|done].
    destruct (_ || _) eqn:Ek; [|done]. simplify_eq/=.
    apply orb_true_iff in Ek as [(a & Ha & Ea)%known_address|(a & Ha & Ea)%known_address];
      exists a; split; [done|by left|done|by right].
  - apply Forall_true. intros p. apply flow_of_known.
  - intros Hall. rewrite H1. replace flows with ([] : list PacketFlow); [done|]. unfold flows.
    clear -Hall. induction Hall as [|p l (d & dst & src & ty & packet & Hd & Hp) _ IH]; [done|].
    cbn [omap list_omap]. unfold flow_of at 1. rewrite Hp, (frame_unrecognised d dst src ty packet Hd). exact IH.
Qed.

(** ** Waiting for the bridge *)

(** The first of thirty looks that finds a bridge, or cannot list the devices,
    decides. *)
Lemma start_packet_capture_outcomes {Inactive Active E : Type} `{PC : !Pcap Inactive Active E} :
  ((forall i, (i < max_attempts)%nat -> try_bridge (Active := Active) i = None) ->
    start_packet_capture (Active := Active) = Err (BridgeNotFound max_attempts)) /\
  (forall i r, (i < max_attempts)%nat -> (forall j, (j < i)%nat -> try_bridge (Active := Active) j = None) ->
    try_bridge i = Some r -> start_packet_capture (Active := Active) = r).
Proof.
  unfold start_packet_capture. split.
  - intros Hn. enough (forall n k, (k + n <= max_attempts)%nat ->
      start_packet_capture_from (Active := Active) n k = Err (BridgeNotFound max_attempts)) as H by by apply H.
    induction n as [|n IH]; intros k Hk; cbn [start_packet_capture_from]; [done|].
    rewrite Hn by lia. apply IH. lia.
  - intros i r Hi Hn Hr. enough (forall n k, (k <= i < k + n)%nat ->
      start_packet_capture_from (Active := Active) n k = r) as H by (apply H; lia).
    induction n as [|n IH]; intros k Hk; cbn [start_packet_capture_from]; [lia|].
    destruct (decide (k = i)) as [->|Hne]; [by rewrite Hr|]. rewrite Hn by lia. apply IH. lia.
Qed.

(** ** A captured packet *)

(** 44 octets from the AMF to the SMF. *)
Definition amf_to_smf : IpHeader :=
  MkIpHeader 4 20 44 1 2 0 64 132 0 (MkIpv4 10 0 0 2) (MkIpv4 10 0 0 3).

Definition raw_packet : Packet := MkPacket (encode_header amf_to_smf 0 [] ++ replicate 24 0) 1700000000 250000.

(** The same on the bridge. *)
Definition bridge_packet : Packet :=
  MkPacket (ethernet_frame (2 :: [66; 10; 0; 0; 3]) [2; 66; 10; 0; 0; 2] [8; 0] (pkt_data raw_packet))
    1700000000 250000.

Lemma ip_header_roundtrip_witness :
  parse_ip_header (E := Empty_set) (pkt_data raw_packet) = Returns (Ok (Some amf_to_smf)).
Proof.
  destruct (ip_header_roundtrip (E := Empty_set)) as [H _]. apply (H amf_to_smf 0 []).
  unfold header_ok, fits, amf_to_smf. simpl. split_and!; try lia. by exists 5.
Defined.

Lemma packet_statistics_witness :
  (exists s top, process_filtered_packets (E := Empty_set) true map_to_list [Ok raw_packet; Err TimeoutExpired] =
    Returns (Ok (s, top)) /\ filtered_count s = 1) /\
  (exists s top, process_filtered_packets (E := Empty_set) true map_to_list [Ok bridge_packet] =
    Returns (Ok (s, top)) /\ filtered_count s = 0).
Proof.
  split.
  - destruct (packet_statistics (E := Empty_set) true map_to_list [Ok raw_packet; Err TimeoutExpired])
      as (s & sorted & H1 & _ & H2 & _).
    + reflexivity.
    + apply Forall_singleton. unfold sane. simpl. lia.
    + reflexivity.
    + exists s, (take 10 sorted). split; [exact H1|]. rewrite H2. vm_compute. reflexivity.
  - destruct (packet_statistics (E := Empty_set) true map_to_list [Ok bridge_packet])
      as (s & sorted & H1 & _ & _ & _ & _ & _ & _ & _ & _ & H2).
    + reflexivity.
    + apply Forall_singleton. unfold sane. simpl. lia.
    + reflexivity.
    + exists s, (take 10 sorted). split; [exact H1|]. apply H2. apply Forall_singleton.
      exists 2, [66; 10; 0; 0; 3], [2; 66; 10; 0; 0; 2], [8; 0], (pkt_data raw_packet).
      split; [vm_compute; discriminate|reflexivity].
Defined.
